(* ===== verification/_CoqProject ===== *)
-Q . S2P
Prelude.v
Ext.v
DomainFronting.v
Stats.v
State.v
Session.v
Server.v
ServerSteps.v
ServerInv.v
StreamInv.v
LogInv.v
WriteInv.v
BodyInv.v
ConfigInv.v
PendingInv.v
Invariant.v
Routing.v
Delivery.v
Reading.v
TableInv.v
Progress.v
Scenario.v
ServerTests.v
DataProps.v
SessionProps.v
ServerProps.v
Isolation.v
Client.v
ClientProps.v
Adaptors.v
Connection.v
TlsStream.v
Bins.v
Tunnel.v
TunnelInv.v
TunnelUp.v
TunnelDown.v
TunnelProps.v
User.v
UserInv.v
Pipe.v
PipeProps.v
Fetch.v
Moves.v
Dialog.v
Drain.v
Stdio.v
Crowd.v
ServerMain.v
ClientTests.v
