(* ===== verification/Prelude.v ===== *)
(** Verification of [domain-fronting]: a client and a server that carry a byte stream in
    HTTP requests.

    * The program

    The client ([src/src/client.rs]) connects to a front, by TLS or plainly, and turns an
    [AsyncRead]/[AsyncWrite] byte stream into HTTP requests that name a session in a header:
    a [POST] or [PATCH] for each chunk written, and one [GET] after the other whose
    response bodies are the data read. The server ([src/src/server.rs]) keeps one actor per
    session, which holds a connection to the upstream: [POST] bodies are written to it, a
    [GET] is answered with a stream that reads from it. Sessions end by an idle timer, a
    total timer, a failed connect or a failed write. [src/src/lib.rs] and [dns.rs] hold the
    fronting configuration, [tls_stream.rs] the TLS connect, [src/src/bin] three programs.

    * The files

    Foundations.
    - [Prelude]: Rust's [Result] and [Poll], 64-bit words, labelled transition systems
      (executable step functions, [run], [reaches], induction along schedules), maps, tactics.
    - [Ext]: the third-party crates as typeclasses with their laws, and an instance of each
      ([Concrete]) at which the witnesses evaluate.

    The server, [src/src/server.rs].
    - [Stats]: [AtomicStats] and [Stats].
    - [State]: the structs, and [Sys], the state of a running server: one map per kind of
      task (actors, timer tasks, response streams, requests), each entry saying at which
      await the task is suspended.
    - [Session]: the actor ([on_start], the three message handlers, [reset_idle_timeout],
      [actor_timeout], [Drop]) and the response stream that [SessionRead] builds.
    - [Server]: [handle_request] and what it calls, and [step], the whole server as an
      executable transition system.
    - [ServerSteps]: the same steps as an inductive relation, [trans]; every invariant is
      proved by cases on it.
    - [ServerInv], [StreamInv], [LogInv], [WriteInv], [BodyInv], [ConfigInv], [PendingInv],
      [TableInv]: the invariants, one topic each; [Invariant]: their conjunction [sys_wf],
      which holds in every reachable state. [Routing]: which session data belongs to.
      [Delivery]: how much of a request's body has been written. [Reading]: what a step
      does to the response streams. [Progress]: a session's actor gives its requests what they
      wait for.
    - [DataProps], [SessionProps], [ServerProps]: the theorems, with concrete runs from
      [Scenario]. [Isolation]: the steps of other sessions leave a session untouched.
      [ServerTests]: the tests of [server.rs], run against the model.

    The client.
    - [DomainFronting]: [lib.rs] and [dns.rs]. [Client]: the requests and the two pumps of
      [client.rs]; [ClientProps]: their theorems. [Connection]: [ProxyConnection] as a byte
      stream. [Adaptors]: the two channels below it, as interfaces with their laws.
      [TlsStream]: [tls_stream.rs] and the connect functions.

    The programs, [src/src/bin].
    - [Bins]: the two client programs up to their connection, and the parts of the server
      program: TLS, configuration, a round of the accept loop. [ServerMain]: the server program
      as a whole, from its start-up to the running system of accept loop, connection tasks and
      server ([prog_step]); [serve_connection] and the [TcpConnector] are steps of it. [Fetch] and
      [Stdio]: [domain_fronting] and [domain_fronting_stdio] as users of their connection.

    Both together.
    - [Tunnel]: the client's task, the server and an HTTP transport between them, with
      other clients. [TunnelInv], [TunnelUp], [TunnelDown]: its invariants; [TunnelProps]: the
      theorems about what the task sends and receives.
    - [User]: the user of a [ProxyConnection] on top of [Tunnel], joined to the task by the
      channels; [UserInv]: what the channels hold. [Pipe]: the abstract specification, a pipe
      in each direction, and what of it a state is; [PipeProps]: the refinement and the
      theorems about what the user writes and reads. [Moves]: which steps can be made, and where
      they lead; from these, [Dialog]: schedules that carry any conversation, and [Drain]:
      schedules that empty the pipe, from any state. [Crowd]: several
      clients of one server. [ClientTests]: the tests of [client.rs], run against the model.

    * Concurrency

    The server and the client are concurrent programs. A step takes a suspended task from
    one await point to the next, as the code between them does; a label says which task
    runs and what the operation it awaited returned (data, errors, end of file, a timer, a
    full mailbox). The labels thus carry all nondeterminism: of the scheduler, the network,
    the upstream, the clients and the clock. A theorem about every schedule holds for every
    one of these behaviours. Messages are taken out of a mailbox in any order, as [kameo]
    only promises their order per sender; whether it has room is part of the label of the one
    step that depends on it, the [tell] of a response stream (see [State.enqueue]). An actor that
    has been killed handles nothing any more. That an actor counts as stopped and that its
    [Session] is dropped are two steps, since other tasks may run in between.

    Fields marked ghost record history for the theorems. No operation reads them.

    * What is proved

    - Data: what is acknowledged has been written, in order and once; a connection receives
      a prefix of what was sent to it; response bodies are what was read; the counters
      account for all bytes modulo 2^64 ([DataProps]).
    - From end to end, under every schedule: the connections of a client's session are given
      its acknowledged chunks and then at most a part of the next; what it receives from each
      of them is a prefix of what was read there, and nothing is missing while the connection
      and the response last; its own reads are never refused ([TunnelProps]).
    - The user: the whole system refines a pipe in each direction ([pipe_refinement]); what the
      upstream was given is a prefix of what the user wrote, what he reads is a prefix of what
      the responses brought, and the rest is still on its way ([PipeProps]). And bytes do
      move: every conversation can be carried, message by message ([Dialog]), and from every
      state in which pumps, session and request are in order, whatever is on its way and
      wherever it is, the pipe can be emptied ([Drain]).
    - Several clients: each has its pipe to itself, and none can hinder another ([Crowd]).
    - Isolation: data stays within the session that the request names ([DataProps]), and what
      other sessions do leaves a session, its timers, streams and requests as they are
      ([Isolation]).
    - Sessions: timers never kill early, and always in time; one reader at a time; what [Drop]
      cleans up ([SessionProps]).
    - Requests: each is admitted as an abstract specification says; one that waits for its
      session gets what it waits for by steps of its own and of the session's actor alone; and
      the responses have the documented forms ([ServerProps]).
    - Client: requests carry the session, chunks and frames keep their order
      ([ClientProps]); each operation of the byte stream follows the task, through the whole life
      of a connection ([Connection]); only the front is visible while connecting ([TlsStream]).
    - The programs: the server program fails to start exactly where the code says, in this order;
      requests reach its server only through connections that it serves, after their TLS handshake
      where TLS is on, and it connects to its upstream only; its reports account for all
      connections and bytes ([ServerMain]). The client programs configure ALPN
      correctly ([Bins]); [domain_fronting_stdio] relays prefixes ([Stdio]).
    - The tests of both files pass; these are runs on the tests' inputs, which check the model
      against the authors' expectations ([ServerTests], [ClientTests]).
    - Flaws: the end of the upstream's data never reaches the user ([no_clean_eof]), so
      [domain_fronting] does not get to print a response, and [domain_fronting_stdio] does not
      end, while their connection is in order ([Fetch], [Stdio]); and as concrete runs
      [drop_race], [unreachable_reached],
      [failed_write_acknowledged], [silent_reconnect], [empty_write_fatal].

    * Assumptions

    The laws of [Ext]: UUIDs print and parse back, header values that were accepted can be
    read, a mutex has one guard, [try_join] returns the first error. In [Tunnel]: a request
    arrives at most once, bodies arrive in order and in pieces of any size, a body that is
    cut short is an error and not an end, a response arrives only if the server gave it,
    and other clients do not use the identifier of the session (which [Crowd] discharges for
    clients with different identifiers). In [Adaptors]: a channel delivers in order, a write
    puts the whole buffer into it or nothing, a read returns the next bytes, and no bytes only
    for an empty buffer or at the end. In [Stdio]: what tokio documents of [copy_bidirectional];
    a loop that does it is there too. In [ServerMain]: nothing; the parser of
    [std::net] for IPv4 socket addresses is modelled, the one for IPv6, [TcpListener::bind] and
    [TcpStream::into_split] are arbitrary.

    * Bounds

    Counters and body lengths wrap at 2^64. A read of the upstream returns at most 2048 bytes, the
    capacity of its buffer. Time is in nanoseconds and not bounded. Only
    [ServerTests] and [ClientTests] use fuel, for schedulers that run until every task waits:
    20 and 100 steps between two events are enough, and the runs are [None] if they were not.

    * Not modelled

    Code that is not under [src/]: socket and TLS input and output, HTTP framing (hyper),
    logging, argument parsing (clap), and the other crates, which are interfaces. The [Debug]
    instance of [Server], which formats the configuration and the counters and changes nothing.
    What [domain_fronting] prints, and how errors are formatted.

    * What is left

    [Dialog] and [Drain] give a schedule; that every fair schedule carries what they carry is not
    shown, since the runtime's scheduler is not source and promises no fairness that the theorems
    could start from. *)
From Stdlib Require Export ZArith Lia.
From stdpp Require Export base option gmap strings numbers list.

(** * Rust data the whole development uses *)

Abbreviation bytes := (list Byte.byte).

#[export] Instance byte_eq_decision : EqDecision Byte.byte := Byte.byte_eq_dec.

Declare Scope rust_scope.
Delimit Scope rust_scope with rust.
Open Scope rust_scope.

(** [Result<A, E>] *)
Inductive result (E A : Type) : Type :=
| Ok (a : A)
| Err (e : E).
Arguments Ok {E A} a.
Arguments Err {E A} e.

(** [Poll<A>] *)
Inductive Poll (A : Type) : Type :=
| Pending
| Ready (a : A).
Arguments Pending {A}.
Arguments Ready {A} a.

(** [r?] : propagate the error of [r], otherwise bind its value. *)
Definition result_bind {E A B} (r : result E A) (k : A → result E B) : result E B :=
  match r with Ok a => k a | Err e => Err e end.

(** [Result::map_err] *)
Definition map_err {E F A} (f : E → F) (r : result E A) : result F A :=
  match r with Ok a => Ok a | Err e => Err (f e) end.

(** [Option::ok_or] *)
Definition ok_or {E A} (e : E) (o : option A) : result E A :=
  match o with Some a => Ok a | None => Err e end.

Notation "'let?' x ':=' r 'in' k" := (result_bind r (λ x, k))
  (at level 10, x name, r at level 100, k at level 200, only parsing) : rust_scope.

(** [std::io::Error]: its kind and its message. *)
Inductive ErrorKind : Type := InvalidInput | OtherKind | ConnectionRefused.
Record io_error : Type := mkIoError { io_kind : ErrorKind; io_msg : string }.

#[export] Instance ErrorKind_eq_dec : EqDecision ErrorKind.
Proof. solve_decision. Defined.
#[export] Instance io_error_eq_dec : EqDecision io_error.
Proof. solve_decision. Defined.

(** [std::net::IpAddr] and [std::net::SocketAddr]; the address bits are kept as integers. *)
Inductive IpAddr : Type := V4 (bits : N) | V6 (bits : N).
Record SocketAddr : Type := mkSocketAddr { sa_ip : IpAddr; sa_port : Z }.

#[export] Instance IpAddr_eq_dec : EqDecision IpAddr.
Proof. solve_decision. Defined.
#[export] Instance SocketAddr_eq_dec : EqDecision SocketAddr.
Proof. solve_decision. Defined.

(** * Machine words *)

(** Arithmetic modulo 2^64: [AtomicU64::fetch_add], and [usize] addition in a release build. *)
Definition u64_modulus : Z := 2 ^ 64.
Definition wrap64 (z : Z) : Z := z `mod` u64_modulus.
Definition add64 (a b : Z) : Z := wrap64 (a + b).

(** [bytes.len() as u64] *)
Definition blen (b : bytes) : Z := Z.of_nat (length b).
(** Total length of a list of chunks. *)
Definition total_len (l : list bytes) : Z := blen (concat l).

Lemma u64_modulus_pos : (0 < u64_modulus)%Z.
Proof. reflexivity. Qed.

Lemma wrap64_range z : (0 ≤ wrap64 z < u64_modulus)%Z.
Proof. apply Z.mod_pos_bound, u64_modulus_pos. Qed.

Lemma wrap64_add_l a b : wrap64 (wrap64 a + b) = wrap64 (a + b).
Proof. apply Zplus_mod_idemp_l. Qed.

Lemma wrap64_add_r a b : wrap64 (a + wrap64 b) = wrap64 (a + b).
Proof. apply Zplus_mod_idemp_r. Qed.

Lemma wrap64_idemp a : wrap64 (wrap64 a) = wrap64 a.
Proof. apply Zmod_mod. Qed.

Lemma wrap64_congr a b c d e :
  wrap64 a = wrap64 b → (c = a + e)%Z → (d = b + e)%Z → wrap64 c = wrap64 d.
Proof. intros Hab -> ->. by rewrite <- wrap64_add_l, Hab, wrap64_add_l. Qed.

Lemma blen_nonneg b : (0 ≤ blen b)%Z.
Proof. unfold blen. lia. Qed.

Lemma blen_app a b : blen (a ++ b) = (blen a + blen b)%Z.
Proof. unfold blen. rewrite length_app. lia. Qed.

Lemma total_len_snoc l c : total_len (l ++ [c]) = (total_len l + blen c)%Z.
Proof. unfold total_len. rewrite concat_app, blen_app. simpl. by rewrite app_nil_r. Qed.

Lemma total_len_nonneg l : (0 ≤ total_len l)%Z.
Proof. apply blen_nonneg. Qed.

Create HintDb words discriminated.
Create Rewrite HintDb words.
#[export] Hint Rewrite wrap64_add_l wrap64_add_r wrap64_idemp : words.
#[export] Hint Resolve u64_modulus_pos blen_nonneg total_len_nonneg wrap64_range : words.

(** * Lists *)

Lemma submseteq_NoDup {A} (l k : list A) : l ⊆+ k → NoDup k → NoDup l.
Proof. intros [k' ->]%submseteq_Permutation. rewrite NoDup_app. by intros []. Qed.

(** * Guards *)

Lemma pair_fst {A B} (p : A * B) a : p.1 = a → p = (a, p.2).
Proof. destruct p. by intros <-. Qed.

Lemma guard_pass {A} (P : Prop) `{!Decision P} (k : option A) : P → (guard P;; k) = k.
Proof. intros HP. by rewrite option_guard_True. Qed.

(** * Finite maps *)

Lemma alter_insert_Some {A} (f : A → A) (m : gmap nat A) i x :
  m !! i = Some x → alter f i m = <[i := f x]> m.
Proof.
  intros Hi. apply map_eq. intros j. rewrite lookup_insert.
  destruct (decide (i = j)) as [<-|Hne]; [by rewrite lookup_alter_eq, Hi | by rewrite lookup_alter_ne].
Qed.

(** Sum of [f] over the values of a map. *)
Definition msum {A} (f : A → Z) (m : gmap nat A) : Z :=
  map_fold (λ _ x acc, (f x + acc)%Z) 0%Z m.

Lemma msum_insert_new {A} (f : A → Z) m i x :
  m !! i = None → msum f (<[i:=x]> m) = (f x + msum f m)%Z.
Proof.
  intros Hi. unfold msum. rewrite map_fold_insert_L; [done | | done].
  intros. lia.
Qed.

Lemma msum_insert_old {A} (f : A → Z) m i x y :
  m !! i = Some y → msum f (<[i:=x]> m) = (msum f m - f y + f x)%Z.
Proof.
  intros Hi. rewrite <- insert_delete_eq.
  rewrite msum_insert_new by apply lookup_delete_eq.
  replace (msum f m) with (msum f (<[i:=y]> (delete i m))).
  - rewrite msum_insert_new by apply lookup_delete_eq. lia.
  - by rewrite insert_delete_eq, insert_id.
Qed.

(** * Labelled transition systems

    The concurrent parts of the program are executable step functions
    [step : S → L → option S]; a schedule is a list of labels. *)
Section Lts.
Context {S L : Type} (step : S → L → option S).

Fixpoint run (s : S) (ls : list L) : option S :=
  match ls with
  | [] => Some s
  | l :: ls' => step s l ≫= λ s', run s' ls'
  end.

(** [s'] can be reached from [s] under some schedule. *)
Definition reaches (s s' : S) : Prop := ∃ ls, run s ls = Some s'.

Lemma run_app s ls1 ls2 : run s (ls1 ++ ls2) = run s ls1 ≫= λ s', run s' ls2.
Proof.
  revert s. induction ls1 as [|l ls1 IH]; intros s; [done|].
  simpl. destruct (step s l); simpl; auto.
Qed.

Lemma run_cons s l s1 ls r : step s l = Some s1 → run s1 ls = r → run s (l :: ls) = r.
Proof. intros Hs Hr. simpl. by rewrite Hs. Qed.

Lemma run_snoc s ls l s' s'' :
  run s ls = Some s' → step s' l = Some s'' → run s (ls ++ [l]) = Some s''.
Proof. intros H1 H2. rewrite run_app, H1. simpl. by rewrite H2. Qed.

(** For closed schedules: whether one can be run, and where it leads. *)
Definition finishes (s : S) (ls : list L) : bool :=
  match run s ls with Some _ => true | None => false end.
Definition final (s : S) (ls : list L) : S := default s (run s ls).

Lemma run_final s ls : finishes s ls = true → run s ls = Some (final s ls).
Proof. unfold finishes, final. by destruct (run s ls). Qed.

Lemma final_app s ls ks : finishes s (ls ++ ks) = true → run (final s ls) ks = Some (final s (ls ++ ks)).
Proof. unfold finishes, final. rewrite run_app. destruct (run s ls) as [s1|]; simpl; [|done]. by destruct (run s1 ks). Qed.

Lemma final_step s ls l : finishes s (ls ++ [l]) = true → step (final s ls) l = Some (final s (ls ++ [l])).
Proof. intros Hf%final_app. simpl in Hf. by destruct (step _ l). Qed.

Lemma reaches_refl s : reaches s s.
Proof. by exists []. Qed.

Lemma reaches_trans s1 s2 s3 : reaches s1 s2 → reaches s2 s3 → reaches s1 s3.
Proof. intros [l1 H1] [l2 H2]. exists (l1 ++ l2). by rewrite run_app, H1. Qed.

Lemma reaches_step s l s' : step s l = Some s' → reaches s s'.
Proof. intros H. exists [l]. simpl. by rewrite H. Qed.

(** Rule induction: what every step preserves holds along every schedule. *)
Lemma run_invariant (P : S → Prop) :
  (∀ s l s', P s → step s l = Some s' → P s') →
  ∀ ls s s', P s → run s ls = Some s' → P s'.
Proof.
  intros Hstep ls. induction ls as [|l ls IH]; intros s s' HP Hrun; simpl in Hrun.
  - by simplify_eq.
  - destruct (step s l) as [s1|] eqn:E; [|done]. simpl in Hrun. eauto.
Qed.

Lemma reaches_invariant (P : S → Prop) s s' :
  (∀ s l s', P s → step s l = Some s' → P s') → P s → reaches s s' → P s'.
Proof. intros Hstep HP [ls Hls]. eapply run_invariant; eauto. Qed.

(** Induction on a schedule from the right, keeping the invariant at hand. *)
Lemma run_ind_r (P : list L → S → Prop) s0 :
  P [] s0 →
  (∀ ls s l s', run s0 ls = Some s → P ls s → step s l = Some s' → P (ls ++ [l]) s') →
  ∀ ls s, run s0 ls = Some s → P ls s.
Proof.
  intros H0 HS ls. induction ls as [|l ls IH] using rev_ind; intros s Hrun.
  - by simplify_eq/=.
  - rewrite run_app in Hrun. destruct (run s0 ls) as [s1|] eqn:E; [|done].
    simpl in Hrun. destruct (step s1 l) eqn:E2; simplify_eq/=. eauto.
Qed.
End Lts.

(** * Proof automation *)

(** Close an equation between closed terms by evaluating both sides. *)
Ltac by_vm := match goal with |- @eq ?T _ ?r => vm_cast_no_check (@eq_refl T r) end.

(** A value of which only a part is evaluated. *)
Lemma found {A} (o : option A) (f : A → bool) :
  match o with Some x => f x | None => false end = true → ∃ x, o = Some x ∧ f x = true.
Proof. destruct o; [by eauto|done]. Qed.

(** Go through the binds and guards of a definition that returned. *)
Ltac unbind H :=
  repeat lazymatch type of H with
  | mbind _ _ = Some _ =>
      let x := fresh "x" in let Hx := fresh "Hx" in apply bind_Some in H as (x & Hx & H)
  end.
