(* ===== verification/Ext.v ===== *)
(** Interfaces to the crates the program calls, and the HTTP messages it exchanges.

    The crates [uuid], [http], [hyper] and [tokio] are not part of the
    repository: what the source uses of them is a typeclass here, the documented
    behaviour its correctness rests on is a class of laws, and every definition
    of the development takes them as arguments. [Module Concrete] at the end
    implements each interface and proves its laws, so the laws can hold and the
    executable definitions can be evaluated. *)
From S2P Require Import Prelude.
From Stdlib Require Import DecimalString DecimalPos DecimalN Ascii.

(** * [uuid] *)

(** Session identifiers: [Uuid::from_str] and [Uuid::to_string]. *)
Class UuidLib := {
  Uuid : Type;
  Uuid_eq_dec :: EqDecision Uuid;
  Uuid_countable :: Countable Uuid;
  uuid_from_str : string → option Uuid;
  uuid_to_string : Uuid → string;
}.

(** A printed UUID parses back to itself. *)
Class UuidLaws `{UuidLib} : Prop := {
  uuid_parse_print u : uuid_from_str (uuid_to_string u) = Some u;
}.

(** * [http] and [hyper] *)

(** Header names and values are validated strings; names compare without regard
    to case, which [header_name_try_from] accounts for by normalising. *)
Class HttpLib := {
  HttpErr : Type;                       (* http::Error *)
  HyperErr : Type;                      (* hyper::Error *)
  HeaderName : Type;
  HeaderName_eq_dec :: EqDecision HeaderName;
  header_name_try_from : string → result HttpErr HeaderName;
  HOST : HeaderName;
  CONTENT_TYPE : HeaderName;
  ACCEPT : HeaderName;
  CACHE_CONTROL : HeaderName;
  HeaderValue : Type;
  header_value_try_from : string → result HttpErr HeaderValue;
  header_to_str : HeaderValue → option string;
  Scheme : Type;
  Scheme_eq_dec :: EqDecision Scheme;
  Scheme_HTTP : Scheme;
  Uri : Type;
  uri_try_from : string → result HttpErr Uri;
  uri_scheme : Uri → option Scheme;
  uri_host : Uri → option string;
  uri_port_u16 : Uri → option Z;
}.

(** A value made from a string reads back as that string. *)
Class HttpLaws `{HttpLib} : Prop := {
  header_value_to_str s v : header_value_try_from s = Ok v → header_to_str v = Some s;
}.

(** A hyphenated UUID contains only characters a header value may hold. *)
Class UuidHeaderLaws `{UuidLib, HttpLib} : Prop := {
  uuid_is_header_value u : ∃ v, header_value_try_from (uuid_to_string u) = Ok v;
}.

(** * [tokio::sync::Mutex] as the session uses it *)

(** Only [Mutex::new], [try_lock_owned] and dropping the guard are used. *)
Class TryMutex := {
  mutex : Type;
  mutex_new : mutex;
  try_lock_owned : mutex → option mutex;
  drop_guard : mutex → mutex;
  mutex_locked : mutex → bool;
}.

Class TryMutexLaws `{TryMutex} : Prop := {
  mutex_new_free : mutex_locked mutex_new = false;
  try_lock_held m : mutex_locked m = true → try_lock_owned m = None;
  try_lock_free m : mutex_locked m = false →
    ∃ m', try_lock_owned m = Some m' ∧ mutex_locked m' = true;
  drop_guard_frees m : mutex_locked (drop_guard m) = false;
}.

(** * HTTP messages *)

(** [http::Method]; every method but the three the protocol uses is [OTHER]. *)
Inductive HttpMethod : Type := GET | POST | PATCH | OTHER (name : string).

#[export] Instance HttpMethod_eq_dec : EqDecision HttpMethod.
Proof. solve_decision. Defined.

(** [http::StatusCode] and the codes the program names. *)
Abbreviation StatusCode := Z.
Definition OK_200 : StatusCode := 200.
Definition NO_CONTENT : StatusCode := 204.
Definition BAD_REQUEST : StatusCode := 400.
Definition TOO_MANY_REQUESTS : StatusCode := 429.

(** [StatusCode::is_success]: the 2xx range. *)
Definition is_success (c : StatusCode) : bool := (200 <=? c)%Z && (c <? 300)%Z.

Section Messages.
Context `{HttpLib}.

Abbreviation HeaderMap := (list (HeaderName * HeaderValue)).

(** [HeaderMap::get]: the first value under the name. *)
Fixpoint header_find (n : HeaderName) (h : HeaderMap) : option HeaderValue :=
  match h with
  | [] => None
  | (n', v) :: h' => if decide (n = n') then Some v else header_find n h'
  end.

(** [HeaderMap::get] with a string key: a string that is no header name finds nothing. *)
Definition header_get (k : string) (h : HeaderMap) : option HeaderValue :=
  match header_name_try_from k with
  | Ok n => header_find n h
  | Err _ => None
  end.

(** The head of a request; its body is passed separately. *)
Record RequestHead : Type := mkHead {
  head_method : HttpMethod;
  head_uri : Uri;
  head_headers : HeaderMap;
}.

(** A request that has been built: its head and its whole body. *)
Record Request : Type := mkRequest { req_head : RequestHead; req_body : bytes }.

(** [http::request::Builder]: the first error a part causes is kept, and returned
    by [body]. *)
Abbreviation Builder := (result HttpErr RequestHead).

Definition builder (method : HttpMethod) (uri : string) : Builder :=
  let? uri := uri_try_from uri in Ok (mkHead method uri []).

Definition header (name : result HttpErr HeaderName) (value : string) (b : Builder) : Builder :=
  let? head := b in
  let? name := name in
  let? value := header_value_try_from value in
  Ok (mkHead (head_method head) (head_uri head) (head_headers head ++ [(name, value)])).

Definition build (body : bytes) (b : Builder) : result HttpErr Request :=
  let? head := b in Ok (mkRequest head body).
End Messages.

(** * [futures::future::try_join] *)

(** The result of polling [try_join] when its two futures are as given. *)
Class FuturesLib := {
  try_join {E A B} : Poll (result E A) → Poll (result E B) → Poll (result E (A * B));
}.

(** It waits for both results, unless one of them is an error. *)
Class FuturesLaws `{FuturesLib} : Prop := {
  try_join_ok {E A B} (a : A) (b : B) :
    try_join (E := E) (Ready (Ok a)) (Ready (Ok b)) = Ready (Ok (a, b));
  try_join_err_l {E A B} (e : E) (y : Poll (result E B)) :
    try_join (A := A) (Ready (Err e)) y = Ready (Err e);
  try_join_err_r {E A B} (e : E) (x : Poll (result E A)) :
    (∀ e', x ≠ Ready (Err e')) → try_join (B := B) x (Ready (Err e)) = Ready (Err e);
  try_join_wait_l {E A B} (y : Poll (result E B)) :
    (∀ e, y ≠ Ready (Err e)) → try_join (A := A) Pending y = Pending;
  try_join_wait_r {E A B} (a : A) : try_join (E := E) (B := B) (Ready (Ok a)) Pending = Pending;
}.

(** * Implementations of the interfaces *)

Module Concrete.
(** A mutex is the flag saying whether its guard is out. *)
#[export] Instance bool_mutex : TryMutex := {|
  mutex := bool;
  mutex_new := false;
  try_lock_owned m := if m then None else Some true;
  drop_guard _ := false;
  mutex_locked m := m;
|}.

#[export] Instance bool_mutex_laws : TryMutexLaws.
Proof.
  split; simpl; try done.
  - intros m ->. done.
  - intros m ->. by exists true.
Qed.

#[export] Instance poll_futures : FuturesLib := {|
  try_join E A B x y :=
    match x, y with
    | Ready (Err e), _ | _, Ready (Err e) => Ready (Err e)
    | Ready (Ok a), Ready (Ok b) => Ready (Ok (a, b))
    | _, _ => Pending
    end;
|}.

#[export] Instance poll_futures_laws : FuturesLaws.
Proof.
  split; try done.
  - intros E A B e [|[a|e']] Hx; [done..|by destruct (Hx e')].
  - intros E A B [|[b|e]] Hy; [done..|by destruct (Hy e)].
Qed.

(** Identifiers are numbers written in decimal. *)
#[export] Instance decimal_uuid : UuidLib := {|
  Uuid := N;
  uuid_from_str s := N.of_uint <$> NilZero.uint_of_string s;
  uuid_to_string u := NilZero.string_of_uint (N.to_uint u);
|}.

#[export] Instance decimal_uuid_laws : UuidLaws.
Proof.
  split. intros u. simpl. rewrite NilZero.usu.
  - simpl. by rewrite Unsigned.of_to.
  - destruct u as [|p]; [done|]. apply DecimalPos.Unsigned.to_uint_nonnil.
Qed.

Definition in_range (lo hi : nat) (c : ascii) : bool :=
  (lo <=? nat_of_ascii c)%nat && (nat_of_ascii c <=? hi)%nat.

Fixpoint string_all (p : ascii → bool) (s : string) : bool :=
  match s with
  | EmptyString => true
  | String c s' => p c && string_all p s'
  end.

Definition lower (c : ascii) : ascii :=
  if in_range 65 90 c then ascii_of_nat (nat_of_ascii c + 32) else c.

Fixpoint string_map (f : ascii → ascii) (s : string) : string :=
  match s with
  | EmptyString => EmptyString
  | String c s' => String (f c) (string_map f s')
  end.

(** A header name is a non-empty word of printable characters, kept in lower case. *)
Definition name_of (s : string) : result string string :=
  if negb (String.eqb s "") && string_all (in_range 33 126) s
  then Ok (string_map lower s) else Err "invalid header name"%string.

(** A header value is any string of printable characters. *)
Definition value_of (s : string) : result string string :=
  if string_all (in_range 32 126) s then Ok s else Err "invalid header value"%string.

(** The parts of a URI the program reads. *)
Record parsed_uri := mkUri {
  raw_uri : string;
  parsed_scheme : option string;
  parsed_host : option string;
  parsed_port : option Z;
}.

#[export] Instance string_http : HttpLib := {|
  HttpErr := string;
  HyperErr := string;
  HeaderName := string;
  header_name_try_from := name_of;
  HOST := "host";
  CONTENT_TYPE := "content-type";
  ACCEPT := "accept";
  CACHE_CONTROL := "cache-control";
  HeaderValue := string;
  header_value_try_from := value_of;
  header_to_str v := Some v;
  Scheme := string;
  Scheme_HTTP := "http";
  Uri := parsed_uri;
  uri_try_from s :=
    if string_all (in_range 33 126) s then Ok (mkUri s None None None)
    else Err "invalid uri"%string;
  uri_scheme := parsed_scheme;
  uri_host := parsed_host;
  uri_port_u16 := parsed_port;
|}.

#[export] Instance string_http_laws : HttpLaws.
Proof. split. intros s v. simpl. unfold value_of. destruct (string_all _ s); congruence. Qed.

Lemma digits_are_values d : string_all (in_range 32 126) (NilEmpty.string_of_uint d) = true.
Proof. induction d; simpl; try done. Qed.

#[export] Instance decimal_header_laws : UuidHeaderLaws.
Proof.
  split. intros u. exists (uuid_to_string u). simpl. unfold value_of, NilZero.string_of_uint.
  destruct (N.to_uint u) eqn:E; [done|..]; by rewrite digits_are_values.
Qed.
End Concrete.
