(* ===== verification/DomainFronting.v ===== *)
(** The fronting configuration: [src/src/lib.rs] and [src/src/dns.rs].

    [DomainFronting] and its accessors, the crate's [Error] type, DNS resolution
    behind the [DnsResolver] interface, and [proxy_config], which turns a fronting
    URI into the socket address the client connects to. *)
From S2P Require Import Prelude Ext.

Section DomainFronting.
Context `{HttpLib}.

(** [enum Error] (lib.rs) *)
Inductive Error : Type :=
| Tls (source : io_error)
| Hyper (source : HyperErr)
| Http (source : HttpErr)
| HttpStatusCode (code : StatusCode)
| Connection (source : io_error)
| Dns (source : io_error)
| MisconfiguredAlpn
| EmptyDnsResponse.

(** [struct DomainFronting] (lib.rs) *)
Record DomainFronting : Type := mkDomainFronting {
  front : Uri;
  proxy_host : string;
  session_key : string;
}.

Definition DEFAULT_SESSION_KEY : string := "X-Session".

(** [DomainFronting::new] *)
Definition new (front : Uri) (proxy_host : string) : DomainFronting :=
  mkDomainFronting front proxy_host DEFAULT_SESSION_KEY.

(** [DomainFronting::with_session_key] *)
Definition with_session_key (self : DomainFronting) (key : string) : DomainFronting :=
  mkDomainFronting (front self) (proxy_host self) key.

(** [DomainFronting::front_host]: [unwrap_or_default] gives the empty string. *)
Definition front_host (self : DomainFronting) : string :=
  default ""%string (uri_host (front self)).

(** [DomainFronting::tls]: TLS unless the scheme is exactly HTTP. *)
Definition tls (self : DomainFronting) : bool :=
  bool_decide (uri_scheme (front self) ≠ Some Scheme_HTTP).

(** [DomainFronting::scheme] *)
Definition scheme (self : DomainFronting) : string :=
  if tls self then "https"%string else "http"%string.

(** [struct ProxyConfig] (client.rs) *)
Record ProxyConfig : Type := mkProxyConfig {
  addr : SocketAddr;
  domain_fronting : DomainFronting;
}.

(** [trait DnsResolver] (dns.rs) *)
Class DnsResolver (R : Type) := {
  resolve : R → string → result io_error (list IpAddr);
}.

(** [struct DefaultDnsResolver] (dns.rs), over the operating system's
    [(host, port).to_socket_addrs()]. *)
Record DefaultDnsResolver : Type := mkDefaultDnsResolver {
  to_socket_addrs : string → Z → result io_error (list SocketAddr);
}.

(** [DefaultDnsResolver::resolve]: query with port 0 and keep the addresses. *)
#[export] Instance default_resolve : DnsResolver DefaultDnsResolver := {|
  resolve self host :=
    match to_socket_addrs self host 0 with
    | Ok addrs => Ok (sa_ip <$> addrs)
    | Err e => Err e
    end;
|}.

(** The port of [proxy_config]:
    [uri.port_u16().or(self.tls().then_some(443)).unwrap_or(80)]. *)
Definition proxy_port (self : DomainFronting) : Z :=
  default 80%Z
    (match uri_port_u16 (front self) with
     | Some p => Some p
     | None => if tls self then Some 443%Z else None
     end).

(** [DomainFronting::proxy_config] *)
Definition proxy_config (dns_resolver : DefaultDnsResolver) (self : DomainFronting)
  : result Error ProxyConfig :=
  let port := proxy_port self in
  let? addrs := map_err Dns (resolve dns_resolver (front_host self)) in
  let? addr := ok_or EmptyDnsResponse (head addrs) in
  Ok (mkProxyConfig (mkSocketAddr addr port) self).
End DomainFronting.

Section Properties.
Context `{HttpLib}.

Lemma tls_scheme self : scheme self = "http"%string ↔ uri_scheme (front self) = Some Scheme_HTTP.
Proof.
  unfold scheme, tls. case_bool_decide; split; intros; (done || tauto).
Qed.

(** [proxy_config] resolves the front's host and nothing else, takes the first
    address, and picks the port: an explicit port always wins, otherwise 80 exactly
    when the scheme is HTTP and 443 for every other front (HTTPS, unknown or missing
    scheme). A resolver error is [Error::Dns] and an empty answer is
    [Error::EmptyDnsResponse]; the fronting configuration is carried over unchanged. *)
Theorem proxy_config_spec (dns : DefaultDnsResolver) (self : DomainFronting) :
  proxy_config dns self =
    match to_socket_addrs dns (front_host self) 0 with
    | Err e => Err (Dns e)
    | Ok [] => Err EmptyDnsResponse
    | Ok (a :: _) =>
        let port := match uri_port_u16 (front self) with
                    | Some p => p
                    | None => if decide (uri_scheme (front self) = Some Scheme_HTTP)
                              then 80%Z else 443%Z
                    end in
        Ok (mkProxyConfig (mkSocketAddr (sa_ip a) port) self)
    end.
Proof.
  unfold proxy_config, proxy_port, tls. simpl.
  destruct (to_socket_addrs dns (front_host self) 0) as [[|a l]|e]; simpl; try done.
  do 3 f_equal. destruct (uri_port_u16 (front self)); [done|].
  case_bool_decide; case_decide; tauto.
Qed.
End Properties.
