(* ===== verification/Stats.v ===== *)
(** Byte counters: [AtomicStats] and [Stats] of [src/src/server.rs]. *)
From S2P Require Import Prelude.

(** [struct AtomicStats]: two [AtomicU64] counters. *)
Record AtomicStats : Type := mkAtomicStats { atomic_tx : Z; atomic_rx : Z }.

(** [struct Stats] *)
Record Stats : Type := mkStats { bytes_tx : Z; bytes_rx : Z }.

(** [AtomicStats::default] *)
Definition stats_default : AtomicStats := mkAtomicStats 0 0.

(** [bytes_tx.fetch_add(n)] and [bytes_rx.fetch_add(n)]: addition modulo 2^64. *)
Definition fetch_add_tx (n : Z) (s : AtomicStats) : AtomicStats :=
  mkAtomicStats (add64 (atomic_tx s) n) (atomic_rx s).
Definition fetch_add_rx (n : Z) (s : AtomicStats) : AtomicStats :=
  mkAtomicStats (atomic_tx s) (add64 (atomic_rx s) n).

(** [bytes_tx.swap(0)] and [bytes_rx.swap(0)]: the old value, and the zeroed counter. *)
Definition swap_tx (s : AtomicStats) : Z * AtomicStats :=
  (atomic_tx s, mkAtomicStats 0 (atomic_rx s)).
Definition swap_rx (s : AtomicStats) : Z * AtomicStats :=
  (atomic_rx s, mkAtomicStats (atomic_tx s) 0).

(** [AtomicStats::freeze] *)
Definition freeze (s : AtomicStats) : Stats := mkStats (atomic_tx s) (atomic_rx s).

(** [AtomicStats::take]: the two swaps, one after the other. *)
Definition take (s : AtomicStats) : Stats * AtomicStats :=
  let (tx, s) := swap_tx s in
  let (rx, s) := swap_rx s in
  (mkStats tx rx, s).

(** Both counters hold 64-bit values. *)
Definition stats_wf (s : AtomicStats) : Prop :=
  (0 ≤ atomic_tx s < u64_modulus)%Z ∧ (0 ≤ atomic_rx s < u64_modulus)%Z.

Lemma stats_default_wf : stats_wf stats_default.
Proof. unfold stats_wf, u64_modulus. simpl. lia. Qed.

Lemma fetch_add_tx_wf n s : stats_wf s → stats_wf (fetch_add_tx n s).
Proof. intros [??]. split; [apply wrap64_range | done]. Qed.

Lemma fetch_add_rx_wf n s : stats_wf s → stats_wf (fetch_add_rx n s).
Proof. intros [??]. split; [done | apply wrap64_range]. Qed.

#[export] Hint Resolve stats_default_wf fetch_add_tx_wf fetch_add_rx_wf : words.

Lemma take_freeze s : (take s).1 = freeze s.
Proof. done. Qed.

Lemma take_zeroes s : freeze (take s).2 = mkStats 0 0.
Proof. done. Qed.
