(* ===== verification/State.v ===== *)
(** The state of a running server: the data types of [src/src/server.rs].

    [Config], [Session], [Server] and [HttpError] are the source's structs. The
    server runs as many concurrent tasks (request handlers, one actor per session,
    timer tasks, response bodies being streamed); [Sys] is the whole of their state,
    one map per kind of task, each entry saying at which await point the task is
    suspended. Fields marked ghost record history for the theorems and are never
    read by an operation. *)
From S2P Require Import Prelude Ext DomainFronting Stats.

Section State.
Context `{UuidLib, HttpLib, TryMutex}.

(** [struct Config]; durations are nanoseconds. *)
Record Config : Type := mkConfig {
  cfg_upstream : SocketAddr;
  cfg_session_key : string;
  cfg_total_timeout : N;
  cfg_idle_timeout : N;
}.

(** [Config::new] *)
Definition Config_new (upstream : SocketAddr) (total_timeout idle_timeout : N) : Config :=
  mkConfig upstream DEFAULT_SESSION_KEY total_timeout idle_timeout.

(** [Config::with_session_key] *)
Definition Config_with_session_key (self : Config) (session_key : string) : Config :=
  mkConfig (cfg_upstream self) session_key (cfg_total_timeout self) (cfg_idle_timeout self).

(** [struct HttpError] *)
Record HttpError : Type := mkHttpError { he_error : string; he_code : StatusCode }.

(** [impl From<anyhow::Error> for HttpError] *)
Definition HttpError_from (error : string) : HttpError := mkHttpError error BAD_REQUEST.

(** [HttpError::code] *)
Definition HttpError_code (code : StatusCode) (error : string) : HttpError :=
  mkHttpError error code.

(** A response: status, headers, and either no body or the stream with the given id. *)
Inductive RespBody : Type := Empty | StreamBody (stid : nat).
Record Response : Type := mkResponse {
  rs_status : StatusCode;
  rs_headers : list (HeaderName * string);
  rs_body : RespBody;
}.

(** [HttpError::into_response] *)
Definition into_response (e : HttpError) : Response := mkResponse (he_code e) [] Empty.

(** * Session actors *)

(** The messages of a session actor, with the request that awaits the reply:
    [SessionRead], [SessionWrite(bytes)] and [SessionResetIdleTimeout]. *)
Inductive Msg : Type :=
| SessionRead (rid : nat)
| SessionWrite (data : bytes) (rid : nat)
| SessionResetIdleTimeout.

(** [struct SessionArgs]; its [server] and [stats] are the enclosing [Sys]. *)
Record SessionArgs : Type := mkSessionArgs {
  arg_session_id : Uuid;
  arg_upstream : SocketAddr;
  arg_idle_timeout : N;
  arg_total_timeout : N;
}.

(** [struct Session]. Its two upstream halves belong to the connection its own
    actor opened, so they carry no identifier of their own: what passes through
    them is recorded under the actor's id in [sys_log]. Its [server] and [stats]
    are the enclosing [Sys]. Task and abort handles are ids. *)
Record Session : Type := mkSession {
  session_id : Uuid;
  upstream_read : mutex;
  upstream_read_abort : option nat;
  idle_timeout : N;
  idle_timeout_task : option nat;
  total_timeout_task : option nat;
}.

(** Where an actor is: spawned; in [on_start], suspended at [connect] with its two
    timer handles in local variables; processing messages; or stopped. *)
Inductive ActorStatus : Type :=
| Spawned
| Starting (total_timeout_task idle_timeout_task : nat)
| Running
| Stopped.

#[export] Instance ActorStatus_eq_dec : EqDecision ActorStatus.
Proof. solve_decision. Defined.

Record Actor : Type := mkActor {
  ac_args : SessionArgs;
  ac_status : ActorStatus;
  ac_session : option Session;        (* from on_start's Ok until Drop *)
  ac_mailbox : list Msg;
  ac_busy : option (bytes * nat);     (* SessionWrite suspended in write_all *)
  ac_kill : bool;                     (* ActorRef::kill was called *)
  ac_stop : bool;                     (* ctx.stop() was called *)
  ac_created : N;                     (* ghost: when on_start began *)
  ac_active : N;                      (* ghost: last (re)start of the idle timer *)
}.

(** A task spawned by [actor_timeout] that is still asleep. *)
Record TimerTask : Type := mkTimer { tk_actor : nat; tk_deadline : N }.

#[export] Instance TimerTask_eq_dec : EqDecision TimerTask.
Proof. solve_decision. Defined.

(** * Response streams *)

(** Where the [stream::unfold] body is: awaiting the first read; about to do a
    subsequent read; awaiting the [tell] that follows a read of some bytes; ended,
    with its state and so its mutex guard dropped. *)
Inductive StreamPos : Type :=
| FirstRead
| NextRead
| Telling (data : bytes)
| Ended.

Record StreamState : Type := mkStream {
  st_actor : nat;
  st_req : nat;                       (* ghost: the request it answers *)
  st_pos : StreamPos;
  st_aborted : bool;                  (* its AbortHandle was triggered *)
  st_out : list bytes;                (* ghost: the frames yielded so far *)
}.

(** * Requests *)

(** Where a call of [handle_request] is suspended: reading the next body chunk;
    awaiting the reply to [SessionWrite]; about to ask [SessionRead]; awaiting its
    reply; finished with a response; or dropped by the HTTP server. *)
Inductive ReqPos : Type :=
| AtBody (aid : nat) (total : Z)
| AtWrite (aid : nat) (total : Z) (data : bytes) (reply : option unit)
| AtReadSend (aid : nat)
| AtRead (aid : nat) (reply : option (option nat))
| Responded (resp : Response)
| Cancelled.

Record ReqState : Type := mkReq {
  rq_pos : ReqPos;
  rq_acked : list bytes;              (* ghost: the chunks whose ask returned *)
}.

(** * The upstream side *)

(** What the upstream transports observe, in order: a connection opened, [n] bytes
    of a chunk accepted on behalf of a request, a chunk handed to a stream. *)
Inductive UpEvent : Type :=
| UpOpen (aid : nat) (addr : SocketAddr)
| UpWrite (aid rid : nat) (data : bytes) (n : nat)
| UpRead (aid stid : nat) (data : bytes).

(** * The whole state; [struct Server] is [sys_config], [sys_stats], [sys_sessions]. *)
Record Sys : Type := mkSys {
  sys_config : Config;
  sys_stats : AtomicStats;
  sys_sessions : gmap Uuid nat;
  sys_server_up : bool;               (* an Arc<Server> still exists *)
  sys_actors : gmap nat Actor;
  sys_tasks : gmap nat TimerTask;
  sys_streams : gmap nat StreamState;
  sys_requests : gmap nat ReqState;
  sys_now : N;
  sys_next : nat;                     (* the next unused id *)
  sys_log : list UpEvent;             (* ghost *)
  sys_taken : Stats;                  (* ghost: total handed out by take_stats *)
}.

(** [Server::with_connector]: the initial state. *)
Definition with_connector (config : Config) : Sys :=
  mkSys config stats_default ∅ true ∅ ∅ ∅ ∅ 0 0 [] (mkStats 0 0).

(** * Field updates *)

Definition set_stats (x : AtomicStats) (s : Sys) : Sys :=
  mkSys (sys_config s) x (sys_sessions s) (sys_server_up s) (sys_actors s) (sys_tasks s)
    (sys_streams s) (sys_requests s) (sys_now s) (sys_next s) (sys_log s) (sys_taken s).
Definition set_sessions (x : gmap Uuid nat) (s : Sys) : Sys :=
  mkSys (sys_config s) (sys_stats s) x (sys_server_up s) (sys_actors s) (sys_tasks s)
    (sys_streams s) (sys_requests s) (sys_now s) (sys_next s) (sys_log s) (sys_taken s).
Definition set_server_up (x : bool) (s : Sys) : Sys :=
  mkSys (sys_config s) (sys_stats s) (sys_sessions s) x (sys_actors s) (sys_tasks s)
    (sys_streams s) (sys_requests s) (sys_now s) (sys_next s) (sys_log s) (sys_taken s).
Definition set_actors (x : gmap nat Actor) (s : Sys) : Sys :=
  mkSys (sys_config s) (sys_stats s) (sys_sessions s) (sys_server_up s) x (sys_tasks s)
    (sys_streams s) (sys_requests s) (sys_now s) (sys_next s) (sys_log s) (sys_taken s).
Definition set_tasks (x : gmap nat TimerTask) (s : Sys) : Sys :=
  mkSys (sys_config s) (sys_stats s) (sys_sessions s) (sys_server_up s) (sys_actors s) x
    (sys_streams s) (sys_requests s) (sys_now s) (sys_next s) (sys_log s) (sys_taken s).
Definition set_streams (x : gmap nat StreamState) (s : Sys) : Sys :=
  mkSys (sys_config s) (sys_stats s) (sys_sessions s) (sys_server_up s) (sys_actors s)
    (sys_tasks s) x (sys_requests s) (sys_now s) (sys_next s) (sys_log s) (sys_taken s).
Definition set_requests (x : gmap nat ReqState) (s : Sys) : Sys :=
  mkSys (sys_config s) (sys_stats s) (sys_sessions s) (sys_server_up s) (sys_actors s)
    (sys_tasks s) (sys_streams s) x (sys_now s) (sys_next s) (sys_log s) (sys_taken s).
Definition set_now (x : N) (s : Sys) : Sys :=
  mkSys (sys_config s) (sys_stats s) (sys_sessions s) (sys_server_up s) (sys_actors s)
    (sys_tasks s) (sys_streams s) (sys_requests s) x (sys_next s) (sys_log s) (sys_taken s).
Definition set_next (x : nat) (s : Sys) : Sys :=
  mkSys (sys_config s) (sys_stats s) (sys_sessions s) (sys_server_up s) (sys_actors s)
    (sys_tasks s) (sys_streams s) (sys_requests s) (sys_now s) x (sys_log s) (sys_taken s).
Definition set_log (x : list UpEvent) (s : Sys) : Sys :=
  mkSys (sys_config s) (sys_stats s) (sys_sessions s) (sys_server_up s) (sys_actors s)
    (sys_tasks s) (sys_streams s) (sys_requests s) (sys_now s) (sys_next s) x (sys_taken s).
Definition set_taken (x : Stats) (s : Sys) : Sys :=
  mkSys (sys_config s) (sys_stats s) (sys_sessions s) (sys_server_up s) (sys_actors s)
    (sys_tasks s) (sys_streams s) (sys_requests s) (sys_now s) (sys_next s) (sys_log s) x.

Definition put_actor (aid : nat) (a : Actor) (s : Sys) : Sys :=
  set_actors (<[aid := a]> (sys_actors s)) s.
Definition put_stream (stid : nat) (st : StreamState) (s : Sys) : Sys :=
  set_streams (<[stid := st]> (sys_streams s)) s.
Definition put_request (rid : nat) (r : ReqState) (s : Sys) : Sys :=
  set_requests (<[rid := r]> (sys_requests s)) s.
Definition log_event (e : UpEvent) (s : Sys) : Sys := set_log (sys_log s ++ [e]) s.

Definition with_status (x : ActorStatus) (a : Actor) : Actor :=
  mkActor (ac_args a) x (ac_session a) (ac_mailbox a) (ac_busy a) (ac_kill a) (ac_stop a)
    (ac_created a) (ac_active a).
Definition with_session (x : option Session) (a : Actor) : Actor :=
  mkActor (ac_args a) (ac_status a) x (ac_mailbox a) (ac_busy a) (ac_kill a) (ac_stop a)
    (ac_created a) (ac_active a).
Definition with_mailbox (x : list Msg) (a : Actor) : Actor :=
  mkActor (ac_args a) (ac_status a) (ac_session a) x (ac_busy a) (ac_kill a) (ac_stop a)
    (ac_created a) (ac_active a).
Definition with_busy (x : option (bytes * nat)) (a : Actor) : Actor :=
  mkActor (ac_args a) (ac_status a) (ac_session a) (ac_mailbox a) x (ac_kill a) (ac_stop a)
    (ac_created a) (ac_active a).
Definition with_kill (x : bool) (a : Actor) : Actor :=
  mkActor (ac_args a) (ac_status a) (ac_session a) (ac_mailbox a) (ac_busy a) x (ac_stop a)
    (ac_created a) (ac_active a).
Definition with_stop (x : bool) (a : Actor) : Actor :=
  mkActor (ac_args a) (ac_status a) (ac_session a) (ac_mailbox a) (ac_busy a) (ac_kill a) x
    (ac_created a) (ac_active a).
Definition with_times (created active : N) (a : Actor) : Actor :=
  mkActor (ac_args a) (ac_status a) (ac_session a) (ac_mailbox a) (ac_busy a) (ac_kill a)
    (ac_stop a) created active.
Definition with_pos (x : StreamPos) (st : StreamState) : StreamState :=
  mkStream (st_actor st) (st_req st) x (st_aborted st) (st_out st).
Definition with_reader (m : mutex) (abort : option nat) (x : Session) : Session :=
  mkSession (session_id x) m abort (idle_timeout x) (idle_timeout_task x) (total_timeout_task x).
Definition with_idle_task (t : option nat) (x : Session) : Session :=
  mkSession (session_id x) (upstream_read x) (upstream_read_abort x) (idle_timeout x) t
    (total_timeout_task x).

(** [ActorRef::is_alive]: until the actor stops, also before it has started. *)
Definition is_alive (a : Actor) : bool :=
  match ac_status a with Stopped => false | _ => true end.

Definition actor_alive (aid : nat) (s : Sys) : bool :=
  match sys_actors s !! aid with Some a => is_alive a | None => false end.

(** Queue a message; a stopped actor takes none. The senders of [SessionRead] and [SessionWrite]
    await a reply, so that they cannot tell waiting in a full mailbox's queue from waiting in the
    mailbox: the list holds the messages of both, as messages of several senders are delivered in
    any order. The sender of [SessionResetIdleTimeout] goes on once its message is in the mailbox;
    it queues it here only when there is room ([tell_session] of [Session]). *)
Definition push_msg (m : Msg) (a : Actor) : Actor :=
  if is_alive a then with_mailbox (ac_mailbox a ++ [m]) a else a.
Definition enqueue (aid : nat) (m : Msg) (s : Sys) : Sys :=
  set_actors (alter (push_msg m) aid (sys_actors s)) s.
End State.
