(* ===== verification/Session.v ===== *)
(** The session actor: [impl Actor for Session], its three message handlers,
    [actor_timeout], [reset_idle_timeout], the response stream built by
    [SessionRead], and [Drop], all of [src/src/server.rs].

    An [async] handler is split at the await points where it can stay suspended:
    [on_start] at [connect], [SessionWrite] at [write_all], and the stream body at
    its reads and at the [tell] that follows a successful read. That [tell] completes in the
    poll that has read, unless the actor's mailbox is full then: how long a mailbox is is up
    to [kameo], so each poll is told whether there is [room]. *)
From S2P Require Import Prelude Ext DomainFronting Stats State.

Section Session.
Context `{UuidLib, HttpLib, TryMutex}.

(** * Timers *)

(** [actor_timeout]: spawn a task that sleeps and then kills the actor; returns its
    handle. *)
Definition actor_timeout (aid : nat) (after : N) (s : Sys) : nat * Sys :=
  let t := sys_next s in
  (t, set_next (S t)
        (set_tasks (<[t := mkTimer aid (sys_now s + after)]> (sys_tasks s)) s)).

(** [AbortHandle::abort] on an optional handle taken out of its field. *)
Definition abort_task (t : option nat) (s : Sys) : Sys :=
  set_tasks (match t with Some t => delete t (sys_tasks s) | None => sys_tasks s end) s.

(** The sleep of a timer task is over: [actor_ref.kill()]. *)
Definition timer_fires (t : nat) (s : Sys) : option Sys :=
  tk ← sys_tasks s !! t;
  guard (tk_deadline tk ≤ sys_now s)%N;;
  let s := set_tasks (delete t (sys_tasks s)) s in
  Some (set_actors (alter (with_kill true) (tk_actor tk) (sys_actors s)) s).

(** [Session::reset_idle_timeout] *)
Definition reset_idle_timeout (aid : nat) (self : Session) (s : Sys) : Session * Sys :=
  let s := abort_task (idle_timeout_task self) s in
  let (t, s) := actor_timeout aid (idle_timeout self) s in
  (with_idle_task (Some t) self, s).

(** * Starting *)

(** [Session::on_start] up to [connect(upstream).await]. *)
Definition on_start (aid : nat) (s : Sys) : option Sys :=
  a ← sys_actors s !! aid;
  match ac_status a with
  | Spawned =>
      let (total, s) := actor_timeout aid (arg_total_timeout (ac_args a)) s in
      let (idle, s) := actor_timeout aid (arg_idle_timeout (ac_args a)) s in
      Some (put_actor aid
              (with_times (sys_now s) (sys_now s) (with_status (Starting total idle) a)) s)
  | _ => None
  end.

(** The actor is gone: its mailbox is discarded and no handler runs any more. *)
Definition stopped (a : Actor) : Actor :=
  with_status Stopped (with_busy None (with_mailbox [] a)).

(** [Session::on_start] from the result of [connect]: on an error the actor stops
    without a [Session] (the timer tasks are left to run out), otherwise the session
    is created and its idle timer restarted. *)
Definition on_start_connected (aid : nat) (res : result io_error unit) (s : Sys) : option Sys :=
  a ← sys_actors s !! aid;
  match ac_status a with
  | Starting total idle =>
      match res with
      | Err _ => Some (put_actor aid (stopped a) s)
      | Ok _ =>
          let s := log_event (UpOpen aid (arg_upstream (ac_args a))) s in
          let session :=
            mkSession (arg_session_id (ac_args a)) mutex_new None
              (arg_idle_timeout (ac_args a)) (Some idle) (Some total) in
          let (session, s) := reset_idle_timeout aid session s in
          Some (put_actor aid
                  (with_times (ac_created a) (sys_now s)
                     (with_session (Some session) (with_status Running a))) s)
      end
  | _ => None
  end.

(** * Message handlers *)

(** Send the reply of an [ask] to the request awaiting it, if it still is. *)
Definition answer_read (reply : option nat) (r : ReqState) : ReqState :=
  match rq_pos r with
  | AtRead aid None => mkReq (AtRead aid (Some reply)) (rq_acked r)
  | _ => r
  end.
Definition answer_write (r : ReqState) : ReqState :=
  match rq_pos r with
  | AtWrite aid total data None => mkReq (AtWrite aid total data (Some ())) (rq_acked r)
  | _ => r
  end.
Definition reply_read (rid : nat) (reply : option nat) (s : Sys) : Sys :=
  set_requests (alter (answer_read reply) rid (sys_requests s)) s.
Definition reply_write (rid : nat) (s : Sys) : Sys :=
  set_requests (alter answer_write rid (sys_requests s)) s.

(** The handlers get the actor without the message they handle, and store it back.

    [Message<SessionRead>::handle]: a read request while another reader holds the
    mutex is answered with [None]; otherwise the guard moves into a new stream,
    whose abort handle is kept. *)
Definition handle_read (aid : nat) (a : Actor) (self : Session) (rid : nat) (s : Sys) : Sys :=
  match try_lock_owned (upstream_read self) with
  | None => reply_read rid None (put_actor aid a s)
  | Some m =>
      let stid := sys_next s in
      let s := set_next (S stid) s in
      let s := put_stream stid (mkStream aid rid FirstRead false []) s in
      let s := put_actor aid (with_session (Some (with_reader m (Some stid) self)) a) s in
      reply_read rid (Some stid) s
  end.

(** [Message<SessionWrite>::handle] up to [write_all(&bytes).await]. *)
Definition handle_write (aid : nat) (a : Actor) (data : bytes) (rid : nat) (s : Sys) : Sys :=
  put_actor aid (with_busy (Some (data, rid)) a) s.

(** The result of [write_all]; [WriteErr n] had written [n] bytes before it failed. A killed
    actor is aborted at this await, see [actor_stops]. *)
Inductive WriteResult : Type := WriteOk | WriteErr (n : nat).

(** [Message<SessionWrite>::handle] from the result of [write_all]: an error stops
    the actor, success asks it to restart its idle timer ([try_send] may find the
    mailbox full, [queued = false]); the reply is [()] either way. *)
Definition handle_written (aid : nat) (res : WriteResult) (queued : bool) (s : Sys)
  : option Sys :=
  a ← sys_actors s !! aid;
  guard (ac_kill a = false);;
  '(data, rid) ← ac_busy a;
  match res with
  | WriteErr n =>
      guard (n ≤ length data);;
      let s := log_event (UpWrite aid rid data n) s in
      let s := put_actor aid (with_stop true (with_busy None a)) s in
      Some (reply_write rid s)
  | WriteOk =>
      let s := log_event (UpWrite aid rid data (length data)) s in
      let s := put_actor aid (with_busy None a) s in
      let s := if queued then enqueue aid SessionResetIdleTimeout s else s in
      Some (reply_write rid s)
  end.

(** [Message<SessionResetIdleTimeout>::handle] *)
Definition handle_reset (aid : nat) (a : Actor) (self : Session) (s : Sys) : Sys :=
  let (self, s) := reset_idle_timeout aid self s in
  put_actor aid (with_times (ac_created a) (sys_now s) (with_session (Some self) a)) s.

(** The actor takes the [i]-th message of its mailbox and runs its handler. It
    handles one message at a time, and none after [ctx.stop()] or [kill]. *)
Definition deliver (aid i : nat) (s : Sys) : option Sys :=
  a ← sys_actors s !! aid;
  guard (ac_kill a = false);;
  match ac_status a, ac_session a, ac_busy a, ac_stop a with
  | Running, Some self, None, false =>
      m ← ac_mailbox a !! i;
      let a := with_mailbox (delete i (ac_mailbox a)) a in
      Some (match m with
            | SessionRead rid => handle_read aid a self rid s
            | SessionWrite data rid => handle_write aid a data rid s
            | SessionResetIdleTimeout => handle_reset aid a self s
            end)
  | _, _, _, _ => None
  end.

(** * Stopping *)

(** The actor's task ends: after [kill] at any await point, abandoning a [write_all]
    that had accepted [n] bytes, or after [ctx.stop()] once the handler returned. *)
Definition actor_stops (aid n : nat) (s : Sys) : option Sys :=
  a ← sys_actors s !! aid;
  guard (is_alive a = true);;
  guard (ac_kill a || ac_stop a = true);;
  match ac_busy a with
  | Some (data, rid) =>
      guard (ac_kill a = true ∧ n ≤ length data);;
      Some (put_actor aid (stopped a) (log_event (UpWrite aid rid data n) s))
  | None => Some (put_actor aid (stopped a) s)
  end.

(** [AbortHandle::abort] of an abortable stream. *)
Definition set_aborted (st : StreamState) : StreamState :=
  mkStream (st_actor st) (st_req st) (st_pos st) true (st_out st).
Definition abort_stream (stid : option nat) (s : Sys) : Sys :=
  set_streams (match stid with
               | Some stid => alter set_aborted stid (sys_streams s)
               | None => sys_streams s
               end) s.

(** [if let Some(server) = self.server.upgrade() { ..sessions.remove(&self.session_id); }] *)
Definition remove_session (session_id : Uuid) (s : Sys) : Sys :=
  set_sessions (if sys_server_up s then delete session_id (sys_sessions s)
                else sys_sessions s) s.

(** [Drop for Session]: abort both timers and the current read stream, and remove
    the session id from the server's table. *)
Definition drop_session (aid : nat) (s : Sys) : option Sys :=
  a ← sys_actors s !! aid;
  match ac_status a, ac_session a with
  | Stopped, Some self =>
      let s := put_actor aid (with_session None a) s in
      let s := abort_task (total_timeout_task self) s in
      let s := abort_task (idle_timeout_task self) s in
      let s := abort_stream (upstream_read_abort self) s in
      Some (remove_session (session_id self) s)
  | _, _ => None
  end.

(** * The response stream *)

(** The stream ends: its state is dropped, which releases the mutex. *)
Definition unlock_reader (a : Actor) : Actor :=
  match ac_session a with
  | Some self =>
      with_session (Some (with_reader (drop_guard (upstream_read self))
                            (upstream_read_abort self) self)) a
  | None => a
  end.
Definition release (stid : nat) (st : StreamState) (s : Sys) : Sys :=
  let s := put_stream stid (with_pos Ended st) s in
  set_actors (alter unlock_reader (st_actor st) (sys_actors s)) s.

(** [BytesMut::with_capacity(2048)]: no read returns more bytes. *)
Definition READ_CAPACITY : Z := 2048.

(** Bytes were read: count them. *)
Definition received (stid : nat) (st : StreamState) (data : bytes) (s : Sys) : Sys :=
  let s := log_event (UpRead (st_actor st) stid data) s in
  set_stats (fetch_add_rx (blen data) (sys_stats s)) s.

(** The [tell] is over, and the bytes are the next frame. *)
Definition yielded (stid : nat) (st : StreamState) (data : bytes) (s : Sys) : Sys :=
  put_stream stid (mkStream (st_actor st) (st_req st) NextRead (st_aborted st) (st_out st ++ [data]))
    (enqueue (st_actor st) SessionResetIdleTimeout s).

(** [if let Some(session) = ..upgrade() { let _ = session.tell(SessionResetIdleTimeout).await; }]
    and the frame. The [tell] is over at once when the session is gone or its mailbox has
    [room], and waits otherwise. *)
Definition tell_session (stid : nat) (st : StreamState) (data : bytes) (room : bool) (s : Sys)
  : Poll (option bytes) * Sys :=
  if room || negb (actor_alive (st_actor st) s) then (Ready (Some data), yielded stid st data s)
  else (Pending, put_stream stid (with_pos (Telling data) st) s).

(** One poll of the abortable [unfold] stream, given what [read_buf] returns when it
    is polled and whether the mailbox of the session has [room]: [None] ends the response
    body. Only the first read waits for data. *)
Definition poll_next (stid : nat) (read : Poll (result io_error bytes)) (room : bool) (s : Sys)
  : option (Poll (option bytes) * Sys) :=
  st ← sys_streams s !! stid;
  if st_aborted st then Some (Ready None, s) else
  match st_pos st with
  | Ended => Some (Ready None, s)
  | Telling data => Some (tell_session stid st data room s)
  | FirstRead | NextRead =>
      match read with
      | Ready (Ok (b :: data)) =>
          guard (blen (b :: data) ≤ READ_CAPACITY)%Z;;
          Some (tell_session stid st (b :: data) room (received stid st (b :: data) s))
      | Ready (Ok []) | Ready (Err _) => Some (Ready None, release stid st s)
      | Pending =>
          Some (match st_pos st with
                | FirstRead => (Pending, s)
                | _ => (Ready None, release stid st s)
                end)
      end
  end.

(** The HTTP server drops the response body. *)
Definition drop_stream (stid : nat) (s : Sys) : option Sys :=
  st ← sys_streams s !! stid;
  Some (match st_pos st with Ended => s | _ => release stid st s end).
End Session.
