(* ===== verification/Server.v ===== *)
(** The HTTP side of the server: [handle_request] and what it calls, in
    [src/src/server.rs], and the step function of the whole server.

    A label of [step] is one scheduling decision: which task runs next, with the
    result of the I/O it was waiting for. The labels range over everything the
    runtime, the clients and the upstream may do, so a theorem about all schedules
    holds whatever they do. *)
From S2P Require Import Prelude Ext DomainFronting Stats State Session.

Section Server.
Context `{UuidLib, HttpLib, TryMutex}.

(** * Request handling *)

(** [enum Method] of [handle_request_inner] *)
Inductive Method : Type := Get | Post | Patch.

#[export] Instance Method_eq_dec : EqDecision Method.
Proof. solve_decision. Defined.

Definition parse_method (m : HttpMethod) : result HttpError Method :=
  match m with
  | GET => Ok Get
  | POST => Ok Post
  | PATCH => Ok Patch
  | OTHER name => Err (HttpError_from ("Unexpected HTTP method: " +:+ name))
  end.

(** [head.headers.get(&self.config.session_key).and_then(..to_str..).and_then(..Uuid::from_str..)] *)
Definition parse_session_id (config : Config) (head : RequestHead) : option Uuid :=
  (header_get (cfg_session_key config) (head_headers head) ≫= header_to_str) ≫= uuid_from_str.

(** [Server::new_session]: spawn the actor; its [on_start] runs later. *)
Definition new_session (session_id : Uuid) (s : Sys) : nat * Sys :=
  let aid := sys_next s in
  let args := mkSessionArgs session_id (cfg_upstream (sys_config s))
                (cfg_idle_timeout (sys_config s)) (cfg_total_timeout (sys_config s)) in
  (aid, set_next (S aid)
          (put_actor aid (mkActor args Spawned None [] None false false 0 0) s)).

(** [entry.insert(self.new_session(session_id)).clone()] *)
Definition insert_session (session_id : Uuid) (s : Sys) : nat * Sys :=
  let (aid, s) := new_session session_id s in
  (aid, set_sessions (<[session_id := aid]> (sys_sessions s)) s).

(** The [sessions.entry(session_id)] match of [handle_request_inner]. *)
Definition lookup_session (session_id : Uuid) (can_create_session : bool) (s : Sys)
  : result HttpError nat * Sys :=
  match sys_sessions s !! session_id with
  | Some session =>
      if actor_alive session s then (Ok session, s)
      else if can_create_session then
        let (aid, s) := insert_session session_id s in (Ok aid, s)
      else (Err (HttpError_from "Expired session"), s)
  | None =>
      if can_create_session then
        let (aid, s) := insert_session session_id s in (Ok aid, s)
      else (Err (HttpError_from "No session"), s)
  end.

(** [Server::handle_request_inner] up to its first await: what the request waits
    for, or the error it fails with. *)
Definition handle_request_inner (head : RequestHead) (s : Sys) : result HttpError ReqPos * Sys :=
  match parse_method (head_method head) with
  | Err e => (Err e, s)
  | Ok method =>
      let can_create_session := bool_decide (method ≠ Patch) in
      match parse_session_id (sys_config s) head with
      | None => (Err (HttpError_from "Invalid/missing session ID"), s)
      | Some session_id =>
          let (session, s) := lookup_session session_id can_create_session s in
          match session with
          | Err e => (Err e, s)
          | Ok aid =>
              (Ok (match method with Get => AtReadSend aid | _ => AtBody aid 0 end), s)
          end
      end
  end.

(** The [unwrap_or_else] of [Server::handle_request]. *)
Definition respond_error (e : HttpError) : ReqPos := Responded (into_response e).

(** [Server::handle_request], up to its first await. *)
Definition handle_request (head : RequestHead) (s : Sys) : ReqPos * Sys :=
  let (r, s) := handle_request_inner head s in
  (match r with Ok pos => pos | Err e => respond_error e end, s).

(** The responses of [handle_write_request] and [handle_read_request]. *)
Definition write_response : Response := mkResponse NO_CONTENT [] Empty.
Definition read_response (stid : nat) : Response :=
  mkResponse OK_200
    [(CONTENT_TYPE, "application/octet-stream"%string);
     (CACHE_CONTROL, "no-cache, no-store, no-transform"%string)] (StreamBody stid).

(** [Server::handle_write_request] from the next element of the body: the end of the
    body, an error, or a chunk, which is sent to the session. *)
Definition write_request_next (rid : nat) (chunk : option (result string bytes)) (s : Sys)
  : option Sys :=
  r ← sys_requests s !! rid;
  match rq_pos r with
  | AtBody aid total =>
      let goto pos := put_request rid (mkReq pos (rq_acked r)) in
      Some (match chunk with
            | None =>
                goto (if (total =? 0)%Z then respond_error (HttpError_from "Empty body")
                      else Responded write_response) s
            | Some (Err e) => goto (respond_error (HttpError_from e)) s
            | Some (Ok data) =>
                enqueue aid (SessionWrite data rid)
                  (goto (AtWrite aid (add64 total (blen data)) data None) s)
            end)
  | _ => None
  end.

(** A suspended request runs again: [handle_write_request] after the reply to
    [SessionWrite], [handle_read_request] before its [ask] or after the reply. An
    [ask] fails when the actor stops without having replied. *)
Definition request_resumes (rid : nat) (s : Sys) : option Sys :=
  r ← sys_requests s !! rid;
  let goto pos := put_request rid (mkReq pos (rq_acked r)) in
  match rq_pos r with
  | AtWrite aid total data (Some _) =>
      Some (set_stats (fetch_add_tx (blen data) (sys_stats s))
              (put_request rid (mkReq (AtBody aid total) (rq_acked r ++ [data])) s))
  | AtWrite aid _ _ None =>
      guard (actor_alive aid s = false);;
      Some (goto (respond_error (HttpError_from "actor stopped")) s)
  | AtReadSend aid =>
      Some (enqueue aid (SessionRead rid) (goto (AtRead aid None) s))
  | AtRead _ (Some None) =>
      Some (goto (respond_error
                    (HttpError_code TOO_MANY_REQUESTS "Multiple read requests are not allowed")) s)
  | AtRead _ (Some (Some stid)) => Some (goto (Responded (read_response stid)) s)
  | AtRead aid None =>
      guard (actor_alive aid s = false);;
      Some (goto (respond_error (HttpError_from "Session actor is dead")) s)
  | _ => None
  end.

(** A request still being handled holds an [Arc<Server>]. *)
Definition in_flight (r : ReqState) : bool :=
  match rq_pos r with Responded _ | Cancelled => false | _ => true end.

(** So do the arguments of an actor that has not finished [on_start]. *)
Definition in_on_start (a : Actor) : bool :=
  match ac_status a with Spawned | Starting _ _ => true | _ => false end.

(** The HTTP server drops the request handler before it finished. *)
Definition request_cancelled (rid : nat) (s : Sys) : option Sys :=
  r ← sys_requests s !! rid;
  guard (in_flight r = true);;
  Some (put_request rid (mkReq Cancelled (rq_acked r)) s).

(** A new request reaches the server. *)
Definition request_arrives (head : RequestHead) (s : Sys) : option Sys :=
  guard (sys_server_up s = true);;
  let rid := sys_next s in
  let s := set_next (S rid) s in
  let (pos, s) := handle_request head s in
  Some (put_request rid (mkReq pos []) s).

(** The last [Arc<Server>] is dropped, and the session table with it. *)
Definition server_dropped (s : Sys) : option Sys :=
  guard (map_Forall (λ _ r, in_flight r = false) (sys_requests s));;
  guard (map_Forall (λ _ a, in_on_start a = false) (sys_actors s));;
  Some (set_server_up false (set_sessions ∅ s)).

(** [Server::take_stats], one atomic swap at a time; [sys_taken] adds up what callers got. *)
Definition take_tx (s : Sys) : Sys :=
  let (tx, st) := swap_tx (sys_stats s) in
  set_taken (mkStats (bytes_tx (sys_taken s) + tx) (bytes_rx (sys_taken s))) (set_stats st s).
Definition take_rx (s : Sys) : Sys :=
  let (rx, st) := swap_rx (sys_stats s) in
  set_taken (mkStats (bytes_tx (sys_taken s)) (bytes_rx (sys_taken s) + rx)) (set_stats st s).

(** * The server as a transition system *)

Inductive label : Type :=
| LRequest (head : RequestHead)                              (* a request arrives *)
| LBody (rid : nat) (chunk : option (result string bytes))   (* its body yields *)
| LResume (rid : nat)                                        (* its task runs again *)
| LCancel (rid : nat)                                        (* it is dropped *)
| LStart (aid : nat)                                         (* an actor begins on_start *)
| LConnected (aid : nat) (res : result io_error unit)        (* connect returns *)
| LDeliver (aid i : nat)                                     (* a message is handled *)
| LWritten (aid : nat) (res : WriteResult) (queued : bool)   (* write_all returns *)
| LStop (aid n : nat)                                        (* the actor's task ends *)
| LDrop (aid : nat)                                          (* its Session is dropped *)
| LPoll (stid : nat) (read : Poll (result io_error bytes)) (room : bool)  (* a body is polled *)
| LDropStream (stid : nat)                                   (* a body is dropped *)
| LFire (t : nat)                                            (* a timer's sleep is over *)
| LTick (d : N)                                              (* time passes *)
| LTakeTx | LTakeRx                                          (* take_stats *)
| LDropServer.

Definition step (s : Sys) (l : label) : option Sys :=
  match l with
  | LRequest head => request_arrives head s
  | LBody rid chunk => write_request_next rid chunk s
  | LResume rid => request_resumes rid s
  | LCancel rid => request_cancelled rid s
  | LStart aid => on_start aid s
  | LConnected aid res => on_start_connected aid res s
  | LDeliver aid i => deliver aid i s
  | LWritten aid res queued => handle_written aid res queued s
  | LStop aid n => actor_stops aid n s
  | LDrop aid => drop_session aid s
  | LPoll stid read room => snd <$> poll_next stid read room s
  | LDropStream stid => drop_stream stid s
  | LFire t => timer_fires t s
  | LTick d => Some (set_now (sys_now s + d)%N s)
  | LTakeTx => Some (take_tx s)
  | LTakeRx => Some (take_rx s)
  | LDropServer => server_dropped s
  end.

(** The states a server created with [config] can be in. *)
Definition reachable (config : Config) (s : Sys) : Prop :=
  reaches step (with_connector config) s.
End Server.
