(* ===== verification/ServerSteps.v ===== *)
(** The steps of the server as an inductive relation.

    [trans s s'] has one rule per kind of state change [step] makes, with what the
    executable definitions test as premises; [step_trans] proves that every step of
    the executable server is an instance of a rule. The invariants are proved by
    cases on [trans]. *)
From S2P Require Import Prelude Ext DomainFronting Stats State Session Server.

Section ServerSteps.
Context `{UuidLib, HttpLib, TryMutex}.
Implicit Types (s : Sys) (a : Actor) (st : StreamState) (r : ReqState).

(** The stream still owns the mutex guard of its session. *)
Definition holding (st : StreamState) : bool :=
  match st_pos st with Ended => false | _ => true end.

(** How a request comes to an end. *)
Inductive finish s : ReqPos → ReqPos → Prop :=
| finish_empty aid :
    finish s (AtBody aid 0) (respond_error (HttpError_from "Empty body"))
| finish_body aid total :
    total ≠ 0%Z → finish s (AtBody aid total) (Responded write_response)
| finish_body_err aid total e :
    finish s (AtBody aid total) (respond_error (HttpError_from e))
| finish_write_dead aid total data :
    actor_alive aid s = false →
    finish s (AtWrite aid total data None) (respond_error (HttpError_from "actor stopped"))
| finish_read_busy aid :
    finish s (AtRead aid (Some None))
      (respond_error (HttpError_code TOO_MANY_REQUESTS "Multiple read requests are not allowed"))
| finish_read aid stid :
    finish s (AtRead aid (Some (Some stid))) (Responded (read_response stid))
| finish_read_dead aid :
    actor_alive aid s = false →
    finish s (AtRead aid None) (respond_error (HttpError_from "Session actor is dead"))
| finish_cancel r :
    in_flight r = true → finish s (rq_pos r) Cancelled.

(** Where a request starts when its session is [aid]: [GET] reads, the others write. *)
Definition request_start (head : RequestHead) (aid : nat) : ReqPos :=
  match head_method head with GET => AtReadSend aid | _ => AtBody aid 0 end.

Inductive trans s : Sys → Prop :=
| T_noop : trans s s
| T_request_err e :
    sys_server_up s = true → he_code e = BAD_REQUEST →
    trans s (put_request (sys_next s) (mkReq (respond_error e) []) (set_next (S (sys_next s)) s))
| T_request_old (head : RequestHead) u aid :
    sys_server_up s = true →
    parse_session_id (sys_config s) head = Some u →
    sys_sessions s !! u = Some aid → actor_alive aid s = true →
    trans s (put_request (sys_next s) (mkReq (request_start head aid) [])
               (set_next (S (sys_next s)) s))
| T_request_new (head : RequestHead) u :
    sys_server_up s = true →
    parse_session_id (sys_config s) head = Some u →
    head_method head ≠ PATCH →
    (∀ aid, sys_sessions s !! u = Some aid → actor_alive aid s = false) →
    trans s
      (put_request (sys_next s) (mkReq (request_start head (S (sys_next s))) [])
         (insert_session u (set_next (S (sys_next s)) s)).2)
| T_finish rid r pos :
    sys_requests s !! rid = Some r → finish s (rq_pos r) pos →
    trans s (put_request rid (mkReq pos (rq_acked r)) s)
| T_body_chunk rid r aid total data :
    sys_requests s !! rid = Some r → rq_pos r = AtBody aid total →
    trans s (enqueue aid (SessionWrite data rid)
               (put_request rid (mkReq (AtWrite aid (add64 total (blen data)) data None)
                                   (rq_acked r)) s))
| T_write_acked rid r aid total data :
    sys_requests s !! rid = Some r → rq_pos r = AtWrite aid total data (Some ()) →
    trans s (set_stats (fetch_add_tx (blen data) (sys_stats s))
               (put_request rid (mkReq (AtBody aid total) (rq_acked r ++ [data])) s))
| T_read_send rid r aid :
    sys_requests s !! rid = Some r → rq_pos r = AtReadSend aid →
    trans s (enqueue aid (SessionRead rid)
               (put_request rid (mkReq (AtRead aid None) (rq_acked r)) s))
| T_start aid a :
    sys_actors s !! aid = Some a → ac_status a = Spawned →
    trans s
      (let n := sys_next s in
       put_actor aid (with_times (sys_now s) (sys_now s) (with_status (Starting n (S n)) a))
         (set_next (S (S n))
            (set_tasks
               (<[S n := mkTimer aid (sys_now s + arg_idle_timeout (ac_args a))]>
                  (<[n := mkTimer aid (sys_now s + arg_total_timeout (ac_args a))]> (sys_tasks s)))
               s)))
| T_connect_err aid a total idle :
    sys_actors s !! aid = Some a → ac_status a = Starting total idle →
    trans s (put_actor aid (stopped a) s)
| T_connect_ok aid a total idle :
    sys_actors s !! aid = Some a → ac_status a = Starting total idle →
    trans s
      (let n := sys_next s in
       let self := mkSession (arg_session_id (ac_args a)) mutex_new None
                     (arg_idle_timeout (ac_args a)) (Some n) (Some total) in
       put_actor aid (with_times (ac_created a) (sys_now s)
                        (with_session (Some self) (with_status Running a)))
         (set_next (S n)
            (set_tasks (<[n := mkTimer aid (sys_now s + arg_idle_timeout (ac_args a))]>
                          (delete idle (sys_tasks s)))
               (log_event (UpOpen aid (arg_upstream (ac_args a))) s))))
| T_read_refused aid a self i rid :
    sys_actors s !! aid = Some a → ac_status a = Running → ac_session a = Some self →
    ac_busy a = None → ac_stop a = false → ac_mailbox a !! i = Some (SessionRead rid) →
    try_lock_owned (upstream_read self) = None →
    trans s (reply_read rid None (put_actor aid (with_mailbox (delete i (ac_mailbox a)) a) s))
| T_read_granted aid a self i rid m :
    sys_actors s !! aid = Some a → ac_status a = Running → ac_session a = Some self →
    ac_busy a = None → ac_stop a = false → ac_mailbox a !! i = Some (SessionRead rid) →
    try_lock_owned (upstream_read self) = Some m →
    trans s
      (let n := sys_next s in
       reply_read rid (Some n)
         (put_actor aid (with_session (Some (with_reader m (Some n) self))
                           (with_mailbox (delete i (ac_mailbox a)) a))
            (put_stream n (mkStream aid rid FirstRead false []) (set_next (S n) s))))
| T_write_begin aid a self i data rid :
    sys_actors s !! aid = Some a → ac_status a = Running → ac_session a = Some self →
    ac_busy a = None → ac_stop a = false → ac_mailbox a !! i = Some (SessionWrite data rid) →
    trans s (put_actor aid (with_busy (Some (data, rid))
                              (with_mailbox (delete i (ac_mailbox a)) a)) s)
| T_reset aid a self i :
    sys_actors s !! aid = Some a → ac_status a = Running → ac_session a = Some self →
    ac_busy a = None → ac_stop a = false → ac_mailbox a !! i = Some SessionResetIdleTimeout →
    trans s
      (let n := sys_next s in
       put_actor aid
         (with_times (ac_created a) (sys_now s)
            (with_session (Some (with_idle_task (Some n) self))
               (with_mailbox (delete i (ac_mailbox a)) a)))
         (set_next (S n)
            (set_tasks (<[n := mkTimer aid (sys_now s + idle_timeout self)]>
                          (sys_tasks (abort_task (idle_timeout_task self) s))) s)))
| T_write_ok aid a data rid (queued : bool) :
    sys_actors s !! aid = Some a → ac_busy a = Some (data, rid) →
    trans s
      (let s1 := put_actor aid (with_busy None a)
                   (log_event (UpWrite aid rid data (length data)) s) in
       reply_write rid (if queued then enqueue aid SessionResetIdleTimeout s1 else s1))
| T_write_err aid a data rid n :
    sys_actors s !! aid = Some a → ac_busy a = Some (data, rid) → n ≤ length data →
    trans s
      (reply_write rid (put_actor aid (with_stop true (with_busy None a))
                          (log_event (UpWrite aid rid data n) s)))
| T_stop_busy aid a data rid n :
    sys_actors s !! aid = Some a → is_alive a = true → ac_kill a = true →
    ac_busy a = Some (data, rid) → n ≤ length data →
    trans s (put_actor aid (stopped a) (log_event (UpWrite aid rid data n) s))
| T_stop_idle aid a :
    sys_actors s !! aid = Some a → is_alive a = true → ac_kill a || ac_stop a = true →
    ac_busy a = None →
    trans s (put_actor aid (stopped a) s)
| T_drop aid a self :
    sys_actors s !! aid = Some a → ac_status a = Stopped → ac_session a = Some self →
    trans s
      (remove_session (session_id self)
         (abort_stream (upstream_read_abort self)
            (abort_task (idle_timeout_task self)
               (abort_task (total_timeout_task self)
                  (put_actor aid (with_session None a) s)))))
| T_received stid st data :
    sys_streams s !! stid = Some st → st_aborted st = false →
    st_pos st = FirstRead ∨ st_pos st = NextRead → data ≠ [] → (blen data ≤ READ_CAPACITY)%Z →
    trans s (put_stream stid (with_pos (Telling data) st) (received stid st data s))
| T_passed stid st data :
    sys_streams s !! stid = Some st → st_aborted st = false →
    st_pos st = FirstRead ∨ st_pos st = NextRead → data ≠ [] → (blen data ≤ READ_CAPACITY)%Z →
    trans s (yielded stid st data (received stid st data s))
| T_yield stid st data :
    sys_streams s !! stid = Some st → st_aborted st = false → st_pos st = Telling data →
    trans s (yielded stid st data s)
| T_release stid st :
    sys_streams s !! stid = Some st → holding st = true →
    trans s (release stid st s)
| T_fire t tk :
    sys_tasks s !! t = Some tk → (tk_deadline tk ≤ sys_now s)%N →
    trans s (set_actors (alter (with_kill true) (tk_actor tk) (sys_actors s))
               (set_tasks (delete t (sys_tasks s)) s))
| T_tick d : trans s (set_now (sys_now s + d)%N s)
| T_take_tx : trans s (take_tx s)
| T_take_rx : trans s (take_rx s)
| T_drop_server :
    map_Forall (λ _ a, in_on_start a = false) (sys_actors s) →
    trans s (set_server_up false (set_sessions ∅ s)).

(** * Every step of the server is a transition *)

Lemma request_trans head s s' : request_arrives head s = Some s' → trans s s'.
Proof.
  unfold request_arrives, handle_request, handle_request_inner. intros Hs.
  simplify_option_eq.
  destruct (parse_method (head_method head)) as [m|e] eqn:Em; simplify_eq/=.
  2:{ apply T_request_err; [done|]. revert Em. destruct (head_method head); intros; by simplify_eq/=. }
  destruct (parse_session_id (sys_config s) head) as [u|] eqn:Eu; simplify_eq/=.
  2:{ by apply T_request_err. }
  assert (Hpos : ∀ aid, match m with Get => AtReadSend aid | _ => AtBody aid 0 end
                        = request_start head aid).
  { intros aid. unfold request_start. revert Em. destruct (head_method head); intros; by simplify_eq/=. }
  assert (Hm : m ≠ Patch → head_method head ≠ PATCH) by (intros Hm Hh; rewrite Hh in Em; by simplify_eq/=).
  unfold lookup_session in Hs. simpl in Hs.
  destruct (sys_sessions s !! u) as [aid|] eqn:Es.
  - change (actor_alive aid (set_next (S (sys_next s)) s)) with (actor_alive aid s) in Hs.
    destruct (actor_alive aid s) eqn:Ea; simplify_eq/=.
    + rewrite Hpos. eapply T_request_old; eauto.
    + case_bool_decide; simplify_eq/=; [|by apply T_request_err].
      rewrite Hpos. eapply (T_request_new s head u); eauto. intros. by simplify_eq.
  - case_bool_decide; simplify_eq/=; [|by apply T_request_err].
    rewrite Hpos. eapply (T_request_new s head u); eauto. intros. by simplify_eq.
Qed.

Lemma write_next_trans rid chunk s s' : write_request_next rid chunk s = Some s' → trans s s'.
Proof.
  unfold write_request_next. intros Hs. simplify_option_eq.
  destruct (rq_pos _) eqn:Epos; simplify_eq/=.
  destruct chunk as [[data|e]|]; simplify_eq/=.
  - by eapply T_body_chunk.
  - eapply T_finish; [done|]. rewrite Epos. constructor.
  - eapply T_finish; [done|]. rewrite Epos. destruct (Z.eqb_spec total 0); subst; by constructor.
Qed.

Lemma resume_trans rid s s' : request_resumes rid s = Some s' → trans s s'.
Proof.
  unfold request_resumes. intros Hs.
  destruct (sys_requests s !! rid) as [r|] eqn:Er; simpl in Hs; [|done].
  destruct (rq_pos r) as [|aid total data [[]|]|aid|aid [[stid|]|]| |] eqn:Epos;
    simplify_option_eq.
  - by eapply T_write_acked.
  - eapply T_finish; [done|]. rewrite Epos. by constructor.
  - by eapply T_read_send.
  - eapply T_finish; [done|]. rewrite Epos. constructor.
  - eapply T_finish; [done|]. rewrite Epos. constructor.
  - eapply T_finish; [done|]. rewrite Epos. by constructor.
Qed.

Lemma deliver_trans aid i s s' : deliver aid i s = Some s' → trans s s'.
Proof.
  unfold deliver. intros Hs.
  destruct (sys_actors s !! aid) as [a|] eqn:Ea; simpl in Hs; [|done].
  apply bind_Some in Hs as (_ & _ & Hs).
  destruct (ac_status a) eqn:Est, (ac_session a) as [self|] eqn:Es,
    (ac_busy a) eqn:Eb, (ac_stop a) eqn:Ep; try done.
  destruct (ac_mailbox a !! i) as [[rid|data rid|]|] eqn:Em; simplify_eq/=.
  - unfold handle_read. destruct (try_lock_owned _) as [m|] eqn:El.
    + exact (T_read_granted s aid a self i rid m Ea Est Es Eb Ep Em El).
    + exact (T_read_refused s aid a self i rid Ea Est Es Eb Ep Em El).
  - exact (T_write_begin s aid a self i data rid Ea Est Es Eb Ep Em).
  - unfold handle_reset, reset_idle_timeout.
    exact (T_reset s aid a self i Ea Est Es Eb Ep Em).
Qed.

Lemma written_trans aid res queued s s' : handle_written aid res queued s = Some s' → trans s s'.
Proof.
  unfold handle_written. intros Hs.
  destruct (sys_actors s !! aid) as [a|] eqn:Ea; simpl in Hs; [|done].
  apply bind_Some in Hs as (_ & _ & Hs).
  destruct (ac_busy a) as [[data rid]|] eqn:Eb; simpl in Hs; [|done].
  destruct res as [|n]; simplify_option_eq.
  - exact (T_write_ok s aid a data rid queued Ea Eb).
  - by eapply T_write_err.
Qed.

Lemma stops_trans aid n s s' : actor_stops aid n s = Some s' → trans s s'.
Proof.
  unfold actor_stops. intros Hs.
  destruct (sys_actors s !! aid) as [a|] eqn:Ea; simpl in Hs; [|done].
  apply bind_Some in Hs as (Hal & _ & Hs). apply bind_Some in Hs as (Hk & _ & Hs).
  destruct (ac_busy a) as [[data rid]|] eqn:Eb.
  - apply bind_Some in Hs as ([Hkill Hn] & _ & Hs). simplify_eq. by eapply T_stop_busy.
  - simplify_eq. by eapply T_stop_idle.
Qed.

(** A stream that still waits for room in the mailbox. *)
Lemma put_stream_id stid st s : sys_streams s !! stid = Some st → put_stream stid st s = s.
Proof. intros Hs. destruct s. unfold put_stream, set_streams. simpl in *. by rewrite insert_id. Qed.

Lemma with_pos_id st pos : st_pos st = pos → with_pos pos st = st.
Proof. destruct st. simpl. by intros ->. Qed.

(** The outcomes of a poll of the stream [st]. *)
Inductive poll_case (stid : nat) st s : Poll (option bytes) → Sys → Prop :=
| PC_pending : poll_case stid st s Pending s
| PC_over : holding st = false ∨ st_aborted st = true → poll_case stid st s (Ready None) s
| PC_yield d : st_pos st = Telling d → st_aborted st = false →
    poll_case stid st s (Ready (Some d)) (yielded stid st d s)
| PC_received d : st_pos st = FirstRead ∨ st_pos st = NextRead → st_aborted st = false →
    d ≠ [] → (blen d ≤ READ_CAPACITY)%Z →
    poll_case stid st s Pending (put_stream stid (with_pos (Telling d) st) (received stid st d s))
| PC_passed d : st_pos st = FirstRead ∨ st_pos st = NextRead → st_aborted st = false →
    d ≠ [] → (blen d ≤ READ_CAPACITY)%Z →
    poll_case stid st s (Ready (Some d)) (yielded stid st d (received stid st d s))
| PC_release : st_pos st = FirstRead ∨ st_pos st = NextRead →
    poll_case stid st s (Ready None) (release stid st s).

Lemma poll_cases stid read room s p s' :
  poll_next stid read room s = Some (p, s') →
  ∃ st, sys_streams s !! stid = Some st ∧ poll_case stid st s p s'.
Proof.
  unfold poll_next. intros Hs. apply bind_Some in Hs as (st & Hst & Hs). exists st. split; [done|].
  destruct (st_aborted st) eqn:Ha; [simplify_eq; constructor; auto|].
  destruct (st_pos st) as [| |d|] eqn:Hp; [destruct read as [|[[]|]]..| |]; simplify_eq; try (by constructor; auto).
  1,2: apply bind_Some in Hs as (Hlen & _ & Hs); unfold tell_session in Hs;
    destruct (room || _); simplify_eq; by constructor; auto.
  - unfold tell_session in Hs. destruct (room || _); simplify_eq; [by apply PC_yield|].
    rewrite with_pos_id, put_stream_id by done. apply PC_pending.
  - apply PC_over. unfold holding. rewrite Hp. auto.
Qed.

Lemma poll_step stid read room p s s' :
  poll_next stid read room s = Some (p, s') → step s (LPoll stid read room) = Some s'.
Proof. simpl. by intros ->. Qed.

Lemma poll_trans stid read room p s s' : poll_next stid read room s = Some (p, s') → trans s s'.
Proof.
  intros (st & Hst & Hp)%poll_cases. destruct Hp as [|?|d ? ?|d ? ? ? ?|d ? ? ? ?|Hpos].
  - apply T_noop.
  - apply T_noop.
  - by apply T_yield.
  - by apply T_received.
  - by apply T_passed.
  - apply T_release; [done|]. unfold holding. by destruct Hpos as [-> | ->].
Qed.

Lemma step_trans s l s' : step s l = Some s' → trans s s'.
Proof.
  intros Hs. destruct l; simpl in Hs.
  - by eapply request_trans.
  - by eapply write_next_trans.
  - by eapply resume_trans.
  - apply bind_Some in Hs as (r & Er & Hs). apply bind_Some in Hs as (Hf & _ & Hs).
    simplify_eq. eapply T_finish; [done|]. by constructor.
  - apply bind_Some in Hs as (a & Ea & Hs). destruct (ac_status a) eqn:E; simplify_eq/=.
    exact (T_start s aid a Ea E).
  - apply bind_Some in Hs as (a & Ea & Hs). destruct (ac_status a) eqn:E; simplify_eq/=.
    destruct res; simplify_eq/=.
    + exact (T_connect_ok s aid a _ _ Ea E).
    + by eapply T_connect_err.
  - by eapply deliver_trans.
  - by eapply written_trans.
  - by eapply stops_trans.
  - apply bind_Some in Hs as (a & Ea & Hs).
    destruct (ac_status a) eqn:E, (ac_session a) as [self|] eqn:E2; simplify_eq/=.
    exact (T_drop s aid a self Ea E E2).
  - destruct (poll_next stid read room s) as [[p s1]|] eqn:E; simplify_eq/=. by eapply poll_trans.
  - apply bind_Some in Hs as (st & Es & Hs). destruct (st_pos st) eqn:E; simplify_eq/=.
    4: apply T_noop. all: apply T_release; [done|]; unfold holding; by rewrite E.
  - apply bind_Some in Hs as (tk & Et & Hs). apply bind_Some in Hs as (Hd & _ & Hs).
    simplify_eq/=. by eapply T_fire.
  - simplify_eq. apply T_tick.
  - simplify_eq. apply T_take_tx.
  - simplify_eq. apply T_take_rx.
  - apply bind_Some in Hs as (_ & _ & Hs). apply bind_Some in Hs as (Hf & _ & Hs).
    simplify_eq. by apply T_drop_server.
Qed.
End ServerSteps.
