(* ===== verification/ServerInv.v ===== *)
(** The basic invariants: identifiers, the session table, actors and timers.

    Every identifier in use is below [sys_next]; the table maps session ids to actors
    created for them; an actor has a [Session] exactly between the end of [on_start]
    and [Drop]; and while an actor lives its two timers are asleep with the deadlines
    the configuration gives, or it has been told to die. *)
From S2P Require Import Prelude Ext DomainFronting Stats State Session Server ServerSteps.

(** Case analysis on the lookups of an updated map. *)
Ltac map_hyps :=
  repeat match goal with
  | Hx : <[_:=_]> _ !! _ = Some _ |- _ =>
      apply lookup_insert_Some in Hx as [[? ?]|[? ?]]; simplify_eq/=
  | Hx : alter _ _ _ !! _ = Some _ |- _ =>
      apply lookup_alter_Some in Hx as [(? & ? & ? & ?)|[? ?]]; simplify_eq/=
  | Hx : delete _ _ !! _ = Some _ |- _ => apply lookup_delete_Some in Hx as [? ?]; simplify_eq/=
  | Hx : ∅ !! _ = Some _ |- _ => by rewrite lookup_empty in Hx
  end.

Ltac map_goal :=
  repeat (first [rewrite lookup_insert | rewrite lookup_alter | rewrite lookup_delete];
          case_decide; simplify_eq/=).

(** Split the conditionals left in the updated state. *)
Ltac split_ifs :=
  repeat match goal with
  | Hx : context [match ?x with _ => _ end] |- _ => destruct x eqn:?; simplify_eq/=
  | |- context [match ?x with _ => _ end] => destruct x eqn:?; simplify_eq/=
  end.

(** Cases on the rules of [trans]; [T_drop] and [T_write_ok] branch on a flag. *)
Ltac trans_cases Ht := inversion Ht; subst; clear Ht; simpl in *.

Section ServerInv.
Context `{UuidLib, HttpLib, TryMutex, !TryMutexLaws}.
Implicit Types (s : Sys) (a : Actor) (st : StreamState) (r : ReqState).

(** * Identifiers are fresh *)

Definition ids_fresh s : Prop :=
  (∀ k a, sys_actors s !! k = Some a → k < sys_next s) ∧
  (∀ k t, sys_tasks s !! k = Some t → k < sys_next s) ∧
  (∀ k st, sys_streams s !! k = Some st → k < sys_next s) ∧
  (∀ k r, sys_requests s !! k = Some r → k < sys_next s).

Lemma ids_fresh_trans s s' : ids_fresh s → trans s s' → ids_fresh s'.
Proof.
  unfold ids_fresh. intros (Ha & Htk & Hs & Hr) Ht.
  trans_cases Ht; repeat split; intros k x Hk.
  all: unfold abort_task, abort_stream in *; split_ifs; map_hyps.
  all: repeat match goal with
       | Hx : _ !! _ = Some _ |- _ => first [apply Ha in Hx | apply Htk in Hx | apply Hs in Hx | apply Hr in Hx]
       end; lia.
Qed.

(** * Actors keep their arguments, and a stopped actor stays stopped *)

Definition actor_evolves a a' : Prop :=
  ac_args a' = ac_args a ∧ (ac_status a = Stopped → ac_status a' = Stopped).

Lemma actor_evolves_trans s s' aid a :
  ids_fresh s → trans s s' → sys_actors s !! aid = Some a →
  ∃ a', sys_actors s' !! aid = Some a' ∧ actor_evolves a a'.
Proof.
  intros (Hf & _) Ht Ha. unfold actor_evolves.
  trans_cases Ht; try destruct queued; simpl.
  all: map_goal.
  all: try (by eauto 10); try (apply Hf in Ha; lia).
  all: rewrite ?Ha; simpl; eexists; (split; [done|]).
  all: unfold push_msg, unlock_reader; split_ifs; split; simpl; congruence.
Qed.

(** * The session table only names actors of that session *)

Definition table_wf s : Prop :=
  ∀ u aid, sys_sessions s !! u = Some aid →
    ∃ a, sys_actors s !! aid = Some a ∧ arg_session_id (ac_args a) = u.

Lemma table_wf_trans s s' : ids_fresh s → table_wf s → trans s s' → table_wf s'.
Proof.
  intros Hf Hw Ht u aid Hu.
  destruct (decide (sys_sessions s !! u = Some aid)) as [Hold|Hnew].
  - destruct (Hw _ _ Hold) as (a & Ha & Harg).
    destruct (actor_evolves_trans _ _ _ _ Hf Ht Ha) as (a' & Ha' & Hev & _).
    exists a'. split; congruence.
  - trans_cases Ht; try done.
    all: split_ifs; map_hyps; try done. all: rewrite lookup_insert_eq; by eauto.
Qed.

(** * Each actor's own fields fit its status *)

Definition session_wf (args : SessionArgs) (self : Session) : Prop :=
  session_id self = arg_session_id args ∧ idle_timeout self = arg_idle_timeout args ∧
  is_Some (total_timeout_task self) ∧ is_Some (idle_timeout_task self).

Definition actor_wf a : Prop :=
  (∀ self, ac_session a = Some self → session_wf (ac_args a) self) ∧
  match ac_status a with
  | Spawned | Starting _ _ => ac_session a = None ∧ ac_busy a = None ∧ ac_stop a = false
  | Running => is_Some (ac_session a)
  | Stopped => ac_mailbox a = [] ∧ ac_busy a = None
  end.

Definition actors_wf s : Prop := ∀ aid a, sys_actors s !! aid = Some a → actor_wf a.

Lemma actor_wf_push m a : actor_wf a → actor_wf (push_msg m a).
Proof. unfold actor_wf, push_msg, is_alive. intros [Hs Hst]. by destruct (ac_status a) eqn:E; simpl; rewrite ?E. Qed.

Lemma actor_wf_unlock a : actor_wf a → actor_wf (unlock_reader a).
Proof.
  unfold actor_wf, unlock_reader. intros [Hs Hst]. destruct (ac_session a) as [self|] eqn:E; [|by rewrite E].
  simpl. split.
  - intros self' [= <-]. exact (Hs self ltac:(done)).
  - destruct (ac_status a); naive_solver.
Qed.

#[local] Hint Resolve actor_wf_push actor_wf_unlock : core.

Lemma actors_wf_trans s s' : actors_wf s → trans s s' → actors_wf s'.
Proof.
  intros Hw Ht aid a Ha. unfold actors_wf in Hw.
  trans_cases Ht; eauto; try destruct queued; simpl in *; map_hyps; eauto.
  all: try apply actor_wf_push.
  all: try match goal with Hx : sys_actors _ !! _ = Some ?a |- _ => apply Hw in Hx; destruct a end.
  all: clear Hw; unfold actor_wf, session_wf, is_alive in *; simpl in *; destruct_and?; subst.
  all: split; [intros ? ?; simplify_eq/=|]; split_ifs; try naive_solver.
Qed.

(** * Timers *)

(** The two timer handles an actor holds, total timeout first. *)
Definition timer_handles a : list nat :=
  match ac_status a, ac_session a with
  | Starting x y, _ => [x; y]
  | _, Some self =>
      match total_timeout_task self, idle_timeout_task self with
      | Some x, Some y => [x; y]
      | _, _ => []
      end
  | _, None => []
  end.

(** What holds of the timer tasks of actor [aid]: until it is killed or stops, both
    its timers are asleep with the right deadlines; a handle only ever names a task
    of its own actor; and no other task is out to kill the actor, except those left
    behind when [connect] failed. *)
Record timers_at s (aid : nat) a : Prop := {
  tm_armed x y : timer_handles a = [x; y] → ac_kill a = false → ac_status a ≠ Stopped →
    sys_tasks s !! x = Some (mkTimer aid (ac_created a + arg_total_timeout (ac_args a))) ∧
    sys_tasks s !! y = Some (mkTimer aid (ac_active a + arg_idle_timeout (ac_args a)));
  tm_spawned : ac_status a = Spawned → ac_kill a = false;
  tm_owned t : t ∈ timer_handles a →
    t < sys_next s ∧ ∀ tk, sys_tasks s !! t = Some tk → tk_actor tk = aid;
  tm_distinct : NoDup (timer_handles a);
  tm_only t tk : sys_tasks s !! t = Some tk → tk_actor tk = aid →
    t ∈ timer_handles a ∨ (ac_status a = Stopped ∧ ac_session a = None);
}.

Definition timers_wf s : Prop :=
  (∀ t tk, sys_tasks s !! t = Some tk → is_Some (sys_actors s !! tk_actor tk)) ∧
  (∀ aid a, sys_actors s !! aid = Some a → timers_at s aid a).

(** Two states of an actor that agree on all the timers depend on. *)
Definition same_timers a a' : Prop :=
  timer_handles a' = timer_handles a ∧ ac_created a' = ac_created a ∧
  ac_active a' = ac_active a ∧ ac_args a' = ac_args a ∧ ac_kill a' = ac_kill a ∧
  (ac_status a' = Spawned → ac_status a = Spawned) ∧
  (ac_status a = Stopped → ac_status a' = Stopped ∧ (ac_session a = None → ac_session a' = None)).

Lemma same_timers_refl a : same_timers a a.
Proof. by repeat split. Qed.

Lemma same_timers_push m a a' : same_timers a a' → same_timers a (push_msg m a').
Proof. unfold push_msg. by destruct (is_alive a'). Qed.

Lemma same_timers_unlock a : same_timers a (unlock_reader a).
Proof.
  unfold same_timers, unlock_reader, timer_handles.
  destruct (ac_session a) eqn:E; simpl; rewrite ?E; by repeat split.
Qed.

#[local] Hint Resolve same_timers_refl same_timers_push same_timers_unlock : core.

(** Changes that leave the timers of [aid] alone. *)
Lemma timers_at_frame s s' aid a a' :
  timers_at s aid a → same_timers a a' → sys_next s ≤ sys_next s' →
  (∀ t, t ∈ timer_handles a → sys_tasks s' !! t = sys_tasks s !! t) →
  (∀ t tk, sys_tasks s' !! t = Some tk → tk_actor tk = aid → sys_tasks s !! t = Some tk) →
  timers_at s' aid a'.
Proof.
  intros [Harm Hsp Hown Hnd Honly] (Hh & Hc & Hac & Harg & Hk & Hs1 & Hs2) Hn Hin Hback.
  split; rewrite ?Hh, ?Hc, ?Hac, ?Harg, ?Hk; auto.
  - intros x y Hxy Hk' Hst. rewrite !Hin by (rewrite Hxy; set_solver).
    apply Harm; auto. intros ?. by apply Hst, Hs2.
  - intros t Ht. rewrite (Hin t Ht). destruct (Hown t Ht). split; [lia|done].
  - intros t tk Ht Htk. destruct (Honly t tk) as [?|[? ?]]; auto. right. naive_solver.
Qed.

(** Same tasks, same actor up to irrelevant fields. *)
Lemma timers_at_same s s' aid a a' :
  timers_at s aid a → same_timers a a' → sys_next s ≤ sys_next s' →
  sys_tasks s' = sys_tasks s → timers_at s' aid a'.
Proof. intros Ht Hs Hn Htk. eapply timers_at_frame; eauto; intros *; rewrite Htk; auto. Qed.

(** Another actor's timers come and go: those of [aid] stay. *)
Lemma timers_at_other s s' aid aid0 a :
  timers_at s aid a → aid ≠ aid0 → sys_next s ≤ sys_next s' →
  (∀ t, t < sys_next s → sys_tasks s' !! t ≠ sys_tasks s !! t →
     ∃ tk, sys_tasks s !! t = Some tk ∧ tk_actor tk = aid0) →
  (∀ t tk, sys_tasks s' !! t = Some tk → tk_actor tk ≠ aid0 → sys_tasks s !! t = Some tk) →
  timers_at s' aid a.
Proof.
  intros Ht Hne Hn Hch Hback. eapply timers_at_frame; eauto.
  - intros t Hin. destruct (tm_owned _ _ _ Ht t Hin) as [Hlt Hown].
    destruct (decide (sys_tasks s' !! t = sys_tasks s !! t)) as [|Hd]; [done|].
    destruct (Hch t Hlt Hd) as (tk & Htk & Hact). rewrite (Hown tk Htk) in Hact. congruence.
  - intros t tk Htk Hact. apply Hback; congruence.
Qed.

(** A stopped actor whose session is gone has nothing to keep. *)
Lemma timers_at_stopped s aid a :
  ac_status a = Stopped → ac_session a = None → timers_at s aid a.
Proof.
  intros Hst Hs. assert (Hh : timer_handles a = []) by (unfold timer_handles; by rewrite Hst, Hs).
  split; rewrite ?Hh; try congruence; auto using NoDup_nil_2.
  intros t Ht. by apply not_elem_of_nil in Ht.
Qed.

(** The six ways the timers of an actor change. *)

Lemma timers_at_new s aid a :
  ac_status a = Spawned → ac_session a = None → ac_kill a = false →
  (∀ t tk, sys_tasks s !! t = Some tk → tk_actor tk ≠ aid) → timers_at s aid a.
Proof.
  intros Hst Hs Hk Hno.
  assert (Hh : timer_handles a = []) by (unfold timer_handles; by rewrite Hst, Hs).
  split; rewrite ?Hh; try congruence; auto using NoDup_nil_2.
  - intros t Ht. by apply not_elem_of_nil in Ht.
  - intros t tk Ht Htk. by destruct (Hno t tk).
Qed.

Lemma timers_at_started s s' aid a n :
  sys_next s = n → timers_at s aid a → timer_handles a = [] → ac_status a = Spawned →
  (∀ t tk, sys_tasks s !! t = Some tk → t < n) →
  sys_next s' = S (S n) →
  sys_tasks s' = <[S n := mkTimer aid (sys_now s + arg_idle_timeout (ac_args a))]>
                   (<[n := mkTimer aid (sys_now s + arg_total_timeout (ac_args a))]> (sys_tasks s)) →
  timers_at s' aid (with_times (sys_now s) (sys_now s) (with_status (Starting n (S n)) a)).
Proof.
  intros <- [Harm Hsp Hown Hnd Honly] Hh Hst Hlt Hn Htk.
  set (a' := with_times _ _ _).
  assert (Hh' : timer_handles a' = [sys_next s; S (sys_next s)]) by done.
  split; rewrite ?Hh', ?Htk, ?Hn.
  - intros x y Hxy _ _. simplify_eq/=. by rewrite lookup_insert_ne, !lookup_insert_eq by lia.
  - done.
  - intros t [->|[->|[]%not_elem_of_nil]%elem_of_cons]%elem_of_cons; split; try lia;
      intros tk Ht; map_hyps; try lia; apply Hlt in Ht; lia.
  - apply NoDup_cons. split; [set_solver by lia | apply NoDup_singleton].
  - intros t tk Ht Hact. map_hyps; [set_solver..|].
    destruct (Honly t tk) as [Hin|[? ?]]; [done..| |congruence]. rewrite Hh in Hin. set_solver.
Qed.

Lemma timers_at_stops s s' aid a :
  timers_at s aid a → actor_wf a → ac_status a ≠ Stopped →
  sys_tasks s' = sys_tasks s → sys_next s ≤ sys_next s' → timers_at s' aid (stopped a).
Proof.
  intros Ht [_ Hw] Hne Htk Hn. destruct (ac_status a) eqn:E; [..|done].
  1, 2: apply timers_at_stopped; [done | by apply Hw].
  eapply timers_at_same; eauto. destruct Hw as [self Hs].
  unfold same_timers, timer_handles. simpl. rewrite E, Hs. by repeat split.
Qed.

(** [reset_idle_timeout]: the idle timer [y] is replaced by a fresh one. *)
Lemma timers_at_renew s s' aid a a' x y n :
  sys_next s = n → timers_at s aid a → timer_handles a = [x; y] → timer_handles a' = [x; n] →
  ac_status a ≠ Stopped → ac_status a' = Running →
  ac_kill a' = ac_kill a → ac_created a' = ac_created a → ac_args a' = ac_args a →
  ac_active a' = sys_now s →
  sys_next s' = S n →
  sys_tasks s' = <[n := mkTimer aid (sys_now s + arg_idle_timeout (ac_args a))]>
                   (delete y (sys_tasks s)) →
  timers_at s' aid a'.
Proof.
  intros <- [Harm Hsp Hown Hnd Honly] Hh Hh' Hst Hst' Hk Hc Hargs Hac Hn Htk.
  rewrite Hh in *. destruct (Hown x) as [Hx Hxo]; [set_solver|].
  apply NoDup_cons in Hnd as [Hxy _]. assert (x ≠ y) by set_solver.
  split; rewrite ?Hh', ?Hk, ?Hc, ?Hargs, ?Hac, ?Htk, ?Hn.
  - intros x' y' [= <- <-] Hkill _. destruct (Harm x y) as [Ht Hi]; [done..|].
    by rewrite lookup_insert_ne, lookup_delete_ne, lookup_insert_eq by lia.
  - congruence.
  - intros t [->|[->|[]%not_elem_of_nil]%elem_of_cons]%elem_of_cons; split; try lia;
      intros tk Ht; map_hyps; eauto.
  - apply NoDup_cons. split; [|apply NoDup_singleton]. apply not_elem_of_cons.
    split; [lia|apply not_elem_of_nil].
  - intros t tk Ht Hact. map_hyps; [set_solver|].
    destruct (Honly t tk) as [Hin|[? ?]]; [done..| |congruence]. set_solver.
Qed.

Lemma timers_at_killed s s' aid a t :
  timers_at s aid a → ac_status a ≠ Spawned →
  sys_tasks s' = delete t (sys_tasks s) → sys_next s' = sys_next s →
  timers_at s' aid (with_kill true a).
Proof.
  intros [Harm Hsp Hown Hnd Honly] Hne Htk Hn.
  assert (Hh : timer_handles (with_kill true a) = timer_handles a) by done.
  split; rewrite ?Hh, ?Hn, ?Htk; simpl; try done.
  - intros t' Ht. destruct (Hown t' Ht) as [? Hact]. split; [done|].
    intros tk Hl. map_hyps. eauto.
  - intros t' tk Hl Hact. map_hyps. eauto.
Qed.

Lemma timers_target_trans s s' :
  ids_fresh s → timers_wf s → trans s s' →
  ∀ t tk, sys_tasks s' !! t = Some tk → is_Some (sys_actors s' !! tk_actor tk).
Proof.
  intros Hf [Htgt _] Ht t tk Htk.
  assert (is_Some (sys_actors s !! tk_actor tk)) as [a Ha].
  { trans_cases Ht; try destruct queued; unfold abort_task in *; split_ifs; map_hyps; simpl; eauto. }
  destruct (actor_evolves_trans _ _ _ _ Hf Ht Ha) as (a' & Ha' & _). by exists a'.
Qed.

(** The handles of a session under [actor_wf]. *)
Lemma session_handles a self :
  actor_wf a → ac_session a = Some self →
  ∃ x y, total_timeout_task self = Some x ∧ idle_timeout_task self = Some y ∧
         timer_handles a = [x; y].
Proof.
  intros [Hs Hst] Hself. destruct (Hs _ Hself) as (_ & _ & [x Hx] & [y Hy]).
  exists x, y. unfold timer_handles. rewrite Hself, Hx, Hy.
  destruct (ac_status a); naive_solver.
Qed.

Lemma spawned_handles a : actor_wf a → ac_status a = Spawned → timer_handles a = [].
Proof. unfold timer_handles. intros [_ Hst] E. rewrite E in *. by destruct Hst as [-> _]. Qed.

(** Only tasks held by [aid0] disappear, and only new ones for [aid0] appear. *)
Lemma timers_at_disjoint s s' aid aid0 a a0 :
  timers_at s aid a → timers_at s aid0 a0 → aid ≠ aid0 → sys_next s ≤ sys_next s' →
  (∀ t, t < sys_next s → t ∉ timer_handles a0 → sys_tasks s' !! t = sys_tasks s !! t) →
  (∀ t, t < sys_next s → t ∈ timer_handles a0 → sys_tasks s' !! t = None ∨ sys_tasks s' !! t = sys_tasks s !! t) →
  (∀ t tk, sys_tasks s' !! t = Some tk → tk_actor tk ≠ aid0 → sys_tasks s !! t = Some tk) →
  timers_at s' aid a.
Proof.
  intros Ht Ht0 Hne Hn Hsame Hgone Hback. eapply timers_at_other; eauto.
  intros t Hlt Hd. destruct (decide (t ∈ timer_handles a0)) as [Hin|Hnin]; [|by destruct Hd; auto].
  destruct (tm_owned _ _ _ Ht0 t Hin) as [_ Hown].
  destruct (sys_tasks s !! t) as [tk|] eqn:E; [by exists tk; auto|].
  destruct (Hgone t Hlt Hin); congruence.
Qed.

Ltac finish_disjoint :=
  simpl; intros; repeat match goal with Hh : timer_handles _ = _ |- _ => rewrite Hh in * end;
  repeat match goal with Hn : _ ∉ _ :: _ |- _ => apply not_elem_of_cons in Hn as [? Hn] end;
  map_hyps; map_goal; try done; try lia; auto.

Lemma timers_wf_trans s s' :
  ids_fresh s → actors_wf s → timers_wf s → trans s s' → timers_wf s'.
Proof.
  intros Hf Hw Htw Ht. split; [by eapply timers_target_trans|].
  destruct Hf as (Hfa & Hft & _). destruct Htw as [Htgt Htm].
  intros aid a Ha. trans_cases Ht; eauto; try destruct queued; simpl in *; map_hyps.
  all: try (by eapply timers_at_same; [eapply Htm; eassumption|..]; simpl; eauto).
  all: try (pose proof (Hw _ _ ltac:(eassumption)) as Hwa).
  all: try (eapply timers_at_stops; [by eapply Htm|done| |done|done];
            unfold is_alive in *; intros Hst; rewrite Hst in *; done).
  - (* T_request_new *)
    apply timers_at_new; try done. simpl. intros t tk Htk Hact.
    destruct (Htgt _ _ Htk) as [a Ha]. apply Hfa in Ha. lia.
  - by eapply timers_at_started; eauto using spawned_handles.
  - pose proof (spawned_handles _ Hwa ltac:(done)) as Hh.
    eapply (timers_at_disjoint s _ aid aid0 a a0); eauto; finish_disjoint.
  - (* T_connect_ok *)
    destruct Hwa as [Hwa1 Hwa2]. rewrite H4 in Hwa2.
    eapply (timers_at_renew s); eauto; simpl; try done; try congruence.
    all: unfold timer_handles; by rewrite ?H4.
  - assert (Hh : timer_handles a0 = [total; idle]) by (unfold timer_handles; by rewrite H4).
    eapply (timers_at_disjoint s _ aid aid0 a a0); eauto; finish_disjoint.
  - (* T_read_granted *)
    eapply timers_at_same; eauto; simpl; [|lia].
    unfold same_timers, timer_handles. simpl. rewrite H4, H5. by repeat split.
  - (* T_reset *)
    destruct (session_handles _ _ Hwa H5) as (x & y & Hx & Hy & Hh). rewrite Hy.
    destruct (proj1 Hwa _ H5) as (_ & Hidle & _).
    eapply (timers_at_renew s); eauto; simpl; try done; try congruence.
    unfold timer_handles. simpl. by rewrite H4, Hx.
  - destruct (session_handles _ _ Hwa H5) as (x & y & Hx & Hy & Hh). rewrite Hy.
    eapply (timers_at_disjoint s _ aid aid0 a a0); eauto; finish_disjoint.
  - (* T_write_ok *)
    eapply timers_at_same; eauto; simpl. apply same_timers_push. by repeat split.
  - (* T_drop *) by apply timers_at_stopped.
  - destruct (session_handles _ _ Hwa H5) as (x & y & Hx & Hy & Hh).
    eapply (timers_at_disjoint s _ aid aid0 a a0); eauto; rewrite ?Hx, ?Hy; finish_disjoint.
  - (* T_fire *)
    eapply timers_at_killed; eauto. intros Hst.
    destruct (tm_only _ _ _ (Htm _ _ ltac:(eassumption)) _ _ H3 eq_refl) as [Hin|[? ?]]; [|congruence].
    rewrite (spawned_handles _ Hwa Hst) in Hin. by apply not_elem_of_nil in Hin.
  - destruct (Htgt _ _ H3) as [a0 Ha0].
    eapply (timers_at_other s _ aid (tk_actor tk) a); eauto; simpl.
    + intros t' Hlt Hd. destruct (decide (t = t')) as [<-|]; [by eauto|].
      by rewrite lookup_delete_ne in Hd.
    + intros t' tk' Ht' _. by map_hyps.
Qed.
End ServerInv.
