(* ===== verification/StreamInv.v ===== *)
(** The response streams of a session: who holds the reader mutex.

    At any time at most one stream reads from a session's upstream, and while the
    session lives, its abort handle is the one of that stream. *)
From S2P Require Import Prelude Ext DomainFronting Stats State Session Server ServerSteps ServerInv.

Section StreamInv.
Context `{UuidLib, HttpLib, TryMutex, !TryMutexLaws}.
Implicit Types (s : Sys) (a : Actor) (st : StreamState) (r : ReqState).

(** The part of a session the streams depend on. *)
Definition reader_of a : option (mutex * option nat) :=
  (λ self, (upstream_read self, upstream_read_abort self)) <$> ac_session a.

(** A stream that holds the guard: its actor's mutex is locked and the session's
    abort handle is this stream's; if the session is gone, it has been aborted. *)
Definition holder_ok s (stid : nat) st : Prop :=
  ∃ a, sys_actors s !! st_actor st = Some a ∧
    match reader_of a with
    | Some (m, abort) => mutex_locked m = true ∧ abort = Some stid ∧ st_aborted st = false
    | None => st_aborted st = true ∧ ac_status a = Stopped
    end.

(** A locked mutex is held by the stream the abort handle names, and an abort handle
    only ever names a stream of the same actor. *)
Definition reader_ok s (aid : nat) a : Prop :=
  ∀ m abort, reader_of a = Some (m, abort) →
    (∀ stid, abort = Some stid →
       ∃ st, sys_streams s !! stid = Some st ∧ st_actor st = aid) ∧
    (mutex_locked m = true →
       ∃ stid st, abort = Some stid ∧ sys_streams s !! stid = Some st ∧ holding st = true).

Record streams_wf s : Prop := {
  sw_holder stid st : sys_streams s !! stid = Some st → holding st = true → holder_ok s stid st;
  sw_reader aid a : sys_actors s !! aid = Some a → reader_ok s aid a;
  sw_unique i j sti stj :
    sys_streams s !! i = Some sti → sys_streams s !! j = Some stj →
    holding sti = true → holding stj = true → st_actor sti = st_actor stj → i = j;
}.

(** Steps that change neither the streams nor any reader. *)
Lemma streams_wf_frame s s' :
  streams_wf s → sys_streams s' = sys_streams s →
  (∀ aid a, sys_actors s !! aid = Some a → ∃ a', sys_actors s' !! aid = Some a' ∧
     reader_of a' = reader_of a ∧ (ac_status a = Stopped → ac_status a' = Stopped)) →
  (∀ aid a', sys_actors s' !! aid = Some a' → reader_of a' = None ∨
     ∃ a, sys_actors s !! aid = Some a ∧ reader_of a' = reader_of a) →
  streams_wf s'.
Proof.
  intros [Hh Hr Hu] Hst Hfwd Hback. split; rewrite ?Hst; [| |done].
  - intros stid st Hlk Hho. destruct (Hh _ _ Hlk Hho) as (a & Ha & Hm).
    destruct (Hfwd _ _ Ha) as (a' & Ha' & Hra & Hsp). exists a'. split; [done|].
    rewrite Hra. destruct (reader_of a) as [[m abort]|]; naive_solver.
  - intros aid a' Ha'. unfold reader_ok. rewrite Hst.
    destruct (Hback _ _ Ha') as [->|(a & Ha & ->)]; [done|]. by eapply Hr.
Qed.

Lemma reader_push m a : reader_of (push_msg m a) = reader_of a.
Proof. unfold push_msg. by destruct (is_alive a). Qed.

(** The steps covered by the frame rule: all that do not start, drop or end a
    stream's hold on a reader. *)
Lemma streams_wf_quiet s s' :
  ids_fresh s → streams_wf s → trans s s' → sys_streams s' = sys_streams s →
  (∀ aid a a', sys_actors s !! aid = Some a → sys_actors s' !! aid = Some a' →
     reader_of a' = reader_of a) →
  (∀ aid a', sys_actors s' !! aid = Some a' → sys_actors s !! aid = None → reader_of a' = None) →
  streams_wf s'.
Proof.
  intros Hf Hw Ht Hst Hsame Hnew. eapply streams_wf_frame; eauto.
  - intros aid a Ha. destruct (actor_evolves_trans _ _ _ _ Hf Ht Ha) as (a' & Ha' & _ & Hs).
    exists a'. eauto.
  - intros aid a' Ha'. destruct (sys_actors s !! aid) as [a|] eqn:E; [right|left]; eauto.
Qed.

(** A stream that keeps its guard moves to another await point. *)
Lemma streams_wf_move s s' stid st st' :
  streams_wf s → sys_streams s !! stid = Some st → holding st = true →
  sys_streams s' = <[stid := st']> (sys_streams s) →
  st_actor st' = st_actor st → st_aborted st' = st_aborted st → holding st' = true →
  (∀ aid a', sys_actors s' !! aid = Some a' →
     ∃ a, sys_actors s !! aid = Some a ∧ reader_of a' = reader_of a) →
  (∀ aid a, sys_actors s !! aid = Some a → ∃ a', sys_actors s' !! aid = Some a' ∧
     reader_of a' = reader_of a ∧ (ac_status a = Stopped → ac_status a' = Stopped)) →
  streams_wf s'.
Proof.
  intros [Hh Hr Hu] Hst Hho Hs' Hact Hab Hho' Hback Hfwd. split.
  - intros k sk Hk Hhk.
    assert (∃ sk0, sys_streams s !! k = Some sk0 ∧ holding sk0 = true ∧
              st_actor sk = st_actor sk0 ∧ st_aborted sk = st_aborted sk0) as (sk0 & Hk0 & Hhk0 & E1 & E2).
    { rewrite Hs' in Hk. map_hyps; eauto. }
    destruct (Hh _ _ Hk0 Hhk0) as (a & Ha & Hm). destruct (Hfwd _ _ Ha) as (a' & Ha' & Hra & Hsp).
    exists a'. rewrite E1, E2, Hra. split; [done|].
    destruct (reader_of a) as [[m abort]|]; naive_solver.
  - intros aid a' Ha' m abort Hra. destruct (Hback _ _ Ha') as (a & Ha & Hra').
    rewrite Hra' in Hra. destruct (Hr _ _ Ha m abort Hra) as [H1r H2r]. rewrite Hs'. split.
    + intros k Hk. destruct (H1r k Hk) as (sk & Hsk & Hska).
      rewrite lookup_insert. case_decide; simplify_eq; eauto.
    + intros Hm. destruct (H2r Hm) as (k & sk & Hk & Hsk & Hhk).
      exists k. rewrite lookup_insert. case_decide; simplify_eq; eauto.
  - intros i j si sj. rewrite Hs'. intros Hi Hj Hhi Hhj Heq.
    assert (Hlift : ∀ k sk, <[stid:=st']> (sys_streams s) !! k = Some sk → holding sk = true →
      ∃ sk0, sys_streams s !! k = Some sk0 ∧ holding sk0 = true ∧ st_actor sk = st_actor sk0).
    { intros k sk Hk Hhk. map_hyps; eauto. }
    destruct (Hlift _ _ Hi Hhi) as (si0 & ? & ? & E1), (Hlift _ _ Hj Hhj) as (sj0 & ? & ? & E2).
    eapply Hu; eauto. congruence.
Qed.

(** So does one that has told the session. *)
Lemma streams_wf_pushed s s' stid st st' msg :
  streams_wf s → sys_streams s !! stid = Some st → holding st = true →
  sys_streams s' = <[stid := st']> (sys_streams s) →
  sys_actors s' = alter (push_msg msg) (st_actor st) (sys_actors s) →
  st_actor st' = st_actor st → st_aborted st' = st_aborted st → holding st' = true →
  streams_wf s'.
Proof.
  intros Hw Hst Hho Hs' Ha' E1 E2 Hho'. eapply (streams_wf_move s _ stid st st'); eauto.
  - intros k a' Hk. rewrite Ha' in Hk. apply lookup_alter_Some in Hk as [(<- & x & Hx & ->)|[Hne Hk]]; [|by eauto].
    exists x. split; [done | apply reader_push].
  - intros k a Hk. rewrite Ha'. destruct (decide (st_actor st = k)) as [<-|Hne].
    + rewrite lookup_alter_eq, Hk. eexists. split; [done|]. rewrite reader_push.
      split; [done|]. unfold push_msg. by destruct (is_alive a).
    + rewrite lookup_alter_ne by done. by eauto.
Qed.

(** A stream ends and gives its guard back. *)
Lemma streams_wf_release s stid st :
  streams_wf s → sys_streams s !! stid = Some st → holding st = true →
  streams_wf (release stid st s).
Proof.
  intros [Hh Hr Hu] Hst Hho. split; simpl.
  - intros k sk Hk Hhk. apply lookup_insert_Some in Hk as [[<- <-]|[Hne Hk]]; [done|].
    destruct (Hh _ _ Hk Hhk) as (a & Ha & Hm).
    assert (st_actor st ≠ st_actor sk) by (intros E; by destruct (Hu _ _ _ _ Hst Hk Hho Hhk E)).
    exists a. simpl. by rewrite lookup_alter_ne.
  - intros aid a Ha m abort Hra. simpl.
    assert (∃ a0 m0, sys_actors s !! aid = Some a0 ∧ reader_of a0 = Some (m0, abort) ∧
              (st_actor st = aid ∧ mutex_locked m = false ∨ st_actor st ≠ aid ∧ m0 = m))
      as (a0 & m0 & Ha0 & Hra0 & Hm).
    { apply lookup_alter_Some in Ha as [(<- & x & Hx & ->)|[Hne Ha]]; [|by exists a, m; eauto].
      unfold unlock_reader, reader_of in *. destruct (ac_session x) as [self|] eqn:E; simplify_eq/=;
        [|by rewrite E in *]. exists x, (upstream_read self). rewrite E.
      simplify_eq/=. split; [done|]. split; [done|]. left. split; [done | apply drop_guard_frees]. }
    destruct (Hr _ _ Ha0 _ _ Hra0) as [H1r H2r]. split.
    + intros k Hk. destruct (H1r k Hk) as (sk & Hsk & Hska).
      rewrite lookup_insert. case_decide; simplify_eq/=; eauto.
    + intros Hl. destruct Hm as [[? ?]|[Hne ->]]; [congruence|].
      destruct (H2r Hl) as (k & sk & -> & Hsk & Hhk). destruct (H1r k eq_refl) as (sk' & ? & ?).
      exists k, sk. rewrite lookup_insert_ne; [done|]. intros ->. congruence.
  - intros i j si sj Hi Hj Hhi Hhj. map_hyps; try done. by eapply Hu.
Qed.

(** A session starts with a free mutex and no stream. *)
Lemma streams_wf_connect s s' aid a a' :
  streams_wf s → sys_actors s !! aid = Some a → reader_of a = None → ac_status a ≠ Stopped →
  sys_streams s' = sys_streams s → sys_actors s' = <[aid := a']> (sys_actors s) →
  reader_of a' = Some (mutex_new, None) → streams_wf s'.
Proof.
  intros [Hh Hr Hu] Ha Hra Hst Hs' Ha' Hra'. split; rewrite ?Hs', ?Ha'; [| |done].
  - intros k sk Hk Hhk. destruct (Hh _ _ Hk Hhk) as (a1 & Ha1 & Hm). exists a1. rewrite Ha'.
    rewrite lookup_insert_ne; [done|]. intros E. rewrite <- E in Ha1. simplify_eq.
    rewrite Hra in Hm. by destruct Hm.
  - intros k a1 Hk m abort Hm. rewrite Hs'. map_hyps; [|by eapply Hr].
    split; [done|]. by rewrite mutex_new_free.
Qed.

(** A new stream takes the guard of a free mutex. *)
Lemma streams_wf_grant s s' aid rid a a' m0 m abort n :
  streams_wf s → sys_actors s !! aid = Some a → reader_of a = Some (m0, abort) →
  mutex_locked m0 = false → mutex_locked m = true → sys_streams s !! n = None →
  sys_streams s' = <[n := mkStream aid rid FirstRead false []]> (sys_streams s) →
  sys_actors s' = <[aid := a']> (sys_actors s) →
  reader_of a' = Some (m, Some n) → streams_wf s'.
Proof.
  intros [Hh Hr Hu] Ha Hra Hfree Hm Hn Hs' Ha' Hra'.
  assert (Hno : ∀ k sk, sys_streams s !! k = Some sk → holding sk = true → st_actor sk ≠ aid).
  { intros k sk Hk Hhk <-. destruct (Hh _ _ Hk Hhk) as (a1 & Ha1 & Hm1). simplify_eq.
    rewrite Hra in Hm1. naive_solver congruence. }
  split; rewrite ?Hs', ?Ha'.
  - intros k sk Hk Hhk. unfold holder_ok. rewrite Ha'. map_hyps.
    + exists a'. rewrite lookup_insert_eq, Hra'. done.
    + destruct (Hh _ _ ltac:(eassumption) Hhk) as (a1 & Ha1 & Hm1). exists a1.
      rewrite lookup_insert_ne; [done|]. intros E. by eapply Hno.
  - intros aid1 a1 Ha1 m1 abort1 Hra1. rewrite Hs'. map_hyps.
    + split.
      * intros k [= <-]. rewrite lookup_insert_eq. by eauto.
      * intros _. exists n. rewrite lookup_insert_eq. by eauto.
    + destruct (Hr _ _ ltac:(eassumption) _ _ Hra1) as [H1r H2r]. split.
      * intros k Hk. destruct (H1r k Hk) as (sk & Hsk & ?).
        rewrite lookup_insert_ne by congruence. eauto.
      * intros Hl. destruct (H2r Hl) as (k & sk & Hk & Hsk & ?).
        exists k, sk. rewrite lookup_insert_ne by congruence. eauto.
  - intros i j si sj Hi Hj Hhi Hhj Heq.
    apply lookup_insert_Some in Hi as [[<- <-]|[Hni Hi]], Hj as [[<- <-]|[Hnj Hj]]; try done.
    + by destruct (Hno j sj).
    + by destruct (Hno i si).
    + by eapply Hu.
Qed.

(** [Drop] of a session aborts the stream that holds its reader. *)
Lemma streams_wf_drop s s' aid a a' self :
  streams_wf s → sys_actors s !! aid = Some a → ac_session a = Some self →
  sys_actors s' = <[aid := a']> (sys_actors s) → ac_session a' = None → ac_status a' = Stopped →
  sys_streams s' = sys_streams (abort_stream (upstream_read_abort self) s) →
  streams_wf s'.
Proof.
  intros [Hh Hr Hu] Ha Hself Ha' Hs' Hst' Hstr.
  assert (Hra : reader_of a = Some (upstream_read self, upstream_read_abort self))
    by (unfold reader_of; by rewrite Hself).
  assert (Hra' : reader_of a' = None) by (unfold reader_of; by rewrite Hs').
  assert (Hback : ∀ k sk, sys_streams s' !! k = Some sk → ∃ sk0, sys_streams s !! k = Some sk0 ∧
     (sk = sk0 ∧ upstream_read_abort self ≠ Some k ∨ sk = set_aborted sk0 ∧ upstream_read_abort self = Some k)).
  { intros k sk. rewrite Hstr. unfold abort_stream. simpl.
    destruct (upstream_read_abort self) as [x|]; intros Hk; map_hyps; eauto 10 with congruence. }
  assert (Hfwd : ∀ k sk, sys_streams s !! k = Some sk → ∃ sk', sys_streams s' !! k = Some sk' ∧
     st_actor sk' = st_actor sk ∧ holding sk' = holding sk).
  { intros k sk Hk. rewrite Hstr. unfold abort_stream. simpl.
    destruct (upstream_read_abort self) as [x|]; map_goal; rewrite ?Hk; simpl; eauto. }
  split.
  - intros k sk Hk Hhk. destruct (Hback _ _ Hk) as (sk0 & Hk0 & Hsk). unfold holder_ok. rewrite Ha'.
    assert (Hhk0 : holding sk0 = true) by (by destruct Hsk as [[-> _]|[-> _]]).
    assert (E : st_actor sk = st_actor sk0) by (by destruct Hsk as [[-> _]|[-> _]]).
    destruct (Hh _ _ Hk0 Hhk0) as (a1 & Ha1 & Hm1). rewrite E.
    destruct (decide (aid = st_actor sk0)) as [->|Hne].
    + exists a'. rewrite lookup_insert_eq, Hra'. simplify_eq. rewrite Hra in Hm1.
      destruct Hsk as [[-> ?]|[-> ?]]; naive_solver.
    + exists a1. rewrite lookup_insert_ne by done. split; [done|].
      destruct Hsk as [[-> ?]|[-> Hx]]; [done|].
      destruct (Hr _ _ Ha _ _ Hra) as [H1r _]. destruct (H1r k Hx) as (? & ? & ?). congruence.
  - intros aid1 a1 Ha1 m1 abort1 Hra1. rewrite Ha' in Ha1. map_hyps.
    destruct (Hr _ _ ltac:(eassumption) _ _ Hra1) as [H1r H2r]. split.
    + intros k Hk. destruct (H1r k Hk) as (sk & Hsk & ?). destruct (Hfwd _ _ Hsk) as (sk' & ? & ? & ?).
      exists sk'. split; congruence.
    + intros Hl. destruct (H2r Hl) as (k & sk & ? & Hsk & ?). destruct (Hfwd _ _ Hsk) as (sk' & ? & ? & ?).
      exists k, sk'. repeat split; congruence.
  - intros i j si sj Hi Hj Hhi Hhj Heq.
    destruct (Hback _ _ Hi) as (si0 & Hi0 & Hsi), (Hback _ _ Hj) as (sj0 & Hj0 & Hsj).
    eapply (Hu i j si0 sj0); eauto; destruct Hsi as [[-> _]|[-> _]], Hsj as [[-> _]|[-> _]]; done.
Qed.

Lemma streams_wf_trans s s' :
  ids_fresh s → actors_wf s → streams_wf s → trans s s' → streams_wf s'.
Proof.
  intros Hf Hwf Hw Ht. pose proof Ht as Ht'. inversion Ht'; subst; clear Ht'; try destruct queued.
  all: try (eapply streams_wf_quiet; [done..| | |];
    [ done
    | intros ? ? ? Ho Hn; simpl in *; map_hyps;
      rewrite ?reader_push; simplify_eq/=; try done; unfold reader_of; simpl; by simplify_option_eq
    | intros ? ? Hn Ho; simpl in *; map_hyps; (done || congruence) ]).
  - (* T_request_new *)
    eapply streams_wf_quiet; [done..|done| |].
    + intros ? ? ? Ho Hn. simpl in *. map_hyps; try done. apply Hf in Ho. lia.
    + intros ? ? Hn Ho. simpl in *. map_hyps; (done || congruence).
  - (* T_connect_ok *)
    destruct (Hwf _ _ H3) as [_ Hs0]. rewrite H4 in Hs0. destruct Hs0 as [Hs0 _].
    eapply (streams_wf_connect s); simpl; eauto; unfold reader_of; simpl; rewrite ?Hs0; (done || congruence).
  - (* T_read_granted *)
    destruct (mutex_locked (upstream_read self)) eqn:Hl; [by rewrite try_lock_held in H9|].
    destruct (try_lock_free _ Hl) as (m' & Hm' & Hlm). simplify_eq.
    eapply (streams_wf_grant s _ aid rid a _ (upstream_read self) m (upstream_read_abort self));
      simpl; eauto; unfold reader_of; simpl; rewrite ?H5; try done.
    apply eq_None_not_Some. intros [sk Hsk]. destruct Hf as (_ & _ & Hfs & _). apply Hfs in Hsk. lia.
  - (* T_drop *) by eapply (streams_wf_drop s).
  - (* T_received *)
    assert (Hho : holding st = true) by (unfold holding; by destruct H5 as [-> | ->]).
    eapply (streams_wf_move s _ stid st (with_pos (Telling data) st)); eauto; simpl; eauto.
  - (* T_passed *)
    assert (Hho : holding st = true) by (unfold holding; by destruct H5 as [-> | ->]).
    by eapply (streams_wf_pushed s _ stid st).
  - (* T_yield *)
    assert (Hho : holding st = true) by (unfold holding; by rewrite H5).
    by eapply (streams_wf_pushed s _ stid st).
  - by eapply streams_wf_release.
Qed.
End StreamInv.
