(* ===== verification/LogInv.v ===== *)
(** What passes through a session: the upstream side against the HTTP side.

    The log of a run records what the upstream transports saw. Reads are matched
    with the frames of the response streams, writes with the chunks of the request
    bodies, and both with the byte counters. *)
From Stdlib Require Import Sorting.Sorted.
From S2P Require Import Prelude Ext DomainFronting Stats State Session Server.
From S2P Require Import ServerSteps ServerInv StreamInv.

Section LogInv.
Context `{UuidLib, HttpLib, TryMutex, !TryMutexLaws}.
Implicit Types (s : Sys) (a : Actor) (st : StreamState) (r : ReqState) (log : list UpEvent).

(** * Reads *)

(** The chunks a stream read, and all reads of an actor with the stream that did them. *)
Definition reads_of (stid : nat) log : list bytes :=
  omap (λ e, match e with
             | UpRead _ k d => if decide (k = stid) then Some d else None
             | _ => None
             end) log.
Definition actor_reads (aid : nat) log : list (nat * bytes) :=
  omap (λ e, match e with
             | UpRead a k d => if decide (a = aid) then Some (k, d) else None
             | _ => None
             end) log.

(** The chunk a stream has read but not yielded yet. *)
Definition telling st : list bytes :=
  match st_pos st with Telling d => [d] | _ => [] end.

(** What a stream has read is what it has yielded, and at most one more chunk: the
    one it holds while it awaits [tell], which is lost if the stream ends there. *)
Definition frames_ok log (stid : nat) st : Prop :=
  ∃ lost, reads_of stid log = st_out st ++ lost ∧ length lost ≤ 1 ∧
          (holding st = true → lost = telling st).

Record reads_wf s : Prop := {
  rw_frames stid st : sys_streams s !! stid = Some st → frames_ok (sys_log s) stid st;
  rw_stream aid k d : UpRead aid k d ∈ sys_log s →
    ∃ st, sys_streams s !! k = Some st ∧ st_actor st = aid;
  rw_latest stid st k d : sys_streams s !! stid = Some st → holding st = true →
    (k, d) ∈ actor_reads (st_actor st) (sys_log s) → k ≤ stid;
  rw_sorted aid : StronglySorted le (actor_reads aid (sys_log s)).*1;
}.

Lemma reads_of_snoc stid log e :
  reads_of stid (log ++ [e]) =
  reads_of stid log ++ match e with UpRead _ k d => if decide (k = stid) then [d] else [] | _ => [] end.
Proof. unfold reads_of. rewrite omap_app. f_equal. destruct e; simpl; try done. by case_decide. Qed.

Lemma actor_reads_snoc aid log e :
  actor_reads aid (log ++ [e]) =
  actor_reads aid log ++
    match e with UpRead a k d => if decide (a = aid) then [(k, d)] else [] | _ => [] end.
Proof. unfold actor_reads. rewrite omap_app. f_equal. destruct e; simpl; try done. by case_decide. Qed.

Lemma actor_reads_elem aid log k d : (k, d) ∈ actor_reads aid log ↔ UpRead aid k d ∈ log.
Proof.
  unfold actor_reads. rewrite list_elem_of_omap. split.
  - intros (e & He & Hs). destruct e; simplify_eq. by case_decide; simplify_eq.
  - intros He. exists (UpRead aid k d). by rewrite decide_True.
Qed.

Lemma StronglySorted_snoc (l : list nat) x :
  StronglySorted le l → (∀ y, y ∈ l → y ≤ x) → StronglySorted le (l ++ [x]).
Proof.
  induction l as [|y l IH]; simpl; intros Hs Hle; [repeat constructor|].
  inversion Hs; subst. constructor.
  - apply IH; [done|]. set_solver.
  - apply Forall_app. split; [done|]. repeat constructor. set_solver.
Qed.

(** Steps that read nothing and keep the streams as they are, up to their abort flags. *)
Lemma reads_wf_frame s s' :
  reads_wf s →
  (∀ k sk', sys_streams s' !! k = Some sk' → ∃ sk, sys_streams s !! k = Some sk ∧
     st_actor sk' = st_actor sk ∧ st_pos sk' = st_pos sk ∧ st_out sk' = st_out sk) →
  (∀ k sk, sys_streams s !! k = Some sk → ∃ sk', sys_streams s' !! k = Some sk' ∧
     st_actor sk' = st_actor sk) →
  (∀ stid, reads_of stid (sys_log s') = reads_of stid (sys_log s)) →
  (∀ aid, actor_reads aid (sys_log s') = actor_reads aid (sys_log s)) →
  reads_wf s'.
Proof.
  intros [Hf Hs Hl Hsort] Hback Hfwd Hr Ha. split.
  - intros k sk' Hk. destruct (Hback _ _ Hk) as (sk & Hk0 & _ & Hp & Ho).
    destruct (Hf _ _ Hk0) as (lost & Hl1 & Hl2 & Hl3). exists lost.
    unfold holding, telling in *. by rewrite Hr, Hp, Ho.
  - intros aid k d Hin. rewrite <- actor_reads_elem, Ha, actor_reads_elem in Hin.
    destruct (Hs _ _ _ Hin) as (sk & Hk & Hact). destruct (Hfwd _ _ Hk) as (sk' & ? & ?).
    exists sk'. split; congruence.
  - intros k sk' j d Hk Hho. destruct (Hback _ _ Hk) as (sk & Hk0 & Hact & Hp & _).
    rewrite Ha, Hact. apply Hl; [done|]. unfold holding in *. by rewrite <- Hp.
  - intros aid. by rewrite Ha.
Qed.

(** A new stream has read nothing. *)
Lemma reads_wf_new s s' n aid rid :
  ids_fresh s → reads_wf s → sys_next s = n →
  sys_streams s' = <[n := mkStream aid rid FirstRead false []]> (sys_streams s) →
  sys_log s' = sys_log s → reads_wf s'.
Proof.
  intros (_ & _ & Hlt & _) [Hf Hs Hl Hsort] Hn Hs' Hlog.
  assert (Hno : ∀ aid' k d, UpRead aid' k d ∈ sys_log s → k < n).
  { intros aid' k d Hin. destruct (Hs _ _ _ Hin) as (sk & Hk & _). apply Hlt in Hk. lia. }
  split; rewrite ?Hs', ?Hlog.
  - intros k sk Hk. apply lookup_insert_Some in Hk as [[<- <-]|[Hne Hk]]; [|by eauto].
    exists []. simpl. split; [|by split; [lia|]].
    destruct (reads_of n (sys_log s)) as [|d l] eqn:E; [done|].
    assert (Hin : d ∈ reads_of n (sys_log s)) by (rewrite E; constructor).
    apply list_elem_of_omap in Hin as (e & He & Hse). destruct e; simplify_eq.
    case_decide; simplify_eq. apply Hno in He. lia.
  - intros aid' k d Hin. destruct (Hs _ _ _ Hin) as (sk & Hk & Ha). apply Hno in Hin.
    rewrite lookup_insert_ne by lia. eauto.
  - intros k sk j d Hk Hho Hin. apply lookup_insert_Some in Hk as [[<- <-]|[Hne Hk]]; [|by eauto].
    apply actor_reads_elem, Hno in Hin. lia.
  - done.
Qed.

(** A stream moves between await points without reading. *)
Lemma reads_wf_move s s' stid st st' :
  reads_wf s → sys_streams s !! stid = Some st →
  sys_streams s' = <[stid := st']> (sys_streams s) → sys_log s' = sys_log s →
  st_actor st' = st_actor st → (holding st' = true → holding st = true) →
  (frames_ok (sys_log s) stid st → frames_ok (sys_log s) stid st') → reads_wf s'.
Proof.
  intros [Hf Hs Hl Hsort] Hst Hs' Hlog Hact Hho Hfr. split; rewrite ?Hs', ?Hlog.
  - intros k sk Hk. apply lookup_insert_Some in Hk as [[<- <-]|[Hne Hk]]; eauto.
  - intros aid k d Hin. destruct (Hs _ _ _ Hin) as (sk & Hk & Ha).
    rewrite lookup_insert. case_decide; simplify_eq; eauto.
  - intros k sk j d Hk Hhk. apply lookup_insert_Some in Hk as [[<- <-]|[Hne Hk]]; rewrite ?Hact; eauto.
  - done.
Qed.

(** A stream reads a chunk. *)
Lemma reads_wf_read s s' stid st st' data :
  streams_wf s → reads_wf s → sys_streams s !! stid = Some st →
  st_pos st = FirstRead ∨ st_pos st = NextRead →
  sys_streams s' = <[stid := st']> (sys_streams s) →
  st_actor st' = st_actor st → st_out st' ++ telling st' = st_out st ++ [data] →
  sys_log s' = sys_log s ++ [UpRead (st_actor st) stid data] → reads_wf s'.
Proof.
  intros Hsw [Hf Hs Hl Hsort] Hst Hpos Hs' Hact Hout Hlog.
  assert (Hho : holding st = true) by (unfold holding; by destruct Hpos as [-> | ->]).
  split; rewrite ?Hs', ?Hlog.
  - intros k sk Hk. unfold frames_ok. rewrite reads_of_snoc.
    apply lookup_insert_Some in Hk as [[<- <-]|[Hne Hk]].
    + destruct (Hf _ _ Hst) as (lost & Hr & _ & Hlo). rewrite decide_True, Hr, (Hlo Hho) by done.
      exists (telling st'). rewrite Hout. unfold telling. split; [|by destruct (st_pos st'); split; simpl; try lia].
      destruct Hpos as [-> | ->]; by rewrite app_nil_r.
    + rewrite decide_False by done. rewrite app_nil_r. by apply Hf.
  - intros aid k d Hin. apply elem_of_app in Hin as [Hin|Hin%list_elem_of_singleton]; simplify_eq.
    + destruct (Hs _ _ _ Hin) as (sk & Hk & Ha).
      rewrite lookup_insert. case_decide; simplify_eq; eauto.
    + exists st'. by rewrite lookup_insert_eq.
  - intros k sk j d Hk Hhk. rewrite actor_reads_snoc.
    assert (Hk0 : ∃ sk0, sys_streams s !! k = Some sk0 ∧ holding sk0 = true ∧ st_actor sk0 = st_actor sk)
      by (apply lookup_insert_Some in Hk as [[<- <-]|[Hne Hk]]; eauto).
    destruct Hk0 as (sk0 & Hk0 & Hhk0 & Eact).
    intros [Hin|Hin]%elem_of_app; [rewrite <- Eact in Hin; by eapply Hl|].
    case_decide as Eq; [|set_solver]. apply list_elem_of_singleton in Hin. simplify_eq.
    rewrite (sw_unique _ Hsw stid k st sk0) by congruence. lia.
  - intros aid. rewrite actor_reads_snoc, fmap_app. case_decide; simpl; [|by rewrite app_nil_r].
    subst. apply StronglySorted_snoc; [done|]. intros y Hy.
    apply list_elem_of_fmap in Hy as ([k d] & -> & Hin). by eapply Hl.
Qed.

Lemma reads_wf_trans s s' :
  ids_fresh s → streams_wf s → reads_wf s → trans s s' → reads_wf s'.
Proof.
  intros Hids Hsw Hw Ht. inversion Ht; subst; clear Ht; try destruct queued.
  all: try (eapply reads_wf_frame; [done|..]; simpl; intros;
            rewrite ?reads_of_snoc, ?actor_reads_snoc, ?app_nil_r; by eauto).
  - (* T_read_granted *) by eapply (reads_wf_new s).
  - (* T_drop *)
    eapply (reads_wf_frame s); [done|..]; try done; simpl;
      destruct (upstream_read_abort self) as [x|]; eauto; intros k sk Hk.
    + map_hyps; eauto.
    + map_goal; rewrite ?Hk; simpl; eauto.
  - by eapply (reads_wf_read s _ stid st (with_pos (Telling data) st)).
  - eapply (reads_wf_read s _ stid st); try done. simpl. by rewrite app_nil_r.
  - (* T_yield *)
    eapply (reads_wf_move s _ stid st); try done; simpl.
    + intros _. unfold holding. by rewrite H5.
    + intros (lost & Hr & Hlen & Hlo). exists []. rewrite Hr, Hlo by (unfold holding; by rewrite H5).
      unfold telling. rewrite H5. simpl. rewrite app_nil_r. repeat split; auto; lia.
  - (* T_release *)
    eapply (reads_wf_move s _ stid st); try done; simpl.
    intros (lost & Hr & Hlen & Hlo). by exists lost.
Qed.

(** A chunk that was read: a read of no bytes ends the stream instead, and the buffer bounds
    the others. *)
Definition chunk_ok (d : bytes) : Prop := d ≠ [] ∧ (blen d ≤ READ_CAPACITY)%Z.

Definition chunks_wf s : Prop :=
  ∀ k st, sys_streams s !! k = Some st →
    (∀ d, st_pos st = Telling d → chunk_ok d) ∧ Forall chunk_ok (st_out st).

Lemma chunks_wf_trans s s' : chunks_wf s → trans s s' → chunks_wf s'.
Proof.
  intros Hw Ht k st' Hk. unfold chunks_wf in Hw.
  trans_cases Ht; try destruct queued; eauto; simpl in *; try destruct (upstream_read_abort self).
  all: map_hyps; eauto; simpl; try (split; [done|]); try by (eapply Hw; eassumption).
  - constructor.
  - constructor.
  - split; [intros d [= <-]; by split|]. by eapply Hw.
  - apply Forall_app. split; [by eapply Hw|by repeat constructor].
  - apply Forall_app. split; [by eapply Hw|]. repeat constructor; by eapply Hw.
Qed.
End LogInv.
