(* ===== verification/WriteInv.v ===== *)
(** Writes: the chunks of a request body against what the upstream accepted.

    A chunk travels as a [SessionWrite] message from the request to the actor, which
    writes it upstream and replies. The invariant says where each chunk of each
    request is, and so that a request that completed wrote exactly its chunks, in
    order, to one connection. *)
From S2P Require Import Prelude Ext DomainFronting Stats State Session Server.
From S2P Require Import ServerSteps ServerInv.

Section WriteInv.
Context `{UuidLib, HttpLib, TryMutex, !TryMutexLaws}.
Implicit Types (s : Sys) (a : Actor) (st : StreamState) (r : ReqState) (log : list UpEvent).

(** The chunks written for a request with the actor that wrote them, and all writes
    of an actor with the number of bytes the upstream accepted. *)
Definition writes_of (rid : nat) log : list (nat * bytes) :=
  omap (λ e, match e with
             | UpWrite a k d _ => if decide (k = rid) then Some (a, d) else None
             | _ => None
             end) log.
Definition actor_writes (aid : nat) log : list (bytes * nat) :=
  omap (λ e, match e with
             | UpWrite a _ d n => if decide (a = aid) then Some (d, n) else None
             | _ => None
             end) log.

Lemma writes_of_snoc rid log e :
  writes_of rid (log ++ [e]) =
  writes_of rid log ++
    match e with UpWrite a k d _ => if decide (k = rid) then [(a, d)] else [] | _ => [] end.
Proof. unfold writes_of. rewrite omap_app. f_equal. destruct e; simpl; try done. by case_decide. Qed.

Lemma actor_writes_snoc aid log e :
  actor_writes aid (log ++ [e]) =
  actor_writes aid log ++
    match e with UpWrite a _ d n => if decide (a = aid) then [(d, n)] else [] | _ => [] end.
Proof. unfold actor_writes. rewrite omap_app. f_equal. destruct e; simpl; try done. by case_decide. Qed.

Lemma writes_of_nil rid log :
  (∀ aid d n, UpWrite aid rid d n ∉ log) → writes_of rid log = [].
Proof.
  intros Hno. destruct (writes_of rid log) as [|[aid d] l] eqn:E; [done|].
  assert (Hin : (aid, d) ∈ writes_of rid log) by (rewrite E; constructor).
  apply list_elem_of_omap in Hin as (e & He & Hse). destruct e; simplify_eq.
  case_decide; simplify_eq. by destruct (Hno aid d n).
Qed.

(** * Messages on their way *)

Definition msg_rid (m : Msg) : option nat :=
  match m with
  | SessionRead rid | SessionWrite _ rid => Some rid
  | SessionResetIdleTimeout => None
  end.

(** The messages an actor has not answered: its mailbox and the one it is handling. *)
Definition actor_msgs a : list Msg :=
  ac_mailbox a ++ match ac_busy a with Some (d, rid) => [SessionWrite d rid] | None => [] end.

Definition has_stopped s (aid : nat) : Prop :=
  ∃ a, sys_actors s !! aid = Some a ∧ ac_status a = Stopped.

(** An unanswered message belongs to a request that awaits it or has been dropped. *)
Definition msg_ok s (aid : nat) (m : Msg) : Prop :=
  match m with
  | SessionWrite d rid => ∃ r, sys_requests s !! rid = Some r ∧
      (rq_pos r = Cancelled ∨ ∃ total, rq_pos r = AtWrite aid total d None)
  | SessionRead rid => ∃ r, sys_requests s !! rid = Some r ∧
      (rq_pos r = Cancelled ∨ rq_pos r = AtRead aid None)
  | SessionResetIdleTimeout => True
  end.

(** What has been written for a request, at each of its await points. *)
Definition request_ok s (rid : nat) r : Prop :=
  let written := writes_of rid (sys_log s) in
  match rq_pos r with
  | AtBody aid total =>
      written = (aid,.) <$> rq_acked r ∧ total = wrap64 (total_len (rq_acked r))
  | AtWrite aid total d reply =>
      (written = (aid,.) <$> rq_acked r ++ [d] ∧ (reply = None → has_stopped s aid) ∨
       written = (aid,.) <$> rq_acked r ∧ reply = None) ∧
      total = wrap64 (total_len (rq_acked r ++ [d]))
  | AtReadSend _ | AtRead _ _ => written = [] ∧ rq_acked r = []
  | Responded resp => rs_status resp = NO_CONTENT →
      wrap64 (total_len (rq_acked r)) ≠ 0%Z ∧ ∃ aid, written = (aid,.) <$> rq_acked r
  | Cancelled => True
  end.

Record writes_wf s : Prop := {
  ww_req rid r : sys_requests s !! rid = Some r → request_ok s rid r;
  ww_log aid rid d n : UpWrite aid rid d n ∈ sys_log s →
    is_Some (sys_requests s !! rid) ∧ n ≤ length d;
  ww_msg aid a m : sys_actors s !! aid = Some a → m ∈ actor_msgs a → msg_ok s aid m;
  ww_nodup aid a : sys_actors s !! aid = Some a → NoDup (omap msg_rid (actor_msgs a));
}.

(** An actor is only ever in [write_all] while it runs and has not been stopped. *)
Definition busy_wf s : Prop :=
  ∀ aid a, sys_actors s !! aid = Some a → is_Some (ac_busy a) →
    ac_stop a = false ∧ ac_status a = Running.

Lemma busy_wf_trans s s' : busy_wf s → trans s s' → busy_wf s'.
Proof.
  intros Hw Ht aid a Ha. unfold busy_wf in Hw.
  trans_cases Ht; eauto; try destruct queued; simpl in *; map_hyps; eauto; intros [? Hb].
  all: try match goal with Hx : sys_actors _ !! _ = Some ?b |- _ => apply Hw in Hx; clear Hw end.
  all: unfold push_msg, unlock_reader, is_alive in *; split_ifs; try congruence.
  all: try naive_solver. all: destruct_and?; congruence.
Qed.

Lemma has_stopped_trans s s' aid :
  ids_fresh s → trans s s' → has_stopped s aid → has_stopped s' aid.
Proof.
  intros Hf Ht (a & Ha & Hs). destruct (actor_evolves_trans _ _ _ _ Hf Ht Ha) as (a' & Ha' & _ & Hk).
  exists a'. auto.
Qed.

(** [request_ok] depends on the writes of its own request only. *)
Lemma request_ok_mono s s' rid r :
  (∀ aid, has_stopped s aid → has_stopped s' aid) →
  writes_of rid (sys_log s') = writes_of rid (sys_log s) →
  request_ok s rid r → request_ok s' rid r.
Proof.
  unfold request_ok. intros Hst ->. destruct (rq_pos r); try done. naive_solver.
Qed.

Lemma msg_ok_same s s' aid m :
  (∀ rid, msg_rid m = Some rid → sys_requests s' !! rid = sys_requests s !! rid) →
  msg_ok s aid m → msg_ok s' aid m.
Proof. unfold msg_ok. destruct m; simpl; intros Heq; rewrite ?(Heq _ eq_refl); done. Qed.

(** The messages of an actor are all old, or restart its idle timer. *)
Definition msgs_from s (aid : nat) a' : Prop :=
  actor_msgs a' = [] ∨
  ∃ a, sys_actors s !! aid = Some a ∧
    omap msg_rid (actor_msgs a') ⊆+ omap msg_rid (actor_msgs a) ∧
    ∀ m, m ∈ actor_msgs a' → msg_rid m = None ∨ m ∈ actor_msgs a.

(** At most request [rid] changes, and no message refers to it. *)
Lemma writes_wf_update s s' rid r' :
  writes_wf s → (∀ aid, has_stopped s aid → has_stopped s' aid) →
  sys_requests s' = <[rid := r']> (sys_requests s) → request_ok s' rid r' →
  (∀ k, k ≠ rid → writes_of k (sys_log s') = writes_of k (sys_log s)) →
  (∀ aid k d n, UpWrite aid k d n ∈ sys_log s' →
     UpWrite aid k d n ∈ sys_log s ∨ k = rid ∧ n ≤ length d) →
  (∀ aid a', sys_actors s' !! aid = Some a' → msgs_from s aid a') →
  (∀ aid a' m, sys_actors s' !! aid = Some a' → m ∈ actor_msgs a' → msg_rid m = Some rid →
     msg_ok s' aid m) →
  writes_wf s'.
Proof.
  intros [Hr Hl Hm Hn] Hst Hreq Hok Hwr Hlog Hact Hrid. split.
  - intros k r. rewrite Hreq. intros [[<- <-]|[Hne Hk]]%lookup_insert_Some; [done|].
    apply (request_ok_mono s); auto.
  - intros aid k d n Hin. rewrite Hreq. destruct (Hlog _ _ _ _ Hin) as [Ho|[-> ?]].
    + destruct (Hl _ _ _ _ Ho). split; [|done]. rewrite lookup_insert_is_Some.
      destruct (decide (rid = k)); auto.
    + rewrite lookup_insert_eq. by eauto.
  - intros aid a' m Ha' Hin. destruct (decide (msg_rid m = Some rid)) as [|Hne]; [by eauto|].
    destruct (Hact _ _ Ha') as [E|(a & Ha & _ & Hfrom)]; [rewrite E in Hin; set_solver|].
    destruct (Hfrom m Hin) as [E|Hold]; [by destruct m|].
    apply (msg_ok_same s); [|by eapply Hm]. intros k Hk. rewrite Hreq, lookup_insert_ne; congruence.
  - intros aid a' Ha'. destruct (Hact _ _ Ha') as [->|(a & Ha & Hsub & _)]; [constructor|].
    eapply submseteq_NoDup; [done|by eapply Hn].
Qed.

(** No request changes. *)
Lemma writes_wf_frame s s' :
  writes_wf s → (∀ aid, has_stopped s aid → has_stopped s' aid) →
  sys_requests s' = sys_requests s →
  (∀ k, writes_of k (sys_log s') = writes_of k (sys_log s)) →
  (∀ aid k d n, UpWrite aid k d n ∈ sys_log s' → UpWrite aid k d n ∈ sys_log s) →
  (∀ aid a', sys_actors s' !! aid = Some a' → msgs_from s aid a') →
  writes_wf s'.
Proof.
  intros [Hr Hl Hm Hn] Hst Hreq Hwr Hlog Hact. split.
  - intros k r. rewrite Hreq. intros Hk. apply (request_ok_mono s); auto.
  - intros aid k d n Hin. rewrite Hreq. eauto.
  - intros aid a' m Ha' Hin.
    destruct (Hact _ _ Ha') as [E|(a & Ha & _ & Hfrom)]; [rewrite E in Hin; set_solver|].
    destruct (Hfrom m Hin) as [E|Hold]; [by destruct m|].
    apply (msg_ok_same s); [by rewrite Hreq|by eapply Hm].
  - intros aid a' Ha'. destruct (Hact _ _ Ha') as [->|(a & Ha & Hsub & _)]; [constructor|].
    eapply submseteq_NoDup; [done|by eapply Hn].
Qed.

(** * Where messages come from *)

Lemma msgs_from_same s aid a a' :
  sys_actors s !! aid = Some a → actor_msgs a' = actor_msgs a → msgs_from s aid a'.
Proof. intros Ha E. right. exists a. rewrite E. eauto. Qed.

Lemma msgs_from_reset s aid a a' :
  sys_actors s !! aid = Some a → actor_msgs a' = actor_msgs a →
  msgs_from s aid (push_msg SessionResetIdleTimeout a').
Proof.
  intros Ha E. unfold push_msg. destruct (is_alive a'); [|by eapply msgs_from_same].
  right. exists a. rewrite <- E. unfold actor_msgs. simpl. rewrite !omap_app. simpl.
  rewrite app_nil_r. split; [done|]. split; [done|]. intros m. rewrite !elem_of_app.
  intros [[?|Hm]|?]; auto. apply list_elem_of_singleton in Hm. subst. auto.
Qed.

Lemma msgs_from_unlock s aid a :
  sys_actors s !! aid = Some a → msgs_from s aid (unlock_reader a).
Proof. intros Ha. eapply msgs_from_same; [done|]. unfold unlock_reader. by destruct (ac_session a). Qed.

(** The messages of [a], split into the [i]-th of its mailbox and the others. *)
Lemma actor_msgs_take a i m :
  ac_mailbox a !! i = Some m →
  actor_msgs a ≡ₚ m :: actor_msgs (with_mailbox (delete i (ac_mailbox a)) a).
Proof. intros Hi. unfold actor_msgs. simpl. by rewrite (delete_Permutation _ _ _ Hi) at 1. Qed.

Lemma actor_msgs_busy a d rid :
  ac_busy a = Some (d, rid) → actor_msgs a ≡ₚ SessionWrite d rid :: actor_msgs (with_busy None a).
Proof.
  intros Hb. unfold actor_msgs. rewrite Hb. simpl. rewrite app_nil_r.
  symmetry. apply Permutation_cons_append.
Qed.

Lemma msgs_from_less s aid a a' m :
  sys_actors s !! aid = Some a → actor_msgs a ≡ₚ m :: actor_msgs a' → msgs_from s aid a'.
Proof.
  intros Ha HP. right. exists a. split; [done|]. split.
  - rewrite HP. simpl. destruct (msg_rid m); [by apply submseteq_cons|done].
  - intros x Hx. right. rewrite HP. by constructor.
Qed.

Lemma msgs_from_perm s aid a a' :
  sys_actors s !! aid = Some a → actor_msgs a ≡ₚ actor_msgs a' → msgs_from s aid a'.
Proof.
  intros Ha HP. right. exists a. split; [done|]. split; [by rewrite HP|].
  intros x Hx. right. by rewrite HP.
Qed.

(** Once a message is answered, no other message of its request remains. *)
Lemma answered_no_msg s aid a a' m rid :
  writes_wf s → sys_actors s !! aid = Some a → actor_msgs a ≡ₚ m :: actor_msgs a' →
  msg_rid m = Some rid → ∀ x, x ∈ actor_msgs a' → msg_rid x ≠ Some rid.
Proof.
  intros Hw Ha HP Hm x Hx Hxr. pose proof (ww_nodup _ Hw _ _ Ha) as Hnd.
  rewrite HP in Hnd. simpl in Hnd. rewrite Hm in Hnd. apply NoDup_cons in Hnd as [Hnd _].
  apply Hnd, list_elem_of_omap. eauto.
Qed.

(** A message whose request has answered messages left can only belong to a dropped one. *)
Lemma answered_msg_ok s s' aid a a' m rid r r' :
  writes_wf s → sys_actors s !! aid = Some a → actor_msgs a ≡ₚ m :: actor_msgs a' →
  msg_rid m = Some rid → sys_requests s !! rid = Some r →
  sys_requests s' !! rid = Some r' → (rq_pos r = Cancelled → rq_pos r' = Cancelled) →
  ∀ aid1 a1 x, (aid1 = aid ∧ (x ∈ actor_msgs a' ∨ msg_rid x = None) ∨
                aid1 ≠ aid ∧ sys_actors s !! aid1 = Some a1 ∧ x ∈ actor_msgs a1) →
    msg_rid x = Some rid → msg_ok s' aid1 x.
Proof.
  intros Hw Ha HP Hm Hr Hr' Hc aid1 a1 x Hx Hxr.
  destruct Hx as [[-> [Hx|Hx]]|(Hne & Ha1 & Hx)]; [|congruence|].
  { by destruct (answered_no_msg _ _ _ _ _ _ Hw Ha HP Hm x Hx). }
  pose proof (ww_msg _ Hw _ _ _ Ha1 Hx) as Hok1.
  assert (Hmin : m ∈ actor_msgs a) by (rewrite HP; constructor).
  pose proof (ww_msg _ Hw _ _ _ Ha Hmin) as Hok.
  assert (rq_pos r = Cancelled).
  { destruct x, m; simplify_eq/=; naive_solver congruence. }
  destruct x; simplify_eq/=; eauto.
Qed.

(** A request that awaits no reply has no message on its way. *)
Lemma no_msg s rid r :
  writes_wf s → sys_requests s !! rid = Some r →
  match rq_pos r with Cancelled | AtWrite _ _ _ None | AtRead _ None => False | _ => True end →
  ∀ aid a m, sys_actors s !! aid = Some a → m ∈ actor_msgs a → msg_rid m ≠ Some rid.
Proof.
  intros Hw Hr Hp aid a m Ha Hm Hrid. pose proof (ww_msg _ Hw _ _ _ Ha Hm) as Hok.
  destruct m; simplify_eq/=; destruct Hok as (r1 & Hr1 & [E|E]); simplify_eq; rewrite ?E in Hp; try done.
  destruct E as [total E]. by rewrite E in Hp.
Qed.

(** Queueing the message of a request that has none yet. *)
Lemma writes_wf_enqueue s aid m rid :
  writes_wf s → msg_rid m = Some rid → msg_ok s aid m →
  (∀ aid1 a1 x, sys_actors s !! aid1 = Some a1 → x ∈ actor_msgs a1 → msg_rid x ≠ Some rid) →
  writes_wf (enqueue aid m s).
Proof.
  intros [Hr Hl Hm Hn] Hrid Hok Hno.
  assert (Hst : ∀ k, has_stopped s k → has_stopped (enqueue aid m s) k).
  { intros k (a & Ha & Hs). destruct (decide (aid = k)) as [<-|Hne].
    - exists (push_msg m a). simpl. rewrite lookup_alter_eq, Ha. split; [done|].
      unfold push_msg. by destruct (is_alive a).
    - exists a. simpl. by rewrite lookup_alter_ne. }
  assert (Hold : ∀ k a', sys_actors (enqueue aid m s) !! k = Some a' → ∃ a, sys_actors s !! k = Some a ∧
     (a' = a ∨ k = aid ∧ actor_msgs a' ≡ₚ m :: actor_msgs a)).
  { intros k a' Ha'. simpl in Ha'. apply lookup_alter_Some in Ha' as [(<- & a & Ha & ->)|[Hne Ha]]; [|by eauto].
    exists a. split; [done|]. unfold push_msg. destruct (is_alive a); [|by auto]. right. split; [done|].
    unfold actor_msgs. simpl. rewrite <- app_assoc. symmetry. apply Permutation_middle. }
  split; simpl.
  - intros k r Hk. eapply (request_ok_mono s); auto.
  - done.
  - intros k a' x Ha' Hx. apply (msg_ok_same s); [done|].
    destruct (Hold _ _ Ha') as (a & Ha & [->|[-> HP]]); [by eauto|].
    rewrite HP in Hx. apply elem_of_cons in Hx as [->|Hx]; eauto.
  - intros k a' Ha'. destruct (Hold _ _ Ha') as (a & Ha & [->|[-> HP]]); [by eauto|].
    rewrite HP. simpl. rewrite Hrid. apply NoDup_cons. split; [|by eauto].
    intros (x & Hx & Hxr)%list_elem_of_omap. by eapply Hno.
Qed.

(** * The invariant is preserved *)

(** The request of a message that is being answered. *)
Lemma answered_request s aid a m :
  writes_wf s → sys_actors s !! aid = Some a → m ∈ actor_msgs a → msg_ok s aid m.
Proof. intros Hw. apply (ww_msg _ Hw). Qed.

(** A write by the actor that is handling the message of [rid]. *)
Lemma request_ok_written s s' aid a d rid r :
  writes_wf s → sys_actors s !! aid = Some a → ac_status a = Running →
  ac_busy a = Some (d, rid) → sys_requests s !! rid = Some r →
  writes_of rid (sys_log s') = writes_of rid (sys_log s) ++ [(aid, d)] →
  (∀ total, rq_pos r = AtWrite aid total d None →
     writes_of rid (sys_log s') = (aid,.) <$> rq_acked r ++ [d]).
Proof.
  intros Hw Ha Hst Hb Hr Hlog total Hp. rewrite Hlog, fmap_app. f_equal.
  pose proof (ww_req _ Hw _ _ Hr) as Hok. unfold request_ok in Hok. rewrite Hp in Hok.
  destruct Hok as [[[_ Hs]|[-> _]] _]; [|done].
  destruct (Hs eq_refl) as (a1 & Ha1 & Hs1). congruence.
Qed.

Lemma busy_request s aid a d rid :
  writes_wf s → sys_actors s !! aid = Some a → ac_busy a = Some (d, rid) →
  ∃ r, sys_requests s !! rid = Some r ∧
    (rq_pos r = Cancelled ∨ ∃ total, rq_pos r = AtWrite aid total d None).
Proof.
  intros Hw Ha Hb. apply (ww_msg _ Hw _ _ (SessionWrite d rid) Ha).
  unfold actor_msgs. rewrite Hb. set_solver.
Qed.

(** The log of a write: only its request and actor see it. *)
Lemma log_write_other log aid rid d n k :
  k ≠ rid → writes_of k (log ++ [UpWrite aid rid d n]) = writes_of k log.
Proof. intros Hne. rewrite writes_of_snoc, decide_False by done. by rewrite app_nil_r. Qed.

Lemma log_write_elem log aid rid d n aid' k d' n' :
  n ≤ length d → UpWrite aid' k d' n' ∈ log ++ [UpWrite aid rid d n] →
  UpWrite aid' k d' n' ∈ log ∨ k = rid ∧ n' ≤ length d'.
Proof. intros Hn [?|Hin]%elem_of_app; [by left|]. apply list_elem_of_singleton in Hin. naive_solver. Qed.

(** [SessionWrite::handle] returns: the request gets its reply. *)
Lemma writes_wf_written s s' aid a d rid n :
  writes_wf s → busy_wf s → (∀ k, has_stopped s k → has_stopped s' k) →
  sys_actors s !! aid = Some a → ac_busy a = Some (d, rid) → n ≤ length d →
  sys_log s' = sys_log s ++ [UpWrite aid rid d n] →
  sys_requests s' = alter answer_write rid (sys_requests s) →
  (∀ k a', sys_actors s' !! k = Some a' →
     k = aid ∧ msgs_from s aid a' ∧
       (∀ x, x ∈ actor_msgs a' → msg_rid x = None ∨ x ∈ actor_msgs (with_busy None a)) ∨
     k ≠ aid ∧ sys_actors s !! k = Some a') →
  writes_wf s'.
Proof.
  intros Hw Hbw Hst Ha Hb Hn Hlog Hreq Hact.
  destruct (Hbw _ _ Ha ltac:(by eauto)) as [_ Hrun].
  destruct (busy_request _ _ _ _ _ Hw Ha Hb) as (r & Hr & Hp).
  rewrite (alter_insert_Some _ _ _ _ Hr) in Hreq.
  assert (Hwr : writes_of rid (sys_log s') = writes_of rid (sys_log s) ++ [(aid, d)])
    by (rewrite Hlog, writes_of_snoc; by rewrite decide_True).
  eapply (writes_wf_update s s' rid); eauto.
  - unfold request_ok, answer_write. destruct Hp as [Hp|[total Hp]]; rewrite Hp; simpl; [by rewrite Hp|].
    split; [left; split; [|done]|].
    + by eapply (request_ok_written s s' aid a d rid r).
    + pose proof (ww_req _ Hw _ _ Hr) as Hok. unfold request_ok in Hok. rewrite Hp in Hok. apply Hok.
  - intros k Hk. rewrite Hlog. by apply log_write_other.
  - intros k ? ? ?. rewrite Hlog. by apply log_write_elem.
  - intros k a' Ha'. destruct (Hact _ _ Ha') as [(-> & Hf & _)|[Hne Ho]]; [done|].
    by eapply msgs_from_same.
  - intros k a' x Ha' Hx Hxr.
    eapply (answered_msg_ok s s' aid a (with_busy None a) (SessionWrite d rid) rid r (answer_write r)); eauto.
    + by apply actor_msgs_busy.
    + rewrite Hreq. apply lookup_insert_eq.
    + intros E. unfold answer_write. by rewrite E.
    + destruct (Hact _ _ Ha') as [(-> & _ & Hf)|[Hne Ho]]; [left|by right; eauto].
      split; [done|]. destruct (Hf x Hx); auto.
Qed.

(** [SessionRead::handle] returns: the request gets its reply. *)
Lemma writes_wf_read s s' aid a a' i rid reply :
  writes_wf s → (∀ k, has_stopped s k → has_stopped s' k) →
  sys_actors s !! aid = Some a → ac_mailbox a !! i = Some (SessionRead rid) →
  sys_log s' = sys_log s → sys_requests s' = alter (answer_read reply) rid (sys_requests s) →
  sys_actors s' = <[aid := a']> (sys_actors s) →
  actor_msgs a' = actor_msgs (with_mailbox (delete i (ac_mailbox a)) a) →
  writes_wf s'.
Proof.
  intros Hw Hst Ha Hi Hlog Hreq Hact Hmsgs. pose proof (actor_msgs_take _ _ _ Hi) as HP.
  assert (Hin : SessionRead rid ∈ actor_msgs a) by (rewrite HP; constructor).
  destruct (ww_msg _ Hw _ _ _ Ha Hin) as (r & Hr & Hp).
  rewrite (alter_insert_Some _ _ _ _ Hr) in Hreq. rewrite <- Hmsgs in HP.
  eapply (writes_wf_update s s' rid); eauto.
  - pose proof (ww_req _ Hw _ _ Hr) as Hok. unfold request_ok, answer_read in *. rewrite Hlog.
    destruct Hp as [Hp|Hp]; rewrite Hp in *; simpl; by rewrite ?Hp.
  - by rewrite Hlog.
  - rewrite Hlog. auto.
  - intros k a1. rewrite Hact. intros [[<- <-]|[Hne Ha1]]%lookup_insert_Some.
    + by eapply msgs_from_less.
    + by eapply msgs_from_same.
  - intros k a1 x. rewrite Hact. intros Ha1 Hx Hxr.
    eapply (answered_msg_ok s s' aid a a' (SessionRead rid) rid r (answer_read reply r)); eauto.
    + rewrite Hreq. apply lookup_insert_eq.
    + intros E. unfold answer_read. by rewrite E.
    + apply lookup_insert_Some in Ha1 as [[<- <-]|[Hne Ha1]]; [left|right]; eauto.
Qed.

(** The frame rule for requests that await no reply, or are dropped. *)
Lemma writes_wf_request s s' rid r r' :
  writes_wf s → (∀ k, has_stopped s k → has_stopped s' k) → sys_requests s !! rid = Some r →
  sys_requests s' = <[rid := r']> (sys_requests s) → sys_log s' = sys_log s →
  (∀ k a', sys_actors s' !! k = Some a' → sys_actors s !! k = Some a') →
  request_ok s' rid r' →
  rq_pos r' = Cancelled ∨
    (∀ k a m, sys_actors s !! k = Some a → m ∈ actor_msgs a → msg_rid m ≠ Some rid) →
  writes_wf s'.
Proof.
  intros Hw Hst Hr Hreq Hlog Hact Hok Hmsg.
  eapply (writes_wf_update s s' rid); eauto.
  - by rewrite Hlog.
  - rewrite Hlog. auto.
  - intros k a' Ha'. eapply msgs_from_same; eauto.
  - intros k a' m Ha' Hm Hrid. apply Hact in Ha'.
    destruct Hmsg as [Hc|Hno]; [|by destruct (Hno _ _ _ Ha' Hm)].
    destruct m; simplify_eq/=; exists r'; rewrite Hreq, lookup_insert_eq; auto.
Qed.

(** A stopped actor has no unanswered message, so its requests have none. *)
Lemma dead_no_msg s aid rid r :
  actors_wf s → writes_wf s → sys_requests s !! rid = Some r → actor_alive aid s = false →
  (∃ total d, rq_pos r = AtWrite aid total d None) ∨ rq_pos r = AtRead aid None →
  ∀ k a m, sys_actors s !! k = Some a → m ∈ actor_msgs a → msg_rid m ≠ Some rid.
Proof.
  intros Hwf Hw Hr Hdead Hp k a m Ha Hm Hrid.
  pose proof (ww_msg _ Hw _ _ _ Ha Hm) as Hok.
  assert (k = aid) as ->.
  { destruct m; simplify_eq/=; destruct Hok as (r1 & Hr1 & Hok); simplify_eq;
      destruct Hp as [(? & ? & Hp)|Hp]; rewrite Hp in Hok; naive_solver. }
  unfold actor_alive in Hdead. rewrite Ha in Hdead. unfold is_alive in Hdead.
  destruct (Hwf _ _ Ha) as [_ Hst]. destruct (ac_status a); try done.
  destruct Hst as [Hmb Hb]. unfold actor_msgs in Hm. rewrite Hmb, Hb in Hm. set_solver.
Qed.

Lemma writes_wf_finish s s' rid r pos :
  actors_wf s → writes_wf s → (∀ k, has_stopped s k → has_stopped s' k) →
  sys_requests s !! rid = Some r → finish s (rq_pos r) pos →
  s' = put_request rid (mkReq pos (rq_acked r)) s → writes_wf s'.
Proof.
  intros Hwf Hw Hst Hr Hfin ->. pose proof (ww_req _ Hw _ _ Hr) as Hok.
  eapply (writes_wf_request s _ rid r); eauto; try done.
  - unfold request_ok in *. simpl.
    inversion Hfin as [aid E|aid total Hne E|aid total e E| | | | |r0 Hf E]; subst; simpl; try done.
    rewrite <- E in Hok. intros _. destruct Hok as [Hok ->]. by eauto.
  - inversion Hfin as [aid E|aid total Hne E|aid total e E|aid total d Hd E|aid E|aid st E|aid Hd E|r0 Hf E];
      subst; simpl; auto; right.
    all: try (eapply dead_no_msg; eauto; rewrite <- E; eauto; fail).
    all: eapply no_msg; eauto; by rewrite <- E.
Qed.

(** A new request has written nothing. *)
Lemma writes_wf_new s s' rid pos :
  ids_fresh s → writes_wf s → (∀ k, has_stopped s k → has_stopped s' k) → sys_next s ≤ rid →
  sys_requests s' = <[rid := mkReq pos []]> (sys_requests s) → sys_log s' = sys_log s →
  (∀ aid a', sys_actors s' !! aid = Some a' → msgs_from s aid a') →
  match pos with AtBody _ total => total = 0%Z | AtReadSend _ => True
               | Responded resp => rs_status resp ≠ NO_CONTENT | _ => False end →
  writes_wf s'.
Proof.
  intros (_ & _ & _ & Hfr) Hw Hst Hle Hreq Hlog Hact Hpos.
  assert (Hno : sys_requests s !! rid = None).
  { apply eq_None_not_Some. intros [r Hr]. apply Hfr in Hr. lia. }
  assert (Hwr : writes_of rid (sys_log s) = []).
  { apply writes_of_nil. intros aid d n Hin. destruct (ww_log _ Hw _ _ _ _ Hin) as [[r Hr] _]. congruence. }
  eapply (writes_wf_update s s' rid); eauto.
  - unfold request_ok. simpl. rewrite Hlog, Hwr. by destruct pos; subst.
  - by rewrite Hlog.
  - rewrite Hlog. auto.
  - intros aid a' m Ha' Hm Hrid. exfalso.
    destruct (Hact _ _ Ha') as [E|(a & Ha & _ & Hfrom)]; [rewrite E in Hm; set_solver|].
    destruct (Hfrom m Hm) as [E|Hold]; [congruence|].
    pose proof (ww_msg _ Hw _ _ _ Ha Hold) as Hok.
    destruct m; simplify_eq/=; destruct Hok as (r & Hr & _); congruence.
Qed.

Lemma request_start_new head aid :
  match request_start head aid with AtBody _ total => total = 0%Z | AtReadSend _ => True
  | Responded resp => rs_status resp ≠ NO_CONTENT | _ => False end.
Proof. unfold request_start. by destruct (head_method head). Qed.

(** An update of one actor that sends no message to a request. *)
Lemma writes_wf_actor s s' aid a' :
  writes_wf s → (∀ k, has_stopped s k → has_stopped s' k) →
  sys_requests s' = sys_requests s →
  (∀ k, writes_of k (sys_log s') = writes_of k (sys_log s)) →
  (∀ k rid d n, UpWrite k rid d n ∈ sys_log s' → UpWrite k rid d n ∈ sys_log s) →
  sys_actors s' = <[aid := a']> (sys_actors s) → msgs_from s aid a' → writes_wf s'.
Proof.
  intros Hw Hst Hreq Hwr Hlog Hact Ha'. eapply writes_wf_frame; eauto.
  intros k a1. rewrite Hact. intros [[<- <-]|[Hne Hk]]%lookup_insert_Some; [done|].
  by eapply msgs_from_same.
Qed.

(** The actor is killed inside [write_all]. *)
Lemma writes_wf_stop_busy s s' aid a d rid n :
  writes_wf s → busy_wf s → (∀ k, has_stopped s k → has_stopped s' k) →
  sys_actors s !! aid = Some a → ac_busy a = Some (d, rid) → n ≤ length d →
  s' = put_actor aid (stopped a) (log_event (UpWrite aid rid d n) s) → writes_wf s'.
Proof.
  intros Hw Hbw Hst Ha Hb Hn ->. set (s' := put_actor _ _ _) in *.
  destruct (busy_request _ _ _ _ _ Hw Ha Hb) as (r & Hr & Hp).
  destruct (Hbw _ _ Ha ltac:(by eauto)) as [_ Hrun].
  assert (Hwr : writes_of rid (sys_log s') = writes_of rid (sys_log s) ++ [(aid, d)])
    by (simpl; rewrite writes_of_snoc; by rewrite decide_True).
  eapply (writes_wf_update s s' rid r); eauto.
  - simpl. by rewrite insert_id.
  - unfold request_ok. destruct Hp as [Hp|[total Hp]]; rewrite Hp; [done|].
    pose proof (ww_req _ Hw _ _ Hr) as Hok. unfold request_ok in Hok. rewrite Hp in Hok.
    destruct Hok as [_ Htot]. split; [left|done]. split.
    + by eapply (request_ok_written s s' aid a d rid r).
    + intros _. exists (stopped a). simpl. by rewrite lookup_insert_eq.
  - intros k Hk. by apply log_write_other.
  - intros k ? ? ?. by apply log_write_elem.
  - simpl. intros k a1 [[<- <-]|[Hne Hk]]%lookup_insert_Some; [by left|].
    by eapply msgs_from_same.
  - simpl. intros k a1 m [[<- <-]|[Hne Hk]]%lookup_insert_Some Hm Hrid; [by apply not_elem_of_nil in Hm|].
    apply (msg_ok_same s); [done|]. by eapply ww_msg.
Qed.

Lemma writes_wf_alter s s' aid f :
  writes_wf s → (∀ k, has_stopped s k → has_stopped s' k) →
  sys_requests s' = sys_requests s →
  (∀ k, writes_of k (sys_log s') = writes_of k (sys_log s)) →
  (∀ k rid d n, UpWrite k rid d n ∈ sys_log s' → UpWrite k rid d n ∈ sys_log s) →
  sys_actors s' = alter f aid (sys_actors s) →
  (∀ a, sys_actors s !! aid = Some a → msgs_from s aid (f a)) → writes_wf s'.
Proof.
  intros Hw Hst Hreq Hwr Hlog Hact Hf. eapply writes_wf_frame; eauto.
  intros k a1. rewrite Hact. intros [(<- & a & Ha & ->)|[Hne Hk]]%lookup_alter_Some; [by auto|].
  by eapply msgs_from_same.
Qed.

(** A request at an await point that needs no reply sends its message. *)
Lemma writes_wf_send s s1 aid rid r r' m :
  writes_wf s → sys_requests s !! rid = Some r →
  match rq_pos r with Cancelled | AtWrite _ _ _ None | AtRead _ None => False | _ => True end →
  s1 = put_request rid r' s → request_ok s rid r' → msg_rid m = Some rid → msg_ok s1 aid m →
  writes_wf (enqueue aid m s1).
Proof.
  intros Hw Hr Hp -> Hok Hm Hmok.
  pose proof (no_msg _ _ _ Hw Hr Hp) as Hno.
  eapply writes_wf_enqueue; eauto.
  eapply (writes_wf_request s _ rid r r'); eauto.
Qed.

(** The actors after [SessionWrite::handle] returned from a successful write. *)
Lemma written_actors s aid a d rid (queued : bool) k a' :
  sys_actors s !! aid = Some a → ac_busy a = Some (d, rid) →
  sys_actors (let s1 := put_actor aid (with_busy None a) (log_event (UpWrite aid rid d (length d)) s) in
              if queued then enqueue aid SessionResetIdleTimeout s1 else s1) !! k = Some a' →
  k = aid ∧ msgs_from s aid a' ∧
    (∀ x, x ∈ actor_msgs a' → msg_rid x = None ∨ x ∈ actor_msgs (with_busy None a)) ∨
  k ≠ aid ∧ sys_actors s !! k = Some a'.
Proof.
  intros Ha Hb Hk.
  assert (Hless : msgs_from s aid (with_busy None a))
    by (eapply msgs_from_less; [done|]; by apply actor_msgs_busy).
  destruct queued; simpl in Hk.
  2:{ apply lookup_insert_Some in Hk as [[<- <-]|[Hne Hk]]; auto. }
  apply lookup_alter_Some in Hk as [(<- & x & Hx & ->)|[Hne Hk]].
  2:{ rewrite lookup_insert_ne in Hk by done. auto. }
  rewrite lookup_insert_eq in Hx. simplify_eq. left. split; [done|].
  unfold push_msg. destruct (is_alive _); [|by auto].
  set (b := with_busy None a) in *.
  assert (E : actor_msgs (with_mailbox (ac_mailbox b ++ [SessionResetIdleTimeout]) b)
              ≡ₚ SessionResetIdleTimeout :: actor_msgs b).
  { unfold actor_msgs. simpl. rewrite <- app_assoc. symmetry. apply Permutation_middle. }
  split.
  - destruct Hless as [Hn|(a1 & Ha1 & Hs & Hm)].
    + right. exists a. split; [done|]. rewrite E, Hn. split; [apply submseteq_nil_l|].
      intros m. rewrite E, Hn, list_elem_of_singleton. intros ->. by left.
    + right. exists a1. split; [done|]. split; [by rewrite E|].
      intros m. rewrite E, elem_of_cons. intros [->|?]; auto.
  - intros m. rewrite E, elem_of_cons. intros [->|?]; auto.
Qed.

Lemma writes_wf_trans s s' :
  ids_fresh s → actors_wf s → busy_wf s → writes_wf s → trans s s' → writes_wf s'.
Proof.
  intros Hf Hwf Hbw Hw Ht.
  assert (Hst : ∀ k, has_stopped s k → has_stopped s' k) by (intros k; by apply has_stopped_trans).
  inversion Ht; subst; clear Ht; try done.
  all: try (by eapply writes_wf_finish).
  all: try (by eapply writes_wf_stop_busy).
  all: try (eapply (writes_wf_frame s); [done|done|done|done|done|]; simpl; intros;
            eapply msgs_from_same; done).
  all: try match goal with Hr : sys_requests _ !! _ = Some ?r, Hp : rq_pos ?r = _ |- _ =>
         pose proof (ww_req _ Hw _ _ Hr) as Hok; unfold request_ok in Hok; rewrite Hp in Hok end.
  - (* T_request_err *)
    eapply (writes_wf_new s); eauto; simpl; [by eauto using msgs_from_same|by rewrite H4].
  - eapply (writes_wf_new s); eauto; simpl; [by eauto using msgs_from_same|apply request_start_new].
  - eapply (writes_wf_new s); eauto; simpl; [|apply request_start_new].
    intros k a' [[<- <-]|[Hne Hk]]%lookup_insert_Some; [by left|by eapply msgs_from_same].
  - (* T_body_chunk *)
    eapply writes_wf_send; try done; rewrite ?H4; try done.
    + destruct Hok as [Hwr Htot]. split; simpl; [by right|].
      rewrite Htot, total_len_snoc. unfold add64. by rewrite wrap64_add_l.
    + eexists. simpl. rewrite lookup_insert_eq. eauto.
  - (* T_write_acked *)
    eapply (writes_wf_request s _ rid r); eauto; simpl.
    + destruct Hok as [[[Hwr _]|[_ ?]] Htot]; [|done]. done.
    + right. eapply no_msg; eauto. by rewrite H4.
  - (* T_read_send *)
    eapply writes_wf_send; try done; rewrite ?H4; try done.
    eexists. simpl. rewrite lookup_insert_eq. eauto.
  - eapply (writes_wf_actor s); eauto. by eapply msgs_from_same.
  - eapply (writes_wf_actor s); eauto. by left.
  - (* T_connect_ok *)
    eapply (writes_wf_actor s); eauto; simpl.
    + intros k. by rewrite writes_of_snoc, app_nil_r.
    + intros * [?|Hin%list_elem_of_singleton]%elem_of_app; done.
    + by eapply msgs_from_same.
  - by eapply (writes_wf_read s _ aid a _ i rid None).
  - by eapply (writes_wf_read s _ aid a _ i rid (Some (sys_next s))).
  - (* T_write_begin *)
    eapply (writes_wf_actor s); eauto. eapply msgs_from_perm; [done|].
    rewrite (actor_msgs_take _ _ _ H8). unfold actor_msgs. simpl. rewrite H6, app_nil_r.
    apply Permutation_cons_append.
  - eapply (writes_wf_actor s); eauto. eapply msgs_from_less; [done|].
    rewrite (actor_msgs_take _ _ _ H8). by unfold actor_msgs.
  - (* T_write_ok *)
    eapply (writes_wf_written s _ aid a data rid (length data)); eauto.
    + by destruct queued.
    + by destruct queued.
    + intros k a' Hk. apply (written_actors s aid a data rid queued) in Hk; [|done..]. tauto.
  - (* T_write_err *)
    eapply (writes_wf_written s _ aid a data rid n); eauto.
    intros k a'. simpl. intros [[<- <-]|[Hne Hk]]%lookup_insert_Some; [left|by right].
    split; [done|]. split; [|by auto]. eapply msgs_from_less; [done|]. by apply actor_msgs_busy.
  - (* T_stop_idle *) eapply (writes_wf_actor s); eauto. by left.
  - (* T_drop *) eapply (writes_wf_actor s); eauto. by eapply msgs_from_same.
  - (* T_received *)
    eapply (writes_wf_frame s); eauto; simpl.
    + intros k. by rewrite writes_of_snoc, app_nil_r.
    + intros * [?|Hin%list_elem_of_singleton]%elem_of_app; done.
    + intros. by eapply msgs_from_same.
  - (* T_passed *)
    eapply (writes_wf_alter s); eauto; simpl.
    + intros k. by rewrite writes_of_snoc, app_nil_r.
    + intros * [?|Hin%list_elem_of_singleton]%elem_of_app; done.
    + intros a Ha. by eapply msgs_from_reset.
  - (* T_yield *) eapply (writes_wf_alter s); eauto. intros a Ha. by eapply msgs_from_reset.
  - (* T_release *) eapply (writes_wf_alter s); eauto. simpl. by eauto using msgs_from_unlock.
  - (* T_fire *) eapply (writes_wf_alter s); eauto. simpl. by eauto using msgs_from_same.
Qed.

(** * Partial writes *)

(** A write the upstream did not take whole is the last of its actor, which stops. *)
Definition partial_wf s : Prop :=
  ∀ aid i d n, actor_writes aid (sys_log s) !! i = Some (d, n) → n < length d →
    S i = length (actor_writes aid (sys_log s)) ∧
    ∃ a, sys_actors s !! aid = Some a ∧ (ac_stop a = true ∨ ac_status a = Stopped).

Definition stopping a : Prop := ac_stop a = true ∨ ac_status a = Stopped.

Lemma stopping_push m a : stopping a → stopping (push_msg m a).
Proof. unfold push_msg. by destruct (is_alive a). Qed.

Lemma stopping_unlock a : stopping a → stopping (unlock_reader a).
Proof. unfold unlock_reader. by destruct (ac_session a). Qed.

#[local] Hint Resolve stopping_push stopping_unlock : core.

Lemma stopping_trans s s' aid a :
  ids_fresh s → actors_wf s → busy_wf s → trans s s' → sys_actors s !! aid = Some a →
  stopping a → ∃ a', sys_actors s' !! aid = Some a' ∧ stopping a'.
Proof.
  intros (Hf & _) Hwf Hbw Ht Ha Hs. destruct (Hwf _ _ Ha) as [_ Hst].
  pose proof (Hbw _ _ Ha) as Hb. clear Hwf Hbw.
  trans_cases Ht; try destruct queued; simpl.
  all: map_goal.
  all: try (by eauto 10); try (apply Hf in Ha; lia).
  all: clear Hf; rewrite ?Ha; simpl; eexists; (split; [done|]).
  all: try apply stopping_push; try apply stopping_unlock; try done.
  all: unfold stopping in *; simpl in *; auto.
  all: destruct Hs as [Hs|Hs]; rewrite ?Hs in *; destruct_and?; (by auto || congruence).
Qed.

(** No write of the actor was partial, as it is still in [write_all]. *)
Lemma busy_no_partial s aid a i d n :
  busy_wf s → partial_wf s → sys_actors s !! aid = Some a → is_Some (ac_busy a) →
  actor_writes aid (sys_log s) !! i = Some (d, n) → ¬ n < length d.
Proof.
  intros Hbw Hp Ha Hb Hi Hn. destruct (Hp _ _ _ _ Hi Hn) as (_ & a1 & Ha1 & Hs).
  destruct (Hbw _ _ Ha Hb). simplify_eq. naive_solver congruence.
Qed.

Lemma partial_wf_write s s' aid a d rid n :
  busy_wf s → partial_wf s → sys_actors s !! aid = Some a → ac_busy a = Some (d, rid) →
  sys_log s' = sys_log s ++ [UpWrite aid rid d n] →
  (∀ k b, sys_actors s !! k = Some b → stopping b → ∃ b', sys_actors s' !! k = Some b' ∧ stopping b') →
  (n < length d → ∃ a', sys_actors s' !! aid = Some a' ∧ stopping a') →
  partial_wf s'.
Proof.
  intros Hbw Hp Ha Hb Hlog Hst Hn k i d1 n1. rewrite Hlog, actor_writes_snoc.
  case_decide as E; subst.
  - intros [Hi|[Hlen Hi]]%lookup_app_Some Hlt.
    + exfalso. eapply busy_no_partial; eauto.
    + rewrite length_app. apply list_lookup_singleton_Some in Hi as [Hi [= -> ->]]. simpl.
      split; [lia|]. by apply Hn.
  - rewrite app_nil_r. intros Hi Hlt. destruct (Hp _ _ _ _ Hi Hlt) as (? & b & Hk & Hs).
    split; [done|]. by eapply Hst.
Qed.

Lemma partial_wf_trans s s' :
  ids_fresh s → actors_wf s → busy_wf s → partial_wf s → trans s s' → partial_wf s'.
Proof.
  intros Hf Hwf Hbw Hp Ht.
  assert (Hst : ∀ k b, sys_actors s !! k = Some b → stopping b →
                  ∃ b', sys_actors s' !! k = Some b' ∧ stopping b')
    by (intros; by eapply stopping_trans).
  assert (Hq : (∀ k, actor_writes k (sys_log s') = actor_writes k (sys_log s)) → partial_wf s').
  { intros E k i d n. rewrite E. intros Hi Hn.
    destruct (Hp _ _ _ _ Hi Hn) as (? & b & Hk & Hs). split; [done|]. by eapply Hst. }
  inversion Ht; subst; clear Ht.
  all: try (by apply Hq; intros; simpl; rewrite ?actor_writes_snoc, ?app_nil_r).
  all: clear Hq.
  - eapply (partial_wf_write s _ aid a data rid (length data)); eauto; [by destruct queued|lia].
  - eapply (partial_wf_write s _ aid a data rid n); eauto. simpl. intros _.
    rewrite lookup_insert_eq. eexists. split; [done|]. by left.
  - eapply (partial_wf_write s _ aid a data rid n); eauto. simpl. intros _.
    rewrite lookup_insert_eq. eexists. split; [done|]. by right.
Qed.
End WriteInv.
