(* ===== verification/BodyInv.v ===== *)
(** Request bodies: what a schedule fed into each request.

    The other invariants speak of ghost fields; here the chunks a request has
    acknowledged are identified with the ones its body yielded, which are labels of
    the schedule. *)
From S2P Require Import Prelude Ext DomainFronting Stats State Session Server ServerSteps.

Section BodyInv.
Context `{UuidLib, HttpLib, TryMutex}.
Implicit Types (s : Sys) (r : ReqState).

(** The chunks the body of [rid] yielded along a schedule. *)
Definition body_of (rid : nat) (ls : list label) : list bytes :=
  omap (λ l, match l with
             | LBody k (Some (Ok d)) => if decide (k = rid) then Some d else None
             | _ => None
             end) ls.

Lemma body_of_snoc rid ls l :
  body_of rid (ls ++ [l]) =
  body_of rid ls ++
    match l with LBody k (Some (Ok d)) => if decide (k = rid) then [d] else [] | _ => [] end.
Proof.
  unfold body_of. rewrite omap_app. f_equal. destruct l as [|k [[d|]|]| | | | | | | | | | | | | | |]; try done.
  simpl. by case_decide.
Qed.

(** The chunks a request took from its body, as long as it may still succeed. *)
Definition rq_chunks r : list bytes :=
  rq_acked r ++ match rq_pos r with AtWrite _ _ d _ => [d] | _ => [] end.

Definition may_succeed r : Prop :=
  match rq_pos r with
  | Responded resp => rs_status resp = NO_CONTENT
  | Cancelled => False
  | _ => True
  end.

(** One request, before and after a step that yields no chunk to it. *)
Definition keeps_chunks r r' : Prop :=
  may_succeed r' → may_succeed r ∧ rq_chunks r' = rq_chunks r.

(** All requests, before and after a step without a chunk: the old ones keep their
    chunks, and there are [new] ones, without chunks, at most when a request arrives. *)
Definition quiet (new : bool) s s' : Prop :=
  ∀ rid, match sys_requests s !! rid, sys_requests s' !! rid with
         | Some r, Some r' => keeps_chunks r r'
         | None, Some r' => new = true ∧ rq_chunks r' = []
         | Some _, None => False
         | None, None => True
         end.

Lemma keeps_chunks_refl r : keeps_chunks r r.
Proof. by split. Qed.
#[local] Hint Resolve keeps_chunks_refl : core.

Lemma quiet_same new s s' : sys_requests s' = sys_requests s → quiet new s s'.
Proof. intros E rid. rewrite E. destruct (sys_requests s !! rid); auto. Qed.

Lemma quiet_put new s s' rid r r' :
  sys_requests s !! rid = Some r → keeps_chunks r r' →
  sys_requests s' = <[rid := r']> (sys_requests s) → quiet new s s'.
Proof.
  intros Hr Hk E k. rewrite E, lookup_insert. case_decide; subst; [by rewrite Hr|].
  destruct (sys_requests s !! k); auto.
Qed.

Lemma quiet_alter new s s' rid f :
  (∀ r, keeps_chunks r (f r)) → sys_requests s' = alter f rid (sys_requests s) → quiet new s s'.
Proof.
  intros Hk E k. rewrite E, lookup_alter. case_decide; subst; destruct (sys_requests s !! _); simpl; auto.
Qed.

Lemma quiet_new s s' pos :
  (∀ k r, sys_requests s !! k = Some r → k < sys_next s) →
  match pos with AtWrite _ _ _ _ => False | _ => True end →
  sys_requests s' = <[sys_next s := mkReq pos []]> (sys_requests s) → quiet true s s'.
Proof.
  intros Hf Hp E k. rewrite E, lookup_insert. case_decide as Ek; subst.
  - destruct (sys_requests s !! sys_next s) as [r|] eqn:Hr; [apply Hf in Hr; lia|].
    split; [done|]. unfold rq_chunks. by destruct pos.
  - destruct (sys_requests s !! k); auto.
Qed.

(** A request that comes to an end. *)
Lemma keeps_end r pos acked :
  match pos with
  | Responded resp => rs_status resp = NO_CONTENT → ∃ aid total, rq_pos r = AtBody aid total ∧ acked = rq_acked r
  | Cancelled => True
  | _ => False
  end → keeps_chunks r (mkReq pos acked).
Proof.
  unfold keeps_chunks, may_succeed, rq_chunks. destruct pos; simpl; try done.
  intros Hp Hok. destruct (Hp Hok) as (aid & total & -> & ->). done.
Qed.

Lemma keeps_answer_read reply r : keeps_chunks r (answer_read reply r).
Proof.
  unfold answer_read. destruct (rq_pos r) as [| | |aid []| |] eqn:E; auto.
  unfold keeps_chunks, may_succeed, rq_chunks. by rewrite E.
Qed.

Lemma keeps_answer_write r : keeps_chunks r (answer_write r).
Proof.
  unfold answer_write. destruct (rq_pos r) as [|aid total d []| | | |] eqn:E; auto.
  unfold keeps_chunks, may_succeed, rq_chunks. by rewrite E.
Qed.

#[local] Hint Resolve keeps_answer_read keeps_answer_write quiet_same : core.

Lemma request_arrives_quiet head s s' :
  (∀ k r, sys_requests s !! k = Some r → k < sys_next s) →
  request_arrives head s = Some s' → quiet true s s'.
Proof.
  unfold request_arrives, handle_request, handle_request_inner, lookup_session. intros Hf Hs.
  apply bind_Some in Hs as (_ & _ & Hs).
  destruct (parse_method _) as [m|e]; [|simplify_eq/=; eapply quiet_new; [done| |reflexivity]; done].
  destruct (parse_session_id _ _) as [u|]; [|simplify_eq/=; eapply quiet_new; [done| |reflexivity]; done].
  simpl in Hs. destruct (sys_sessions s !! u) as [x|]; [destruct (actor_alive x _)|].
  all: try destruct (bool_decide _); simplify_eq/=.
  all: eapply quiet_new; [done| |reflexivity]; by destruct m.
Qed.

Lemma write_next_quiet new rid chunk s s' :
  (∀ d, chunk ≠ Some (Ok d)) → write_request_next rid chunk s = Some s' → quiet new s s'.
Proof.
  unfold write_request_next. intros Hc Hs. apply bind_Some in Hs as (r & Hr & Hs).
  destruct (rq_pos r) as [aid total| | | | |] eqn:Hp; try done.
  destruct chunk as [[d|e]|]; [by destruct (Hc d)|..]; simplify_eq.
  - eapply quiet_put; [done| |done]. by apply keeps_end.
  - eapply quiet_put; [done| |done]. destruct (total =? 0)%Z; apply keeps_end; simpl; eauto.
Qed.

Lemma resumes_quiet new rid s s' : request_resumes rid s = Some s' → quiet new s s'.
Proof.
  unfold request_resumes. intros Hs. apply bind_Some in Hs as (r & Hr & Hs).
  destruct (rq_pos r) as [|aid total d [[]|]|aid|aid [[stid|]|]| |] eqn:Hp; try done.
  all: try (apply bind_Some in Hs as (_ & _ & Hs)).
  all: simplify_eq; (eapply quiet_put; [done| |done]).
  all: try (apply keeps_end; simpl; done).
  - unfold keeps_chunks, may_succeed, rq_chunks. rewrite Hp. simpl. by rewrite app_nil_r.
  - unfold keeps_chunks, may_succeed, rq_chunks. by rewrite Hp.
Qed.

Lemma deliver_quiet new aid i s s' : deliver aid i s = Some s' → quiet new s s'.
Proof.
  unfold deliver. intros Hs. apply bind_Some in Hs as (a & Ha & Hs).
  apply bind_Some in Hs as (_ & _ & Hs).
  destruct (ac_status a), (ac_session a), (ac_busy a), (ac_stop a); try done.
  apply bind_Some in Hs as (m & Hm & Hs). destruct m; simplify_eq; auto.
  unfold handle_read. destruct (try_lock_owned _); (eapply quiet_alter; [|reflexivity]; auto).
Qed.

Lemma written_quiet new aid res queued s s' : handle_written aid res queued s = Some s' → quiet new s s'.
Proof.
  unfold handle_written. intros Hs. apply bind_Some in Hs as (a & Ha & Hs).
  apply bind_Some in Hs as (_ & _ & Hs).
  apply bind_Some in Hs as ([d rid] & Hb & Hs). destruct res; [|apply bind_Some in Hs as (_ & _ & Hs)];
    simplify_eq; [destruct queued|]; (eapply quiet_alter; [|reflexivity]; auto).
Qed.

(** Only [LBody] yields chunks, and only [LRequest] starts requests. *)
Definition is_request (l : label) : bool := match l with LRequest _ => true | _ => false end.

Lemma step_quiet s l s' :
  (∀ k r, sys_requests s !! k = Some r → k < sys_next s) →
  (∀ rid d, l ≠ LBody rid (Some (Ok d))) → step s l = Some s' → quiet (is_request l) s s'.
Proof.
  intros Hf Hl Hs. destruct l; simpl in Hs; simplify_eq; auto.
  - by eapply request_arrives_quiet.
  - eapply write_next_quiet; [|done]. intros d ->. by eapply Hl.
  - by eapply resumes_quiet.
  - unfold request_cancelled in Hs. apply bind_Some in Hs as (r & Hr & Hs).
    apply bind_Some in Hs as (_ & _ & Hs). simplify_eq.
    eapply quiet_put; [done| |done]. by apply keeps_end.
  - unfold on_start in Hs. apply bind_Some in Hs as (a & Ha & Hs).
    destruct (ac_status a); simplify_eq/=; auto.
  - unfold on_start_connected in Hs. apply bind_Some in Hs as (a & Ha & Hs).
    destruct (ac_status a), res; simplify_eq/=; auto.
  - by eapply deliver_quiet.
  - by eapply written_quiet.
  - unfold actor_stops in Hs. apply bind_Some in Hs as (a & Ha & Hs).
    apply bind_Some in Hs as (_ & _ & Hs). apply bind_Some in Hs as (_ & _ & Hs).
    destruct (ac_busy a) as [[]|]; [apply bind_Some in Hs as (_ & _ & Hs)|]; simplify_eq/=; auto.
  - unfold drop_session in Hs. apply bind_Some in Hs as (a & Ha & Hs).
    destruct (ac_status a), (ac_session a); simplify_eq/=; auto.
  - apply fmap_Some in Hs as ([p s1] & (st & _ & Hp)%poll_cases & ->). destruct Hp; simpl; auto.
  - unfold drop_stream in Hs. apply bind_Some in Hs as (st & Hst & Hs).
    destruct (st_pos st); simplify_eq/=; auto.
  - unfold timer_fires in Hs. apply bind_Some in Hs as (tk & Htk & Hs).
    apply bind_Some in Hs as (_ & _ & Hs). simplify_eq/=. auto.
  - unfold server_dropped in Hs. apply bind_Some in Hs as (_ & _ & Hs).
    apply bind_Some in Hs as (_ & _ & Hs). simplify_eq/=. auto.
Qed.

(** Each request's chunks are those its body yielded. *)
Definition bodies_wf (ls : list label) s : Prop :=
  ∀ rid, match sys_requests s !! rid with
         | Some r => may_succeed r → rq_chunks r = body_of rid ls
         | None => body_of rid ls = []
         end.

Lemma chunk_label l :
  (∃ k d, l = LBody k (Some (Ok d))) ∨
  (∀ k d, l ≠ LBody k (Some (Ok d))) ∧
  ∀ rid, match l with LBody k (Some (Ok d)) => if decide (k = rid) then [d] else [] | _ => [] end
         = @nil bytes.
Proof. destruct l as [|k [[d|e]|]| | | | | | | | | | | | | | |]; eauto; right; by split. Qed.

Lemma bodies_wf_step ls s l s' :
  (∀ k r, sys_requests s !! k = Some r → k < sys_next s) →
  bodies_wf ls s → step s l = Some s' → bodies_wf (ls ++ [l]) s'.
Proof.
  intros Hf Hw Hs rid. rewrite body_of_snoc.
  destruct (chunk_label l) as [(k & d & ->)|[Hl E]].
  2:{ rewrite E.
      pose proof (step_quiet _ _ _ Hf Hl Hs rid) as Hq. specialize (Hw rid).
      rewrite app_nil_r. unfold keeps_chunks in Hq.
      destruct (sys_requests s !! rid), (sys_requests s' !! rid); naive_solver congruence. }
  simpl in Hs. unfold write_request_next in Hs. apply bind_Some in Hs as (r & Hr & Hs).
  destruct (rq_pos r) as [aid total| | | | |] eqn:Hp; simplify_eq/=.
  rewrite lookup_insert. case_decide; subst.
  - intros _. specialize (Hw rid). rewrite Hr in Hw. rewrite <- Hw by (unfold may_succeed; by rewrite Hp).
    unfold rq_chunks. by rewrite Hp, app_nil_r.
  - rewrite app_nil_r. apply Hw.
Qed.

Lemma bodies_wf_init config : bodies_wf [] (with_connector config).
Proof. done. Qed.
End BodyInv.
