(* ===== verification/ConfigInv.v ===== *)
(** Sessions follow the configuration: actors run with the server's settings and open
    one connection each, to the configured upstream, before they transfer data. *)
From S2P Require Import Prelude Ext DomainFronting Stats State Session Server ServerSteps.
From S2P Require Import ServerInv WriteInv.

Section ConfigInv.
Context `{UuidLib, HttpLib, TryMutex, !TryMutexLaws}.
Implicit Types (s : Sys) (a : Actor) (st : StreamState) (log : list UpEvent).

Lemma config_trans s s' : trans s s' → sys_config s' = sys_config s.
Proof. intros Ht. inversion Ht; try destruct queued; done. Qed.

Definition config_wf s : Prop :=
  ∀ aid a, sys_actors s !! aid = Some a →
    arg_upstream (ac_args a) = cfg_upstream (sys_config s) ∧
    arg_idle_timeout (ac_args a) = cfg_idle_timeout (sys_config s) ∧
    arg_total_timeout (ac_args a) = cfg_total_timeout (sys_config s).

Lemma args_push m a : ac_args (push_msg m a) = ac_args a.
Proof. unfold push_msg. by destruct (is_alive a). Qed.

Lemma args_unlock a : ac_args (unlock_reader a) = ac_args a.
Proof. unfold unlock_reader. by destruct (ac_session a). Qed.

Lemma config_wf_trans s s' : config_wf s → trans s s' → config_wf s'.
Proof.
  intros Hw Ht aid a. rewrite (config_trans _ _ Ht). intros Ha.
  trans_cases Ht; try destruct queued; simpl in *; map_hyps; rewrite ?args_push, ?args_unlock; eauto.
  all: exact (Hw _ _ ltac:(eassumption)).
Qed.

(** * Connections *)

(** The connections opened, in order. *)
Definition opens log : list (nat * SocketAddr) :=
  omap (λ e, match e with UpOpen aid addr => Some (aid, addr) | _ => None end) log.

Lemma opens_snoc log e :
  opens (log ++ [e]) = opens log ++ match e with UpOpen aid addr => [(aid, addr)] | _ => [] end.
Proof. unfold opens. rewrite omap_app. f_equal. by destruct e. Qed.

Definition has_opened (aid : nat) log : Prop := aid ∈ (opens log).*1.

Record opens_wf s : Prop := {
  ow_addr aid addr : (aid, addr) ∈ opens (sys_log s) → addr = cfg_upstream (sys_config s);
  ow_nodup : NoDup (opens (sys_log s)).*1;
  ow_started aid : has_opened aid (sys_log s) →
    ∃ a, sys_actors s !! aid = Some a ∧ in_on_start a = false;
  ow_session aid a : sys_actors s !! aid = Some a → is_Some (ac_session a) →
    has_opened aid (sys_log s);
  ow_stream k st : sys_streams s !! k = Some st → has_opened (st_actor st) (sys_log s);
  ow_write aid rid d n : UpWrite aid rid d n ∈ sys_log s → has_opened aid (sys_log s);
  ow_read aid k d : UpRead aid k d ∈ sys_log s → has_opened aid (sys_log s);
}.

Definition started a : Prop := in_on_start a = false.

Lemma started_push m a : started a → started (push_msg m a).
Proof. unfold push_msg. by destruct (is_alive a). Qed.

Lemma started_unlock a : started a → started (unlock_reader a).
Proof. unfold unlock_reader. by destruct (ac_session a). Qed.

Lemma started_trans s s' aid a :
  ids_fresh s → trans s s' → sys_actors s !! aid = Some a → started a →
  ∃ a', sys_actors s' !! aid = Some a' ∧ started a'.
Proof.
  intros (Hf & _) Ht Ha Hs.
  trans_cases Ht; try destruct queued; simpl.
  all: map_goal.
  all: try (by eauto 10); try (apply Hf in Ha; lia).
  all: clear Hf; rewrite ?Ha; simpl; eexists; (split; [done|]).
  all: try apply started_push; try apply started_unlock; try done.
  all: unfold started, in_on_start in *; by destruct (ac_status a).
Qed.

Lemma session_push m a : ac_session (push_msg m a) = ac_session a.
Proof. unfold push_msg. by destruct (is_alive a). Qed.

Lemma session_unlock a : is_Some (ac_session (unlock_reader a)) → is_Some (ac_session a).
Proof. unfold unlock_reader. destruct (ac_session a) eqn:E; [done|]. by rewrite E. Qed.

(** Steps that open no connection: what they add was done on an open one. *)
Lemma opens_wf_frame s s' :
  opens_wf s → sys_config s' = sys_config s → opens (sys_log s') = opens (sys_log s) →
  (∀ aid a, sys_actors s !! aid = Some a → started a →
     ∃ a', sys_actors s' !! aid = Some a' ∧ started a') →
  (∀ aid a', sys_actors s' !! aid = Some a' → is_Some (ac_session a') →
     ∃ a, sys_actors s !! aid = Some a ∧ is_Some (ac_session a)) →
  (∀ k st', sys_streams s' !! k = Some st' → has_opened (st_actor st') (sys_log s)) →
  (∀ aid rid d n, UpWrite aid rid d n ∈ sys_log s' →
     UpWrite aid rid d n ∈ sys_log s ∨ has_opened aid (sys_log s)) →
  (∀ aid k d, UpRead aid k d ∈ sys_log s' →
     UpRead aid k d ∈ sys_log s ∨ has_opened aid (sys_log s)) →
  opens_wf s'.
Proof.
  intros [Ha Hn Hst Hse Hstr Hw Hr] Hc Ho Hst' Hse' Hstr' Hw' Hr'.
  unfold has_opened in *. split; unfold has_opened; rewrite ?Hc, ?Ho; try done.
  - intros aid Hin. destruct (Hst _ Hin) as (a & Hla & Hs). by eapply Hst'.
  - intros aid a' Hla Hs. destruct (Hse' _ _ Hla Hs) as (a & Hla' & Hs'). by eapply Hse.
  - intros * Hin. destruct (Hw' _ _ _ _ Hin); eauto.
  - intros * Hin. destruct (Hr' _ _ _ Hin); eauto.
Qed.

(** A connection is opened by an actor that has none yet. *)
Lemma opens_wf_open s s' aid a a' :
  opens_wf s → sys_config s' = sys_config s → sys_actors s !! aid = Some a → ¬ started a →
  sys_actors s' = <[aid := a']> (sys_actors s) → started a' →
  sys_streams s' = sys_streams s →
  sys_log s' = sys_log s ++ [UpOpen aid (cfg_upstream (sys_config s))] → opens_wf s'.
Proof.
  intros [Hadr Hn Hst Hse Hstr Hw Hr] Hc Ha Hns Hact Hs' Hstreams Hlog.
  assert (Hnew : ¬ has_opened aid (sys_log s)).
  { intros Hin. destruct (Hst _ Hin) as (b & Hb & Hs). simplify_eq. done. }
  unfold has_opened in *.
  assert (Ho : opens (sys_log s') = opens (sys_log s) ++ [(aid, cfg_upstream (sys_config s))])
    by (by rewrite Hlog, opens_snoc).
  assert (Hmono : ∀ k, k ∈ (opens (sys_log s)).*1 → k ∈ (opens (sys_log s')).*1)
    by (intros k; rewrite Ho, fmap_app; set_solver).
  split; unfold has_opened; rewrite ?Hc.
  - intros k addr. rewrite Ho, elem_of_app, list_elem_of_singleton. naive_solver.
  - rewrite Ho, fmap_app. simpl. rewrite NoDup_app. split; [done|].
    split; [|apply NoDup_singleton]. intros k Hk ->%list_elem_of_singleton. done.
  - intros k. rewrite Ho, fmap_app, elem_of_app. simpl. rewrite list_elem_of_singleton, Hact.
    intros [Hk| ->]; [|rewrite lookup_insert_eq; by eauto].
    destruct (Hst _ Hk) as (b & Hb & Hs). exists b. split; [|done].
    rewrite lookup_insert_ne; [done|]. intros ->. done.
  - intros k b. rewrite Hact. intros [[<- <-]|[Hne Hk]]%lookup_insert_Some Hs; [|by eauto].
    rewrite Ho, fmap_app. set_solver.
  - intros k st. rewrite Hstreams. eauto.
  - intros * Hin. rewrite Hlog in Hin. apply elem_of_app in Hin as [Hin|Hin%list_elem_of_singleton]; naive_solver.
  - intros * Hin. rewrite Hlog in Hin. apply elem_of_app in Hin as [Hin|Hin%list_elem_of_singleton]; naive_solver.
Qed.

Lemma busy_opened s aid a :
  actors_wf s → busy_wf s → opens_wf s → sys_actors s !! aid = Some a → is_Some (ac_busy a) →
  has_opened aid (sys_log s).
Proof.
  intros Hwf Hbw Ho Ha Hb. destruct (Hbw _ _ Ha Hb) as [_ Hrun].
  destruct (Hwf _ _ Ha) as [_ Hs]. rewrite Hrun in Hs. by eapply ow_session.
Qed.

Lemma opens_wf_trans s s' :
  ids_fresh s → config_wf s → actors_wf s → busy_wf s → opens_wf s → trans s s' → opens_wf s'.
Proof.
  intros Hf Hc Hwf Hbw Ho Ht.
  assert (Hst : ∀ aid a, sys_actors s !! aid = Some a → started a →
                  ∃ a', sys_actors s' !! aid = Some a' ∧ started a')
    by (intros; by eapply started_trans).
  pose proof (config_trans _ _ Ht) as Hcfg.
  assert (Hb : ∀ aid a d rid, sys_actors s !! aid = Some a → ac_busy a = Some (d, rid) →
                 has_opened aid (sys_log s)) by (intros; eapply busy_opened; eauto).
  inversion Ht; subst; clear Ht; try done.
  all: try (eapply (opens_wf_open s); [done|done|eassumption| |reflexivity|done|done|];
            [ unfold started, in_on_start; by rewrite H4
            | simpl; by destruct (Hc _ _ H3) as [-> _] ]).
  all: try destruct queued.
  all: eapply (opens_wf_frame s); [done|done| |done|..]; simpl.
  all: try (by rewrite ?opens_snoc, ?app_nil_r).
  all: try (by intros; left).
  all: try (intros * [?|?%list_elem_of_singleton]%elem_of_app; [by left|]; simplify_eq; try done;
            right; eauto using ow_stream).
  all: try (intros k st' Hk; map_hyps; eauto using ow_stream, ow_session).
  all: try (intros k a' Hk Hs; map_hyps; eauto; simpl in *; try done).
  all: rewrite ?session_push in *; eauto.
  - (* T_request_new *) by intros [].
  - (* T_drop *) destruct (upstream_read_abort self); map_hyps; by eapply ow_stream.
  - (* T_release *) intros Hs%session_unlock. eauto.
Qed.
End ConfigInv.
