(* ===== verification/PendingInv.v ===== *)
(** Requests in flight: what a suspended request waits for is on its way.

    A request that awaits a reply has its message in the mailbox (or the hands) of a
    live actor, or the actor has stopped; a request that was given a response stream
    is the only one to have it; and the responses are the ones the code builds. *)
From S2P Require Import Prelude Ext DomainFronting Stats State Session Server ServerSteps.
From S2P Require Import ServerInv WriteInv.

Section PendingInv.
Context `{UuidLib, HttpLib, TryMutex, !TryMutexLaws}.
Implicit Types (s : Sys) (a : Actor) (st : StreamState) (r : ReqState).

Definition awaits s (aid : nat) (m : Msg) : Prop :=
  ∃ a, sys_actors s !! aid = Some a ∧ (ac_status a = Stopped ∨ m ∈ actor_msgs a).

(** The stream a request has been given. *)
Definition rq_stream r : option nat :=
  match rq_pos r with
  | AtRead _ (Some (Some k)) => Some k
  | Responded resp => match rs_body resp with StreamBody k => Some k | Empty => None end
  | _ => None
  end.

(** The responses the server gives. *)
Definition error_response (code : StatusCode) : Response := mkResponse code [] Empty.
Definition response_ok (resp : Response) : Prop :=
  resp = write_response ∨ (∃ k, resp = read_response k) ∨
  resp = error_response BAD_REQUEST ∨ resp = error_response TOO_MANY_REQUESTS.

Definition pending_ok s (rid : nat) r : Prop :=
  match rq_pos r with
  | AtBody aid _ | AtReadSend aid => is_Some (sys_actors s !! aid)
  | AtWrite aid _ d None => awaits s aid (SessionWrite d rid)
  | AtRead aid None => awaits s aid (SessionRead rid)
  | AtWrite aid _ _ (Some _) | AtRead aid (Some _) => is_Some (sys_actors s !! aid)
  | Responded resp => response_ok resp
  | Cancelled => True
  end.

Record pending_wf s : Prop := {
  pw_req rid r : sys_requests s !! rid = Some r → pending_ok s rid r;
  pw_stream rid r k : sys_requests s !! rid = Some r → rq_stream r = Some k →
    ∃ st, sys_streams s !! k = Some st;
  pw_owner i j ri rj k : sys_requests s !! i = Some ri → sys_requests s !! j = Some rj →
    rq_stream ri = Some k → rq_stream rj = Some k → i = j;
}.

(** No actor loses a message, except the one of request [answered]. *)
Definition keeps s s' (answered : option nat) : Prop :=
  ∀ aid a, sys_actors s !! aid = Some a → ∃ a', sys_actors s' !! aid = Some a' ∧
    (ac_status a = Stopped → ac_status a' = Stopped) ∧
    (ac_status a' = Stopped ∨
     ∀ m, m ∈ actor_msgs a → msg_rid m = answered ∨ msg_rid m = None ∨ m ∈ actor_msgs a').

Lemma keeps_put s s' aid a a' answered :
  sys_actors s !! aid = Some a → sys_actors s' = <[aid := a']> (sys_actors s) →
  (ac_status a = Stopped → ac_status a' = Stopped) →
  (ac_status a' = Stopped ∨
   ∀ m, m ∈ actor_msgs a → msg_rid m = answered ∨ msg_rid m = None ∨ m ∈ actor_msgs a') →
  keeps s s' answered.
Proof.
  intros Ha E Hst Hm k b Hb. rewrite E, lookup_insert. case_decide; simplify_eq; eauto 10.
Qed.

Lemma keeps_alter s s' aid f answered :
  sys_actors s' = alter f aid (sys_actors s) →
  (∀ a, ac_status (f a) = ac_status a ∧ ∀ m, m ∈ actor_msgs a → m ∈ actor_msgs (f a)) →
  keeps s s' answered.
Proof.
  intros E Hf k b Hb. rewrite E, lookup_alter. case_decide; subst; rewrite Hb; simpl; [|by eauto 10].
  exists (f b). destruct (Hf b) as [-> Hm]. eauto 10.
Qed.

Lemma keeps_same s s' answered : sys_actors s' = sys_actors s → keeps s s' answered.
Proof. intros E k b Hb. rewrite E. eauto 10. Qed.

Lemma keeps_new s s' aid a answered :
  (∀ k b, sys_actors s !! k = Some b → k < aid) →
  sys_actors s' = <[aid := a]> (sys_actors s) → keeps s s' answered.
Proof.
  intros Hf E k b Hb. rewrite E, lookup_insert_ne; [by eauto 10|]. apply Hf in Hb. lia.
Qed.

Lemma push_keeps m a :
  ac_status (push_msg m a) = ac_status a ∧ ∀ x, x ∈ actor_msgs a → x ∈ actor_msgs (push_msg m a).
Proof.
  unfold push_msg. destruct (is_alive a); [|done]. split; [done|].
  unfold actor_msgs. simpl. set_solver.
Qed.

Lemma unlock_keeps a :
  ac_status (unlock_reader a) = ac_status a ∧
  ∀ x, x ∈ actor_msgs a → x ∈ actor_msgs (unlock_reader a).
Proof. unfold unlock_reader. by destruct (ac_session a). Qed.

Lemma keeps_awaits s s' answered aid m rid :
  keeps s s' answered → msg_rid m = Some rid → Some rid ≠ answered →
  awaits s aid m → awaits s' aid m.
Proof.
  intros Hk Hm Hne (a & Ha & Hin). destruct (Hk _ _ Ha) as (a' & Ha' & Hst & Hkm).
  exists a'. split; [done|]. destruct Hin as [?|Hin]; [by auto|].
  destruct Hkm as [?|Hkm]; [by auto|]. destruct (Hkm m Hin) as [?|[?|?]]; auto; congruence.
Qed.

Lemma pending_ok_mono s s' answered rid r :
  keeps s s' answered → Some rid ≠ answered → pending_ok s rid r → pending_ok s' rid r.
Proof.
  intros Hk Hne. assert (He : ∀ aid, is_Some (sys_actors s !! aid) → is_Some (sys_actors s' !! aid)).
  { intros aid [a Ha]. destruct (Hk _ _ Ha) as (a' & -> & _). eauto. }
  unfold pending_ok. destruct (rq_pos r) as [|aid t d []| |aid []| |]; eauto; by eapply keeps_awaits.
Qed.

(** The streams persist. *)
Definition streams_stay s s' : Prop :=
  ∀ k, is_Some (sys_streams s !! k) → is_Some (sys_streams s' !! k).

(** One request changes; what it waits for and the stream it has are accounted for. *)
Lemma pending_wf_update s s' rid r' answered :
  pending_wf s → keeps s s' answered → streams_stay s s' →
  (answered = None ∨ answered = Some rid) →
  sys_requests s' = <[rid := r']> (sys_requests s) → pending_ok s' rid r' →
  (∀ k, rq_stream r' = Some k →
     (∃ r, sys_requests s !! rid = Some r ∧ rq_stream r = Some k) ∨
     is_Some (sys_streams s' !! k) ∧
       ∀ j rj, sys_requests s !! j = Some rj → rq_stream rj ≠ Some k) →
  pending_wf s'.
Proof.
  intros [Hr Hs Ho] Hk Hst Hans Hreq Hok Hstr. split.
  - intros k r. rewrite Hreq. intros [[<- <-]|[Hne Hl]]%lookup_insert_Some; [done|].
    eapply pending_ok_mono; [done| |by eauto]. destruct Hans; congruence.
  - intros i r k. rewrite Hreq. intros [[<- <-]|[Hne Hl]]%lookup_insert_Some Hrk.
    + destruct (Hstr _ Hrk) as [(r & Hr0 & Hrk0)|[? _]]; [|done].
      eapply Hst. destruct (Hs _ _ _ Hr0 Hrk0) as [st ->]. eauto.
    + eapply Hst. destruct (Hs _ _ _ Hl Hrk) as [st ->]. eauto.
  - assert (Hnew : ∀ j rj k, rid ≠ j → sys_requests s !! j = Some rj → rq_stream rj = Some k →
              rq_stream r' ≠ Some k).
    { intros j rj k Hne Hl Hk1 Hk2. destruct (Hstr _ Hk2) as [(r & Hr0 & Hrk0)|[_ Hno]].
      - destruct Hne. by eapply Ho.
      - by eapply Hno. }
    intros i j ri rj k. rewrite Hreq.
    intros [[<- <-]|[Hni Hi]]%lookup_insert_Some [[<- <-]|[Hnj Hj]]%lookup_insert_Some Hki Hkj; try done.
    + by destruct (Hnew j rj k).
    + by destruct (Hnew i ri k).
    + by eapply Ho.
Qed.

(** No request changes. *)
Lemma pending_wf_frame s s' :
  pending_wf s → keeps s s' None → streams_stay s s' → sys_requests s' = sys_requests s →
  pending_wf s'.
Proof.
  intros [Hr Hs Ho] Hk Hst Hreq. split; rewrite ?Hreq; try done.
  - intros k r Hl. eapply pending_ok_mono; [done|done|by eauto].
  - intros i r k Hl Hrk. eapply Hst. destruct (Hs _ _ _ Hl Hrk) as [st ->]. eauto.
Qed.

(** The actor's answer reaches the request, if it still waits for it. *)
Lemma pending_wf_answer s s' rid f aid a m :
  writes_wf s → pending_wf s → keeps s s' (Some rid) → streams_stay s s' →
  sys_actors s !! aid = Some a → m ∈ actor_msgs a → msg_rid m = Some rid →
  sys_requests s' = alter f rid (sys_requests s) →
  (∀ r, sys_requests s !! rid = Some r →
     (rq_pos r = Cancelled → f r = r) ∧
     (msg_ok s aid m → rq_pos r ≠ Cancelled → pending_ok s' rid (f r) ∧
        ∀ k, rq_stream (f r) = Some k → is_Some (sys_streams s' !! k) ∧
          ∀ j rj, sys_requests s !! j = Some rj → rq_stream rj ≠ Some k)) →
  pending_wf s'.
Proof.
  intros Hw Hp Hk Hst Ha Hm Hrid Hreq Hf. pose proof (ww_msg _ Hw _ _ _ Ha Hm) as Hok.
  assert (∃ r, sys_requests s !! rid = Some r) as [r Hr]
    by (destruct m; simplify_eq/=; destruct Hok as (r & Hr & _); eauto).
  rewrite (alter_insert_Some _ _ _ _ Hr) in Hreq.
  destruct (Hf r Hr) as [Hc Hn]. eapply pending_wf_update; eauto.
  - destruct (rq_pos r) eqn:E; try (by apply Hn). rewrite Hc by done. unfold pending_ok. by rewrite E.
  - intros k Hk'. destruct (rq_pos r) eqn:E; try (right; by apply Hn).
    rewrite Hc in Hk' by done. left. eauto.
Qed.

Lemma fresh_stream s rid r k :
  ids_fresh s → pending_wf s → sys_requests s !! rid = Some r → rq_stream r = Some k → k < sys_next s.
Proof.
  intros (_ & _ & Hf & _) Hp Hr Hk. destruct (pw_stream _ Hp _ _ _ Hr Hk) as [st Hst]. by eapply Hf.
Qed.

Lemma request_start_stream head aid acked : rq_stream (mkReq (request_start head aid) acked) = None.
Proof. unfold request_start. by destruct (head_method head). Qed.

Lemma request_start_pending s rid head aid acked :
  is_Some (sys_actors s !! aid) → pending_ok s rid (mkReq (request_start head aid) acked).
Proof. unfold request_start, pending_ok. by destruct (head_method head). Qed.

Lemma finish_response s pos resp : finish s pos (Responded resp) → response_ok resp.
Proof. unfold response_ok. inversion 1; eauto. Qed.

Lemma finish_stream s r pos k :
  finish s (rq_pos r) pos → rq_stream (mkReq pos (rq_acked r)) = Some k → rq_stream r = Some k.
Proof. unfold rq_stream. simpl. by inversion 1. Qed.

Lemma pending_wf_finish s rid r pos :
  pending_wf s → sys_requests s !! rid = Some r → finish s (rq_pos r) pos →
  pending_wf (put_request rid (mkReq pos (rq_acked r)) s).
Proof.
  intros Hp Hr Hf. eapply (pending_wf_update s _ rid _ None); eauto.
  - by apply keeps_same.
  - by intros k.
  - unfold pending_ok. simpl. destruct pos eqn:E; try by inversion Hf. by eapply finish_response.
  - intros k Hk. left. exists r. split; [done|]. by eapply finish_stream.
Qed.

(** A request sends its message and awaits the reply. *)
Lemma pending_wf_send s rid r r' aid m :
  pending_wf s → sys_requests s !! rid = Some r → is_Some (sys_actors s !! aid) →
  (∃ d t, m = SessionWrite d rid ∧ rq_pos r' = AtWrite aid t d None) ∨
    m = SessionRead rid ∧ rq_pos r' = AtRead aid None →
  pending_wf (enqueue aid m (put_request rid r' s)).
Proof.
  intros Hp Hr [a Ha] Hpos.
  assert (Haw : awaits (enqueue aid m (put_request rid r' s)) aid m).
  { exists (push_msg m a). simpl. rewrite lookup_alter_eq, Ha. split; [done|].
    unfold push_msg, is_alive. destruct (ac_status a) eqn:E; simpl; rewrite ?E; auto.
    all: right; unfold actor_msgs; simpl; set_solver. }
  eapply (pending_wf_update s _ rid r' None); eauto.
  - eapply keeps_alter; [done|]. apply push_keeps.
  - by intros k.
  - unfold pending_ok. by destruct Hpos as [(d & t & -> & ->)|[-> ->]].
  - intros k. unfold rq_stream. by destruct Hpos as [(d & t & -> & ->)|[-> ->]].
Qed.

(** Without the message it took, an actor keeps all the others. *)
Lemma msgs_but (l l' : list Msg) m rid :
  l ≡ₚ m :: l' → msg_rid m = rid →
  ∀ x, x ∈ l → msg_rid x = rid ∨ msg_rid x = None ∨ x ∈ l'.
Proof. intros HP Hm x. rewrite HP, elem_of_cons. intros [->|?]; auto. Qed.

Lemma read_answered s rid reply :
  pending_wf s →
  ∀ s' aid r, sys_requests s !! rid = Some r →
  is_Some (sys_actors s' !! aid) →
  (∀ k, reply = Some k → is_Some (sys_streams s' !! k) ∧
     ∀ j rj, sys_requests s !! j = Some rj → rq_stream rj ≠ Some k) →
  (rq_pos r = Cancelled → answer_read reply r = r) ∧
  (msg_ok s aid (SessionRead rid) → rq_pos r ≠ Cancelled → pending_ok s' rid (answer_read reply r) ∧
     ∀ k, rq_stream (answer_read reply r) = Some k → is_Some (sys_streams s' !! k) ∧
       ∀ j rj, sys_requests s !! j = Some rj → rq_stream rj ≠ Some k).
Proof.
  intros Hp s' aid r Hr Ha Hk. split; [intros Hc; unfold answer_read; by rewrite Hc|].
  intros (r1 & Hr1 & [?|E]) Hc; simplify_eq. unfold answer_read. rewrite E.
  split; [done|]. unfold rq_stream. simpl. destruct reply; [|done]. intros k [= <-]. auto.
Qed.

Lemma write_answered s rid s' aid d r :
  sys_requests s !! rid = Some r → is_Some (sys_actors s' !! aid) →
  (rq_pos r = Cancelled → answer_write r = r) ∧
  (msg_ok s aid (SessionWrite d rid) → rq_pos r ≠ Cancelled → pending_ok s' rid (answer_write r) ∧
     ∀ k, rq_stream (answer_write r) = Some k → is_Some (sys_streams s' !! k) ∧
       ∀ j rj, sys_requests s !! j = Some rj → rq_stream rj ≠ Some k).
Proof.
  intros Hr Ha. split; [intros Hc; unfold answer_write; by rewrite Hc|].
  intros (r1 & Hr1 & [?|[total E]]) Hc; simplify_eq. unfold answer_write. by rewrite E.
Qed.

(** An actor that takes a message out of its mailbox keeps the others. *)
Lemma keeps_lose s s' aid a a' m answered :
  sys_actors s !! aid = Some a → sys_actors s' = <[aid := a']> (sys_actors s) →
  ac_status a' = ac_status a → actor_msgs a ≡ₚ m :: actor_msgs a' →
  msg_rid m = answered ∨ msg_rid m = None → keeps s s' answered.
Proof.
  intros Ha E Hst HP Hm. eapply keeps_put; [done..|by rewrite Hst|].
  right. intros x. rewrite HP, elem_of_cons. intros [->|?]; tauto.
Qed.

Lemma streams_stay_insert s s' k st :
  sys_streams s' = <[k := st]> (sys_streams s) → streams_stay s s'.
Proof. intros E j Hj. rewrite E. by apply lookup_insert_is_Some'; right. Qed.

(** A request arrives: it has no stream yet. *)
Lemma pending_wf_arrival s s' r :
  pending_wf s → keeps s s' None → sys_streams s' = sys_streams s →
  sys_requests s' = <[sys_next s := r]> (sys_requests s) →
  pending_ok s' (sys_next s) r → rq_stream r = None → pending_wf s'.
Proof.
  intros Hp Hk Hst Hreq Hok Hr. eapply (pending_wf_update s s' (sys_next s) r None); auto.
  - intros k. by rewrite Hst.
  - by rewrite Hr.
Qed.

(** The actor answers a read, with a stream nobody has or with a refusal. *)
Lemma pending_wf_read s s' aid a a' rid reply :
  writes_wf s → pending_wf s → sys_actors s !! aid = Some a →
  sys_actors s' = <[aid := a']> (sys_actors s) → ac_status a' = ac_status a →
  actor_msgs a ≡ₚ SessionRead rid :: actor_msgs a' → streams_stay s s' →
  (∀ k, reply = Some k → is_Some (sys_streams s' !! k) ∧
     ∀ j rj, sys_requests s !! j = Some rj → rq_stream rj ≠ Some k) →
  sys_requests s' = alter (answer_read reply) rid (sys_requests s) → pending_wf s'.
Proof.
  intros Hw Hp Ha E Hst HP Hs Hk Hreq.
  eapply (pending_wf_answer s s' rid (answer_read reply) aid a (SessionRead rid)); auto.
  - eapply keeps_lose; eauto.
  - rewrite HP. constructor.
  - intros r Hr. eapply read_answered; eauto. rewrite E, lookup_insert_eq. eauto.
Qed.

(** The actor answers a write; it may have sent itself a message. *)
Lemma pending_wf_write s s' aid a a' data rid :
  writes_wf s → pending_wf s → sys_actors s !! aid = Some a →
  actor_msgs a ≡ₚ SessionWrite data rid :: actor_msgs a' → ac_status a' = ac_status a →
  (∃ f, sys_actors s' = <[aid := f a']> (sys_actors s) ∧ ac_status (f a') = ac_status a' ∧
     ∀ m, m ∈ actor_msgs a' → m ∈ actor_msgs (f a')) →
  sys_streams s' = sys_streams s →
  sys_requests s' = alter answer_write rid (sys_requests s) → pending_wf s'.
Proof.
  intros Hw Hp Ha HP Hst (f & E & Hf & Hin) Hs Hreq.
  eapply (pending_wf_answer s s' rid answer_write aid a (SessionWrite data rid)); auto.
  - eapply keeps_put; [done..|congruence|]. right. intros x. rewrite HP, elem_of_cons.
    intros [->|?]; auto.
  - intros k. by rewrite Hs.
  - rewrite HP. constructor.
  - intros r Hr. eapply write_answered; [done|]. rewrite E, lookup_insert_eq. eauto.
Qed.

Lemma pending_wf_trans s s' :
  ids_fresh s → table_wf s → actors_wf s → writes_wf s → pending_wf s →
  trans s s' → pending_wf s'.
Proof.
  intros Hf Htb Hwf Hw Hp Ht. inversion Ht; subst; clear Ht; try done.
  all: try (by apply pending_wf_finish).
  all: try (eapply (pending_wf_frame s); [done| |by intros ?|done]).
  all: try (by apply keeps_same).
  all: try (eapply keeps_put; [eassumption|reflexivity|simpl; congruence|]; simpl; by auto).
  all: try match goal with Hr : sys_requests _ !! _ = Some ?r, Hp0 : rq_pos ?r = _ |- _ =>
         pose proof (pw_req _ Hp _ _ Hr) as Hok; unfold pending_ok in Hok; rewrite Hp0 in Hok end.
  all: try (pose proof (actor_msgs_take _ _ _ ltac:(eassumption)) as HP).
  all: try (pose proof (actor_msgs_busy _ _ _ ltac:(eassumption)) as HP).
  - (* T_request_err *)
    eapply pending_wf_arrival; eauto; [by apply keeps_same|].
    unfold pending_ok, response_ok. simpl. unfold into_response. rewrite H4. auto.
  - (* T_request_old *)
    eapply pending_wf_arrival; eauto using request_start_stream; [by apply keeps_same|].
    apply request_start_pending. destruct (Htb _ _ H5) as (a & Ha & _). simpl. by exists a.
  - (* T_request_new *)
    eapply pending_wf_arrival; eauto using request_start_stream.
    + eapply keeps_new; [|reflexivity]. intros k b Hb. apply Hf in Hb. simpl. lia.
    + apply request_start_pending. simpl. rewrite lookup_insert_eq. eauto.
  - eapply pending_wf_send; eauto.
  - (* T_write_acked *)
    eapply (pending_wf_update s _ rid _ None); eauto; [by apply keeps_same|by intros ?|done].
  - eapply pending_wf_send; eauto.
  - (* T_read_refused *) eapply (pending_wf_read s _ aid a _ rid None); eauto; by intros ?.
  - (* T_read_granted *)
    eapply (pending_wf_read s _ aid a _ rid (Some (sys_next s)));
      [done..|by eapply streams_stay_insert| |done].
    intros k [= <-]. simpl. rewrite lookup_insert_eq. split; [eauto|]. intros j rj Hj Hk.
    pose proof (fresh_stream _ _ _ _ Hf Hp Hj Hk). lia.
  - (* T_write_begin *)
    eapply keeps_put; [eassumption|reflexivity|simpl; congruence|]. right. intros m Hm. right. right.
    rewrite HP in Hm. unfold actor_msgs in *. simpl in *. rewrite H6 in Hm. set_solver.
  - (* T_reset *) eapply keeps_lose; [done|reflexivity|done|exact HP|by right].
  - (* T_write_ok *)
    eapply (pending_wf_write s _ aid a _ data rid);
      [done|done|done|exact HP|done| |by destruct queued..].
    exists (if queued then push_msg SessionResetIdleTimeout else id).
    destruct queued; simpl; [|done]. split; [by rewrite alter_insert_eq|apply (push_keeps _ (with_busy None a))].
  - (* T_write_err *)
    eapply (pending_wf_write s _ aid a _ data rid); [done..| |done|done]. by exists (with_stop true).
  - (* T_drop *)
    eapply (pending_wf_frame s); [done| | |done].
    + eapply keeps_put; [eassumption|reflexivity|simpl; congruence|]. simpl. auto.
    + intros k Hk. simpl. destruct (upstream_read_abort self); [|done]. by apply lookup_alter_is_Some.
  - (* T_received *)
    eapply (pending_wf_frame s); [done|by apply keeps_same|by eapply streams_stay_insert|done].
  - (* T_passed *)
    eapply (pending_wf_frame s); [done| |by eapply streams_stay_insert|done].
    eapply keeps_alter; [reflexivity|]. apply push_keeps.
  - (* T_yield *)
    eapply (pending_wf_frame s); [done| |by eapply streams_stay_insert|done].
    eapply keeps_alter; [reflexivity|]. apply push_keeps.
  - (* T_release *)
    eapply (pending_wf_frame s); [done| |by eapply streams_stay_insert|done].
    eapply keeps_alter; [reflexivity|]. apply unlock_keeps.
  - (* T_fire *) eapply keeps_alter; [reflexivity|]. done.
Qed.
End PendingInv.
