(* ===== verification/Invariant.v ===== *)
(** The global invariant of a server, and that every reachable state has it.

    [counters_wf] ties the byte counters to the log; [sys_wf] is the conjunction of
    the invariants of the components. *)
From S2P Require Import Prelude Ext DomainFronting Stats State Session Server ServerSteps.
From S2P Require Import ServerInv StreamInv LogInv WriteInv ConfigInv PendingInv.

Section Invariant.
Context `{UuidLib, HttpLib, TryMutex, !TryMutexLaws}.
Implicit Types (s : Sys) (a : Actor) (st : StreamState) (r : ReqState) (log : list UpEvent).

(** * Counters *)

(** All chunks read from upstreams, and the bytes of all acknowledged chunks. *)
Definition all_reads log : list bytes :=
  omap (λ e, match e with UpRead _ _ d => Some d | _ => None end) log.
Definition acked_bytes s : Z := msum (λ r, total_len (rq_acked r)) (sys_requests s).

(** What the counters hold, together with what [take_stats] handed out before, is
    what went through, modulo the width of the counters. *)
Definition counters_wf s : Prop :=
  stats_wf (sys_stats s) ∧
  wrap64 (atomic_rx (sys_stats s) + bytes_rx (sys_taken s)) =
    wrap64 (total_len (all_reads (sys_log s))) ∧
  wrap64 (atomic_tx (sys_stats s) + bytes_tx (sys_taken s)) = wrap64 (acked_bytes s).

Lemma all_reads_snoc log e :
  all_reads (log ++ [e]) = all_reads log ++ match e with UpRead _ _ d => [d] | _ => [] end.
Proof. unfold all_reads. rewrite omap_app. f_equal. by destruct e. Qed.

Lemma acked_put s s' rid r r' :
  sys_requests s !! rid = Some r → sys_requests s' = <[rid := r']> (sys_requests s) →
  acked_bytes s' = (acked_bytes s - total_len (rq_acked r) + total_len (rq_acked r'))%Z.
Proof. unfold acked_bytes. intros Hr ->. by rewrite (msum_insert_old _ _ _ _ r). Qed.

Lemma acked_keep s s' rid r r' :
  sys_requests s !! rid = Some r → sys_requests s' = <[rid := r']> (sys_requests s) →
  rq_acked r' = rq_acked r → acked_bytes s' = acked_bytes s.
Proof. intros Hr Hs' E. rewrite (acked_put s s' rid r r'), E by done. lia. Qed.

Lemma acked_same s s' rid f :
  (∀ r, rq_acked (f r) = rq_acked r) →
  sys_requests s' = alter f rid (sys_requests s) → acked_bytes s' = acked_bytes s.
Proof.
  intros Hf Hs'. destruct (sys_requests s !! rid) as [r|] eqn:Hr.
  - rewrite (alter_insert_Some _ _ _ _ Hr) in Hs'. rewrite (acked_put s s' rid r (f r)) by done.
    rewrite Hf. lia.
  - unfold acked_bytes. rewrite Hs'. f_equal. apply map_eq. intros j.
    rewrite lookup_alter. case_decide; subst; by rewrite ?Hr.
Qed.

Lemma acked_new s s' rid pos :
  sys_requests s !! rid = None → sys_requests s' = <[rid := mkReq pos []]> (sys_requests s) →
  acked_bytes s' = acked_bytes s.
Proof. unfold acked_bytes. intros Hr ->. by rewrite msum_insert_new. Qed.

Lemma answer_read_acked reply r : rq_acked (answer_read reply r) = rq_acked r.
Proof. unfold answer_read. by destruct (rq_pos r) as [| | |? []| |]. Qed.

Lemma answer_write_acked r : rq_acked (answer_write r) = rq_acked r.
Proof. unfold answer_write. by destruct (rq_pos r) as [|? ? ? []| | | |]. Qed.

(** Steps that neither count nor transfer. *)
Lemma counters_frame s s' :
  counters_wf s → sys_stats s' = sys_stats s → sys_taken s' = sys_taken s →
  all_reads (sys_log s') = all_reads (sys_log s) → acked_bytes s' = acked_bytes s → counters_wf s'.
Proof. unfold counters_wf. by intros ? -> -> -> ->. Qed.

(** A read is counted. *)
Lemma counters_read s s' stid st data :
  counters_wf s → sys_stats s' = fetch_add_rx (blen data) (sys_stats s) → sys_taken s' = sys_taken s →
  sys_log s' = sys_log s ++ [UpRead (st_actor st) stid data] → sys_requests s' = sys_requests s →
  counters_wf s'.
Proof.
  unfold counters_wf, acked_bytes. intros ([Htx Hrx] & Hr & Hw) -> -> -> ->.
  split; [split; [done|apply wrap64_range]|]. split; [|done]. simpl.
  rewrite all_reads_snoc, total_len_snoc. unfold add64. rewrite wrap64_add_l.
  apply (wrap64_congr _ _ _ _ (blen data) Hr); lia.
Qed.

Lemma counters_wf_trans s s' : ids_fresh s → counters_wf s → trans s s' → counters_wf s'.
Proof.
  intros (_ & _ & _ & Hfr) Hw Ht.
  assert (Hno : ∀ k, sys_next s ≤ k → sys_requests s !! k = None).
  { intros k Hk. apply eq_None_not_Some. intros [r Hr]. apply Hfr in Hr. lia. }
  inversion Ht; subst; clear Ht; try destruct queued; try done.
  all: try (apply (counters_frame s); [done..| |]; simpl; [by rewrite ?all_reads_snoc, ?app_nil_r|];
            first [ done | solve [eapply acked_new; [|reflexivity]; apply Hno; lia]
                  | solve [eapply acked_same; [|reflexivity]; eauto using answer_read_acked, answer_write_acked]
                  | solve [eapply acked_keep; [eassumption|reflexivity|done]] ]).
  all: try (eapply (counters_read s _ stid st data); by eauto).
  all: destruct Hw as ([Htx Hrx] & Hr & Hw).
  - (* T_write_acked *)
    split; [split; [apply wrap64_range|done]|]. split; [done|]. cbn [sys_stats sys_taken set_stats put_request set_requests fetch_add_tx atomic_tx].
    rewrite (acked_put s _ rid r (mkReq (AtBody aid total) (rq_acked r ++ [data]))) by done.
    simpl. rewrite total_len_snoc. unfold add64. rewrite wrap64_add_l.
    apply (wrap64_congr _ _ _ _ (blen data) Hw); lia.
  - (* T_take_tx *)
    split; [by split|]. split; [done|]. etransitivity; [|exact Hw]. simpl. f_equal. lia.
  - split; [by split|]. split; [|done]. etransitivity; [|exact Hr]. simpl. f_equal. lia.
Qed.

(** * All invariants together *)

Record sys_wf s : Prop := {
  wf_ids : ids_fresh s;
  wf_table : table_wf s;
  wf_actors : actors_wf s;
  wf_timers : timers_wf s;
  wf_streams : streams_wf s;
  wf_reads : reads_wf s;
  wf_chunks : chunks_wf s;
  wf_busy : busy_wf s;
  wf_writes : writes_wf s;
  wf_partial : partial_wf s;
  wf_counters : counters_wf s;
  wf_config : config_wf s;
  wf_opens : opens_wf s;
  wf_pending : pending_wf s;
}.

Lemma sys_wf_init config : sys_wf (with_connector config).
Proof.
  split; repeat split; simpl; unfold has_opened; simpl; try done; try lia.
  all: try (intros * Hk; by apply not_elem_of_nil in Hk).
  all: try (intros; exfalso; by eapply not_elem_of_nil).
  - intros _. constructor.
  - by apply not_elem_of_nil in H3.
  - by apply not_elem_of_nil in H3.
  - constructor.
Qed.

Lemma sys_wf_trans s s' : sys_wf s → trans s s' → sys_wf s'.
Proof.
  intros [] Ht. split.
  - by eapply ids_fresh_trans.
  - by eapply table_wf_trans.
  - by eapply actors_wf_trans.
  - by eapply timers_wf_trans.
  - by eapply streams_wf_trans.
  - by eapply reads_wf_trans.
  - by eapply chunks_wf_trans.
  - by eapply busy_wf_trans.
  - by eapply writes_wf_trans.
  - by eapply partial_wf_trans.
  - by eapply counters_wf_trans.
  - by eapply config_wf_trans.
  - by eapply opens_wf_trans.
  - by eapply pending_wf_trans.
Qed.

Lemma sys_wf_step s l s' : sys_wf s → step s l = Some s' → sys_wf s'.
Proof. intros Hw Hs. by eapply sys_wf_trans, step_trans. Qed.

Lemma run_wf ls s s' : sys_wf s → run step s ls = Some s' → sys_wf s'.
Proof. apply run_invariant. eauto using sys_wf_step. Qed.

Lemma reachable_wf config s : reachable config s → sys_wf s.
Proof. intros [ls Hls]. eapply run_wf; [apply sys_wf_init|done]. Qed.

Lemma reachable_config config s : reachable config s → sys_config s = config.
Proof.
  apply (reaches_invariant step (λ s, sys_config s = config)); [|done].
  intros s0 l s' <- Hs. by apply step_trans, config_trans in Hs.
Qed.
End Invariant.

#[export] Hint Resolve sys_wf_init sys_wf_step : core.
