(* ===== verification/Routing.v ===== *)
(** Which session a request's data belongs to.

    A request names its session in a header; what the server does for it later goes
    through an actor, its mailbox, and perhaps a response stream. [flows] says where
    messages, writes and streams come from in a step, and [routed] that along all
    these hand-overs data stays within the session the request named. *)
From S2P Require Import Prelude Ext DomainFronting Stats State Session Server ServerSteps.
From S2P Require Import ServerInv StreamInv WriteInv BodyInv PendingInv Invariant.

Section Routing.
Context `{UuidLib, HttpLib, TryMutex, !TryMutexLaws}.
Implicit Types (s : Sys) (a : Actor) (st : StreamState) (r : ReqState).

(** * Where things come from *)

(** The actor a request deals with. *)
Definition pos_actor (pos : ReqPos) : option nat :=
  match pos with
  | AtBody aid _ | AtWrite aid _ _ _ | AtReadSend aid | AtRead aid _ => Some aid
  | Responded _ | Cancelled => None
  end.

(** A request about to send [m] to [aid]. *)
Definition sends r (rid aid : nat) (m : Msg) : Prop :=
  match rq_pos r with
  | AtBody aid' _ => aid' = aid ∧ ∃ d, m = SessionWrite d rid
  | AtReadSend aid' => aid' = aid ∧ m = SessionRead rid
  | _ => False
  end.

(** In this step, request [rid] sent [m] to [aid]. *)
Definition sent s s' (rid aid : nat) (m : Msg) : Prop :=
  ∃ r r', sys_requests s !! rid = Some r ∧ sys_requests s' !! rid = Some r' ∧
    sends r rid aid m ∧ rq_acked r' = rq_acked r ∧
    match m with SessionWrite d _ => ∃ t, rq_pos r' = AtWrite aid t d None | _ => True end.

Record flows s s' : Prop := {
  fl_msg aid a' m rid :
    sys_actors s' !! aid = Some a' → m ∈ actor_msgs a' → msg_rid m = Some rid →
    (∃ a, sys_actors s !! aid = Some a ∧ m ∈ actor_msgs a) ∨ sent s s' rid aid m;
  fl_pos rid r' aid :
    sys_requests s' !! rid = Some r' → pos_actor (rq_pos r') = Some aid →
    (∃ r, sys_requests s !! rid = Some r ∧ pos_actor (rq_pos r) = Some aid) ∨ rid = sys_next s;
  fl_write aid rid d n :
    UpWrite aid rid d n ∈ sys_log s' →
    UpWrite aid rid d n ∈ sys_log s ∨
    ∃ a, sys_actors s !! aid = Some a ∧ SessionWrite d rid ∈ actor_msgs a;
  fl_stream k st' :
    sys_streams s' !! k = Some st' →
    (∃ st, sys_streams s !! k = Some st ∧ st_actor st = st_actor st' ∧ st_req st = st_req st') ∨
    k = sys_next s ∧ ∃ a, sys_actors s !! st_actor st' = Some a ∧
      SessionRead (st_req st') ∈ actor_msgs a;
}.

(** The messages of an actor after an update are among those before it. *)
Definition fewer a a' : Prop := ∀ m, m ∈ actor_msgs a' → m ∈ actor_msgs a.

Lemma fewer_same a a' : actor_msgs a' = actor_msgs a → fewer a a'.
Proof. intros E m. by rewrite E. Qed.

Lemma fewer_none a a' : actor_msgs a' = [] → fewer a a'.
Proof. intros E m. rewrite E. set_solver. Qed.

Lemma fewer_take a i m a' :
  ac_mailbox a !! i = Some m → ac_mailbox a' = delete i (ac_mailbox a) → ac_busy a' = ac_busy a →
  fewer a a'.
Proof.
  intros Hi Hm Hb x. rewrite (actor_msgs_take _ _ _ Hi). unfold actor_msgs. rewrite Hm, Hb. simpl. set_solver.
Qed.

Lemma fewer_begin a i d rid a' :
  ac_mailbox a !! i = Some (SessionWrite d rid) → ac_busy a = None →
  ac_mailbox a' = delete i (ac_mailbox a) → ac_busy a' = Some (d, rid) → fewer a a'.
Proof.
  intros Hi Hn Hm Hb x. rewrite (actor_msgs_take _ _ _ Hi). unfold actor_msgs. rewrite Hm, Hb. simpl.
  rewrite Hn. set_solver.
Qed.

Lemma fewer_done a d rid a' :
  ac_busy a = Some (d, rid) → ac_mailbox a' = ac_mailbox a → ac_busy a' = None → fewer a a'.
Proof. intros Hb Hm Hn x. unfold actor_msgs. rewrite Hm, Hn, Hb. set_solver. Qed.

Lemma fewer_unlock a : fewer a (unlock_reader a).
Proof. apply fewer_same. unfold unlock_reader. by destruct (ac_session a). Qed.

Lemma push_origin m0 a m : m ∈ actor_msgs (push_msg m0 a) → m = m0 ∨ m ∈ actor_msgs a.
Proof.
  unfold push_msg. destruct (is_alive a); [|by auto]. unfold actor_msgs. simpl. set_solver.
Qed.

Lemma busy_msg a d rid : ac_busy a = Some (d, rid) → SessionWrite d rid ∈ actor_msgs a.
Proof. intros Hb. unfold actor_msgs. rewrite Hb. set_solver. Qed.

Lemma mailbox_msg a i m : ac_mailbox a !! i = Some m → m ∈ actor_msgs a.
Proof. intros Hi. rewrite (actor_msgs_take _ _ _ Hi). by constructor. Qed.

#[local] Hint Resolve fewer_same fewer_none fewer_take fewer_begin fewer_done fewer_unlock
  busy_msg mailbox_msg : core.

(** No message is sent: every actor has fewer messages, or is told to reset its timer. *)
Lemma flows_msg_quiet s s' :
  (∀ aid a', sys_actors s' !! aid = Some a' → actor_msgs a' = [] ∨
     ∃ a, sys_actors s !! aid = Some a ∧
       (fewer a a' ∨ ∃ b, a' = push_msg SessionResetIdleTimeout b ∧ fewer a b)) →
  ∀ aid a' m rid, sys_actors s' !! aid = Some a' → m ∈ actor_msgs a' → msg_rid m = Some rid →
    (∃ a, sys_actors s !! aid = Some a ∧ m ∈ actor_msgs a) ∨ sent s s' rid aid m.
Proof.
  intros Hq aid a' m rid Ha' Hm Hr. left.
  destruct (Hq _ _ Ha') as [E|(a & Ha & [Hf|(b & -> & Hf)])]; [rewrite E in Hm; set_solver|by eauto|].
  apply push_origin in Hm as [->|Hm]; [done|by eauto].
Qed.

(** A request sends its message. *)
Lemma flows_msg_send s s' aid0 m0 rid0 :
  sent s s' rid0 aid0 m0 → msg_rid m0 = Some rid0 →
  sys_actors s' = alter (push_msg m0) aid0 (sys_actors s) →
  ∀ aid a' m rid, sys_actors s' !! aid = Some a' → m ∈ actor_msgs a' → msg_rid m = Some rid →
    (∃ a, sys_actors s !! aid = Some a ∧ m ∈ actor_msgs a) ∨ sent s s' rid aid m.
Proof.
  intros Hs Hm0 E aid a' m rid. rewrite E.
  intros [(<- & a & Ha & ->)|[Hne Ha]]%lookup_alter_Some Hm Hr; [|by eauto].
  apply push_origin in Hm as [->|Hm]; [|by eauto]. right. congruence.
Qed.
Lemma msgs_flow s s' :
  trans s s' →
  ∀ aid a' m rid, sys_actors s' !! aid = Some a' → m ∈ actor_msgs a' → msg_rid m = Some rid →
    (∃ a, sys_actors s !! aid = Some a ∧ m ∈ actor_msgs a) ∨ sent s s' rid aid m.
Proof.
  intros Ht. inversion Ht; subst; clear Ht; try destruct queued.
  all: try (eapply (flows_msg_send s _ aid _ rid); [| |done]; [|done]; do 2 eexists; split; [eassumption|]; simpl;
            rewrite lookup_insert_eq; split; [done|]; unfold sends; rewrite H4; by eauto 10).
  all: apply flows_msg_quiet; intros k a' Hk; simpl in Hk.
  all: map_hyps; eauto 10.
Qed.

Lemma pos_answer_read reply r : pos_actor (rq_pos (answer_read reply r)) = pos_actor (rq_pos r).
Proof. unfold answer_read. by destruct (rq_pos r) as [| | |aid []| |] eqn:E; rewrite ?E. Qed.

Lemma pos_answer_write r : pos_actor (rq_pos (answer_write r)) = pos_actor (rq_pos r).
Proof. unfold answer_write. by destruct (rq_pos r) as [|aid total d []| | | |] eqn:E; rewrite ?E. Qed.

Lemma pos_flow s s' :
  trans s s' →
  ∀ rid r' aid, sys_requests s' !! rid = Some r' → pos_actor (rq_pos r') = Some aid →
    (∃ r, sys_requests s !! rid = Some r ∧ pos_actor (rq_pos r) = Some aid) ∨ rid = sys_next s.
Proof.
  intros Ht rid0 r' aid0. inversion Ht; subst; clear Ht; try destruct queued; simpl; intros Hr Hp.
  all: map_hyps; try rewrite ?pos_answer_read, ?pos_answer_write in Hp; eauto.
  all: try (left; eexists; split; [eassumption|by rewrite H4]).
  by inversion H4; subst.
Qed.

Lemma write_flow s s' :
  trans s s' →
  ∀ aid rid d n, UpWrite aid rid d n ∈ sys_log s' →
    UpWrite aid rid d n ∈ sys_log s ∨
    ∃ a, sys_actors s !! aid = Some a ∧ SessionWrite d rid ∈ actor_msgs a.
Proof.
  intros Ht aid0 rid0 d n0. inversion Ht; subst; clear Ht; try destruct queued; simpl; eauto.
  all: intros [Hin|Hin%list_elem_of_singleton]%elem_of_app; [by left|]; simplify_eq; right; eauto.
Qed.

Lemma stream_flow s s' :
  trans s s' →
  ∀ k st', sys_streams s' !! k = Some st' →
    (∃ st, sys_streams s !! k = Some st ∧ st_actor st = st_actor st' ∧ st_req st = st_req st') ∨
    k = sys_next s ∧ ∃ a, sys_actors s !! st_actor st' = Some a ∧
      SessionRead (st_req st') ∈ actor_msgs a.
Proof.
  intros Ht k st'. inversion Ht; subst; clear Ht; try destruct queued; simpl; eauto.
  all: try (destruct (upstream_read_abort self)); intros Hk; map_hyps; eauto 10.
Qed.

Lemma flows_trans s s' : trans s s' → flows s s'.
Proof.
  intros Ht. split; [by apply msgs_flow|by apply pos_flow|by apply write_flow|by apply stream_flow].
Qed.
(** * The session of a request *)

(** [aid] serves the session [u]. *)
Definition serves (u : Uuid) s (aid : nat) : Prop :=
  ∃ a, sys_actors s !! aid = Some a ∧ arg_session_id (ac_args a) = u.

Lemma serves_fun u v s aid : serves u s aid → serves v s aid → u = v.
Proof. intros (a & Ha & <-) (b & Hb & <-). congruence. Qed.

Lemma serves_mono u s s' aid : ids_fresh s → trans s s' → serves u s aid → serves u s' aid.
Proof.
  intros Hf Ht (a & Ha & Hu). destruct (actor_evolves_trans _ _ _ _ Hf Ht Ha) as (a' & Ha' & E & _).
  exists a'. by rewrite E.
Qed.

(** The session identifiers of the requests that have arrived: a request gets the next
    identifier, and its session is what [parse_session_id] finds in its head. *)
Definition sess_step (sess : gmap nat Uuid) s (l : label) : gmap nat Uuid :=
  match l with
  | LRequest head =>
      match parse_session_id (sys_config s) head with
      | Some u => <[sys_next s := u]> sess
      | None => sess
      end
  | _ => sess
  end.

(** [sess] knows the session of everything a request is involved in. *)
Record routed (sess : gmap nat Uuid) s : Prop := {
  rt_pos rid r aid : sys_requests s !! rid = Some r → pos_actor (rq_pos r) = Some aid →
    ∃ u, sess !! rid = Some u ∧ serves u s aid;
  rt_msg aid a m rid : sys_actors s !! aid = Some a → m ∈ actor_msgs a → msg_rid m = Some rid →
    ∃ u, sess !! rid = Some u ∧ serves u s aid;
  rt_write aid rid d n : UpWrite aid rid d n ∈ sys_log s →
    ∃ u, sess !! rid = Some u ∧ serves u s aid;
  rt_stream k st : sys_streams s !! k = Some st →
    ∃ u, sess !! st_req st = Some u ∧ serves u s (st_actor st);
  rt_fresh rid u : sess !! rid = Some u → rid < sys_next s;
}.

(** The actor a new request is given serves the session its head names. *)
Lemma request_serves head s s' r' aid :
  ids_fresh s → table_wf s → request_arrives head s = Some s' →
  sys_requests s' !! sys_next s = Some r' → pos_actor (rq_pos r') = Some aid →
  ∃ u, parse_session_id (sys_config s) head = Some u ∧ serves u s' aid.
Proof.
  intros Hf Ht Hs. pose proof (request_trans _ _ _ Hs) as Htr. revert Hs.
  unfold request_arrives, handle_request, handle_request_inner. intros Hs.
  simplify_option_eq.
  destruct (parse_method (head_method head)) as [m|e] eqn:Em; simplify_eq/=.
  2:{ rewrite lookup_insert_eq. by intros [= <-]. }
  destruct (parse_session_id (sys_config s) head) as [u|] eqn:Eu; simplify_eq/=.
  2:{ rewrite lookup_insert_eq. by intros [= <-]. }
  destruct (lookup_session u _ _) as [[aid'|e] s1] eqn:El; simplify_eq/=.
  2:{ rewrite lookup_insert_eq. by intros [= <-]. }
  rewrite lookup_insert_eq. intros [= <-] Hp. exists u. split; [done|].
  assert (aid = aid') as -> by (by destruct m; simplify_eq/=).
  revert El. unfold lookup_session. simpl.
  destruct (sys_sessions s !! u) as [x|] eqn:Ex; [destruct (actor_alive x _)|]; try case_bool_decide;
    intros [= <- <-]; unfold serves; simpl.
  - by destruct (Ht _ _ Ex) as (a & Ha & <-); eauto.
  - rewrite lookup_insert_eq. eauto.
  - rewrite lookup_insert_eq. eauto.
Qed.
Lemma next_mono s s' : trans s s' → sys_next s ≤ sys_next s'.
Proof. intros Ht. inversion Ht; subst; clear Ht; try destruct queued; simpl; lia. Qed.

(** Only an arrival makes a request. *)
Lemma old_requests s l s' k :
  ids_fresh s → step s l = Some s' → is_request l = false →
  is_Some (sys_requests s' !! k) → is_Some (sys_requests s !! k).
Proof.
  intros (_ & _ & _ & Hf) Hs Hl Hk. destruct (chunk_label l) as [(rid & d & ->)|[Hno _]].
  - simpl in Hs. unfold write_request_next in Hs. apply bind_Some in Hs as (r & Hr & Hs).
    destruct (rq_pos r); simplify_eq/=. rewrite lookup_insert in Hk. case_decide; subst; eauto.
  - pose proof (step_quiet _ _ _ Hf Hno Hs k) as Hq. rewrite Hl in Hq.
    destruct Hk as [r' Hr']. rewrite Hr' in Hq. destruct (sys_requests s !! k); [by eauto|naive_solver].
Qed.

Lemma requests_stay s s' k : trans s s' → is_Some (sys_requests s !! k) → is_Some (sys_requests s' !! k).
Proof.
  intros Ht [r Hr]. inversion Ht; subst; clear Ht; try destruct queued; simpl; eauto.
  all: map_goal; rewrite ?Hr; simpl; eauto.
Qed.

Lemma arrival_request head s s' : request_arrives head s = Some s' → is_Some (sys_requests s' !! sys_next s).
Proof.
  unfold request_arrives. intros Hs. apply bind_Some in Hs as (_ & _ & Hs).
  destruct (handle_request _ _) as [pos s1]. simplify_eq/=. rewrite lookup_insert_eq. by eauto.
Qed.

Lemma arrival_next head s s' : request_arrives head s = Some s' → sys_next s < sys_next s'.
Proof.
  unfold request_arrives, handle_request, handle_request_inner, lookup_session. intros Hs.
  simplify_option_eq.
  destruct (parse_method (head_method head)); simplify_eq/=; [|lia].
  destruct (parse_session_id _ _); simplify_eq/=; [|lia].
  destruct (sys_sessions s !! _); [destruct (actor_alive _ _)|]; try case_bool_decide; simplify_eq/=; lia.
Qed.

Lemma routed_step sess s l s' :
  ids_fresh s → table_wf s → routed sess s → step s l = Some s' → routed (sess_step sess s l) s'.
Proof.
  intros Hf Ht Hr Hs. pose proof (step_trans _ _ _ Hs) as Htr.
  pose proof (flows_trans _ _ Htr) as Hfl.
  assert (Hold : ∀ rid aid, (∃ u, sess !! rid = Some u ∧ serves u s aid) →
            ∃ u, sess_step sess s l !! rid = Some u ∧ serves u s' aid).
  { intros rid aid (u & Hu & Hsv). exists u. split; [|by eapply serves_mono].
    unfold sess_step. destruct l; try done. destruct (parse_session_id _ _); [|done].
    rewrite lookup_insert_ne; [done|]. apply (rt_fresh _ _ Hr) in Hu. lia. }
  split.
  - intros rid r' aid Hr' Hp. destruct (fl_pos _ _ Hfl _ _ _ Hr' Hp) as [(r & Hr0 & Hp0)| ->].
    { eapply Hold, (rt_pos _ _ Hr); eauto. }
    destruct (is_request l) eqn:El.
    + destruct l; try done. simpl in Hs. destruct (request_serves _ _ _ _ _ Hf Ht Hs Hr' Hp) as (u & Hu & Hsv).
      exists u. unfold sess_step. rewrite Hu. by rewrite lookup_insert_eq.
    + destruct (old_requests _ _ _ (sys_next s) Hf Hs El ltac:(by eauto)) as [r Hr0].
      apply Hf in Hr0. lia.
  - intros aid a' m rid Ha' Hm Hrid. apply Hold.
    destruct (fl_msg _ _ Hfl _ _ _ _ Ha' Hm Hrid) as [(a & Ha & Hin)|(r & ? & Hr0 & _ & Hsd & _)].
    + by eapply (rt_msg _ _ Hr).
    + eapply (rt_pos _ _ Hr); [done|]. unfold sends in Hsd.
      destruct (rq_pos r); try done; destruct Hsd as [-> _]; done.
  - intros aid rid d n Hin. apply Hold.
    destruct (fl_write _ _ Hfl _ _ _ _ Hin) as [?|(a & Ha & Hm)]; [by eapply (rt_write _ _ Hr)|].
    by eapply (rt_msg _ _ Hr).
  - intros k st' Hst'. destruct (fl_stream _ _ Hfl _ _ Hst') as [(st & Hst & <- & <-)|(-> & a & Ha & Hm)].
    + by apply Hold, (rt_stream _ _ Hr k).
    + apply Hold. by eapply (rt_msg _ _ Hr).
  - intros rid u. pose proof (next_mono _ _ Htr) as Hn. unfold sess_step.
    destruct l; try (intros Hu%(rt_fresh _ _ Hr); lia). destruct (parse_session_id _ _).
    2: intros Hu%(rt_fresh _ _ Hr); lia.
    intros [[<- _]|[_ Hu%(rt_fresh _ _ Hr)]]%lookup_insert_Some; [|lia]. by eapply arrival_next.
Qed.

Lemma routed_init config : routed ∅ (with_connector config).
Proof.
  split; simpl; intros *; rewrite ?lookup_empty; try done.
  intros Hin. by apply not_elem_of_nil in Hin.
Qed.

(** * One stream per request *)

(** A stream answers one request, which either has it or has been dropped, and a request
    that was given a stream has no message on its way. *)
Record granted s : Prop := {
  gr_req k st : sys_streams s !! k = Some st → ∃ r, sys_requests s !! st_req st = Some r ∧
    (rq_stream r = Some k ∨ rq_pos r = Cancelled);
  gr_msg k st aid a : sys_streams s !! k = Some st → sys_actors s !! aid = Some a →
    SessionRead (st_req st) ∉ actor_msgs a;
  gr_unique i j sti stj : sys_streams s !! i = Some sti → sys_streams s !! j = Some stj →
    st_req sti = st_req stj → i = j;
  gr_one i j a b m n rid : sys_actors s !! i = Some a → sys_actors s !! j = Some b →
    m ∈ actor_msgs a → n ∈ actor_msgs b → msg_rid m = Some rid → msg_rid n = Some rid → i = j;
  gr_given rid r k : sys_requests s !! rid = Some r → rq_stream r = Some k →
    ∃ st, sys_streams s !! k = Some st ∧ st_req st = rid;
}.
Lemma stream_stays s s' k st :
  trans s s' → ids_fresh s → sys_streams s !! k = Some st →
  ∃ st', sys_streams s' !! k = Some st' ∧ st_actor st' = st_actor st ∧ st_req st' = st_req st.
Proof.
  intros Ht (_ & _ & Hf & _) Hk. pose proof (Hf _ _ Hk) as Hlt.
  inversion Ht; subst; clear Ht; try destruct queued; simpl; eauto.
  all: try (destruct (upstream_read_abort self)); simpl; eauto.
  all: try (rewrite lookup_insert_ne by lia; by eauto).
  all: map_goal; rewrite ?Hk; simpl; eauto.
Qed.

(** A request that has its stream, or was dropped. *)
Definition settled r (k : nat) : Prop := rq_stream r = Some k ∨ rq_pos r = Cancelled.

Lemma settled_answer_read reply r k : settled r k → settled (answer_read reply r) k.
Proof.
  unfold settled, rq_stream, answer_read.
  destruct (rq_pos r) as [| | |? []| |] eqn:E; rewrite ?E; try done. by intros [|].
Qed.

Lemma settled_answer_write r k : settled r k → settled (answer_write r) k.
Proof.
  unfold settled, rq_stream, answer_write.
  destruct (rq_pos r) as [|? ? ? []| | | |] eqn:E; rewrite ?E; try done. by intros [|].
Qed.

Lemma settled_finish s r pos acked k : finish s (rq_pos r) pos → settled r k → settled (mkReq pos acked) k.
Proof.
  unfold settled, rq_stream. intros Hfin. inversion Hfin as [? E|? ? ? E|? ? ? E|? ? ? ? E|? E|? ? E|? ? E|? ? E].
  all: subst; simpl; rewrite <- ?E; try (by intros [|]); auto.
  intros [?|?]; by auto.
Qed.

Lemma settled_stays s s' rid r k :
  ids_fresh s → trans s s' → sys_requests s !! rid = Some r → settled r k →
  ∃ r', sys_requests s' !! rid = Some r' ∧ settled r' k.
Proof.
  intros (_ & _ & _ & Hf) Ht Hr Hset. pose proof (Hf _ _ Hr) as Hlt.
  inversion Ht; subst; clear Ht; try destruct queued; simpl; eauto.
  all: try (rewrite lookup_insert_ne by lia; by eauto).
  all: map_goal; rewrite ?Hr; simpl; eauto using settled_answer_read, settled_answer_write, settled_finish.
  all: unfold settled, rq_stream in Hset; rewrite H4 in Hset; by destruct Hset.
Qed.
Lemma rq_stream_answer_write r : rq_stream (answer_write r) = rq_stream r.
Proof. unfold rq_stream, answer_write. by destruct (rq_pos r) as [|? ? ? []| | | |] eqn:E; rewrite ?E. Qed.

Lemma rq_stream_answer_read reply r k :
  rq_stream (answer_read reply r) = Some k → rq_stream r = Some k ∨ reply = Some k.
Proof.
  unfold rq_stream, answer_read. destruct (rq_pos r) as [| | |? []| |] eqn:E; rewrite ?E; auto.
  simpl. destruct reply; auto.
Qed.

Lemma rq_stream_finish s r pos acked k :
  finish s (rq_pos r) pos → rq_stream (mkReq pos acked) = Some k → rq_stream r = Some k.
Proof.
  unfold rq_stream. intros Hfin. inversion Hfin as [? E|? ? ? E|? ? ? E|? ? ? ? E|? E|? ? E|? ? E|? ? E].
  all: subst; simpl; rewrite <- ?E; done.
Qed.

(** The streams requests have were given to them before, or are new. *)
Lemma given_flow s s' rid r' k :
  trans s s' → sys_requests s' !! rid = Some r' → rq_stream r' = Some k →
  (∃ r, sys_requests s !! rid = Some r ∧ rq_stream r = Some k) ∨
  ∃ st', sys_streams s' !! k = Some st' ∧ st_req st' = rid.
Proof.
  intros Ht. inversion Ht; subst; clear Ht; try destruct queued; simpl; eauto; intros Hr Hk.
  all: map_hyps; rewrite ?rq_stream_answer_write in Hk; eauto using rq_stream_finish.
  all: try (by unfold request_start in Hk; destruct (head_method head)).
  all: destruct (rq_stream_answer_read _ _ _ Hk); simplify_eq; eauto.
  right. rewrite lookup_insert_eq. by eauto.
Qed.
(** A message of a request that has a stream, or is about to send, would be a second one. *)
Lemma sends_fresh s rid r aid m :
  writes_wf s → sys_requests s !! rid = Some r → sends r rid aid m →
  ∀ k a x, sys_actors s !! k = Some a → x ∈ actor_msgs a → msg_rid x ≠ Some rid.
Proof.
  intros Hw Hr Hs. eapply no_msg; [done..|]. unfold sends in Hs. by destruct (rq_pos r).
Qed.

Lemma sends_unsettled r rid aid m k : sends r rid aid m → ¬ settled r k.
Proof. unfold sends, settled, rq_stream. destruct (rq_pos r); try done; by intros _ [|]. Qed.

(** The state after a stream was granted has no message of its request left. *)
Lemma new_stream_msgs s s' k st' :
  ids_fresh s → writes_wf s → granted s → trans s s' → sys_streams s !! k = None →
  sys_streams s' !! k = Some st' →
  (∃ r, sys_requests s' !! st_req st' = Some r ∧ settled r k) ∧
  ∀ aid a, sys_actors s' !! aid = Some a → SessionRead (st_req st') ∉ actor_msgs a.
Proof.
  intros Hf Hw Hg Ht Hno. inversion Ht; subst; clear Ht; try destruct queued; simpl; intros Hk.
  all: try (by rewrite Hno in Hk).
  all: try match type of Hk with context [upstream_read_abort ?x] => destruct (upstream_read_abort x) end.
  all: map_hyps; try congruence.
  pose proof (actor_msgs_take _ _ _ H8) as HP.
  assert (Hin : SessionRead rid ∈ actor_msgs a) by (rewrite HP; constructor).
  destruct (ww_msg _ Hw _ _ _ H3 Hin) as (r & Hr & Hpos). split.
  - exists (answer_read (Some (sys_next s)) r). rewrite lookup_alter_eq, Hr. split; [done|].
    unfold settled, rq_stream, answer_read. destruct Hpos as [E|E]; rewrite E; simpl; rewrite ?E; auto.
  - intros k a' [[<- <-]|[Hne Ha']]%lookup_insert_Some Hm.
    + by eapply (answered_no_msg s aid a _ (SessionRead rid) rid Hw H3 HP).
    + destruct Hne. by eapply (gr_one _ Hg aid k a a').
Qed.

Lemma granted_trans s s' :
  ids_fresh s → writes_wf s → granted s → trans s s' → granted s'.
Proof.
  intros Hf Hw Hg Ht. pose proof (flows_trans _ _ Ht) as Hfl.
  assert (Hsplit : ∀ k st', sys_streams s' !! k = Some st' →
    (∃ st, sys_streams s !! k = Some st ∧ st_req st = st_req st') ∨ sys_streams s !! k = None).
  { intros k st' Hk. destruct (fl_stream _ _ Hfl _ _ Hk) as [(st & Hst & _ & E)|[-> _]]; [by eauto|].
    right. apply eq_None_not_Some. intros [st Hst]. apply Hf in Hst. lia. }
  assert (Hsettled : ∀ k st', sys_streams s' !! k = Some st' →
    (∃ r, sys_requests s' !! st_req st' = Some r ∧ settled r k) ∧
    ∀ aid a, sys_actors s' !! aid = Some a → SessionRead (st_req st') ∉ actor_msgs a).
  { intros k st' Hk. destruct (Hsplit _ _ Hk) as [(st & Hst & E)|Hno]; [|by eapply new_stream_msgs].
    rewrite <- E. destruct (gr_req _ Hg _ _ Hst) as (r & Hr & Hset).
    split; [by eapply settled_stays|]. intros aid a Ha Hm.
    destruct (fl_msg _ _ Hfl _ _ _ _ Ha Hm eq_refl) as [(b & Hb & Hin)|(r1 & ? & Hr1 & _ & Hsd & _)].
    - by eapply (gr_msg _ Hg).
    - simplify_eq. by eapply (sends_unsettled _ _ _ _ k Hsd). }
  split.
  - apply Hsettled.
  - intros k st aid a Hk Ha. by apply (Hsettled k st Hk) with aid.
  - intros i j sti stj Hi Hj E.
    destruct (Hsplit _ _ Hi) as [(si & Hsi & Ei)|Hni], (Hsplit _ _ Hj) as [(sj & Hsj & Ej)|Hnj].
    + eapply (gr_unique _ Hg); eauto. congruence.
    + destruct (fl_stream _ _ Hfl _ _ Hj) as [(? & ? & _)|(-> & a & Ha & Hm)]; [congruence|].
      exfalso. eapply (gr_msg _ Hg _ _ _ _ Hsi Ha). by rewrite Ei, E.
    + destruct (fl_stream _ _ Hfl _ _ Hi) as [(? & ? & _)|(-> & a & Ha & Hm)]; [congruence|].
      exfalso. eapply (gr_msg _ Hg _ _ _ _ Hsj Ha). by rewrite Ej, <- E.
    + destruct (fl_stream _ _ Hfl _ _ Hi) as [(? & ? & _)|[-> _]]; [congruence|].
      destruct (fl_stream _ _ Hfl _ _ Hj) as [(? & ? & _)|[-> _]]; [congruence|done].
  - intros i j a b m n rid Ha Hb Hm Hn Em En.
    destruct (fl_msg _ _ Hfl _ _ _ _ Ha Hm Em) as [(a0 & Ha0 & Hm0)|(r1 & ? & Hr1 & _ & Hs1 & _)],
      (fl_msg _ _ Hfl _ _ _ _ Hb Hn En) as [(b0 & Hb0 & Hn0)|(r2 & ? & Hr2 & _ & Hs2 & _)].
    + by eapply (gr_one _ Hg).
    + by destruct (sends_fresh _ _ _ _ _ Hw Hr2 Hs2 _ _ _ Ha0 Hm0).
    + by destruct (sends_fresh _ _ _ _ _ Hw Hr1 Hs1 _ _ _ Hb0 Hn0).
    + simplify_eq. unfold sends in *. destruct (rq_pos r1); try done; naive_solver.
  - intros rid r' k Hr' Hk. destruct (given_flow _ _ _ _ _ Ht Hr' Hk) as [(r & Hr & Hk0)|?]; [|done].
    destruct (gr_given _ Hg _ _ _ Hr Hk0) as (st & Hst & <-).
    destruct (stream_stays _ _ _ _ Ht Hf Hst) as (st' & Hst' & _ & E). eauto.
Qed.

Lemma granted_init config : granted (with_connector config).
Proof. split; by intros; simplify_map_eq. Qed.
End Routing.
