(* ===== verification/Delivery.v ===== *)
(** What was written upstream for a request, against what its body has yielded.

    For every request, whatever becomes of it: what its body yielded is what was
    written on its behalf, then at most one chunk that is still on its way to the
    actor or was lost with it. *)
From S2P Require Import Prelude Ext DomainFronting Stats State Session Server ServerSteps.
From S2P Require Import ServerInv LogInv WriteInv BodyInv PendingInv Invariant Routing.

Section Delivery.
Context `{UuidLib, HttpLib, TryMutex, !TryMutexLaws}.
Implicit Types (s : Sys) (a : Actor) (st : StreamState) (r : ReqState).

(** The chunks written for a request. *)
Definition written (rid : nat) s : list bytes := (writes_of rid (sys_log s)).*2.

(** Some actor has yet to handle the chunk [d] of request [rid]. *)
Definition on_its_way s (rid : nat) (d : bytes) : Prop :=
  ∃ aid a, sys_actors s !! aid = Some a ∧ SessionWrite d rid ∈ actor_msgs a.

(** [body] has been written but for [rest], a chunk on its way or lost. *)
Definition delivered s (rid : nat) (body : list bytes) : Prop :=
  ∃ rest, body = written rid s ++ rest ∧ length rest ≤ 1 ∧
    ∀ d, on_its_way s rid d → rest = [d].

(** What a step does to the writes of a request: nothing, or the chunk on its way has
    been written and none is on its way any more. *)
Lemma written_flow s s' rid :
  writes_wf s → granted s → trans s s' →
  written rid s' = written rid s ∨
  ∃ d, on_its_way s rid d ∧ written rid s' = written rid s ++ [d] ∧
    ∀ aid a m, sys_actors s' !! aid = Some a → m ∈ actor_msgs a → msg_rid m ≠ Some rid.
Proof.
  intros Hw Hg Ht. unfold written.
  assert (Hgone : ∀ aid a d, sys_actors s !! aid = Some a → ac_busy a = Some (d, rid) →
    ∀ k b m, sys_actors s !! k = Some b → k ≠ aid → m ∈ actor_msgs b → msg_rid m ≠ Some rid).
  { intros aid a d Ha Hb k b m Hk Hne Hm Hrid. apply Hne.
    apply (gr_one _ Hg k aid b a m (SessionWrite d rid) rid); eauto using busy_msg. }
  assert (Hdone : ∀ aid a a' d, sys_actors s !! aid = Some a → ac_busy a = Some (d, rid) →
    (∀ m, m ∈ actor_msgs a' → msg_rid m = None ∨ m ∈ actor_msgs (with_busy None a)) →
    ∀ m, m ∈ actor_msgs a' → msg_rid m ≠ Some rid).
  { intros aid a a' d Ha Hb Hf m Hm Hrid. destruct (Hf _ Hm) as [?|Hin]; [congruence|].
    by eapply (answered_no_msg s aid a _ (SessionWrite d rid) rid Hw Ha (actor_msgs_busy _ _ _ Hb)). }
  inversion Ht; subst; clear Ht; auto.
  all: try (simpl; rewrite writes_of_snoc, app_nil_r; by left).
  all: destruct (decide (rid0 = rid)) as [->|Hne];
    [right; exists data | left; destruct queued || idtac; simpl; by rewrite log_write_other].
  all: split; [exists aid, a; eauto using busy_msg|].
  - split; [by destruct queued; simpl; rewrite writes_of_snoc, decide_True, fmap_app|].
    intros k b m Hk. apply (written_actors s aid a data rid queued) in Hk as [(-> & _ & Hf)|[Hne Hk]]; [|..]; eauto.
  - split; [by simpl; rewrite writes_of_snoc, decide_True, fmap_app|].
    simpl. intros k b m [[<- <-]|[Hne Hk]]%lookup_insert_Some Hm; [|by eauto].
    eapply (Hdone _ _ (with_busy None a)); eauto.
  - split; [by simpl; rewrite writes_of_snoc, decide_True, fmap_app|].
    simpl. intros k b m [[<- <-]|[Hne Hk]]%lookup_insert_Some Hm; [|by eauto].
    by apply not_elem_of_nil in Hm.
Qed.
(** Messages on their way were on their way before, except in a step that takes a chunk
    from the body. *)
Lemma on_its_way_quiet s l s' rid d :
  ids_fresh s → step s l = Some s' → (∀ k b, l ≠ LBody k (Some (Ok b))) →
  on_its_way s' rid d → on_its_way s rid d.
Proof.
  intros (_ & _ & _ & Hf) Hs Hl (aid & a & Ha & Hm).
  destruct (fl_msg _ _ (flows_trans _ _ (step_trans _ _ _ Hs)) _ _ _ _ Ha Hm eq_refl)
    as [(b & Hb & Hin)|(r & r' & Hr & Hr' & Hsd & Hack & t & Hp)]; [by exists aid, b|].
  exfalso. pose proof (step_quiet _ _ _ Hf Hl Hs rid) as Hq. rewrite Hr, Hr' in Hq.
  destruct Hq as [_ Hq]; [unfold may_succeed; by rewrite Hp|].
  unfold rq_chunks in Hq. unfold sends in Hsd. rewrite Hp, Hack in Hq.
  destruct (rq_pos r); try done; [|by destruct Hsd].
  apply (f_equal length) in Hq. rewrite !length_app in Hq. simpl in Hq. lia.
Qed.

Lemma delivered_quiet s l s' rid body :
  sys_wf s → granted s → step s l = Some s' → (∀ k b, l ≠ LBody k (Some (Ok b))) →
  delivered s rid body → delivered s' rid body.
Proof.
  intros Hwf Hg Hs Hl (rest & E & Hlen & Hway).
  destruct (written_flow s s' rid (wf_writes _ Hwf) Hg (step_trans _ _ _ Hs)) as [Ew|(d & Hd & Ew & Hno)].
  - exists rest. rewrite Ew. split; [done|]. split; [done|]. intros d Hd.
    eapply Hway, on_its_way_quiet; eauto using wf_ids.
  - exists []. rewrite E, Ew, (Hway _ Hd), app_nil_r. split; [done|]. split; [simpl; lia|].
    intros d' (aid & a & Ha & Hm). by destruct (Hno _ _ _ Ha Hm).
Qed.

Lemma bodies_acked ls s rid r aid total :
  bodies_wf ls s → writes_wf s → sys_requests s !! rid = Some r → rq_pos r = AtBody aid total →
  body_of rid ls = written rid s.
Proof.
  intros Hb Hw Hr Hp. specialize (Hb rid). rewrite Hr in Hb.
  rewrite <- Hb by (unfold may_succeed; by rewrite Hp).
  pose proof (ww_req _ Hw _ _ Hr) as Hok. unfold request_ok in Hok. rewrite Hp in Hok.
  destruct Hok as [Hok _]. unfold written, rq_chunks. rewrite Hp, Hok, app_nil_r.
  by rewrite <- list_fmap_compose, list_fmap_id.
Qed.

Lemma delivered_chunk ls s rid d s' k :
  sys_wf s → bodies_wf ls s → write_request_next rid (Some (Ok d)) s = Some s' →
  delivered s k (body_of k ls) → delivered s' k (body_of k ls ++ if decide (rid = k) then [d] else []).
Proof.
  intros Hwf Hb Hs (rest & E & Hlen & Hway). unfold write_request_next in Hs.
  apply bind_Some in Hs as (r & Hr & Hs).
  destruct (rq_pos r) as [aid total| | | | |] eqn:Hp; simplify_eq.
  assert (Hnew : ∀ k d', on_its_way (enqueue aid (SessionWrite d rid)
      (put_request rid (mkReq (AtWrite aid (add64 total (blen d)) d None) (rq_acked r)) s)) k d' →
      on_its_way s k d' ∨ k = rid ∧ d' = d).
  { intros k' d' (i & a' & Ha' & Hm). simpl in Ha'.
    apply lookup_alter_Some in Ha' as [(<- & a & Ha & ->)|[Hne Ha]]; [|left; by exists i, a'].
    apply push_origin in Hm as [?|Hm]; [simplify_eq; by right|left; by exists aid, a]. }
  pose proof (no_msg _ _ _ (wf_writes _ Hwf) Hr ltac:(by rewrite Hp)) as Hno.
  case_decide as Ek; [subst k|].
  - exists [d]. unfold written. simpl. rewrite (bodies_acked _ _ _ _ _ _ Hb (wf_writes _ Hwf) Hr Hp).
    split; [done|]. split; [done|]. intros d' [(i & a & Ha & Hm)|[_ ->]]%Hnew; [|done].
    by destruct (Hno _ _ _ Ha Hm).
  - exists rest. rewrite app_nil_r. split; [done|]. split; [done|].
    intros d' [Hd|[-> _]]%Hnew; [by apply Hway|done].
Qed.

(** The log grows by nothing that was written, or by a chunk that was on its way. *)
Lemma log_flow s s' :
  trans s s' →
  (∃ es, sys_log s' = sys_log s ++ es ∧ ∀ aid rid d n, UpWrite aid rid d n ∉ es) ∨
  ∃ aid rid d n, sys_log s' = sys_log s ++ [UpWrite aid rid d n] ∧ on_its_way s rid d.
Proof.
  intros Ht. inversion Ht; subst; clear Ht; try destruct queued; simpl.
  all: try (left; exists []; rewrite app_nil_r; split; [done|]; intros; by apply not_elem_of_nil).
  all: try (left; eexists; split; [done|]; by intros * ?%list_elem_of_singleton).
  all: right; do 4 eexists; split; [done|]; by exists aid, a; eauto using busy_msg.
Qed.

Lemma written_log_other rid s s' es :
  sys_log s' = sys_log s ++ es → (∀ aid d n, UpWrite aid rid d n ∉ es) → written rid s' = written rid s.
Proof.
  intros E Hno. unfold written, writes_of. rewrite E, omap_app, fmap_app.
  fold (writes_of rid es). rewrite (writes_of_nil rid es Hno). by rewrite app_nil_r.
Qed.

(** * Answered requests *)

Lemma responded_stays s s' rid r resp :
  ids_fresh s → trans s s' → sys_requests s !! rid = Some r → rq_pos r = Responded resp →
  ∃ r', sys_requests s' !! rid = Some r' ∧ rq_pos r' = Responded resp.
Proof.
  intros (_ & _ & _ & Hf) Ht Hr Hp. pose proof (Hf _ _ Hr) as Hlt.
  inversion Ht; subst; clear Ht; try destruct queued; simpl; eauto.
  all: try (rewrite lookup_insert_ne by lia; by eauto).
  all: map_goal; rewrite ?Hr; simpl; eauto; try congruence.
  all: try (eexists; split; [done|]; unfold answer_read, answer_write; by rewrite Hp).
  rewrite Hp in H4. inversion H4; subst; try done.
  match goal with Hx : in_flight _ = true |- _ => unfold in_flight in Hx end. by simplify_eq/=; case_match.
Qed.

(** Nothing more is written for a request that has its response. *)
Lemma responded_no_msg s rid r resp d :
  writes_wf s → sys_requests s !! rid = Some r → rq_pos r = Responded resp → ¬ on_its_way s rid d.
Proof.
  intros Hw Hr Hp (aid & a & Ha & Hm). eapply (no_msg _ _ _ Hw Hr); [by rewrite Hp|done..].
Qed.

Lemma responded_written s s' rid r resp :
  writes_wf s → granted s → trans s s' → sys_requests s !! rid = Some r → rq_pos r = Responded resp →
  written rid s' = written rid s.
Proof.
  intros Hw Hg Ht Hr Hp. destruct (written_flow s s' rid Hw Hg Ht) as [?|(d & Hd & _)]; [done|].
  by destruct (responded_no_msg _ _ _ _ _ Hw Hr Hp Hd).
Qed.

(** A write request that was answered [204] wrote its whole body. *)
Lemma acknowledged_written ls s rid r resp :
  bodies_wf ls s → writes_wf s → sys_requests s !! rid = Some r → rq_pos r = Responded resp →
  rs_status resp = NO_CONTENT → written rid s = body_of rid ls.
Proof.
  intros Hb Hw Hr Hp Hst. specialize (Hb rid). rewrite Hr in Hb.
  rewrite <- Hb by (unfold may_succeed; by rewrite Hp). unfold rq_chunks. rewrite Hp, app_nil_r.
  pose proof (ww_req _ Hw _ _ Hr) as Hok. unfold request_ok in Hok. rewrite Hp in Hok.
  destruct (Hok Hst) as [_ [aid E]]. unfold written. rewrite E.
  by rewrite <- list_fmap_compose, list_fmap_id.
Qed.

(** It is answered [204] when its body ends. *)
Definition acknowledged s (rid : nat) : Prop :=
  ∃ r resp, sys_requests s !! rid = Some r ∧ rq_pos r = Responded resp ∧ rs_status resp = NO_CONTENT.

(** A request changes by its own steps, or by an answer from its actor. *)
Definition same_request s s' (rid : nat) : Prop :=
  ∀ r, sys_requests s !! rid = Some r →
    ∃ r', sys_requests s' !! rid = Some r' ∧
      (r' = r ∨ (∃ reply, r' = answer_read reply r) ∨ r' = answer_write r).

Lemma same_request_eq s s' rid : sys_requests s' = sys_requests s → same_request s s' rid.
Proof. intros E r Hr. rewrite E. eauto. Qed.

Lemma same_request_alter s s' rid f k :
  (∀ r, f r = r ∨ (∃ reply, f r = answer_read reply r) ∨ f r = answer_write r) →
  sys_requests s' = alter f k (sys_requests s) → same_request s s' rid.
Proof.
  intros Hf E r Hr. rewrite E, lookup_alter. case_decide; subst; rewrite Hr; simpl; eauto.
Qed.

Lemma same_request_other s s' rid k r' :
  k ≠ rid → sys_requests s' = <[k := r']> (sys_requests s) → same_request s s' rid.
Proof. intros Hne E r Hr. rewrite E, lookup_insert_ne by done. eauto. Qed.

#[local] Hint Resolve same_request_eq : core.

Lemma arrival_same head s s' rid :
  ids_fresh s → request_arrives head s = Some s' → same_request s s' rid.
Proof.
  intros (_ & _ & _ & Hf) Hs r Hr. pose proof (Hf _ _ Hr) as Hlt.
  assert (Hne : sys_next s ≠ rid) by lia. revert r Hr. change (same_request s s' rid). revert Hs.
  unfold request_arrives, handle_request, handle_request_inner, lookup_session. intros Hs.
  apply bind_Some in Hs as (_ & _ & Hs).
  destruct (parse_method _) as [m|e]; [|simplify_eq/=; by eapply same_request_other].
  destruct (parse_session_id _ _) as [u|]; [|simplify_eq/=; by eapply same_request_other].
  simpl in Hs. destruct (sys_sessions s !! u) as [x|]; [destruct (actor_alive x _)|].
  all: try destruct (bool_decide _); simplify_eq/=; by eapply same_request_other.
Qed.

Lemma own_label s l s' rid :
  ids_fresh s → step s l = Some s' →
  same_request s s' rid ∨ (∃ c, l = LBody rid c) ∨ l = LResume rid ∨ l = LCancel rid.
Proof.
  intros Hf Hs. destruct l; simpl in Hs; simplify_eq; auto.
  - left. by eapply arrival_same.
  - destruct (decide (rid0 = rid)) as [->|Hne]; [by eauto|left]. unfold write_request_next in Hs.
    apply bind_Some in Hs as (r & Hr & Hs). destruct (rq_pos r), chunk as [[]|]; simplify_eq;
      by eapply same_request_other.
  - destruct (decide (rid0 = rid)) as [->|Hne]; [by eauto|left]. unfold request_resumes in Hs.
    apply bind_Some in Hs as (r & Hr & Hs).
    destruct (rq_pos r) as [|? ? ? [[]|]| |? [[]|]| |]; try apply bind_Some in Hs as (_ & _ & Hs);
      simplify_eq; by eapply same_request_other.
  - destruct (decide (rid0 = rid)) as [->|Hne]; [by eauto|left]. unfold request_cancelled in Hs.
    apply bind_Some in Hs as (r & Hr & Hs). apply bind_Some in Hs as (_ & _ & Hs).
    simplify_eq. by eapply same_request_other.
  - left. apply bind_Some in Hs as (a & Ha & Hs). destruct (ac_status a); simplify_eq/=; auto.
  - left. apply bind_Some in Hs as (a & Ha & Hs). destruct (ac_status a), res; simplify_eq/=; auto.
  - left. unfold deliver in Hs. apply bind_Some in Hs as (a & Ha & Hs).
    apply bind_Some in Hs as (_ & _ & Hs).
    destruct (ac_status a), (ac_session a), (ac_busy a), (ac_stop a); try done.
    apply bind_Some in Hs as (m & Hm & Hs). destruct m; simplify_eq; auto.
    unfold handle_read. destruct (try_lock_owned _); (eapply same_request_alter; [|reflexivity]; eauto).
  - left. unfold handle_written in Hs. apply bind_Some in Hs as (a & Ha & Hs).
    apply bind_Some in Hs as (_ & _ & Hs).
    apply bind_Some in Hs as ([d k] & Hb & Hs). destruct res; [|apply bind_Some in Hs as (_ & _ & Hs)];
      simplify_eq; [destruct queued|]; (eapply same_request_alter; [|reflexivity]; auto).
  - left. unfold actor_stops in Hs. apply bind_Some in Hs as (a & Ha & Hs).
    apply bind_Some in Hs as (_ & _ & Hs). apply bind_Some in Hs as (_ & _ & Hs).
    destruct (ac_busy a) as [[]|]; [apply bind_Some in Hs as (_ & _ & Hs)|]; simplify_eq/=; auto.
  - left. unfold drop_session in Hs. apply bind_Some in Hs as (a & Ha & Hs).
    destruct (ac_status a), (ac_session a); simplify_eq/=; auto.
  - left. apply fmap_Some in Hs as ([p s1] & (st & _ & Hp)%poll_cases & ->). destruct Hp; simpl; auto.
  - left. unfold drop_stream in Hs. apply bind_Some in Hs as (st & Hst & Hs).
    destruct (st_pos st); simplify_eq/=; auto.
  - left. unfold timer_fires in Hs. apply bind_Some in Hs as (tk & Htk & Hs).
    apply bind_Some in Hs as (_ & _ & Hs). simplify_eq/=. auto.
  - left. unfold server_dropped in Hs. apply bind_Some in Hs as (_ & _ & Hs).
    apply bind_Some in Hs as (_ & _ & Hs). simplify_eq/=. auto.
Qed.

(** A write request is answered [204] when its body ends. *)
Lemma acknowledged_label s l s' rid :
  ids_fresh s → step s l = Some s' → is_Some (sys_requests s !! rid) → acknowledged s' rid →
  acknowledged s rid ∨ l = LBody rid None.
Proof.
  intros Hf Hs [r Hr] (r' & resp & Hr' & Hp & Hst).
  destruct (own_label _ _ _ rid Hf Hs) as [Hsame|[[c ->]|[-> | ->]]].
  - left. destruct (Hsame _ Hr) as (r1 & Hr1 & E). simplify_eq. exists r, resp. split; [done|].
    split; [|done]. revert Hp. destruct E as [->|[[reply ->]| ->]]; [done|..].
    + unfold answer_read. by destruct (rq_pos r) as [| | |? []| |] eqn:E; rewrite ?E.
    + unfold answer_write. by destruct (rq_pos r) as [|? ? ? []| | | |] eqn:E; rewrite ?E.
  - destruct c as [[d|e]|]; [..|by right]; left; simpl in Hs; unfold write_request_next in Hs;
      rewrite Hr in Hs; simpl in Hs; destruct (rq_pos r); simplify_eq/=;
      rewrite lookup_insert_eq in Hr'; unfold respond_error in *; by simplify_eq/=.
  - left. simpl in Hs. unfold request_resumes in Hs. rewrite Hr in Hs. simpl in Hs.
    destruct (rq_pos r) as [|? ? ? [[]|]| |? [[]|]| |]; try apply bind_Some in Hs as (_ & _ & Hs);
      simplify_eq/=; rewrite lookup_insert_eq in Hr'; unfold respond_error in *; by simplify_eq/=.
  - left. simpl in Hs. unfold request_cancelled in Hs. rewrite Hr in Hs. simpl in Hs.
    apply bind_Some in Hs as (_ & _ & Hs). simplify_eq/=. rewrite lookup_insert_eq in Hr'. by simplify_eq/=.
Qed.

(** * Along a run *)

Record run_ok (ls : list label) s : Prop := {
  ro_wf : sys_wf s;
  ro_granted : granted s;
  ro_bodies : bodies_wf ls s;
  ro_delivered rid : delivered s rid (body_of rid ls);
}.

Lemma run_ok_init config : run_ok [] (with_connector config).
Proof.
  split; [apply sys_wf_init|apply granted_init|apply bodies_wf_init|].
  intros rid. exists []. split; [done|]. split; [simpl; lia|]. by intros d (aid & a & Ha & _).
Qed.

Lemma run_ok_step ls s l s' : run_ok ls s → step s l = Some s' → run_ok (ls ++ [l]) s'.
Proof.
  intros [Hwf Hg Hb Hd] Hs. split.
  - by eapply sys_wf_step.
  - eapply granted_trans; eauto using wf_ids, wf_writes, step_trans.
  - eapply bodies_wf_step; [apply (wf_ids _ Hwf)|done..].
  - intros rid. rewrite body_of_snoc. destruct (chunk_label l) as [(k & d & ->)|[Hl E]].
    + by eapply delivered_chunk.
    + rewrite E, app_nil_r. by eapply delivered_quiet.
Qed.

Lemma run_run_ok config ls s : run step (with_connector config) ls = Some s → run_ok ls s.
Proof.
  revert ls s. apply (run_ind_r step run_ok); [apply run_ok_init|].
  intros. by eapply run_ok_step.
Qed.
End Delivery.
