(* ===== verification/Reading.v ===== *)
(** What a step does to the response streams and to what was read upstream.

    Only a poll or a drop of a stream changes it, up to its abort flag; only a poll reads.
    [not_reading]: a request that is not a [GET] never has a stream. *)
From S2P Require Import Prelude Ext DomainFronting Stats State Session Server ServerSteps.
From S2P Require Import ServerInv StreamInv LogInv WriteInv BodyInv PendingInv Invariant Routing.

Section Reading.
Context `{UuidLib, HttpLib, TryMutex, !TryMutexLaws}.
Implicit Types (s : Sys) (a : Actor) (st : StreamState) (r : ReqState).

(** * The streams that are not polled or dropped *)

Definition same_stream s s' (k : nat) : Prop :=
  ∀ st, sys_streams s !! k = Some st →
    ∃ st', sys_streams s' !! k = Some st' ∧ (st' = st ∨ st' = set_aborted st).

Lemma same_stream_eq s s' k : sys_streams s' = sys_streams s → same_stream s s' k.
Proof. intros E st Hst. rewrite E. eauto. Qed.

Lemma same_stream_other s s' k j st' :
  j ≠ k → sys_streams s' = <[j := st']> (sys_streams s) → same_stream s s' k.
Proof. intros Hne E st Hst. rewrite E, lookup_insert_ne by done. eauto. Qed.

Lemma same_stream_abort s s' k x :
  sys_streams s' = sys_streams (abort_stream x s) → same_stream s s' k.
Proof.
  intros E st Hst. rewrite E. destruct x as [j|]; simpl; [|by eauto].
  rewrite lookup_alter. case_decide; subst; rewrite Hst; simpl; eauto.
Qed.

Lemma same_stream_next s s' k st' :
  ids_fresh s → sys_streams s' = <[sys_next s := st']> (sys_streams s) → same_stream s s' k.
Proof.
  intros (_ & _ & Hf & _) E st Hst. pose proof (Hf _ _ Hst). rewrite E, lookup_insert_ne by lia. eauto.
Qed.

#[local] Hint Resolve same_stream_eq same_stream_other same_stream_abort same_stream_next : core.

Lemma poll_other stid read room p s s' k :
  poll_next stid read room s = Some (p, s') → stid ≠ k → same_stream s s' k.
Proof.
  intros (st & Hst & Hp)%poll_cases Hne.
  destruct Hp; (by apply same_stream_eq) || (by eapply same_stream_other).
Qed.

Lemma drop_other stid s s' k : drop_stream stid s = Some s' → stid ≠ k → same_stream s s' k.
Proof.
  intros Hs Hne. unfold drop_stream in Hs. apply bind_Some in Hs as (st & Hst & Hs).
  destruct (st_pos st); simplify_eq/=; (by apply same_stream_eq) || (by eapply same_stream_other).
Qed.

Lemma deliver_streams aid i s s' k : ids_fresh s → deliver aid i s = Some s' → same_stream s s' k.
Proof.
  intros Hf Hs. unfold deliver in Hs. apply bind_Some in Hs as (a & Ha & Hs).
  apply bind_Some in Hs as (_ & _ & Hs).
  destruct (ac_status a), (ac_session a) as [self|], (ac_busy a), (ac_stop a); try done.
  apply bind_Some in Hs as (m & Hm & Hs). destruct m; simplify_eq; auto.
  unfold handle_read. destruct (try_lock_owned _); eauto.
Qed.

(** Neither [LPoll] nor [LDropStream]. *)
Definition quiet (l : label) : bool := match l with LPoll _ _ _ | LDropStream _ => false | _ => true end.

Lemma quiet_streams s l s' k :
  ids_fresh s → step s l = Some s' → quiet l = true → same_stream s s' k.
Proof.
  intros Hf Hs Hq. destruct l; simpl in Hs; try done; simplify_eq; auto.
  - unfold request_arrives, handle_request, handle_request_inner, lookup_session in Hs.
    apply bind_Some in Hs as (_ & _ & Hs). destruct (parse_method _) as [m|e]; [|by simplify_eq/=; auto].
    destruct (parse_session_id _ _) as [u|]; [|by simplify_eq/=; auto].
    simpl in Hs. destruct (sys_sessions s !! u) as [x|]; [destruct (actor_alive x _)|].
    all: try destruct (bool_decide _); simplify_eq/=; auto.
  - unfold write_request_next in Hs. apply bind_Some in Hs as (r & Hr & Hs).
    destruct (rq_pos r), chunk as [[]|]; simplify_eq/=; auto.
  - unfold request_resumes in Hs. apply bind_Some in Hs as (r & Hr & Hs).
    destruct (rq_pos r) as [|? ? ? [[]|]| |? [[]|]| |]; try apply bind_Some in Hs as (_ & _ & Hs);
      simplify_eq/=; auto.
  - unfold request_cancelled in Hs. unbind Hs. simplify_eq/=. auto.
  - apply bind_Some in Hs as (a & Ha & Hs). destruct (ac_status a); simplify_eq/=; auto.
  - apply bind_Some in Hs as (a & Ha & Hs). destruct (ac_status a), res; simplify_eq/=; auto.
  - by eapply deliver_streams.
  - unfold handle_written in Hs. apply bind_Some in Hs as (a & Ha & Hs).
    apply bind_Some in Hs as (_ & _ & Hs). apply bind_Some in Hs as ([d j] & Hb & Hs). destruct res; [|apply bind_Some in Hs as (_ & _ & Hs)];
      simplify_eq; [destruct queued|]; auto.
  - unfold actor_stops in Hs. apply bind_Some in Hs as (a & Ha & Hs).
    apply bind_Some in Hs as (_ & _ & Hs). apply bind_Some in Hs as (_ & _ & Hs).
    destruct (ac_busy a) as [[]|]; [apply bind_Some in Hs as (_ & _ & Hs)|]; simplify_eq/=; auto.
  - apply bind_Some in Hs as (a & Ha & Hs). destruct (ac_status a), (ac_session a) as [self|]; simplify_eq/=.
    by eapply (same_stream_abort _ _ _ (upstream_read_abort self)).
  - unfold timer_fires in Hs. unbind Hs. simplify_eq/=. auto.
  - unfold server_dropped in Hs. unbind Hs. simplify_eq/=. auto.
Qed.

Lemma stream_label s l s' k :
  ids_fresh s → step s l = Some s' →
  same_stream s s' k ∨ (∃ read room, l = LPoll k read room) ∨ l = LDropStream k.
Proof.
  intros Hf Hs. destruct (quiet l) eqn:Hq; [left; by eapply quiet_streams|].
  destruct l; try done; simpl in Hs; (destruct (decide (stid = k)) as [->|Hne]; [by eauto|left]).
  - apply fmap_Some in Hs as ([p s1] & Hp & ->). by eapply poll_other.
  - by eapply drop_other.
Qed.

(** * New streams *)

Lemma new_stream s s' k st' :
  trans s s' → sys_streams s !! k = None → sys_streams s' !! k = Some st' →
  st' = mkStream (st_actor st') (st_req st') FirstRead false [] ∧
  ∃ a, sys_actors s !! st_actor st' = Some a ∧ ac_status a = Running ∧
    SessionRead (st_req st') ∈ actor_msgs a.
Proof.
  intros Ht Hno. inversion Ht; subst; clear Ht; try destruct queued; simpl; intros Hk.
  all: try (by rewrite Hno in Hk).
  all: try match type of Hk with context [upstream_read_abort ?x] => destruct (upstream_read_abort x) end.
  all: map_hyps; try congruence. split; [done|]. exists a. eauto using mailbox_msg.
Qed.

(** * What is read *)

(** A step reads nothing from [aid], or a stream of [aid] reads a chunk. *)
Lemma read_flow s s' aid :
  trans s s' →
  actor_reads aid (sys_log s') = actor_reads aid (sys_log s) ∨
  ∃ k st d, sys_streams s !! k = Some st ∧ st_actor st = aid ∧
    (st_pos st = FirstRead ∨ st_pos st = NextRead) ∧
    ∃ st', sys_streams s' !! k = Some st' ∧ st_out st' ++ telling st' = st_out st ++ [d].
Proof.
  intros Ht. inversion Ht; subst; clear Ht; try destruct queued; simpl; auto.
  all: rewrite actor_reads_snoc, ?app_nil_r; auto; (case_decide; [|rewrite app_nil_r; auto]).
  all: right; exists stid, st, data; rewrite lookup_insert_eq; split_and!; [done..|].
  all: eexists; split; [done|]; simpl; by rewrite ?app_nil_r.
Qed.

Lemma same_not_read s s' k st st' d :
  same_stream s s' k → sys_streams s !! k = Some st → st_pos st = FirstRead ∨ st_pos st = NextRead →
  sys_streams s' !! k = Some st' → st_out st' ++ telling st' ≠ st_out st ++ [d].
Proof.
  intros Hsame Hst Hp Hst' E. destruct (Hsame _ Hst) as (x & Hx & Hor). rewrite Hst' in Hx.
  injection Hx as <-. apply (f_equal length) in E. rewrite !length_app in E. unfold telling in E.
  destruct Hor as [->| ->], Hp as [Hp|Hp]; simpl in E; rewrite Hp in E; simpl in E; lia.
Qed.

(** * Polls *)

Lemma drop_cases stid s s' :
  drop_stream stid s = Some s' →
  ∃ st, sys_streams s !! stid = Some st ∧ (s' = s ∨ holding st = true ∧ s' = release stid st s).
Proof.
  unfold drop_stream. intros Hs. apply bind_Some in Hs as (st & Hst & Hs). exists st. split; [done|].
  unfold holding. destruct (st_pos st); simplify_eq; auto.
Qed.

(** * Requests that do not read *)

Definition reading r : bool :=
  match rq_pos r with AtReadSend _ | AtRead _ _ => true | _ => false end.

Definition not_reading s (rid : nat) : Prop :=
  (∀ r, sys_requests s !! rid = Some r → reading r = false) ∧
  (∀ aid a, sys_actors s !! aid = Some a → SessionRead rid ∉ actor_msgs a) ∧
  (∀ k st, sys_streams s !! k = Some st → st_req st ≠ rid).

Lemma reading_answer_read reply r : reading (answer_read reply r) = reading r.
Proof. unfold reading, answer_read. by destruct (rq_pos r) as [| | |? []| |] eqn:E; rewrite ?E. Qed.

Lemma reading_answer_write r : reading (answer_write r) = reading r.
Proof. unfold reading, answer_write. by destruct (rq_pos r) as [|? ? ? []| | | |] eqn:E; rewrite ?E. Qed.

Lemma reading_finish s r pos acked : finish s (rq_pos r) pos → reading (mkReq pos acked) = false.
Proof. unfold reading. by inversion 1. Qed.

Lemma reading_flow s s' rid r' :
  trans s s' → sys_requests s' !! rid = Some r' → reading r' = true →
  (∃ r, sys_requests s !! rid = Some r ∧ reading r = true) ∨ rid = sys_next s.
Proof.
  intros Ht. inversion Ht; subst; clear Ht; try destruct queued; simpl; intros Hr Hp; eauto.
  all: map_hyps; rewrite ?reading_answer_read, ?reading_answer_write in Hp; eauto.
  - by erewrite reading_finish in Hp.
  - left. eexists. split; [eassumption|]. unfold reading. by rewrite H4.
Qed.

Lemma not_reading_trans s s' rid :
  trans s s' → rid < sys_next s → not_reading s rid → not_reading s' rid.
Proof.
  intros Ht Hlt (Hp & Hm & Hst). split; [|split].
  - intros r' Hr'. destruct (reading r') eqn:E; [exfalso|done].
    destruct (reading_flow _ _ _ _ Ht Hr' E) as [(r & Hr & Hx)|]; [|lia]. by rewrite (Hp _ Hr) in Hx.
  - intros aid a' Ha' Hin.
    destruct (fl_msg _ _ (flows_trans _ _ Ht) _ _ _ _ Ha' Hin eq_refl)
      as [(a & Ha & Hin')|(r & ? & Hr & _ & Hs & _)]; [by eapply Hm|].
    specialize (Hp _ Hr). unfold sends, reading in *. destruct (rq_pos r); naive_solver.
  - intros k st' Hk E.
    destruct (fl_stream _ _ (flows_trans _ _ Ht) _ _ Hk) as [(st & Hst0 & _ & E')|(_ & a & Ha & Hin)].
    + eapply Hst; [done|congruence].
    + subst. by eapply Hm.
Qed.

(** A new request has no stream yet, and one other than a [GET] does not read. *)
Lemma arrival_not_reading head s s' :
  ids_fresh s → writes_wf s → granted s → request_arrives head s = Some s' →
  (head_method head ≠ GET → not_reading s' (sys_next s)) ∧
  ∀ k st, sys_streams s' !! k = Some st → st_req st ≠ sys_next s.
Proof.
  intros Hf Hw Hg Hs. pose proof (request_trans _ _ _ Hs) as Ht.
  assert (Hno : sys_requests s !! sys_next s = None).
  { apply eq_None_not_Some. intros [r Hr]. apply Hf in Hr. lia. }
  assert (Hmsg : ∀ aid a, sys_actors s !! aid = Some a → SessionRead (sys_next s) ∉ actor_msgs a).
  { intros aid a Ha Hin. destruct (ww_msg _ Hw _ _ _ Ha Hin) as (r & Hr & _). congruence. }
  assert (Hst : ∀ k st, sys_streams s' !! k = Some st → st_req st ≠ sys_next s).
  { intros k st' Hk E.
    destruct (fl_stream _ _ (flows_trans _ _ Ht) _ _ Hk) as [(st & Hst & _ & E')|(_ & a & Ha & Hin)].
    - destruct (gr_req _ Hg _ _ Hst) as (r & Hr & _). congruence.
    - rewrite E in Hin. by eapply Hmsg. }
  split; [|done]. intros Hm. split; [|split; [|done]].
  - intros r Hr. revert Hs. unfold request_arrives, handle_request, handle_request_inner. intros Hs.
    apply bind_Some in Hs as (_ & _ & Hs).
    destruct (parse_method (head_method head)) as [m|e] eqn:Em; simplify_eq/=; [|by map_hyps].
    destruct (parse_session_id _ _) as [u|]; simplify_eq/=; [|by map_hyps].
    destruct (lookup_session _ _ _) as [[aid|e] s1]; simplify_eq/=; [|by map_hyps].
    rewrite lookup_insert_eq in Hr. injection Hr as <-.
    unfold reading. destruct m; simpl; [|done..]. by destruct (head_method head).
  - intros aid a' Ha' Hin.
    destruct (fl_msg _ _ (flows_trans _ _ Ht) _ _ _ _ Ha' Hin eq_refl)
      as [(a & Ha & Hin')|(r & ? & Hr & _)]; [by eapply Hmsg|congruence].
Qed.
(** * Refused reads *)

(** The request was refused, or is about to be, because another one reads. *)
Definition refused r : bool :=
  match rq_pos r with
  | AtRead _ (Some None) => true
  | Responded resp => bool_decide (rs_status resp = TOO_MANY_REQUESTS)
  | _ => false
  end.

Lemma refused_finish s r pos acked :
  finish s (rq_pos r) pos → refused (mkReq pos acked) = true → refused r = true.
Proof.
  unfold refused. intros Hf. inversion Hf as [? E|? ? ? E|? ? ? E|? ? ? ? E|? E|? ? E|? ? E|? ? E].
  all: by subst.
Qed.

Lemma refused_answer_write r : refused (answer_write r) = refused r.
Proof. unfold refused, answer_write. by destruct (rq_pos r) as [|? ? ? []| | | |] eqn:E; rewrite ?E. Qed.

Lemma refused_answer_read reply r :
  refused (answer_read reply r) = true → refused r = true ∨ reply = None.
Proof.
  unfold refused, answer_read. destruct (rq_pos r) as [| | |? []| |] eqn:E; rewrite ?E; auto.
  simpl. destruct reply; auto.
Qed.

Lemma refused_flow s s' rid r' :
  trans s s' → sys_requests s' !! rid = Some r' → refused r' = true →
  (∃ r, sys_requests s !! rid = Some r ∧ refused r = true) ∨
  ∃ aid a self, sys_actors s !! aid = Some a ∧ ac_session a = Some self ∧
    SessionRead rid ∈ actor_msgs a ∧ mutex_locked (upstream_read self) = true.
Proof.
  intros Ht. inversion Ht; subst; clear Ht; try destruct queued; simpl; intros Hr Hp; eauto.
  all: map_hyps; rewrite ?refused_answer_write in Hp; eauto using refused_finish.
  - unfold refused in Hp. simpl in Hp. by rewrite H4 in Hp.
  - unfold refused, request_start in Hp. simpl in Hp. by destruct (head_method head).
  - unfold refused, request_start in Hp. simpl in Hp. by destruct (head_method head).
  - destruct (refused_answer_read _ _ Hp) as [?|_]; [by eauto|right].
    exists aid, a, self. split; [done|]. split; [done|]. split; [by eapply mailbox_msg|].
    destruct (mutex_locked (upstream_read self)) eqn:El; [done|].
    destruct (try_lock_free _ El) as (m & Hm & _). congruence.
  - destruct (refused_answer_read _ _ Hp) as [?|?]; [by eauto|done].
Qed.
End Reading.
