(* ===== verification/TableInv.v ===== *)
(** One live session per identifier.

    [Drop for Session] removes the table entry of its identifier without looking at
    whose entry it is. As long as no request arrives between the moment an actor counts as
    dead and the moment its [Session] is dropped, the table names every live
    session; when one does, the entry of a newer session can be removed (see
    [drop_race] in [SessionProps]). *)
From S2P Require Import Prelude Ext DomainFronting Stats State Session Server ServerSteps.
From S2P Require Import ServerInv BodyInv ConfigInv Invariant.

Section TableInv.
Context `{UuidLib, HttpLib, TryMutex, !TryMutexLaws}.
Implicit Types (s : Sys) (a : Actor).

(** Every stopped session has been dropped. *)
Definition all_dropped s : Prop :=
  map_Forall (λ _ a, is_alive a = true ∨ ac_session a = None) (sys_actors s).

#[export] Instance ac_session_None_dec a : Decision (ac_session a = None).
Proof. destruct (ac_session a); [by right|by left]. Defined.

(** Schedules in which requests only arrive in such states. *)
Definition prompt_step s (l : label) : option Sys :=
  if is_request l then guard (all_dropped s);; step s l else step s l.

Lemma prompt_step_step s l s' : prompt_step s l = Some s' → step s l = Some s'.
Proof. unfold prompt_step. destruct (is_request l); [|done]. by intros (_ & _ & Hs)%bind_Some. Qed.

(** The actor runs, or its session has not been dropped. *)
Definition present a : Prop := is_alive a = true ∨ is_Some (ac_session a).

Definition table_complete s : Prop :=
  sys_server_up s = true → ∀ aid a, sys_actors s !! aid = Some a → present a →
    sys_sessions s !! arg_session_id (ac_args a) = Some aid.

(** Steps that keep the table: no actor becomes present again. *)
Lemma table_complete_frame s s' :
  table_complete s → (sys_server_up s' = true → sys_server_up s = true) →
  sys_sessions s' = sys_sessions s →
  (∀ aid a', sys_actors s' !! aid = Some a' → present a' →
     ∃ a, sys_actors s !! aid = Some a ∧ present a ∧ ac_args a = ac_args a') →
  table_complete s'.
Proof.
  intros Hw Hup Htab Hact Hu aid a' Ha' Hp. destruct (Hact _ _ Ha' Hp) as (a & Ha & Hpa & <-).
  rewrite Htab. auto.
Qed.

Lemma table_complete_new s s' head u :
  all_dropped s → table_complete s →
  (∀ aid, sys_sessions s !! u = Some aid → actor_alive aid s = false) →
  s' = put_request (sys_next s) (mkReq (request_start head (S (sys_next s))) [])
         (insert_session u (set_next (S (sys_next s)) s)).2 →
  table_complete s'.
Proof.
  intros Hd Hw Hdead -> Hu aid a. simpl.
  intros [[<- <-]|[Hne Ha]]%lookup_insert_Some Hp; simpl; [by rewrite lookup_insert_eq|].
  pose proof (Hw Hu _ _ Ha Hp) as Ht. rewrite lookup_insert_ne; [done|]. intros E.
  rewrite <- E in Ht. specialize (Hdead _ Ht). unfold actor_alive in Hdead. rewrite Ha in Hdead.
  destruct (map_Forall_lookup_1 _ _ _ _ Hd Ha) as [?|Hs]; [congruence|].
  destruct Hp as [?|[x Hx]]; congruence.
Qed.

Lemma table_complete_drop s s' aid a self :
  actors_wf s → table_complete s → sys_actors s !! aid = Some a → ac_session a = Some self →
  sys_server_up s' = sys_server_up s →
  sys_actors s' = <[aid := with_session None a]> (sys_actors s) → ac_status a = Stopped →
  sys_sessions s' = (if sys_server_up s then delete (session_id self) (sys_sessions s)
                     else sys_sessions s) →
  table_complete s'.
Proof.
  intros Hwf Hw Ha Hs Hup Hact Hst Htab Hu k b. rewrite Hact, Htab. rewrite Hup in Hu. rewrite Hu.
  assert (Hid : session_id self = arg_session_id (ac_args a)) by (destruct (Hwf _ _ Ha) as [Hse _]; by destruct (Hse _ Hs)).
  assert (Hin : sys_sessions s !! session_id self = Some aid) by (rewrite Hid; eapply Hw; eauto; right; eauto).
  intros [[<- <-]|[Hne Hb]]%lookup_insert_Some Hp.
  - exfalso. unfold present, is_alive in Hp. simpl in Hp. rewrite Hst in Hp. by destruct Hp as [?|[? ?]].
  - pose proof (Hw Hu _ _ Hb Hp) as Ht. rewrite lookup_delete_ne; [done|]. congruence.
Qed.

Lemma present_push m a : present (push_msg m a) → present a.
Proof. unfold push_msg. by destruct (is_alive a). Qed.

Lemma present_unlock a : present (unlock_reader a) → present a.
Proof. unfold present, unlock_reader, is_alive. destruct (ac_session a) eqn:E; simpl; [|by rewrite E]. eauto. Qed.

Lemma table_complete_trans s s' :
  ids_fresh s → actors_wf s → table_complete s → trans s s' →
  (all_dropped s ∨ ∀ k, sys_requests s !! k = None → sys_requests s' !! k = None) →
  table_complete s'.
Proof.
  intros (_ & _ & _ & Hf) Hwf Hw Ht Hq. inversion Ht; subst; clear Ht; try destruct queued; try done.
  all: try (by eapply table_complete_drop).
  all: try (by eapply (table_complete_frame s); simpl; eauto).
  all: try (eapply (table_complete_frame s); [done|done|done|];
            intros k b Hk Hp; simpl in *; map_hyps; eauto;
            (eexists; split; [eassumption|]; split; [|by rewrite ?args_push, ?args_unlock];
             first [ exact Hp | apply present_push in Hp; exact Hp | apply present_unlock in Hp; exact Hp
                   | unfold present, is_alive in *; simpl in *; by repeat case_match; naive_solver ])).
  destruct Hq as [Hd|Hq]; [by eapply table_complete_new|].
  assert (Hno : sys_requests s !! sys_next s = None).
  { apply eq_None_not_Some. intros [r Hr]. apply Hf in Hr. lia. }
  specialize (Hq _ Hno). simpl in Hq. by rewrite lookup_insert_eq in Hq.
Qed.
Lemma table_complete_step s l s' :
  sys_wf s → table_complete s → prompt_step s l = Some s' → table_complete s'.
Proof.
  intros Hwf Hw Hs. pose proof (prompt_step_step _ _ _ Hs) as Hs'.
  pose proof (wf_ids _ Hwf) as Hids. pose proof Hids as (_ & _ & _ & Hf).
  eapply table_complete_trans; eauto using wf_actors, step_trans.
  unfold prompt_step in Hs. destruct (is_request l) eqn:El.
  - left. by apply bind_Some in Hs as (Hd & _ & _).
  - right. intros k Hk. destruct (chunk_label l) as [(rid & d & ->)|[Hl _]].
    + simpl in Hs. unfold write_request_next in Hs. apply bind_Some in Hs as (r & Hr & Hs).
      destruct (rq_pos r); simplify_eq/=. rewrite lookup_insert_ne; congruence.
    + pose proof (step_quiet _ _ _ Hf Hl Hs' k) as Hq. rewrite Hk, El in Hq.
      destruct (sys_requests s' !! k); [by destruct Hq|done].
Qed.

(** Prompt schedules are schedules, so the global invariant holds along them too. *)
Lemma prompt_run_wf config ls s :
  run prompt_step (with_connector config) ls = Some s →
  sys_wf s ∧ table_complete s ∧ reachable config s.
Proof.
  intros Hrun.
  apply (run_invariant prompt_step (λ s, sys_wf s ∧ table_complete s ∧ reachable config s)) with
    (ls := ls) (s := with_connector config); [| |done].
  - intros s0 l s' (Hwf & Hw & Hr) Hs. pose proof (prompt_step_step _ _ _ Hs) as Hs'.
    split; [by eapply sys_wf_step|]. split; [by eapply table_complete_step|].
    eapply reaches_trans; [done|]. by eapply reaches_step.
  - split; [apply sys_wf_init|]. split; [done|]. apply reaches_refl.
Qed.
End TableInv.
