(* ===== verification/Progress.v ===== *)
(** A session serves its requests: what a request waits for, its session's actor gives it.

    [own_step] singles out the steps of one request and of its session: the actor starts, its
    connection is made, it handles messages, its writes succeed, its task ends, the request runs
    again. No client acts, no body ends and no timer fires, so a session that serves goes on
    serving. [served] and [refused_dead] say what the request gets. *)
From S2P Require Import Prelude Ext DomainFronting Stats State Session Server ServerSteps.
From S2P Require Import ServerInv WriteInv PendingInv Invariant.

Section Progress.
Context `{UuidLib, HttpLib, TryMutex, !TryMutexLaws}.
Implicit Types (s : Sys) (a : Actor) (r : ReqState).

(** * What a request waits for *)

(** The session a request waits for. *)
Definition waits_for r : option nat :=
  match rq_pos r with
  | AtWrite aid _ _ _ | AtReadSend aid | AtRead aid _ => Some aid
  | _ => None
  end.

(** The session has replied, but the request has not run since. *)
Definition answered r : bool :=
  match rq_pos r with AtWrite _ _ _ (Some _) | AtRead _ (Some _) => true | _ => false end.

(** The actor is neither dead nor about to die. *)
Definition serving a : bool := is_alive a && negb (ac_kill a) && negb (ac_stop a).

Definition own_step (rid aid : nat) (l : label) : bool :=
  match l with
  | LResume k => k =? rid
  | LStart k | LConnected k (Ok _) | LDeliver k _ | LWritten k WriteOk _ | LStop k _ => k =? aid
  | _ => false
  end.

(** From [s], steps of the request and its session lead to a state in which the request [rid]
    satisfies [Q]. *)
Definition gets (rid aid : nat) s (Q : Sys → ReqState → Prop) : Prop :=
  ∃ ls s' r', forallb (own_step rid aid) ls = true ∧ run step s ls = Some s' ∧
    sys_requests s' !! rid = Some r' ∧ Q s' r'.

(** A chunk is acknowledged, and was written in full if it was not written before; a read is
    answered with a stream, or refused because another request reads. *)
Definition served (rid : nat) r s' r' : Prop :=
  match rq_pos r with
  | AtWrite aid total d reply =>
      r' = mkReq (AtBody aid total) (rq_acked r ++ [d]) ∧
      (reply = None → UpWrite aid rid d (length d) ∈ sys_log s')
  | _ =>
      (∃ stid, rq_pos r' = Responded (read_response stid)) ∨
      rq_pos r' = Responded (error_response TOO_MANY_REQUESTS)
  end.
Definition refused_dead r' : Prop := rq_pos r' = Responded (error_response BAD_REQUEST).

Lemma gets_step s l s' rid aid Q :
  own_step rid aid l = true → step s l = Some s' → gets rid aid s' Q → gets rid aid s Q.
Proof.
  intros Hl Hs (ls & s2 & r' & Hf & Hrun & H'). exists (l :: ls), s2, r'.
  split; [simpl; by rewrite Hl|]. split; [by eapply run_cons|done].
Qed.

Lemma gets_now s l s' rid aid r' (Q : Sys → ReqState → Prop) :
  own_step rid aid l = true → step s l = Some s' → sys_requests s' !! rid = Some r' → Q s' r' →
  gets rid aid s Q.
Proof. intros Hl Hs Hr HQ. eapply gets_step; [done..|]. by exists [], s', r'. Qed.

Lemma own_resume rid aid : own_step rid aid (LResume rid) = true.
Proof. apply Nat.eqb_refl. Qed.

(** * The session has replied *)

Lemma get_acked s rid r aid total d :
  sys_requests s !! rid = Some r → rq_pos r = AtWrite aid total d (Some ()) →
  gets rid aid s (λ s' r', r' = mkReq (AtBody aid total) (rq_acked r ++ [d]) ∧ sys_log s' = sys_log s).
Proof.
  intros Hr Hp. eapply (gets_now _ (LResume rid)); [apply own_resume| | |].
  - simpl. unfold request_resumes. rewrite Hr. simpl. by rewrite Hp.
  - simpl. apply lookup_insert_eq.
  - done.
Qed.

Lemma get_read s rid r aid reply :
  sys_requests s !! rid = Some r → rq_pos r = AtRead aid (Some reply) →
  gets rid aid s (served rid r).
Proof.
  intros Hr Hp.
  assert (Hs : ∃ resp s', step s (LResume rid) = Some s' ∧
            sys_requests s' !! rid = Some (mkReq (Responded resp) (rq_acked r)) ∧
            ((∃ stid, resp = read_response stid) ∨ resp = error_response TOO_MANY_REQUESTS)).
  { simpl. unfold request_resumes. rewrite Hr. simpl. rewrite Hp.
    destruct reply; eexists _, _; (split; [done|]); simpl; rewrite lookup_insert_eq; eauto. }
  destruct Hs as (resp & s' & Hs & Hr' & Hresp).
  eapply (gets_now _ (LResume rid)); [apply own_resume|done|done|].
  unfold served. rewrite Hp. simpl. destruct Hresp as [[stid ->]| ->]; eauto.
Qed.

(** * The request awaits a reply *)

(** The message [m] that request [rid], in state [r], awaits the reply to. *)
Definition awaited (rid aid : nat) r (m : Msg) : Prop :=
  (∃ total d, m = SessionWrite d rid ∧ rq_pos r = AtWrite aid total d None) ∨
  m = SessionRead rid ∧ rq_pos r = AtRead aid None.

Lemma awaited_rid rid aid r m : awaited rid aid r m → msg_rid m = Some rid.
Proof. by intros [(? & ? & -> & _)|[-> _]]. Qed.

(** Its actor is dead. *)
Lemma get_dead s rid r aid m :
  sys_requests s !! rid = Some r → awaited rid aid r m → actor_alive aid s = false →
  gets rid aid s (λ _, refused_dead).
Proof.
  intros Hr Haw Hdead.
  assert (Hs : ∃ s', step s (LResume rid) = Some s' ∧
            sys_requests s' !! rid = Some (mkReq (Responded (error_response BAD_REQUEST)) (rq_acked r))).
  { cbn [step]. unfold request_resumes. rewrite Hr. cbn [mbind option_bind].
    destruct Haw as [(total & d & _ & ->)|[_ ->]]; rewrite guard_pass by done;
      eexists; (split; [done|]); simpl; by rewrite lookup_insert_eq. }
  destruct Hs as (s' & Hs & Hr'). by eapply (gets_now _ (LResume rid)); [apply own_resume|..].
Qed.

Lemma dead_actor s aid a :
  sys_actors s !! aid = Some a → ac_status a = Stopped → actor_alive aid s = false.
Proof. intros Ha Hst. unfold actor_alive, is_alive. by rewrite Ha, Hst. Qed.

(** It is about to die: its task ends. *)
Lemma stop_step s aid a :
  busy_wf s → sys_actors s !! aid = Some a → is_alive a = true → serving a = false →
  ∃ s', step s (LStop aid 0) = Some s' ∧ sys_requests s' = sys_requests s ∧ actor_alive aid s' = false.
Proof.
  intros Hbw Ha Hal Hse. unfold serving in Hse. rewrite Hal in Hse. simpl in Hse.
  assert (Hk : ac_kill a || ac_stop a = true) by (by destruct (ac_kill a), (ac_stop a)).
  cbn [step]. unfold actor_stops. rewrite Ha. cbn [mbind option_bind]. rewrite !guard_pass by done.
  destruct (ac_busy a) as [[d k]|] eqn:Hb.
  - destruct (Hbw _ _ Ha ltac:(by rewrite Hb)) as [Hstop _]. rewrite Hstop, orb_false_r in Hk.
    rewrite guard_pass by (split; [done|lia]). eexists. split; [done|]. split; [done|].
    eapply (dead_actor _ _ (stopped a)); [|done]. simpl. by rewrite lookup_insert_eq.
  - eexists. split; [done|]. split; [done|].
    eapply (dead_actor _ _ (stopped a)); [|done]. simpl. by rewrite lookup_insert_eq.
Qed.

Lemma get_dying s rid r aid a m :
  busy_wf s → sys_requests s !! rid = Some r → awaited rid aid r m → sys_actors s !! aid = Some a →
  serving a = false → gets rid aid s (λ _, refused_dead).
Proof.
  intros Hbw Hr Haw Ha Hse. destruct (is_alive a) eqn:Hal.
  - destruct (stop_step _ _ _ Hbw Ha Hal Hse) as (s' & Hs & Hreq & Hdead).
    eapply (gets_step _ (LStop aid 0)); [apply Nat.eqb_refl|exact Hs|].
    eapply get_dead; [|done..]. by rewrite Hreq.
  - eapply get_dead; [done..|]. unfold actor_alive. by rewrite Ha.
Qed.

(** * A session that serves *)

(** A write upstream succeeds. *)
Lemma written_step s aid a d k :
  sys_actors s !! aid = Some a → ac_kill a = false → ac_busy a = Some (d, k) →
  ∃ s', step s (LWritten aid WriteOk false) = Some s' ∧
    sys_actors s' !! aid = Some (with_busy None a) ∧
    sys_requests s' = alter answer_write k (sys_requests s) ∧
    UpWrite aid k d (length d) ∈ sys_log s'.
Proof.
  intros Ha Hk Hb. cbn [step]. unfold handle_written. rewrite Ha. cbn [mbind option_bind].
  rewrite guard_pass by done. rewrite Hb. cbn [mbind option_bind].
  eexists. split; [done|]. simpl. rewrite lookup_insert_eq. split; [done|]. split; [done|].
  apply elem_of_app. right. constructor.
Qed.

(** The write of the request itself is being done. *)
Lemma get_busy s rid r aid a total d :
  sys_requests s !! rid = Some r → rq_pos r = AtWrite aid total d None →
  sys_actors s !! aid = Some a → ac_kill a = false → ac_busy a = Some (d, rid) →
  gets rid aid s (served rid r).
Proof.
  intros Hr Hp Ha Hk Hb. destruct (written_step _ _ _ _ _ Ha Hk Hb) as (s' & Hs & _ & Hreq & Hin).
  eapply (gets_step _ (LWritten aid WriteOk false)); [apply Nat.eqb_refl|exact Hs|].
  destruct (get_acked s' rid (answer_write r) aid total d) as (ls & s2 & r2 & Hf & Hrun & Hr2 & E & Hlog).
  - by rewrite Hreq, lookup_alter_eq, Hr.
  - unfold answer_write. by rewrite Hp.
  - exists ls, s2, r2. split; [done|]. split; [done|]. split; [done|].
    unfold served. rewrite Hp. rewrite E, Hlog. split; [|done].
    unfold answer_write. by rewrite Hp.
Qed.

(** The actor is idle and the message is in its mailbox. *)
Lemma get_idle s rid r aid a self m :
  sys_requests s !! rid = Some r → awaited rid aid r m → sys_actors s !! aid = Some a →
  ac_status a = Running → ac_session a = Some self → ac_kill a = false → ac_stop a = false →
  ac_busy a = None → m ∈ ac_mailbox a → gets rid aid s (served rid r).
Proof.
  intros Hr Haw Ha Hst Hself Hk Hstop Hb [i Hi]%list_elem_of_lookup.
  set (a' := with_mailbox (delete i (ac_mailbox a)) a).
  assert (Hd : step s (LDeliver aid i) = Some (match m with
            | SessionRead k => handle_read aid a' self k s
            | SessionWrite d k => handle_write aid a' d k s
            | SessionResetIdleTimeout => handle_reset aid a' self s
            end)).
  { cbn [step]. unfold deliver. rewrite Ha. cbn [mbind option_bind]. rewrite guard_pass by done.
    by rewrite Hst, Hself, Hb, Hstop, Hi. }
  eapply (gets_step _ (LDeliver aid i)); [apply Nat.eqb_refl|exact Hd|].
  destruct Haw as [(total & d & -> & Hp)|[-> Hp]].
  - eapply (get_busy _ rid r aid (with_busy (Some (d, rid)) a') total d); [done|done| |done|done].
    simpl. by rewrite lookup_insert_eq.
  - assert (Hans : ∃ reply, sys_requests (handle_read aid a' self rid s) !! rid = Some (answer_read reply r)).
    { unfold handle_read. destruct (try_lock_owned _); simpl; rewrite lookup_alter_eq, Hr; eauto. }
    destruct Hans as [reply Hans].
    destruct (get_read _ rid (answer_read reply r) aid reply Hans) as (ls & s2 & r2 & Hf & Hrun & Hr2 & Hsv);
      [unfold answer_read; by rewrite Hp|].
    exists ls, s2, r2. split; [done|]. split; [done|]. split; [done|].
    unfold served, answer_read in *. by rewrite Hp in *.
Qed.

(** The actor runs: what it is writing comes first. *)
Lemma get_running s rid r aid a m :
  sys_wf s → sys_requests s !! rid = Some r → awaited rid aid r m → sys_actors s !! aid = Some a →
  ac_status a = Running → ac_kill a = false → ac_stop a = false → m ∈ actor_msgs a →
  gets rid aid s (served rid r).
Proof.
  intros Hw Hr Haw Ha Hst Hk Hstop Hin. destruct (wf_actors _ Hw _ _ Ha) as [_ Hse]. rewrite Hst in Hse.
  destruct Hse as [self Hself]. destruct (ac_busy a) as [[d k]|] eqn:Hb.
  2:{ unfold actor_msgs in Hin. rewrite Hb, app_nil_r in Hin. by eapply get_idle. }
  rewrite (actor_msgs_busy _ _ _ Hb) in Hin. apply elem_of_cons in Hin as [->|Hin].
  { destruct Haw as [(total & d' & [= -> ->] & Hp)|[? _]]; [|done]. by eapply get_busy. }
  assert (Hne : k ≠ rid).
  { intros ->. pose proof (ww_nodup _ (wf_writes _ Hw) _ _ Ha) as Hnd.
    rewrite (actor_msgs_busy _ _ _ Hb) in Hnd. simpl in Hnd. apply NoDup_cons in Hnd as [Hnd _].
    apply Hnd, list_elem_of_omap. eauto using awaited_rid. }
  destruct (written_step _ _ _ _ _ Ha Hk Hb) as (s' & Hs & Ha' & Hreq & _).
  eapply (gets_step _ (LWritten aid WriteOk false)); [apply Nat.eqb_refl|exact Hs|].
  unfold actor_msgs in Hin. simpl in Hin. rewrite app_nil_r in Hin.
  eapply (get_idle s' rid r aid); [|done..]. by rewrite Hreq, lookup_alter_ne.
Qed.

(** The actor has not finished starting. *)
Lemma get_starting s rid r aid a m x y :
  sys_wf s → sys_requests s !! rid = Some r → awaited rid aid r m → sys_actors s !! aid = Some a →
  ac_status a = Starting x y → ac_kill a = false → ac_stop a = false → m ∈ actor_msgs a →
  gets rid aid s (served rid r).
Proof.
  intros Hw Hr Haw Ha Hst Hk Hstop Hin.
  assert (Hs : ∃ s' a', step s (LConnected aid (Ok ())) = Some s' ∧ sys_requests s' = sys_requests s ∧
            sys_actors s' !! aid = Some a' ∧ ac_status a' = Running ∧ ac_kill a' = ac_kill a ∧
            ac_stop a' = ac_stop a ∧ actor_msgs a' = actor_msgs a).
  { simpl. unfold on_start_connected. rewrite Ha. simpl. rewrite Hst.
    eexists _, _. split; [done|]. split; [done|]. split; [simpl; by rewrite lookup_insert_eq|done]. }
  destruct Hs as (s' & a' & Hs & Hreq & Ha' & Hst' & Ek & Es & Hm).
  eapply (gets_step _ (LConnected aid (Ok ()))); [apply Nat.eqb_refl|exact Hs|].
  eapply (get_running s' rid r aid a' m); rewrite ?Hreq, ?Hm, ?Ek, ?Es; eauto using sys_wf_step.
Qed.

Lemma get_spawned s rid r aid a m :
  sys_wf s → sys_requests s !! rid = Some r → awaited rid aid r m → sys_actors s !! aid = Some a →
  ac_status a = Spawned → ac_kill a = false → ac_stop a = false → m ∈ actor_msgs a →
  gets rid aid s (served rid r).
Proof.
  intros Hw Hr Haw Ha Hst Hk Hstop Hin.
  assert (Hs : ∃ s' a' x y, step s (LStart aid) = Some s' ∧ sys_requests s' = sys_requests s ∧
            sys_actors s' !! aid = Some a' ∧ ac_status a' = Starting x y ∧ ac_kill a' = ac_kill a ∧
            ac_stop a' = ac_stop a ∧ actor_msgs a' = actor_msgs a).
  { simpl. unfold on_start. rewrite Ha. simpl. rewrite Hst.
    eexists _, _, _, _. split; [done|]. split; [done|].
    split; [simpl; by rewrite lookup_insert_eq|done]. }
  destruct Hs as (s' & a' & x & y & Hs & Hreq & Ha' & Hst' & Ek & Es & Hm).
  eapply (gets_step _ (LStart aid)); [apply Nat.eqb_refl|exact Hs|].
  eapply (get_starting s' rid r aid a' m); rewrite ?Hreq, ?Hm, ?Ek, ?Es; eauto using sys_wf_step.
Qed.

(** A request that awaits a reply gets one, or learns that its session is dead. *)
Lemma get_awaiting s rid r aid a m :
  sys_wf s → sys_requests s !! rid = Some r → awaited rid aid r m → sys_actors s !! aid = Some a →
  awaits s aid m → gets rid aid s (if serving a then served rid r else λ _, refused_dead).
Proof.
  intros Hw Hr Haw Ha (a0 & Ha0 & Hor). simplify_eq. destruct (serving a) eqn:Hse.
  2:{ eapply get_dying; eauto using wf_busy. }
  unfold serving, is_alive in Hse. rewrite !andb_true_iff, !negb_true_iff in Hse.
  destruct Hse as [[Hal Hk] Hstop]. destruct Hor as [Hst|Hin]; [by rewrite Hst in Hal|].
  destruct (ac_status a) eqn:Hst; [by eapply get_spawned|by eapply get_starting|by eapply get_running|done].
Qed.

Lemma serving_push m a : serving (push_msg m a) = serving a.
Proof. unfold serving, push_msg, is_alive. by destruct (ac_status a) eqn:E; simpl; rewrite ?E. Qed.

Lemma waits_actor s rid r aid :
  sys_wf s → sys_requests s !! rid = Some r → waits_for r = Some aid → is_Some (sys_actors s !! aid).
Proof.
  intros Hw Hr Hwt. pose proof (pw_req _ (wf_pending _ Hw) _ _ Hr) as Hok.
  unfold pending_ok, waits_for in *.
  destruct (rq_pos r) as [k total|k total d [[]|]|k|k [reply|]|resp|]; simplify_eq; eauto.
  all: destruct Hok as (a & Ha & _); eauto.
Qed.

(** The whole: what a request waits for, it gets. *)
Lemma get_waiting s rid r aid a :
  sys_wf s → sys_requests s !! rid = Some r → waits_for r = Some aid → sys_actors s !! aid = Some a →
  gets rid aid s (if answered r || serving a then served rid r else λ _, refused_dead).
Proof.
  intros Hw Hr Hwt Ha. pose proof (pw_req _ (wf_pending _ Hw) _ _ Hr) as Hok.
  unfold pending_ok, waits_for, answered in *.
  destruct (rq_pos r) as [k total|k total d [[]|]|k|k [reply|]|resp|] eqn:Hp; simplify_eq; simpl.
  - destruct (get_acked _ _ _ _ _ _ Hr Hp) as (ls & s' & r' & Hf & Hrun & Hr' & E & _).
    exists ls, s', r'. split; [done|]. split; [done|]. split; [done|]. unfold served. by rewrite Hp.
  - eapply get_awaiting; eauto. left. eauto.
  - set (r1 := mkReq (AtRead aid None) (rq_acked r)).
    set (s1 := enqueue aid (SessionRead rid) (put_request rid r1 s)).
    assert (Hs : step s (LResume rid) = Some s1).
    { simpl. unfold request_resumes. rewrite Hr. simpl. by rewrite Hp. }
    assert (Hr1 : sys_requests s1 !! rid = Some r1) by (simpl; by rewrite lookup_insert_eq).
    assert (Ha1 : sys_actors s1 !! aid = Some (push_msg (SessionRead rid) a))
      by (simpl; by rewrite lookup_alter_eq, Ha).
    assert (Hw1 : sys_wf s1) by eauto using sys_wf_step.
    eapply (gets_step _ (LResume rid)); [apply own_resume|exact Hs|].
    assert (Haw : awaited rid aid r1 (SessionRead rid)) by (by right).
    assert (Hwait : awaits s1 aid (SessionRead rid)) by (exact (pw_req _ (wf_pending _ Hw1) _ _ Hr1)).
    pose proof (get_awaiting _ _ _ _ _ _ Hw1 Hr1 Haw Ha1 Hwait) as HG. rewrite serving_push in HG.
    unfold served in *. by rewrite Hp.
  - by eapply get_read.
  - eapply get_awaiting; eauto. by right.
Qed.
End Progress.
