(* ===== verification/Scenario.v ===== *)
(** Concrete runs of the server, with the interfaces implemented by [Concrete].

    The witnesses of the theorems evaluate these schedules. *)
From S2P Require Import Prelude Ext DomainFronting Stats State Session Server ServerSteps Invariant.
From S2P Require Export Ext.
Export Concrete.

Definition demo_config : Config := Config_new (mkSocketAddr (V4 2130706433) 8080) 45 30.
Definition demo_head (m : HttpMethod) (u : string) : RequestHead :=
  mkHead m (mkUri "" None None None) [("x-session"%string, u)].
Definition demo_start : Sys := with_connector demo_config.

(** The state a schedule leads to. *)
Definition after (ls : list label) : Sys := final step demo_start ls.

Definition hello : bytes := String.list_byte_of_string "hello".
Definition world : bytes := String.list_byte_of_string "world".

(** Request 0 opens session 7 with actor 1; timers 2 and 3, replaced by 4. *)
Definition open_session (m : HttpMethod) : list label :=
  [LRequest (demo_head m "7"); LStart 1; LConnected 1 (Ok ())].

(** A [POST] with two chunks, up to its [204]. *)
Definition demo_post : list label :=
  open_session POST ++
  [LBody 0 (Some (Ok hello)); LDeliver 1 0; LWritten 1 WriteOk true; LResume 0;
   LBody 0 (Some (Ok world)); LDeliver 1 1; LWritten 1 WriteOk true; LResume 0;
   LBody 0 None].

(** A [GET] whose stream 5 yields one chunk and has read a second one. *)
Definition demo_get : list label :=
  open_session GET ++
  [LResume 0; LDeliver 1 0; LResume 0; LPoll 5 (Ready (Ok hello)) true; LPoll 5 (Ready (Ok world)) false].

(** A second [GET], request 6, while the stream of the first one is being read. *)
Definition demo_two_gets : list label :=
  demo_get ++ [LRequest (demo_head GET "7"); LResume 6].

(** A write of which the upstream accepts two bytes before it fails. *)
Definition demo_failed_write : list label :=
  open_session POST ++
  [LBody 0 (Some (Ok hello)); LDeliver 1 0; LWritten 1 (WriteErr 2) true; LResume 0;
   LBody 0 None].

(** The schedule [ls] can be run from the start. *)
Definition runs (ls : list label) : bool := finishes step demo_start ls.

Lemma after_run ls : runs ls = true → run step demo_start ls = Some (after ls).
Proof. apply run_final. Qed.

Lemma after_app ls ks : runs (ls ++ ks) = true → run step (after ls) ks = Some (after (ls ++ ks)).
Proof. apply final_app. Qed.

Lemma after_step ls l : runs (ls ++ [l]) = true → step (after ls) l = Some (after (ls ++ [l])).
Proof. apply final_step. Qed.

Lemma after_reachable ls : runs ls = true → reachable demo_config (after ls).
Proof. intros Hls%after_run. by exists ls. Qed.

Lemma after_poll ls stid read room out :
  fst <$> poll_next stid read room (after ls) = Some out → runs (ls ++ [LPoll stid read room]) = true →
  poll_next stid read room (after ls) = Some (out, after (ls ++ [LPoll stid read room])).
Proof.
  intros Hout Hruns%after_step. simpl in Hruns. destruct (poll_next _ _ _ _) as [[o s]|]; [|done].
  simpl in *. by simplify_eq.
Qed.

(** Close a goal about closed schedules. States are never compared by evaluation, only the
    facts the goal states about them are evaluated. *)
Ltac by_run :=
  match goal with
  | |- reachable _ (after _) => apply after_reachable; by_vm
  | |- step (after _) _ = Some _ => apply after_step; by_vm
  | |- run step (after _) _ = Some _ => apply after_app; by_vm
  | |- run step _ _ = Some (after _) => apply after_run; by_vm
  | |- drop_session _ (after ?ls) = Some (after _) =>
      apply (after_step ls (LDrop _)); by_vm
  | |- poll_next _ _ _ (after _) = Some (_, after _) => apply after_poll; by_vm
  | |- _ => by_vm
  end.
