(* ===== verification/ServerTests.v ===== *)
(** The tests of [src/src/server.rs], run against the model.

    The mock connectors, the helpers and the four tests are translated; a scheduler runs
    every task of the server until it waits, as the paused single-threaded runtime of the
    tests does. That the assertions hold in the model says that it describes the server
    its authors describe. *)
From S2P Require Import Prelude Ext DomainFronting Stats State Session Server ServerSteps Invariant.
From S2P Require Import Scenario.

(** * The mock connectors *)

(** The other end of a connection: what it does with written data, and what a read gets. *)
Record Connector : Type := mkConnector {
  up_state : Type;
  up_new : up_state;
  up_write : bytes → up_state → up_state;
  up_read : up_state → Poll (result io_error bytes) * up_state;
}.

(** Echoes the first incoming chunk, of which it reads at most 100 bytes, and then exits. *)
Inductive Echo : Type := Listening | Answered (data : bytes) | Exited.
Definition EchoConnector : Connector := {|
  up_new := Listening;
  up_write data st :=
    match st with
    | Listening => Answered (String.list_byte_of_string "general kenobi!" ++ firstn 100 data)
    | _ => st
    end;
  up_read st :=
    match st with
    | Listening => (Pending, st)
    | Answered data => (Ready (Ok data), Exited)
    | Exited => (Ready (Ok []), st)
    end;
|}.

(** Drops all written data. *)
Definition NullConnector : Connector :=
  {| up_new := (); up_write _ st := st; up_read st := (Pending, st) |}.

(** Always has data to read. *)
Definition SpamConnector : Connector := {|
  up_new := ();
  up_write _ st := st;
  up_read st := (Ready (Ok (String.list_byte_of_string "hello there!")), st);
|}.

Definition dummy_addr : SocketAddr := mkSocketAddr (V4 2130706433) 1234.
Definition from_secs (n : N) : N := (n * 1000000000)%N.

Section Tests.
Variable connector : Connector.

(** The server, and the other ends of its connections by session actor. *)
Record World : Type := mkWorld { w_sys : Sys; w_up : gmap nat (up_state connector) }.

Definition server_with_connector (config : Config) : World := mkWorld (with_connector config) ∅.
Definition upstream_of (aid : nat) (w : World) : up_state connector :=
  default (up_new connector) (w_up w !! aid).

(** The server makes a step. *)
Definition perform (l : label) (w : World) : option World :=
  s ← step (w_sys w) l; Some (mkWorld s (w_up w)).

(** * The scheduler *)

(** What an actor does next, if it does not wait. *)
Definition actor_task (aid : nat) (a : Actor) : option label :=
  match ac_status a with
  | Spawned => Some (LStart aid)
  | Starting _ _ => Some (LConnected aid (Ok ()))
  | Running =>
      if ac_kill a || ac_stop a then Some (LStop aid 0) else
      match ac_busy a, ac_mailbox a with
      | Some _, _ => Some (LWritten aid WriteOk true)
      | None, _ :: _ => Some (LDeliver aid 0)
      | None, [] => None
      end
  | Stopped => match ac_session a with Some _ => Some (LDrop aid) | None => None end
  end.

(** The same for a timer task and for the request [rid]. *)
Definition timer_task (now : N) (t : nat) (tk : TimerTask) : option label :=
  if decide (tk_deadline tk ≤ now)%N then Some (LFire t) else None.
Definition request_task (rid : nat) (r : ReqState) : option label :=
  match rq_pos r with
  | AtWrite _ _ _ (Some _) | AtReadSend _ | AtRead _ (Some _) => Some (LResume rid)
  | _ => None
  end.

Definition next_task (rid : nat) (s : Sys) : option label :=
  match sys_requests s !! rid ≫= request_task rid with
  | Some l => Some l
  | None =>
      head (omap (λ p, actor_task p.1 p.2) (map_to_list (sys_actors s)) ++
            omap (λ p, timer_task (sys_now s) p.1 p.2) (map_to_list (sys_tasks s)))
  end.

(** The connection gets the data of a completed [write_all]. *)
Definition transmit (l : label) (w : World) : World :=
  match l with
  | LWritten aid _ _ =>
      match sys_actors (w_sys w) !! aid ≫= ac_busy with
      | Some (data, _) => mkWorld (w_sys w) (<[aid := up_write connector data (upstream_of aid w)]> (w_up w))
      | None => w
      end
  | _ => w
  end.

(** Run until every task waits; [None] when the fuel does not suffice. *)
Fixpoint yield_now (fuel : nat) (rid : nat) (w : World) : option World :=
  match next_task rid (w_sys w) with
  | None => Some w
  | Some l =>
      match fuel with
      | O => None
      | S fuel => w ← perform l (transmit l w); yield_now fuel rid w
      end
  end.
Definition FUEL : nat := 20.

(** * The helpers *)

Definition session_head (config : Config) (m : HttpMethod) (session : string) : RequestHead :=
  mkHead m (mkUri "/" None None None)
    match header_name_try_from (cfg_session_key config) with
    | Ok name => [(name, session)]
    | Err _ => []
    end.

(** [handle_request(..).await], given what the body yields. *)
Fixpoint feed (rid : nat) (body : list (option (result string bytes))) (w : World) : option World :=
  match body with
  | [] => Some w
  | chunk :: body => w ← perform (LBody rid chunk) w; w ← yield_now FUEL rid w; feed rid body w
  end.
Definition send (head : RequestHead) (body : list (option (result string bytes))) (w : World)
  : option (Response * World) :=
  let rid := sys_next (w_sys w) in
  w ← perform (LRequest head) w;
  w ← yield_now FUEL rid w;
  w ← feed rid body w;
  r ← sys_requests (w_sys w) !! rid;
  match rq_pos r with Responded resp => Some (resp, w) | _ => None end.

(** [get]: the response body. *)
Definition get (config : Config) (session : string) (w : World) : option (nat * World) :=
  '(resp, w) ← send (session_head config GET session) [] w;
  match rs_body resp with StreamBody stid => Some (stid, w) | Empty => None end.

(** [post] *)
Definition post (config : Config) (session : string) (data : bytes) (w : World)
  : option (Response * World) :=
  send (session_head config POST session) [Some (Ok data); None] w.

(** [wait]: advance the time. *)
Definition wait (seconds : N) (w : World) : option World :=
  w ← yield_now FUEL (sys_next (w_sys w)) w;
  w ← perform (LTick (from_secs seconds)) w;
  yield_now FUEL (sys_next (w_sys w)) w.

(** [reader.frame().now_or_never()]: one poll of the stream. The mailbox has room: at most a
    few messages are ever in it. *)
Definition frame (stid : nat) (w : World) : option (Poll (option bytes) * World) :=
  st ← sys_streams (w_sys w) !! stid;
  let (read, up) := up_read connector (upstream_of (st_actor st) w) in
  '(p, s) ← poll_next stid read true (w_sys w);
  Some (p, mkWorld s (match st_pos st with
                      | FirstRead | NextRead => <[st_actor st := up]> (w_up w)
                      | _ => w_up w
                      end)).

(** [reader.collect()]: the frames up to the end of the body. *)
Fixpoint collect (fuel : nat) (stid : nat) (w : World) : option (bytes * World) :=
  match fuel with
  | O => None
  | S fuel =>
      '(p, w) ← frame stid w;
      match p with
      | Ready None => Some ([], w)
      | Ready (Some d) =>
          w ← yield_now FUEL (sys_next (w_sys w)) w;
          '(rest, w) ← collect fuel stid w; Some (d ++ rest, w)
      | Pending => None
      end
  end.

(** [take_stats] *)
Definition take_stats (w : World) : option (Stats * World) :=
  let stats := (Stats.take (sys_stats (w_sys w))).1 in
  w ← perform LTakeTx w; w ← perform LTakeRx w; Some (stats, w).
End Tests.

(** * The tests *)

Arguments perform {_} l w.
Arguments get {_} config session w.
Arguments post {_} config session data w.
Arguments wait {_} seconds w.
Arguments frame {_} stid w.
Arguments collect {_} fuel stid w.
Arguments take_stats {_} w.
Arguments w_sys {_} w.

Fixpoint times {A} (n : nat) (f : A → option A) (a : A) : option A :=
  match n with O => Some a | S n => a ← f a; times n f a end.
Fixpoint for_each {A B} (l : list B) (f : B → A → option A) (a : A) : option A :=
  match l with [] => Some a | b :: l => a ← f b a; for_each l f a end.

(** [session_must_be_alive], when there is no data, and when there is. *)
Definition alive_idle {c : Connector} (reader : nat) (w : World c) : option (World c) :=
  '(p, w) ← frame reader w; match p with Pending => Some w | _ => None end.
Definition alive_data {c : Connector} (reader : nat) (w : World c) : option (World c) :=
  '(p, w) ← frame reader w; match p with Ready (Some _) => Some w | _ => None end.

(** "Stream must have ended" *)
Definition has_ended {c : Connector} (reader : nat) (w : World c) : option (World c) :=
  '(p, w) ← frame reader w; match p with Ready None => Some w | _ => None end.

(** "Sessions must have been cleaned up" *)
Definition cleaned_up {c : Connector} (w : World c) : bool := bool_decide (sys_sessions (w_sys w) = ∅).

Definition stall_counts : list (nat * string) := [(0, "1"); (1, "2"); (2, "3"); (99, "4")].

Definition idle_config : Config := Config_new dummy_addr (from_secs 999) (from_secs 3).

Definition idle_timeout_write : option (World NullConnector) :=
  for_each stall_counts
    (λ '(stalls, session) w,
       '(reader, w) ← get idle_config session w;
       w ← alive_idle reader w;
       w ← wait 2 w;
       w ← alive_idle reader w;
       w ← times stalls (λ w,
             '(_, w) ← post idle_config session (String.list_byte_of_string "stay alive!") w;
             w ← wait 2 w; alive_idle reader w) w;
       w ← wait 4 w;
       has_ended reader w)
    (server_with_connector _ idle_config).

Definition idle_timeout_read : option (World SpamConnector) :=
  for_each stall_counts
    (λ '(stalls, session) w,
       '(reader, w) ← get idle_config session w;
       w ← alive_data reader w;
       w ← times stalls (λ w, w ← wait 2 w; alive_data reader w) w;
       w ← wait 4 w;
       has_ended reader w)
    (server_with_connector _ idle_config).

Definition total_config : Config := Config_new dummy_addr (from_secs 5) (from_secs 999).

Definition total_timeout : option (World SpamConnector) :=
  '(reader, w) ← get total_config "1" (server_with_connector _ total_config);
  w ← alive_data reader w;
  w ← times 4 (λ w, w ← wait 1 w; alive_data reader w) w;
  w ← wait 2 w;
  has_ended reader w.

Definition stats_config : Config := Config_new dummy_addr (from_secs 5) (from_secs 5).

(** A session of the test [stats]: the status of the write, the length of the body that is
    read, and the counters before and after they are taken. *)
Definition stats_round (session : string) (data : bytes) (w : World EchoConnector)
  : option ((StatusCode * nat * Stats * Stats) * World EchoConnector) :=
  '(reader, w) ← get stats_config session w;
  '(write_response, w) ← post stats_config session data w;
  '(body, w) ← collect 5 reader w;
  '(st1, w) ← take_stats w;
  '(st2, w) ← take_stats w;
  Some ((rs_status write_response, length body, st1, st2), w).

Definition stats : option (Stats * (StatusCode * nat * Stats * Stats) * (StatusCode * nat * Stats * Stats)) :=
  '(st, w) ← take_stats (server_with_connector _ stats_config);
  '(r1, w) ← stats_round "1" (String.list_byte_of_string "hello there") w;
  '(r2, w) ← stats_round "2" (String.list_byte_of_string "hello again!!!") w;
  Some (st, r1, r2).

(** The state a test ends in, if all its assertions hold. *)
Definition passes {c : Connector} (test : option (World c)) : bool :=
  match test with Some w => cleaned_up w | None => false end.

(** * The scheduler only takes steps of the server *)

Definition reached {c : Connector} (config : Config) (w : World c) : Prop := reachable config (w_sys w).

Section Reached.
Context {c : Connector} (config : Config).
Implicit Types w : World c.
Abbreviation ok := (reached config).

Lemma reached_step w s l up : ok w → step (w_sys w) l = Some s → ok (mkWorld c s up).
Proof. intros Hw Hs. eapply reaches_trans; [exact Hw|by eapply reaches_step]. Qed.

Lemma reached_init : ok (server_with_connector c config).
Proof. apply reaches_refl. Qed.

Lemma perform_reached l w w' : ok w → perform l w = Some w' → ok w'.
Proof. intros Hw Hs. apply bind_Some in Hs as (s & Hs & [= <-]). by eapply reached_step. Qed.

Lemma transmit_reached l w : ok w → ok (transmit c l w).
Proof. unfold transmit. intros Hw. destruct l; try done. by destruct (_ ≫= ac_busy) as [[]|]. Qed.

Lemma yield_reached fuel rid w w' : ok w → yield_now c fuel rid w = Some w' → ok w'.
Proof.
  revert w. induction fuel as [|fuel IH]; intros w Hw Hs; simpl in Hs.
  - destruct (next_task rid (w_sys w)); by simplify_eq.
  - destruct (next_task rid (w_sys w)); [|by simplify_eq]. apply bind_Some in Hs as (w1 & Hp & Hs).
    eapply IH, Hs. eapply perform_reached, Hp. by apply transmit_reached.
Qed.

Lemma feed_reached rid body w w' : ok w → feed c rid body w = Some w' → ok w'.
Proof.
  revert w. induction body as [|chunk body IH]; intros w Hw Hs; cbn [feed] in Hs; [by simplify_eq|].
  apply bind_Some in Hs as (w1 & Hp & Hs). apply bind_Some in Hs as (w2 & Hy & Hs).
  eapply IH, Hs. eapply yield_reached, Hy. by eapply perform_reached, Hp.
Qed.

Lemma send_reached head body w resp w' : ok w → send c head body w = Some (resp, w') → ok w'.
Proof.
  unfold send. intros Hw Hs. unbind Hs. destruct (rq_pos _); simplify_eq.
  by eapply feed_reached; [eapply yield_reached; [eapply perform_reached|]|].
Qed.

Lemma get_reached session w stid w' : ok w → get config session w = Some (stid, w') → ok w'.
Proof.
  unfold get. intros Hw Hs. apply bind_Some in Hs as ([resp w1] & Hg & Hs).
  destruct (rs_body resp); simplify_eq. by eapply send_reached.
Qed.

Lemma post_reached session data w resp w' : ok w → post config session data w = Some (resp, w') → ok w'.
Proof. apply send_reached. Qed.

Lemma wait_reached n w w' : ok w → wait n w = Some w' → ok w'.
Proof.
  unfold wait. intros Hw Hs. unbind Hs.
  by eapply yield_reached; [eapply perform_reached; [eapply yield_reached|]|].
Qed.

Lemma frame_reached stid w p w' : ok w → frame stid w = Some (p, w') → ok w'.
Proof.
  unfold frame. intros Hw Hs. apply bind_Some in Hs as (st & Hst & Hs).
  destruct (up_read _ _) as [read up]. apply bind_Some in Hs as ([q s] & Hp & [= <- <-]).
  eapply (reached_step _ _ (LPoll stid read true)); [done|]. simpl. by rewrite Hp.
Qed.

Lemma collect_reached fuel stid w b w' : ok w → collect fuel stid w = Some (b, w') → ok w'.
Proof.
  revert w b. induction fuel as [|fuel IH]; intros w b Hw Hs; [done|]. cbn [collect] in Hs.
  apply bind_Some in Hs as ([p w1] & Hf & Hs). pose proof (frame_reached _ _ _ _ Hw Hf) as Hw1.
  destruct p as [|[d|]]; simplify_eq; [|done]. apply bind_Some in Hs as (w2 & Hy & Hs).
  apply bind_Some in Hs as ([rest w3] & Hc & [= <- <-]). eapply IH, Hc. by eapply yield_reached, Hy.
Qed.

Lemma take_reached w st w' : ok w → take_stats w = Some (st, w') → ok w'.
Proof.
  unfold take_stats. intros Hw Hs. apply bind_Some in Hs as (w1 & H1 & Hs).
  apply bind_Some in Hs as (w2 & H2 & [= _ <-]).
  eapply perform_reached, H2. by eapply perform_reached, H1.
Qed.

Lemma alive_idle_reached r w w' : ok w → alive_idle r w = Some w' → ok w'.
Proof.
  unfold alive_idle. intros Hw Hs. apply bind_Some in Hs as ([p w1] & Hf & Hs).
  destruct p; simplify_eq. by eapply frame_reached.
Qed.

Lemma alive_data_reached r w w' : ok w → alive_data r w = Some w' → ok w'.
Proof.
  unfold alive_data. intros Hw Hs. apply bind_Some in Hs as ([p w1] & Hf & Hs).
  destruct p as [|[]]; simplify_eq. by eapply frame_reached.
Qed.

Lemma ended_reached r w w' : ok w → has_ended r w = Some w' → ok w'.
Proof.
  unfold has_ended. intros Hw Hs. apply bind_Some in Hs as ([p w1] & Hf & Hs).
  destruct p as [|[]]; simplify_eq. by eapply frame_reached.
Qed.
End Reached.

Lemma times_inv {A} (P : A → Prop) n f a a' :
  (∀ x y, P x → f x = Some y → P y) → P a → times n f a = Some a' → P a'.
Proof.
  intros Hf. revert a. induction n as [|n IH]; intros a Ha Hs; simpl in Hs; [by simplify_eq|].
  apply bind_Some in Hs as (b & Hb & Hs). eauto.
Qed.

Lemma for_each_inv {A B} (P : A → Prop) (l : list B) f a a' :
  (∀ b x y, P x → f b x = Some y → P y) → P a → for_each l f a = Some a' → P a'.
Proof.
  intros Hf. revert a. induction l as [|b l IH]; intros a Ha Hs; simpl in Hs; [by simplify_eq|].
  apply bind_Some in Hs as (b' & Hb & Hs). eauto.
Qed.

(** Follow a test through its helpers. *)
Ltac follow Hs :=
  cbv beta in Hs;
  repeat match type of Hs with
  | mbind _ _ = Some _ =>
      let x := fresh "x" in let Hx := fresh "Hx" in apply bind_Some in Hs as (x & Hx & Hs)
  | (let (_, _) := ?x in _) = Some _ => destruct x
  | Some _ = Some _ => injection Hs as <-
  end.

#[local] Hint Resolve reached_init : core.

Lemma write_test_reached w : idle_timeout_write = Some w → reached idle_config w.
Proof.
  unfold idle_timeout_write. apply for_each_inv; [|done].
  intros [stalls session] w1 w2 Hw Hs. follow Hs.
  eapply ended_reached, Hs. eapply wait_reached; [|done]. eapply times_inv; [|..|done].
  - intros y z Hy Hz. follow Hz. eapply alive_idle_reached, Hz. eapply wait_reached; [|done].
    by eapply post_reached.
  - eapply alive_idle_reached; [|done]. eapply wait_reached; [|done].
    eapply alive_idle_reached; [|done]. by eapply get_reached.
Qed.

Lemma read_test_reached w : idle_timeout_read = Some w → reached idle_config w.
Proof.
  unfold idle_timeout_read. apply for_each_inv; [|done].
  intros [stalls session] w1 w2 Hw Hs. follow Hs.
  eapply ended_reached, Hs. eapply wait_reached; [|done]. eapply times_inv; [|..|done].
  - intros y z Hy Hz. follow Hz. eapply alive_data_reached, Hz. by eapply wait_reached.
  - eapply alive_data_reached; [|done]. by eapply get_reached.
Qed.

Lemma total_test_reached w : total_timeout = Some w → reached total_config w.
Proof.
  unfold total_timeout. intros Hs. follow Hs.
  eapply ended_reached, Hs. eapply wait_reached; [|done]. eapply times_inv; [|..|done].
  - intros y z Hy Hz. follow Hz. eapply alive_data_reached, Hz. by eapply wait_reached.
  - eapply alive_data_reached; [|done]. by eapply get_reached.
Qed.

Lemma passes_inv {c : Connector} (test : option (World c)) :
  passes test = true → ∃ w, test = Some w ∧ sys_sessions (w_sys w) = ∅.
Proof. unfold passes. destruct test as [w|]; [|done]. intros Hp%bool_decide_eq_true. eauto. Qed.

(** The tests of the server pass: the two tests of the idle timeout and the test of the
    total timeout run to their end with every assertion holding, in a state that the
    server can reach, and clean up all sessions; and the byte counters of the test [stats]
    are those that it expects. *)
Theorem server_tests_pass :
  (∃ w, idle_timeout_write = Some w ∧ reached idle_config w ∧ sys_sessions (w_sys w) = ∅) ∧
  (∃ w, idle_timeout_read = Some w ∧ reached idle_config w ∧ sys_sessions (w_sys w) = ∅) ∧
  (∃ w, total_timeout = Some w ∧ reached total_config w ∧ sys_sessions (w_sys w) = ∅) ∧
  stats = Some (mkStats 0 0, (NO_CONTENT, 26, mkStats 11 26, mkStats 0 0),
                             (NO_CONTENT, 29, mkStats 14 29, mkStats 0 0)).
Proof.
  split; [|split; [|split; [|by_vm]]].
  - destruct (passes_inv idle_timeout_write) as (w & Hw & Hs); [by_vm|]. eauto using write_test_reached.
  - destruct (passes_inv idle_timeout_read) as (w & Hw & Hs); [by_vm|]. eauto using read_test_reached.
  - destruct (passes_inv total_timeout) as (w & Hw & Hs); [by_vm|]. eauto using total_test_reached.
Qed.
