(* ===== verification/DataProps.v ===== *)
(** What passes through the server: the correctness of the data path.

    Bytes go upstream as the clients sent them, come back as the upstream sent them,
    and are counted. *)
From Stdlib Require Import Sorting.Sorted.
From S2P Require Import Prelude Ext DomainFronting Stats State Session Server ServerSteps.
From S2P Require Import ServerInv StreamInv LogInv WriteInv BodyInv PendingInv Invariant.
From S2P Require Import Routing Delivery Scenario.

Section DataProps.
Context `{UuidLib, HttpLib, TryMutex, !TryMutexLaws}.
Implicit Types (s : Sys) (a : Actor) (st : StreamState) (r : ReqState).

Lemma run_bodies config ls s : run step (with_connector config) ls = Some s → bodies_wf ls s.
Proof.
  revert ls s. apply (run_ind_r step bodies_wf); [done|].
  intros ls s l s' Hrun IH Hs. eapply bodies_wf_step; [|done..].
  apply (reachable_wf config s). by exists ls.
Qed.

(** C1. A write request that is answered [204 No Content] delivered its whole body: the
    chunks handed to the upstream on its behalf are exactly the chunks its body
    yielded, in order, each once, and all to the connection of one session actor.
    The body was not empty (its length is not a multiple of 2^64). *)
Theorem write_integrity config ls s rid r resp :
  run step (with_connector config) ls = Some s →
  sys_requests s !! rid = Some r → rq_pos r = Responded resp → rs_status resp = NO_CONTENT →
  wrap64 (total_len (body_of rid ls)) ≠ 0%Z ∧
  ∃ aid, writes_of rid (sys_log s) = (aid,.) <$> body_of rid ls.
Proof.
  intros Hrun Hr Hp Hst. pose proof (run_bodies _ _ _ Hrun rid) as Hb. rewrite Hr in Hb.
  assert (E : rq_acked r = body_of rid ls).
  { rewrite <- Hb by (unfold may_succeed; by rewrite Hp). unfold rq_chunks. by rewrite Hp, app_nil_r. }
  assert (Hw : sys_wf s) by (apply (reachable_wf config); by exists ls).
  pose proof (ww_req _ (wf_writes _ Hw) _ _ Hr) as Hok. unfold request_ok in Hok.
  rewrite Hp, E in Hok. by apply Hok.
Qed.

(** The bytes an actor's connection accepted, and the chunks it was given. *)
Definition accepted (aid : nat) (log : list UpEvent) : bytes :=
  concat ((λ w : bytes * nat, firstn w.2 w.1) <$> actor_writes aid log).
Definition offered (aid : nat) (log : list UpEvent) : bytes :=
  concat (actor_writes aid log).*1.

Lemma accepted_prefix (l : list (bytes * nat)) :
  (∀ i d n, l !! i = Some (d, n) → n < length d → S i = length l) →
  concat ((λ w : bytes * nat, firstn w.2 w.1) <$> l) `prefix_of` concat l.*1.
Proof.
  induction l as [|[d n] l IH]; intros Hl; [done|]. simpl.
  destruct (decide (n < length d)) as [Hn|Hn].
  - pose proof (Hl 0 d n eq_refl Hn) as Hlen. simpl in Hlen. destruct l; [|done]. simpl.
    rewrite !app_nil_r. exists (drop n d). by rewrite take_drop.
  - rewrite take_ge by lia. apply prefix_app, IH. intros i d' n' Hi Hn'.
    pose proof (Hl (S i) d' n' Hi Hn'). simpl in *. lia.
Qed.

(** C9. Each upstream connection receives a prefix of what was sent to its session: the
    bytes it accepted are the chunks written to it, in order, with nothing skipped,
    repeated or reordered, also when writes fail or the session is killed in the
    middle of one; after a write that was cut short nothing more is written. *)
Theorem upstream_prefix config s aid :
  reachable config s → accepted aid (sys_log s) `prefix_of` offered aid (sys_log s).
Proof.
  intros Hr%reachable_wf. apply accepted_prefix. intros i d n Hi Hn.
  by apply (wf_partial _ Hr aid i d n).
Qed.

(** C11. What a client reads is what the upstream sent: the reads of a connection, in
    order, are grouped by response stream (streams in the order they were opened),
    and the frames a stream yielded are the chunks it read, in order, except that a
    stream that ended early may have lost the single chunk it was about to yield. *)
Theorem read_integrity config s :
  reachable config s →
  (∀ aid, StronglySorted le (actor_reads aid (sys_log s)).*1) ∧
  (∀ stid st, sys_streams s !! stid = Some st →
     ∃ lost, reads_of stid (sys_log s) = st_out st ++ lost ∧ length lost ≤ 1 ∧
             (holding st = true → lost = telling st)).
Proof.
  intros Hw%reachable_wf. split.
  - apply (rw_sorted _ (wf_reads _ Hw)).
  - apply (rw_frames _ (wf_reads _ Hw)).
Qed.

(** C12. The counters lose nothing: at any time, what they show plus what [take_stats]
    has handed out is the number of bytes read from upstreams ([bytes_rx]) and the
    number of bytes of the acknowledged chunks ([bytes_tx]), modulo 2^64; both fit 64
    bits; and [take_stats] leaves both at zero. *)
Theorem stats_conservation config s :
  reachable config s →
  stats_wf (sys_stats s) ∧
  wrap64 (bytes_rx (freeze (sys_stats s)) + bytes_rx (sys_taken s)) =
    wrap64 (total_len (all_reads (sys_log s))) ∧
  wrap64 (bytes_tx (freeze (sys_stats s)) + bytes_tx (sys_taken s)) = wrap64 (acked_bytes s) ∧
  run step s [LTakeTx; LTakeRx] =
    Some (set_taken (mkStats (bytes_tx (sys_taken s) + bytes_tx (Stats.take (sys_stats s)).1)
                             (bytes_rx (sys_taken s) + bytes_rx (Stats.take (sys_stats s)).1))
            (set_stats (Stats.take (sys_stats s)).2 s)) ∧
  freeze (Stats.take (sys_stats s)).2 = mkStats 0 0.
Proof. intros [Hst [Hrx Htx]]%reachable_wf%wf_counters. done. Qed.

(** C10. Nothing is written out of place, whatever becomes of a request: the chunks
    handed to the upstream on its behalf are a prefix of the chunks its body yielded, and
    all but at most the last one of these; also if the request fails, is cancelled, or its
    session dies. So a client that is told of an error knows what has been sent up to one
    chunk. *)
Theorem upload_prefix config ls s rid :
  run step (with_connector config) ls = Some s →
  ∃ rest, body_of rid ls = written rid s ++ rest ∧ length rest ≤ 1.
Proof.
  intros Hrun%run_run_ok. destruct (ro_delivered _ _ Hrun rid) as (rest & E & Hlen & _). eauto.
Qed.

(** The server together with the sessions that the requests so far have named. *)
Definition named_step (p : gmap nat Uuid * Sys) (l : label) : option (gmap nat Uuid * Sys) :=
  s ← step p.2 l; Some (sess_step p.1 p.2 l, s).

Lemma named_routed config ls sess s :
  run named_step (∅, with_connector config) ls = Some (sess, s) →
  sys_wf s ∧ granted s ∧ routed sess s.
Proof.
  apply (run_invariant named_step (λ p, sys_wf p.2 ∧ granted p.2 ∧ routed p.1 p.2)).
  - intros [sess0 s0] l p' (Hw & Hg & Hr) Hs. unfold named_step in Hs. simpl in *.
    apply bind_Some in Hs as (s1 & Hs & [= <-]). simpl. split; [by eapply sys_wf_step|]. split.
    + eapply granted_trans; eauto using wf_ids, wf_writes, step_trans.
    + eapply routed_step; eauto using wf_ids, wf_table.
  - split; [apply sys_wf_init|]. split; [apply granted_init|apply routed_init].
Qed.

(** C7. Sessions are isolated. What is written for a request goes to a connection of the
    session that the request's head names; the response stream a request is given was
    made for it, and what it carries is read from a connection of that session. *)
Theorem session_isolation config ls sess s :
  run named_step (∅, with_connector config) ls = Some (sess, s) →
  (∀ aid rid d n, UpWrite aid rid d n ∈ sys_log s → ∃ u, sess !! rid = Some u ∧ serves u s aid) ∧
  (∀ aid k d, UpRead aid k d ∈ sys_log s →
     ∃ st u, sys_streams s !! k = Some st ∧ sess !! st_req st = Some u ∧ serves u s aid) ∧
  (∀ rid r k, sys_requests s !! rid = Some r → rq_stream r = Some k →
     ∃ st u, sys_streams s !! k = Some st ∧ st_req st = rid ∧ sess !! rid = Some u ∧ serves u s (st_actor st)).
Proof.
  intros (Hw & Hg & Hr)%named_routed. split; [apply (rt_write _ _ Hr)|]. split.
  - intros aid k d Hin. destruct (rw_stream _ (wf_reads _ Hw) _ _ _ Hin) as (st & Hst & <-).
    destruct (rt_stream _ _ Hr _ _ Hst) as (u & Hu & Hs). eauto 10.
  - intros rid r k Hrq Hk. destruct (gr_given _ Hg _ _ _ Hrq Hk) as (st & Hst & <-).
    destruct (rt_stream _ _ Hr _ _ Hst) as (u & Hu & Hs). eauto 10.
Qed.
End DataProps.

(** * The theorems at work *)

Lemma write_integrity_witness :
  body_of 0 demo_post = [hello; world] ∧
  ∃ aid, writes_of 0 (sys_log (after demo_post)) = (aid,.) <$> body_of 0 demo_post.
Proof.
  split; [by_run|].
  apply (write_integrity demo_config demo_post (after demo_post) 0
           (mkReq (Responded write_response) [hello; world]) write_response).
  - by_run.
  - by_run.
  - reflexivity.
  - reflexivity.
Defined.

Lemma upstream_prefix_witness :
  accepted 1 (sys_log (after demo_failed_write)) = firstn 2 hello ∧
  accepted 1 (sys_log (after demo_failed_write)) `prefix_of`
    offered 1 (sys_log (after demo_failed_write)).
Proof.
  split; [by_run|]. apply (upstream_prefix demo_config). by_run.
Defined.

Lemma read_integrity_witness :
  ∃ lost, reads_of 5 (sys_log (after demo_get)) = [hello] ++ lost ∧ length lost ≤ 1.
Proof.
  destruct (read_integrity demo_config (after demo_get)) as [_ Hf].
  { by_run. }
  destruct (Hf 5 (mkStream 1 0 (Telling world) false [hello])) as (lost & Hl & Hlen & _); [by_run|].
  exists lost. split; [exact Hl|exact Hlen].
Defined.

Lemma stats_conservation_witness :
  freeze (sys_stats (after demo_post)) = mkStats 10 0 ∧
  wrap64 (bytes_tx (freeze (sys_stats (after demo_post))) + bytes_tx (sys_taken (after demo_post)))
    = wrap64 (acked_bytes (after demo_post)).
Proof.
  split; [by_run|].
  apply (stats_conservation demo_config (after demo_post)). by_run.
Defined.

(** The second chunk is on its way when the session times out. *)
Definition demo_cut : list label :=
  open_session POST ++
  [LBody 0 (Some (Ok hello)); LDeliver 1 0; LWritten 1 WriteOk true; LResume 0;
   LBody 0 (Some (Ok world)); LTick 31; LFire 4; LStop 1 0; LResume 0].

Lemma upload_prefix_witness :
  written 0 (after demo_cut) = [hello] ∧
  ∃ rest, body_of 0 demo_cut = written 0 (after demo_cut) ++ rest ∧ length rest ≤ 1.
Proof.
  split; [by_run|]. apply (upload_prefix demo_config demo_cut (after demo_cut) 0). by_run.
Defined.

Definition demo_named : gmap nat Uuid * Sys := final named_step (∅, demo_start) demo_two_gets.

Lemma session_isolation_witness :
  ∃ st u, sys_streams demo_named.2 !! 5 = Some st ∧ demo_named.1 !! st_req st = Some u ∧
    serves u demo_named.2 1.
Proof.
  destruct (session_isolation demo_config demo_two_gets demo_named.1 demo_named.2) as (_ & Hread & _).
  - rewrite <- surjective_pairing. unfold demo_named. apply run_final. by_vm.
  - apply (Hread 1 5 hello). apply list_elem_of_lookup. exists 1. by_vm.
Defined.
