(* ===== verification/SessionProps.v ===== *)
(** The life of a session: when it starts, who reads from it, when it ends and what
    its end cleans up. *)
From S2P Require Import Prelude Ext DomainFronting Stats State Session Server ServerSteps.
From S2P Require Import ServerInv StreamInv LogInv WriteInv ConfigInv Invariant TableInv Scenario.

Section SessionProps.
Context `{UuidLib, HttpLib, TryMutex, !TryMutexLaws}.
Implicit Types (s : Sys) (a : Actor) (st : StreamState) (r : ReqState).

(** * Timers *)

(** Both timers of an actor that runs and has not been killed. *)
Lemma live_timers s aid a :
  sys_wf s → sys_actors s !! aid = Some a → is_alive a = true → ac_status a ≠ Spawned →
  ∃ x y, timer_handles a = [x; y] ∧ (ac_kill a = false →
    sys_tasks s !! x = Some (mkTimer aid (ac_created a + arg_total_timeout (ac_args a))) ∧
    sys_tasks s !! y = Some (mkTimer aid (ac_active a + arg_idle_timeout (ac_args a)))).
Proof.
  intros Hw Ha Hal Hsp. pose proof (wf_actors _ Hw _ _ Ha) as Hwa.
  assert (∃ x y, timer_handles a = [x; y]) as (x & y & Hh).
  { unfold is_alive in Hal. destruct (ac_status a) as [|x y| |] eqn:E; try done.
    - exists x, y. unfold timer_handles. by rewrite E.
    - destruct Hwa as [Hs Hst]. rewrite E in Hst. destruct Hst as [self Hself].
      destruct (session_handles a self) as (x & y & _ & _ & ?); [|done|eauto].
      split; [done|]. rewrite E. by eexists. }
  exists x, y. split; [done|]. intros Hk.
  apply (tm_armed _ _ _ (proj2 (wf_timers _ Hw) _ _ Ha)); [done..|].
  unfold is_alive in Hal. by destruct (ac_status a).
Qed.

(** No timer has been asleep past its deadline. *)
Definition punctual s : Prop :=
  map_Forall (λ _ tk, (sys_now s ≤ tk_deadline tk)%N) (sys_tasks s).

(** C13. Sessions are bounded in time. If the runtime wakes timers when they are due,
    then every session that has started and has not been killed is younger than the
    configured total timeout, and was started, written to or read from less than the
    idle timeout ago: there is no state in which a timer was forgotten. *)
Theorem session_bounded config s aid a :
  reachable config s → punctual s →
  sys_actors s !! aid = Some a → is_alive a = true → ac_status a ≠ Spawned → ac_kill a = false →
  (sys_now s ≤ ac_created a + cfg_total_timeout config)%N ∧
  (sys_now s ≤ ac_active a + cfg_idle_timeout config)%N.
Proof.
  intros Hr Hp Ha Hal Hsp Hk. pose proof (reachable_wf _ _ Hr) as Hw.
  destruct (live_timers _ _ _ Hw Ha Hal Hsp) as (x & y & _ & Ht). destruct (Ht Hk) as [Hx Hy].
  destruct (wf_config _ Hw _ _ Ha) as (_ & Hidle & Htot).
  rewrite (reachable_config _ _ Hr) in Hidle, Htot.
  apply Hp in Hx, Hy. simpl in *. rewrite <- Hidle, <- Htot. done.
Qed.

(** C14. No session is killed early: the only thing that kills a session is a timer,
    and when a live session is killed, either the total timeout has passed since it
    was created or the idle timeout since its idle timer was last restarted. *)
Theorem never_killed_early config s l s' aid a a' :
  reachable config s → step s l = Some s' →
  sys_actors s !! aid = Some a → sys_actors s' !! aid = Some a' →
  ac_status a ≠ Stopped → ac_kill a = false → ac_kill a' = true →
  (ac_created a + cfg_total_timeout config ≤ sys_now s)%N ∨
  (ac_active a + cfg_idle_timeout config ≤ sys_now s)%N.
Proof.
  intros Hr Hs%step_trans Ha Ha' Hst Hk Hk'. pose proof (reachable_wf _ _ Hr) as Hw.
  assert (∃ t tk, sys_tasks s !! t = Some tk ∧ tk_actor tk = aid ∧ (tk_deadline tk ≤ sys_now s)%N)
    as (t & tk & Ht & Hact & Hd).
  { trans_cases Hs; try destruct queued; simpl in *; map_hyps; simplify_eq; try congruence; eauto.
    all: unfold push_msg, unlock_reader in Hk'; repeat case_match; simpl in *; congruence. }
  pose proof (proj2 (wf_timers _ Hw) _ _ Ha) as Hta.
  destruct (tm_only _ _ _ Hta t tk Ht Hact) as [Hin|[? _]]; [|done].
  destruct (decide (ac_status a = Spawned)) as [Hsp|Hsp].
  { rewrite (spawned_handles _ (wf_actors _ Hw _ _ Ha) Hsp) in Hin. by apply not_elem_of_nil in Hin. }
  destruct (live_timers _ _ _ Hw Ha) as (x & y & Hh & Harm); [by unfold is_alive; destruct (ac_status a)|done|].
  destruct (Harm Hk) as [Hx Hy]. destruct (wf_config _ Hw _ _ Ha) as (_ & Hidle & Htot).
  rewrite (reachable_config _ _ Hr) in Hidle, Htot. rewrite <- Hidle, <- Htot.
  rewrite Hh in Hin. apply elem_of_cons in Hin as [->| ->%list_elem_of_singleton].
  - left. rewrite Hx in Ht. by injection Ht as <-.
  - right. rewrite Hy in Ht. by injection Ht as <-.
Qed.

(** C15. An expired session ends: once its total or its idle timeout has passed, at most
    two steps of the runtime stop it (the timer fires, the actor's task is aborted),
    whatever it is doing, without any cooperation of clients or upstream. *)
Theorem expired_session_stops config s aid a :
  reachable config s → sys_actors s !! aid = Some a → is_alive a = true → ac_status a ≠ Spawned →
  (ac_created a + cfg_total_timeout config ≤ sys_now s)%N ∨
    (ac_active a + cfg_idle_timeout config ≤ sys_now s)%N →
  ∃ t s', (run step s [LStop aid 0] = Some s' ∨ run step s [LFire t; LStop aid 0] = Some s') ∧
    has_stopped s' aid.
Proof.
  intros Hr Ha Hal Hsp Hlate. pose proof (reachable_wf _ _ Hr) as Hw.
  assert (Hstop : ∀ s1 a1, sys_actors s1 !! aid = Some a1 → is_alive a1 = true → ac_kill a1 = true →
            ∃ s2, step s1 (LStop aid 0) = Some s2 ∧ has_stopped s2 aid).
  { intros s1 a1 Ha1 Hal1 Hk1. cbn [step]. unfold actor_stops. rewrite Ha1. cbn [mbind option_bind].
    rewrite !guard_pass by (rewrite ?Hk1; done). destruct (ac_busy a1) as [[d rid]|].
    - rewrite guard_pass by (split; [done|lia]). eexists. split; [done|].
      exists (stopped a1). simpl. by rewrite lookup_insert_eq.
    - eexists. split; [done|]. exists (stopped a1). simpl. by rewrite lookup_insert_eq. }
  destruct (ac_kill a) eqn:Hk.
  { destruct (Hstop s a Ha Hal Hk) as (s2 & Hs2 & Hst). exists 0, s2. split; [left|done].
    by eapply run_cons. }
  destruct (live_timers _ _ _ Hw Ha Hal Hsp) as (x & y & _ & Harm). destruct (Harm Hk) as [Hx Hy].
  destruct (wf_config _ Hw _ _ Ha) as (_ & Hidle & Htot).
  rewrite (reachable_config _ _ Hr) in Hidle, Htot. rewrite <- Hidle, <- Htot in Hlate.
  assert (∃ t d, sys_tasks s !! t = Some (mkTimer aid d) ∧ (d ≤ sys_now s)%N) as (t & d & Ht & Hd)
    by (destruct Hlate; eauto).
  assert (Hfire : ∃ s1, step s (LFire t) = Some s1 ∧ sys_actors s1 !! aid = Some (with_kill true a)).
  { cbn [step]. unfold timer_fires. rewrite Ht. cbn [mbind option_bind]. rewrite guard_pass by done.
    eexists. split; [done|]. simpl. by rewrite lookup_alter_eq, Ha. }
  destruct Hfire as (s1 & Hs1 & Ha1).
  destruct (Hstop s1 (with_kill true a) Ha1 Hal eq_refl) as (s2 & Hs2 & Hst).
  exists t, s2. split; [right|done].
  by do 2 (eapply run_cons; [done|]).
Qed.

(** * The reader *)

Lemma locked_iff_held s aid a self :
  sys_wf s → sys_actors s !! aid = Some a → ac_session a = Some self →
  mutex_locked (upstream_read self) = true ↔
  ∃ k st, sys_streams s !! k = Some st ∧ st_actor st = aid ∧ holding st = true.
Proof.
  intros Hw Ha Hself. pose proof (wf_streams _ Hw) as Hsw.
  assert (Hra : reader_of a = Some (upstream_read self, upstream_read_abort self))
    by (unfold reader_of; by rewrite Hself).
  destruct (sw_reader _ Hsw _ _ Ha _ _ Hra) as [Hown Hheld]. split.
  - intros Hl. destruct (Hheld Hl) as (k & st & Hab & Hk & Hho).
    destruct (Hown _ Hab) as (st' & Hk' & ?). simplify_eq. eauto.
  - intros (k & st & Hk & <- & Hho). destruct (sw_holder _ Hsw _ _ Hk Hho) as (b & Hb & Hm).
    simplify_eq. rewrite Hra in Hm. by destruct Hm.
Qed.

(** C16. A session has one reader at a time. Two response streams that can still read
    from the same session are the same stream; and when the actor gets the [GET] of
    request [rid], then if some stream of the session can still read, the request
    is answered [429 Too Many Requests] and nothing else changes hands, and if none
    can, it is answered [200 OK] with a new stream for a body. *)
Theorem single_reader config s :
  reachable config s →
  (∀ i j sti stj, sys_streams s !! i = Some sti → sys_streams s !! j = Some stj →
     holding sti = true → holding stj = true → st_actor sti = st_actor stj → i = j) ∧
  (∀ aid a i rid r s', sys_actors s !! aid = Some a → ac_mailbox a !! i = Some (SessionRead rid) →
     sys_requests s !! rid = Some r → rq_pos r = AtRead aid None →
     run step s [LDeliver aid i; LResume rid] = Some s' →
     let busy := ∃ k st, sys_streams s !! k = Some st ∧ st_actor st = aid ∧ holding st = true in
     (busy ∧ sys_streams s' = sys_streams s ∧
        sys_requests s' !! rid =
          Some (mkReq (Responded (mkResponse TOO_MANY_REQUESTS [] Empty)) (rq_acked r))) ∨
     (¬ busy ∧ sys_streams s' = <[sys_next s := mkStream aid rid FirstRead false []]> (sys_streams s) ∧
        sys_requests s' !! rid =
          Some (mkReq (Responded (read_response (sys_next s))) (rq_acked r)))).
Proof.
  intros Hr. pose proof (reachable_wf _ _ Hr) as Hw. split; [apply (sw_unique _ (wf_streams _ Hw))|].
  intros aid a i rid r s' Ha Hi Hrq Hp Hrun. cbn [run step] in Hrun.
  apply bind_Some in Hrun as (s1 & Hd & Hrun). apply bind_Some in Hrun as (s2 & Hres & [= <-]).
  unfold deliver in Hd. rewrite Ha in Hd. cbn [mbind option_bind] in Hd.
  apply bind_Some in Hd as (_ & _ & Hd).
  destruct (ac_status a), (ac_session a) as [self|] eqn:Es, (ac_busy a), (ac_stop a); try done.
  rewrite Hi in Hd. simpl in Hd. unfold handle_read in Hd.
  pose proof (locked_iff_held _ _ _ _ Hw Ha Es) as Hlock.
  destruct (mutex_locked (upstream_read self)) eqn:El.
  - left. split; [by apply Hlock|]. rewrite (try_lock_held _ El) in Hd. simplify_eq.
    unfold request_resumes in Hres. simpl in Hres. rewrite lookup_alter_eq, Hrq in Hres.
    unfold answer_read in Hres. simpl in Hres. rewrite Hp in Hres. simplify_eq/=.
    split; [done|]. by rewrite lookup_insert_eq.
  - right. split; [rewrite <- Hlock; done|]. destruct (try_lock_free _ El) as (m' & Hm' & _).
    rewrite Hm' in Hd. simplify_eq.
    unfold request_resumes in Hres. simpl in Hres. rewrite lookup_alter_eq, Hrq in Hres.
    unfold answer_read in Hres. simpl in Hres. rewrite Hp in Hres. simplify_eq/=.
    split; [done|]. by rewrite lookup_insert_eq.
Qed.

(** The [tell] of a stream that has data. *)
Lemma tell_outcome stid st d room s p s' :
  tell_session stid st d room s = (p, s') →
  (room = true ∨ actor_alive (st_actor st) s = false → p = Ready (Some d)) ∧
  ∃ st', sys_streams s' !! stid = Some st' ∧
  match p with
  | Ready (Some d') => d' = d ∧ st_pos st' = NextRead ∧ st_out st' = st_out st ++ [d] ∧
      ∀ a, sys_actors s !! st_actor st = Some a → is_alive a = true →
        sys_actors s' !! st_actor st = Some (with_mailbox (ac_mailbox a ++ [SessionResetIdleTimeout]) a)
  | Ready None => False
  | Pending => room = false ∧ actor_alive (st_actor st) s = true ∧ st_pos st' = Telling d ∧
      st_out st' = st_out st
  end.
Proof.
  unfold tell_session. intros Ht. destruct (room || negb _) eqn:E; simplify_eq/=.
  - split; [done|]. rewrite lookup_insert_eq. eexists. split; [done|]. simpl. split_and!; try done.
    intros a Ha Hal. rewrite lookup_alter_eq, Ha. simpl. unfold push_msg. by rewrite Hal.
  - apply orb_false_iff in E as [-> Hal%negb_false_iff]. rewrite Hal.
    split; [naive_solver|]. rewrite lookup_insert_eq. by eexists.
Qed.

(** C28. Polling a response body. A poll that finds data yields it at once as the next frame -
    never an empty one, which would make the client start a new request, and never more than the
    buffer holds - and asks a session that is alive to restart its idle timer; only a mailbox
    without room makes it wait with the data, which the poll that finds room then yields. Without
    data, the body waits for the first read alone; and when it ends, the stream gives the reader
    back unless the session itself is gone, so a later [GET] can read on. *)
Theorem poll_outcome config s stid st read room p s' :
  reachable config s → sys_streams s !! stid = Some st → poll_next stid read room s = Some (p, s') →
  (∀ d, st_aborted st = false →
     st_pos st = Telling d ∨ (st_pos st = FirstRead ∨ st_pos st = NextRead) ∧ read = Ready (Ok d) ∧ d ≠ [] →
     room = true ∨ actor_alive (st_actor st) s = false → p = Ready (Some d)) ∧
  ∃ st', sys_streams s' !! stid = Some st' ∧
  match p with
  | Ready (Some d) =>
      (st_pos st = Telling d ∨ (st_pos st = FirstRead ∨ st_pos st = NextRead) ∧ read = Ready (Ok d)) ∧
      d ≠ [] ∧ (blen d ≤ READ_CAPACITY)%Z ∧ st_pos st' = NextRead ∧ st_out st' = st_out st ++ [d] ∧
      ∀ a, sys_actors s !! st_actor st = Some a → is_alive a = true →
        sys_actors s' !! st_actor st = Some (with_mailbox (ac_mailbox a ++ [SessionResetIdleTimeout]) a)
  | Ready None => (holding st' = false ∨ st_aborted st = true) ∧ st_out st' = st_out st
  | Pending => (st_pos st = FirstRead ∧ read = Pending ∧ s' = s ∨
                room = false ∧ actor_alive (st_actor st) s = true ∧
                ∃ d, (st_pos st = Telling d ∨ read = Ready (Ok d)) ∧ st_pos st' = Telling d) ∧
               st_out st' = st_out st
  end.
Proof.
  intros Hr Hst Hpoll. pose proof (wf_chunks _ (reachable_wf _ _ Hr) _ _ Hst) as [Hne _].
  unfold poll_next in Hpoll. rewrite Hst in Hpoll. simpl in Hpoll.
  destruct (st_aborted st) eqn:Hab; [split; [done|]; simplify_eq; by eauto 10|].
  destruct (st_pos st) as [| |d|] eqn:Hp.
  1, 2: destruct read as [|[[|b d]|e]].
  all: try (injection Hpoll as <- <-; split; [naive_solver|];
    simpl; rewrite ?lookup_insert_eq; unfold holding; eexists; (split; [done|]); rewrite ?Hp; by auto).
  1, 2: apply bind_Some in Hpoll as (Hlen & _ & Hpoll); injection Hpoll as Hpoll.
  3: injection Hpoll as Hpoll; destruct (Hne d eq_refl) as [Hd Hlen].
  all: destruct (tell_outcome _ _ _ _ _ _ _ Hpoll) as (Hnow & st' & Hst' & Hout).
  1, 2: split; [intros d' _ [[=]|(_ & [= <-] & _)]; exact Hnow|].
  3: split; [intros d' _ [[= <-]|([?|?] & _)]; [exact Hnow|done..]|].
  all: exists st'; split; [done|]; destruct p as [|[d'|]]; naive_solver.
Qed.

(** * The end of a session *)

(** C26. Dropping a session cleans up after it: both its timers are gone and no task is
    left that would kill it, no stream of it can read any more, its identifier is out
    of the session table, and nothing of any other session is touched. *)
Theorem drop_cleans_up config s aid a s' :
  reachable config s → sys_actors s !! aid = Some a → step s (LDrop aid) = Some s' →
  (∀ t tk, sys_tasks s' !! t = Some tk → tk_actor tk ≠ aid) ∧
  (∀ k st, sys_streams s' !! k = Some st → st_actor st = aid → holding st = true → st_aborted st = true) ∧
  (sys_server_up s = true → sys_sessions s' !! arg_session_id (ac_args a) = None) ∧
  (∀ t tk, sys_tasks s !! t = Some tk → tk_actor tk ≠ aid → sys_tasks s' !! t = Some tk) ∧
  (∀ k st, sys_streams s !! k = Some st → st_actor st ≠ aid → sys_streams s' !! k = Some st) ∧
  (∀ u, u ≠ arg_session_id (ac_args a) → sys_sessions s' !! u = sys_sessions s !! u) ∧
  (∀ k, k ≠ aid → sys_actors s' !! k = sys_actors s !! k).
Proof.
  intros Hr Ha Hs. pose proof (reachable_wf _ _ Hr) as Hw. pose proof (sys_wf_step _ _ _ Hw Hs) as Hw'.
  simpl in Hs. unfold drop_session in Hs. rewrite Ha in Hs. simpl in Hs.
  destruct (ac_status a) eqn:Hst, (ac_session a) as [self|] eqn:Es; simplify_eq.
  set (s' := remove_session _ _) in *.
  assert (Ha' : sys_actors s' !! aid = Some (with_session None a)) by (simpl; by rewrite lookup_insert_eq).
  pose proof (wf_actors _ Hw _ _ Ha) as Hwa.
  destruct (session_handles _ _ Hwa Es) as (x & y & Hx & Hy & Hh).
  pose proof (proj2 (wf_timers _ Hw) _ _ Ha) as Hta.
  assert (Hid : session_id self = arg_session_id (ac_args a))
    by (destruct Hwa as [Hse _]; by destruct (Hse _ Es)).
  assert (Htask : ∀ t, sys_tasks s' !! t = if decide (t = x ∨ t = y) then None else sys_tasks s !! t).
  { intros t. simpl. rewrite Hx, Hy, !lookup_delete. repeat case_decide; naive_solver. }
  assert (Hown : ∀ t tk, sys_tasks s !! t = Some tk → t = x ∨ t = y → tk_actor tk = aid).
  { intros t tk Ht Hin. apply (tm_owned _ _ _ Hta t); [|done]. rewrite Hh. set_solver. }
  assert (Hra : reader_of a = Some (upstream_read self, upstream_read_abort self))
    by (unfold reader_of; by rewrite Es).
  destruct (sw_reader _ (wf_streams _ Hw) _ _ Ha _ _ Hra) as [Hab _].
  repeat split.
  - intros t tk. rewrite Htask. case_decide as Hd; [done|]. intros Ht Hact.
    destruct (tm_only _ _ _ Hta t tk Ht Hact) as [Hin|[_ ?]]; [|congruence].
    rewrite Hh in Hin. set_solver.
  - intros k st Hk Hact Hho. destruct (sw_holder _ (wf_streams _ Hw') _ _ Hk Hho) as (b & Hb & Hm).
    rewrite Hact, Ha' in Hb. simplify_eq. by destruct Hm.
  - intros Hup. simpl. rewrite Hup, Hid. apply lookup_delete_eq.
  - intros t tk Ht Hne. rewrite Htask, decide_False; [done|]. intros Hin. by destruct Hne; eapply Hown.
  - intros k st Hk Hne. simpl. destruct (upstream_read_abort self) as [j|]; [|done].
    rewrite lookup_alter_ne; [done|]. intros ->. destruct (Hab _ eq_refl) as (? & ? & ?). congruence.
  - intros u Hne. simpl. destruct (sys_server_up s); [|done]. rewrite lookup_delete_ne; congruence.
  - intros k Hne. simpl. by rewrite lookup_insert_ne.
Qed.

(** C27. One live session per identifier. As long as every request arrives when the
    stopped sessions have been dropped, the session table names every live session,
    so there are never two for the same identifier, and a [PATCH] always reaches the one. *)
Theorem live_session_unique config ls s :
  run prompt_step (with_connector config) ls = Some s → sys_server_up s = true →
  (∀ aid a, sys_actors s !! aid = Some a → is_alive a = true →
     sys_sessions s !! arg_session_id (ac_args a) = Some aid) ∧
  (∀ i j ai aj, sys_actors s !! i = Some ai → sys_actors s !! j = Some aj →
     is_alive ai = true → is_alive aj = true →
     arg_session_id (ac_args ai) = arg_session_id (ac_args aj) → i = j).
Proof.
  intros Hrun Hup. destruct (prompt_run_wf _ _ _ Hrun) as (_ & Ht & _).
  assert (Hin : ∀ aid a, sys_actors s !! aid = Some a → is_alive a = true →
     sys_sessions s !! arg_session_id (ac_args a) = Some aid)
    by (intros aid a Ha Hal; apply (Ht Hup); [done|by left]).
  split; [done|]. intros i j ai aj Hi Hj Hai Haj E.
  pose proof (Hin _ _ Hi Hai). pose proof (Hin _ _ Hj Haj). congruence.
Qed.
End SessionProps.

(** The schedule of [drop_race]: session 7 times out, and before its [Session] is dropped a
    [POST] replaces it; the drop then removes the entry of the replacement. *)
Definition demo_race : list label :=
  open_session POST ++
  [LTick 30; LFire 4; LStop 1 0;
   LRequest (demo_head POST "7"); LStart 6; LConnected 6 (Ok ());
   LDrop 1;
   LRequest (demo_head PATCH "7"); LRequest (demo_head POST "7")].

(** The assumption of [live_session_unique] is needed: there is a schedule in which
    a request replaces a stopped session before that session is dropped, after which
    the drop removes the replacement from the table. The replacement is alive and
    connected, yet a [PATCH] for its identifier is answered [400 Bad Request] and the next
    [POST] opens a second live session with the same identifier. *)
Theorem drop_race :
  ∃ s, run step (with_connector demo_config) demo_race = Some s ∧
    ac_status <$> sys_actors s !! 6 = Some Running ∧
    is_alive <$> sys_actors s !! 12 = Some true ∧
    arg_session_id ∘ ac_args <$> sys_actors s !! 6 = Some 7%N ∧
    arg_session_id ∘ ac_args <$> sys_actors s !! 12 = Some 7%N ∧
    rq_pos <$> sys_requests s !! 10 = Some (Responded (into_response (HttpError_from "No session"))).
Proof.
  exists (after demo_race). split; [by_run|]. repeat split; by_vm.
Qed.

(** * The theorems at work *)

Definition demo_open : list label := open_session GET ++ [LTick 20].

(** The actor of [demo_open], and the one of [demo_late], whose idle timeout has passed. *)
Definition demo_actor : Actor :=
  mkActor (mkSessionArgs 7%N (cfg_upstream demo_config) 30 45) Running
    (Some (mkSession 7%N mutex_new None 30 (Some 4) (Some 2))) [] None false false 0 0.
Definition demo_late : list label := open_session GET ++ [LTick 31].

Lemma demo_open_reachable : reachable demo_config (after demo_open).
Proof. by_run. Defined.

Lemma session_bounded_witness :
  (sys_now (after demo_open) ≤ 0 + 45)%N ∧ (sys_now (after demo_open) ≤ 0 + 30)%N.
Proof.
  apply (session_bounded demo_config (after demo_open) 1 demo_actor).
  - apply demo_open_reachable.
  - apply (bool_decide_eq_true_1 _). by_run.
  - by_run.
  - reflexivity.
  - discriminate.
  - reflexivity.
Defined.

Lemma never_killed_early_witness :
  (0 + 45 ≤ sys_now (after demo_late))%N ∨ (0 + 30 ≤ sys_now (after demo_late))%N.
Proof.
  apply (never_killed_early demo_config (after demo_late) (LFire 4)
           (after (demo_late ++ [LFire 4])) 1 demo_actor (with_kill true demo_actor)).
  - by_run.
  - by_run.
  - by_run.
  - by_run.
  - discriminate.
  - reflexivity.
  - reflexivity.
Defined.

Lemma expired_session_stops_witness :
  ∃ t s', (run step (after demo_late) [LStop 1 0] = Some s' ∨
           run step (after demo_late) [LFire t; LStop 1 0] = Some s') ∧ has_stopped s' 1.
Proof.
  apply (expired_session_stops demo_config (after demo_late) 1 demo_actor).
  - by_run.
  - by_run.
  - reflexivity.
  - discriminate.
  - right. by apply (bool_decide_eq_true_1 _).
Defined.

(** The actor of [demo_two_gets], and the run that answers its second [GET]. *)
Definition demo_busy_actor : Actor :=
  mkActor (mkSessionArgs 7%N (cfg_upstream demo_config) 30 45) Running
    (Some (mkSession 7%N true (Some 5) 30 (Some 4) (Some 2)))
    [SessionResetIdleTimeout; SessionRead 6] None false false 0 0.
Definition demo_refused : list label := demo_two_gets ++ [LDeliver 1 1; LResume 6].

Lemma single_reader_witness :
  sys_requests (after demo_refused) !! 6 =
    Some (mkReq (Responded (mkResponse TOO_MANY_REQUESTS [] Empty)) []).
Proof.
  destruct (single_reader demo_config (after demo_two_gets)) as [_ Hsr].
  { by_run. }
  destruct (Hsr 1 demo_busy_actor 1 6 (mkReq (AtRead 1 None) []) (after demo_refused))
    as [(_ & _ & Hres)|[Hno _]].
  - by_run.
  - reflexivity.
  - by_run.
  - reflexivity.
  - by_run.
  - exact Hres.
  - exfalso. apply Hno. exists 5, (mkStream 1 0 (Telling world) false [hello]).
    split; [by_run|]. split; reflexivity.
Defined.

(** The [GET] of [demo_get] before its second read. *)
Definition demo_read : list label :=
  open_session GET ++ [LResume 0; LDeliver 1 0; LResume 0; LPoll 5 (Ready (Ok hello)) true].

Lemma poll_outcome_witness :
  ∃ st', sys_streams (after (demo_read ++ [LPoll 5 (Ready (Ok world)) true])) !! 5 = Some st' ∧
    st_out st' = [hello; world].
Proof.
  destruct (poll_outcome demo_config (after demo_read) 5 (mkStream 1 0 NextRead false [hello])
              (Ready (Ok world)) true (Ready (Some world))
              (after (demo_read ++ [LPoll 5 (Ready (Ok world)) true])))
    as (_ & st' & Hst' & _ & _ & _ & _ & Hout & _).
  - by_run.
  - by_run.
  - by_run.
  - exists st'. split; [exact Hst'|exact Hout].
Defined.

(** The session of [demo_get] times out while its stream is open. *)
Definition demo_timed_out : list label := demo_get ++ [LTick 31; LFire 4; LStop 1 0].
Definition demo_dropped : list label := demo_timed_out ++ [LDrop 1].
Definition demo_dead_actor : Actor :=
  mkActor (mkSessionArgs 7%N (cfg_upstream demo_config) 30 45) Stopped
    (Some (mkSession 7%N true (Some 5) 30 (Some 4) (Some 2))) [] None true false 0 0.

Lemma drop_cleans_up_witness :
  (∀ t tk, sys_tasks (after demo_dropped) !! t = Some tk → tk_actor tk ≠ 1) ∧
  sys_sessions (after demo_dropped) !! 7%N = None.
Proof.
  destruct (drop_cleans_up demo_config (after demo_timed_out) 1 demo_dead_actor (after demo_dropped))
    as (Htasks & _ & Htable & _).
  - by_run.
  - by_run.
  - by_run.
  - split; [exact Htasks|]. apply Htable. by_run.
Defined.

(** A second session next to the first. *)
Definition demo_two_sessions : list label := demo_get ++ [LRequest (demo_head POST "8")].
Definition demo_first_actor : Actor :=
  mkActor (mkSessionArgs 7%N (cfg_upstream demo_config) 30 45) Running
    (Some (mkSession 7%N true (Some 5) 30 (Some 4) (Some 2)))
    [SessionResetIdleTimeout] None false false 0 0.

Definition demo_prompt : Sys := final prompt_step demo_start demo_two_sessions.

Lemma live_session_unique_witness : sys_sessions demo_prompt !! 7%N = Some 1.
Proof.
  destruct (live_session_unique demo_config demo_two_sessions demo_prompt) as [Hin _].
  - exact (run_final prompt_step demo_start demo_two_sessions ltac:(by_vm)).
  - by_vm.
  - apply (Hin 1 demo_first_actor).
    + by_vm.
    + reflexivity.
Defined.
