(* ===== verification/ServerProps.v ===== *)
(** The HTTP side of the server: what requests are admitted to, how they end, and
    what their responses mean. *)
From S2P Require Import Prelude Ext DomainFronting Stats State Session Server ServerSteps.
From S2P Require Import ServerInv LogInv WriteInv ConfigInv PendingInv Invariant Progress Scenario.

Section ServerProps.
Context `{UuidLib, HttpLib, TryMutex, !TryMutexLaws}.
Implicit Types (s : Sys) (a : Actor) (st : StreamState) (r : ReqState).

(** * Arrival *)

(** The live session a request addresses. *)
Definition live_session (head : RequestHead) s (aid : nat) : Prop :=
  ∃ u, parse_session_id (sys_config s) head = Some u ∧
       sys_sessions s !! u = Some aid ∧ actor_alive aid s = true.

(** What the code makes of an arriving request, as a specification: an unknown method or
    a missing identifier is refused; a live session is joined; otherwise [GET] and
    [POST] open one, and [PATCH] is refused. *)
Inductive admitted (head : RequestHead) s : Sys → Prop :=
| admit_join aid :
    (∀ name, head_method head ≠ OTHER name) → live_session head s aid →
    admitted head s
      (put_request (sys_next s) (mkReq (request_start head aid) []) (set_next (S (sys_next s)) s))
| admit_open u :
    head_method head = GET ∨ head_method head = POST →
    parse_session_id (sys_config s) head = Some u → (∀ aid, ¬ live_session head s aid) →
    let rid := sys_next s in
    let a := mkActor (mkSessionArgs u (cfg_upstream (sys_config s)) (cfg_idle_timeout (sys_config s))
                        (cfg_total_timeout (sys_config s))) Spawned None [] None false false 0 0 in
    admitted head s
      (put_request rid (mkReq (request_start head (S rid)) [])
         (set_sessions (<[u := S rid]> (sys_sessions s))
            (set_next (S (S rid)) (put_actor (S rid) a s))))
| admit_refuse :
    (∃ name, head_method head = OTHER name) ∨ parse_session_id (sys_config s) head = None ∨
      head_method head = PATCH ∧ (∀ aid, ¬ live_session head s aid) →
    admitted head s
      (put_request (sys_next s) (mkReq (Responded (mkResponse BAD_REQUEST [] Empty)) [])
         (set_next (S (sys_next s)) s)).

Lemma no_live_session head s u :
  parse_session_id (sys_config s) head = Some u →
  (∀ aid, sys_sessions s !! u = Some aid → actor_alive aid s = false) →
  ∀ aid, ¬ live_session head s aid.
Proof. intros Hu Hno aid (u' & Hu' & Ht & Hal). simplify_eq. by rewrite (Hno _ Ht) in Hal. Qed.

Lemma lookup_live u can s aid :
  sys_sessions s !! u = Some aid → actor_alive aid s = true → lookup_session u can s = (Ok aid, s).
Proof. unfold lookup_session. by intros -> ->. Qed.

Lemma lookup_create u s :
  (∀ aid, sys_sessions s !! u = Some aid → actor_alive aid s = false) →
  lookup_session u true s = (Ok (sys_next s), (insert_session u s).2).
Proof.
  intros Hno. unfold lookup_session. destruct (sys_sessions s !! u) as [aid|]; [|done].
  by rewrite (Hno _ eq_refl).
Qed.

Lemma lookup_refuse u s :
  (∀ aid, sys_sessions s !! u = Some aid → actor_alive aid s = false) →
  ∃ e, he_code e = BAD_REQUEST ∧ lookup_session u false s = (Err e, s).
Proof.
  intros Hno. unfold lookup_session. destruct (sys_sessions s !! u) as [aid|];
    [|by exists (HttpError_from "No session")].
  rewrite (Hno _ eq_refl). by exists (HttpError_from "Expired session").
Qed.

(** What [handle_request] does, in terms of what its header names. *)
Lemma handle_request_live head s aid :
  (∀ name, head_method head ≠ OTHER name) → live_session head s aid →
  handle_request head s = (request_start head aid, s).
Proof.
  intros Hm (u & Hu & Ht & Hal). unfold handle_request, handle_request_inner, request_start.
  rewrite Hu. destruct (head_method head) as [| | |name] eqn:Eh; [..|by destruct (Hm name)]; simpl;
    by rewrite (lookup_live _ _ _ _ Ht Hal).
Qed.

Lemma handle_request_open head s u :
  head_method head = GET ∨ head_method head = POST → parse_session_id (sys_config s) head = Some u →
  (∀ aid, sys_sessions s !! u = Some aid → actor_alive aid s = false) →
  handle_request head s = (request_start head (sys_next s), (insert_session u s).2).
Proof.
  intros Hm Hu Hno. unfold handle_request, handle_request_inner, request_start. rewrite Hu.
  destruct Hm as [-> | ->]; simpl; by rewrite lookup_create.
Qed.

Lemma handle_request_refuse head s :
  (∃ name, head_method head = OTHER name) ∨ parse_session_id (sys_config s) head = None ∨
    (head_method head = PATCH ∧ ∃ u, parse_session_id (sys_config s) head = Some u ∧
       ∀ aid, sys_sessions s !! u = Some aid → actor_alive aid s = false) →
  handle_request head s = (Responded (mkResponse BAD_REQUEST [] Empty), s).
Proof.
  unfold handle_request, handle_request_inner. intros [[name ->]|[->|[-> (u & -> & Hno)]]]; [done| |].
  - by destruct (head_method head).
  - simpl. destruct (lookup_refuse _ _ Hno) as (e & He & ->). simpl. unfold respond_error, into_response.
    by rewrite He.
Qed.

Lemma live_or_none u s :
  (∃ aid, sys_sessions s !! u = Some aid ∧ actor_alive aid s = true) ∨
  ∀ aid, sys_sessions s !! u = Some aid → actor_alive aid s = false.
Proof.
  destruct (sys_sessions s !! u) as [aid|] eqn:Hu; [destruct (actor_alive aid s) eqn:Ha|].
  - left. by exists aid.
  - right. by intros ? [= <-].
  - by right.
Qed.

(** C22. Admission. A request that reaches the server (while it is up) is always answered
    or attached to a session, as [admitted] specifies: it joins the live session its
    header names, or opens a new one with the configured upstream and timeouts if
    there is none (never for a [PATCH]), or is refused with [400 Bad Request]; nothing
    else in the server changes. *)
Theorem request_admission head s :
  sys_server_up s = true → ∃ s', step s (LRequest head) = Some s' ∧ admitted head s s'.
Proof.
  intros Hup. cbn [step]. unfold request_arrives. rewrite guard_pass by done.
  set (s0 := set_next (S (sys_next s)) s).
  assert (Href : handle_request head s0 = (Responded (mkResponse BAD_REQUEST [] Empty), s0) →
            admitted head s (put_request (sys_next s) (mkReq (Responded (mkResponse BAD_REQUEST [] Empty)) []) s0) →
            ∃ s', (let (pos, s1) := handle_request head s0 in
                   Some (put_request (sys_next s) (mkReq pos []) s1)) = Some s' ∧ admitted head s s')
    by (intros Hh Had; rewrite Hh; eauto).
  destruct (head_method head) as [| | |name] eqn:Em.
  4:{ apply Href; [apply handle_request_refuse|apply admit_refuse]; eauto. }
  all: assert (Hm : ∀ name, head_method head ≠ OTHER name) by (by rewrite Em).
  all: destruct (parse_session_id (sys_config s) head) as [u|] eqn:Eu;
    [|apply Href; [apply handle_request_refuse|apply admit_refuse]; auto].
  all: assert (Hlive : (∃ aid, sys_sessions s !! u = Some aid ∧ actor_alive aid s = true) ∨
         ∀ aid, sys_sessions s !! u = Some aid → actor_alive aid s = false)
    by apply live_or_none.
  all: destruct Hlive as [(aid & Ht & Hal)|Hno];
    [rewrite (handle_request_live head s0 aid Hm) by (exists u; auto); eexists; (split; [done|]);
     apply admit_join; [done|exists u; auto]|].
  all: pose proof (no_live_session _ _ _ Eu Hno) as Hnl.
  3:{ apply Href; [apply handle_request_refuse|apply admit_refuse];
        right; right; [|by auto]. split; [done|]. exists u. auto. }
  all: rewrite (handle_request_open head s0 u) by auto; eexists; (split; [done|]);
    refine (admit_open head s u _ _ _); auto.
Qed.

(** * Responses *)

(** C30. Responses. Every response is [204 No Content] with no body, [200 OK] with a
    stream for a body, or an error with no body whose code is [400 Bad Request] or
    [429 Too Many Requests]; and every response stream belongs to a single request. *)
Theorem response_forms config s :
  reachable config s →
  (∀ rid r resp, sys_requests s !! rid = Some r → rq_pos r = Responded resp →
     resp = mkResponse NO_CONTENT [] Empty ∨
     (∃ k st, resp = read_response k ∧ rs_status resp = OK_200 ∧ sys_streams s !! k = Some st) ∨
     resp = mkResponse BAD_REQUEST [] Empty ∨ resp = mkResponse TOO_MANY_REQUESTS [] Empty) ∧
  (∀ i j ri rj hi hj ci cj k, sys_requests s !! i = Some ri → sys_requests s !! j = Some rj →
     rq_pos ri = Responded (mkResponse ci hi (StreamBody k)) →
     rq_pos rj = Responded (mkResponse cj hj (StreamBody k)) → i = j).
Proof.
  intros Hw%reachable_wf%wf_pending. split.
  - intros rid r resp Hr Hp. pose proof (pw_req _ Hw _ _ Hr) as Hok. unfold pending_ok in Hok.
    rewrite Hp in Hok. destruct Hok as [->|[[k ->]|[->| ->]]]; auto. right. left.
    destruct (pw_stream _ Hw _ _ k Hr) as [st Hst]; [unfold rq_stream; by rewrite Hp|]. eauto.
  - intros * Hi Hj Hpi Hpj. eapply (pw_owner _ Hw i j ri rj k); eauto; unfold rq_stream; by rewrite ?Hpi, ?Hpj.
Qed.

(** C23. A session serves its requests. From any reachable state, a request that waits for its
    session - to send its message, for the reply, or to run after the reply - gets what it waits
    for by steps of its own task and of its session's actor alone ([own_step]: no client does
    anything, no body ends, no timer fires). If the session's actor is neither dead nor about to
    die, a chunk is written to the upstream in full and acknowledged, the request going on with the
    next one, and a read is answered with a response stream or refused with
    [429 Too Many Requests]; otherwise the request fails with [400 Bad Request]. *)
Theorem request_completes config s rid r aid :
  reachable config s → sys_requests s !! rid = Some r → waits_for r = Some aid →
  ∃ a ls s' r', sys_actors s !! aid = Some a ∧ forallb (own_step rid aid) ls = true ∧
    run step s ls = Some s' ∧ sys_requests s' !! rid = Some r' ∧
    if answered r || serving a then served rid r s' r' else refused_dead r'.
Proof.
  intros Hw%reachable_wf Hr Hwt. destruct (waits_actor _ _ _ _ Hw Hr Hwt) as [a Ha].
  destruct (get_waiting _ _ _ _ _ Hw Hr Hwt Ha) as (ls & s' & r' & Hf & Hrun & Hr' & HQ).
  exists a, ls, s', r'. split_and!; [done..|]. by destruct (answered r || serving a).
Qed.

(** * Connections *)

(** C29. The server only ever connects to its configured upstream, each session actor at
    most once, and data is only written to or read from a connection that was opened. *)
Theorem one_connection_per_session config s :
  reachable config s →
  (∀ aid addr, UpOpen aid addr ∈ sys_log s → addr = cfg_upstream config) ∧
  NoDup (opens (sys_log s)).*1 ∧
  (∀ aid rid d n, UpWrite aid rid d n ∈ sys_log s → aid ∈ (opens (sys_log s)).*1) ∧
  (∀ aid k d, UpRead aid k d ∈ sys_log s → aid ∈ (opens (sys_log s)).*1).
Proof.
  intros Hr. pose proof (wf_opens _ (reachable_wf _ _ Hr)) as Hw.
  split; [|split; [apply (ow_nodup _ Hw)|split; [apply (ow_write _ Hw)|apply (ow_read _ Hw)]]].
  intros aid addr Hin. rewrite <- (reachable_config _ _ Hr). apply (ow_addr _ Hw aid).
  unfold opens. apply list_elem_of_omap. by exists (UpOpen aid addr).
Qed.

(** C35. When the upstream cannot be reached, the session is dead at once: its actor stops
    without having handled a message, every request that waits on it can be answered
    [400 Bad Request] in one step, and its identifier is not usable with [PATCH] but is
    free for a new session: a [GET] or [POST] opens another connection. *)
Theorem failed_connect config s aid e s' head u :
  reachable config s → step s (LConnected aid (Err e)) = Some s' →
  sys_sessions s !! u = Some aid → parse_session_id config head = Some u →
  has_stopped s' aid ∧
  (∀ rid r m, sys_requests s' !! rid = Some r → awaited rid aid r m →
     ∃ s2, step s' (LResume rid) = Some s2 ∧
       sys_requests s2 !! rid = Some (mkReq (Responded (mkResponse BAD_REQUEST [] Empty)) (rq_acked r))) ∧
  (head_method head = PATCH →
     handle_request head s' = (Responded (mkResponse BAD_REQUEST [] Empty), s')) ∧
  (head_method head = GET ∨ head_method head = POST →
     ∃ s2, handle_request head s' = (request_start head (sys_next s'), s2) ∧
       sys_sessions s2 !! u = Some (sys_next s') ∧ actor_alive (sys_next s') s2 = true).
Proof.
  intros Hr Hs Ht Hu. pose proof (reachable_config _ _ Hr) as Hc. rewrite <- Hc in Hu.
  cbn [step] in Hs. unfold on_start_connected in Hs. apply bind_Some in Hs as (a & Ha & Hs).
  destruct (ac_status a); simplify_eq.
  assert (Hst : has_stopped (put_actor aid (stopped a) s) aid).
  { exists (stopped a). simpl. by rewrite lookup_insert_eq. }
  assert (Hdead : actor_alive aid (put_actor aid (stopped a) s) = false)
    by (destruct Hst as (b & Hb & Hsb); by eapply dead_actor).
  split; [done|]. split; [|split].
  - intros rid r m Hrq Haw. cbn [step]. unfold request_resumes. rewrite Hrq. cbn [mbind option_bind].
    destruct Haw as [(total & d & _ & ->)|[_ ->]]; rewrite guard_pass by done;
      eexists; (split; [done|]); simpl; by rewrite lookup_insert_eq.
  - intros Hm. apply handle_request_refuse. right. right. split; [done|]. exists u. split; [done|].
    simpl. intros x Hx. by simplify_eq.
  - intros Hm. rewrite (handle_request_open head _ u); [|done|done|intros x Hx; simpl in Hx; by simplify_eq].
    eexists. split; [done|]. simpl. rewrite lookup_insert_eq. split; [done|].
    unfold actor_alive. simpl. by rewrite lookup_insert_eq.
Qed.

(** The end of the upstream's data is not the end of the session. When a read finds
    the upstream connection closed, the response body just ends, like one that ran
    out of data: the session lives on, it is neither killed nor stopped, it stays in
    the table with its timers untouched, and its reader is free for the next [GET]. *)
Theorem upstream_eof config s stid st room s' :
  reachable config s → sys_streams s !! stid = Some st → st_aborted st = false →
  st_pos st = FirstRead ∨ st_pos st = NextRead →
  step s (LPoll stid (Ready (Ok [])) room) = Some s' →
  sys_sessions s' = sys_sessions s ∧ sys_tasks s' = sys_tasks s ∧ sys_log s' = sys_log s ∧
  ∃ a a' self', sys_actors s !! st_actor st = Some a ∧ sys_actors s' !! st_actor st = Some a' ∧
    ac_status a' = ac_status a ∧ ac_kill a' = ac_kill a ∧ ac_stop a' = ac_stop a ∧
    ac_session a' = Some self' ∧ mutex_locked (upstream_read self') = false.
Proof.
  intros Hw%reachable_wf Hst Hab Hpos Hs.
  assert (Hho : holding st = true) by (unfold holding; by destruct Hpos as [-> | ->]).
  assert (Hs' : s' = release stid st s).
  { simpl in Hs. unfold poll_next in Hs. rewrite Hst in Hs. simpl in Hs. rewrite Hab in Hs.
    by destruct Hpos as [Hp|Hp]; rewrite Hp in Hs; simplify_eq/=. }
  subst s'. split; [done|]. split; [done|]. split; [done|].
  destruct (StreamInv.sw_holder _ (wf_streams _ Hw) _ _ Hst Hho) as (a & Ha & Hm).
  unfold StreamInv.reader_of in Hm. destruct (ac_session a) as [self|] eqn:Es; [|simpl in Hm; by destruct Hm; congruence].
  exists a, (unlock_reader a). eexists. simpl. rewrite lookup_alter_eq, Ha.
  split; [done|]. split; [done|]. unfold unlock_reader. rewrite Es. simpl.
  repeat split. apply drop_guard_frees.
Qed.
End ServerProps.

(** A failed write is acknowledged. [SessionWrite] replies [()] whether or not
    [write_all] succeeded, so a body the upstream did not accept is answered
    [204 No Content] all the same, and counted as transmitted: here the upstream took
    two of five bytes. (The documentation of [handle_request] has [BAD_REQUEST] for
    any error; the loss shows only as the session's end.) *)
Theorem failed_write_acknowledged :
  ∃ s, run step (with_connector demo_config) demo_failed_write = Some s ∧
    rq_pos <$> sys_requests s !! 0 = Some (Responded (mkResponse NO_CONTENT [] Empty)) ∧
    sys_log s = [UpOpen 1 (cfg_upstream demo_config); UpWrite 1 0 hello 2] ∧ length hello = 5 ∧
    freeze (sys_stats s) = mkStats 5 0 ∧
    ac_stop <$> sys_actors s !! 1 = Some true.
Proof. exists (after demo_failed_write). split; [by_run|]. repeat split; by_vm. Qed.

(** * The theorems at work *)

Lemma request_admission_witness :
  ∃ s', step (after demo_get) (LRequest (demo_head PATCH "7")) = Some s' ∧
    admitted (demo_head PATCH "7") (after demo_get) s'.
Proof. apply request_admission. by_run. Defined.

Lemma response_forms_witness :
  ∃ st, sys_streams (after demo_get) !! 5 = Some st.
Proof.
  destruct (response_forms demo_config (after demo_get)) as [Hf _].
  { by_run. }
  destruct (Hf 0 (mkReq (Responded (read_response 5)) []) (read_response 5))
    as [E|[(k & st & E & _ & Hst)|[E|E]]]; [by_run|reflexivity|..]; try discriminate E.
  exists st. injection E as <-. exact Hst.
Defined.

(** A chunk that the actor has not even taken from its mailbox: it is written and acknowledged. *)
Definition demo_waiting : list label := open_session POST ++ [LBody 0 (Some (Ok hello))].

Lemma request_completes_witness :
  ∃ ls s' r', forallb (own_step 0 1) ls = true ∧ run step (after demo_waiting) ls = Some s' ∧
    sys_requests s' !! 0 = Some r' ∧ r' = mkReq (AtBody 1 5) [hello] ∧
    UpWrite 1 0 hello 5 ∈ sys_log s'.
Proof.
  destruct (request_completes demo_config (after demo_waiting) 0 (mkReq (AtWrite 1 5 hello None) []) 1)
    as (a & ls & s' & r' & Ha & Hls & Hrun & Hr' & HQ).
  - by_run.
  - by_run.
  - reflexivity.
  - assert (E : serving <$> sys_actors (after demo_waiting) !! 1 = Some true) by by_run.
    rewrite Ha in E. injection E as E. rewrite E in HQ. destruct HQ as [HQ Hin].
    exists ls, s', r'. split_and!; [assumption..|exact (Hin eq_refl)].
Defined.

Lemma one_connection_per_session_witness :
  1 ∈ (opens (sys_log (after demo_post))).*1.
Proof.
  destruct (one_connection_per_session demo_config (after demo_post)) as (_ & _ & Hw & _).
  { by_run. }
  apply (Hw 1 0 hello 5).
  assert (E : sys_log (after demo_post) =
    [UpOpen 1 (cfg_upstream demo_config); UpWrite 1 0 hello 5; UpWrite 1 0 world 5]) by by_run.
  rewrite E. right. left.
Defined.

(** The connection of the session that request 0 opened is refused. *)
Definition demo_connecting : list label := [LRequest (demo_head POST "7"); LStart 1].
Definition demo_refused_connect : list label :=
  demo_connecting ++ [LConnected 1 (Err (mkIoError ConnectionRefused "refused"))].

Lemma failed_connect_witness :
  handle_request (demo_head PATCH "7") (after demo_refused_connect) =
    (Responded (mkResponse BAD_REQUEST [] Empty), after demo_refused_connect).
Proof.
  apply (failed_connect demo_config (after demo_connecting) 1
           (mkIoError ConnectionRefused "refused") (after demo_refused_connect) (demo_head PATCH "7") 7%N).
  - by_run.
  - by_run.
  - by_run.
  - by_run.
  - reflexivity.
Defined.

(** The upstream closes after the client has read its first chunk. *)
Definition demo_read_all : list label :=
  open_session GET ++ [LResume 0; LDeliver 1 0; LResume 0; LPoll 5 (Ready (Ok hello)) true].

Lemma upstream_eof_witness :
  ∃ s', step (after demo_read_all) (LPoll 5 (Ready (Ok [])) true) = Some s' ∧
    sys_sessions s' = sys_sessions (after demo_read_all).
Proof.
  exists (after (demo_read_all ++ [LPoll 5 (Ready (Ok [])) true])). split; [by_run|].
  apply (upstream_eof demo_config (after demo_read_all) 5 (mkStream 1 0 NextRead false [hello]) true).
  - by_run.
  - by_run.
  - reflexivity.
  - right. reflexivity.
  - by_run.
Defined.

