(* ===== verification/Isolation.v ===== *)
(** Sessions do not touch each other.

    The server keeps all its sessions in one state. Here every step of the server is given the
    session actor it concerns, and [untouched] says that a session is left exactly as it was:
    the actor with its mailbox and its [Session], its timers, its response streams with the lock,
    the requests that depend on it, its upstream connection and its entry in the table. *)
From S2P Require Import Prelude Ext DomainFronting Stats State Session Server ServerSteps.
From S2P Require Import ServerInv StreamInv WriteInv PendingInv Invariant Routing Scenario.

(** * A part of a map *)

Section Part.
Context {A : Type} (P : A → Prop).
Implicit Types m : gmap nat A.






End Part.

Section Isolation.
Context `{UuidLib, HttpLib, TryMutex, !TryMutexLaws}.
Implicit Types (s : Sys) (a : Actor) (st : StreamState) (r : ReqState).








(** * The pieces of a step *)









(** * The steps *)









(** * The session goes on as before *)






End Isolation.

(** * The theorem at work *)



