(* ===== verification/Client.v ===== *)
(** The client's request loop: [create_write_request], [create_read_request] and the two
    pumps of [ProxyConnection], in [src/src/client.rs].

    The background task of a connection runs the HTTP connection and two loops side by
    side: [pump_outgoing] takes chunks from a channel and sends one request for each,
    [pump_incoming] sends [GET] requests and forwards the response bodies to a channel.
    Each loop is a state that says at which await it is suspended; what the awaited
    operation returns (a chunk, a response, a frame) is an argument of the step. *)
From S2P Require Import Prelude Ext DomainFronting.

Section Client.
Context `{UuidLib, HttpLib, FuturesLib}.

(** * Requests *)

(** [format!("{scheme}://{proxy_host}/{}", Uuid::new_v4())]; [path] is the random UUID. *)
Definition request_uri (config : DomainFronting) (path : Uuid) : string :=
  scheme config +:+ "://" +:+ proxy_host config +:+ "/" +:+ uuid_to_string path.

Definition create_write_request (config : DomainFronting) (session_id : Uuid) (body : bytes)
    (can_create_session : bool) (path : Uuid) : result Error Request :=
  let method := if can_create_session then POST else PATCH in
  map_err Http
    (build body
       (header (header_name_try_from (session_key config)) (uuid_to_string session_id)
          (header (Ok CONTENT_TYPE) "application/octet-stream"
             (header (Ok HOST) (proxy_host config)
                (builder method (request_uri config path)))))).

Definition create_read_request (config : DomainFronting) (session_id : Uuid) (path : Uuid)
  : result Error Request :=
  map_err Http
    (build []
       (header (header_name_try_from (session_key config)) (uuid_to_string session_id)
          (header (Ok ACCEPT) "*/*"
             (header (Ok HOST) (proxy_host config)
                (builder GET (request_uri config path)))))).

(** * [pump_outgoing] *)

(** At [request_rx.recv()]; at [send_request(request)]; returned. *)
Inductive Outgoing : Type :=
| OutRecv (first : bool)
| OutSend (request : Request)
| OutDone (res : result Error unit).

(** [request_rx.recv()] returned: [None] when the sender was dropped or closed. *)
Definition out_recv (config : DomainFronting) (session_id : Uuid) (chunk : option bytes)
    (path : Uuid) (first : bool) : Outgoing :=
  match chunk with
  | None => OutDone (Ok tt)
  | Some chunk =>
      match create_write_request config session_id chunk first path with
      | Err e => OutDone (Err e)
      | Ok request => OutSend request
      end
  end.

(** [send_request(request)] returned a status or an error. *)
Definition out_response (res : result HyperErr StatusCode) : Outgoing :=
  match res with
  | Err e => OutDone (Err (Hyper e))
  | Ok status =>
      if decide (status = NO_CONTENT) then OutRecv false else OutDone (Err (HttpStatusCode status))
  end.

(** * [pump_incoming] *)

(** A body frame holds data, or trailers, for which [into_data] fails. *)
Inductive BodyFrame : Type := DataFrame (data : bytes) | TrailersFrame.

(** At the top of the outer loop; at [send_request(read_request)]; at [body.frame()]; at
    [response_tx.send(item)]; returned. *)
Inductive Incoming : Type :=
| InStart
| InSend (request : Request)
| InBody
| InTx (item : result HyperErr bytes)
| InDone (res : result Error unit).

Definition in_start (config : DomainFronting) (session_id : Uuid) (path : Uuid) : Incoming :=
  match create_read_request config session_id path with
  | Err e => InDone (Err e)
  | Ok request => InSend request
  end.

Definition in_response (res : result HyperErr StatusCode) : Incoming :=
  match res with
  | Err e => InDone (Err (Hyper e))
  | Ok status => if is_success status then InBody else InDone (Err (HttpStatusCode status))
  end.

(** [body.frame()] returned; an empty data frame ends the response like its end does. *)
Definition in_frame (frame : option (result HyperErr BodyFrame)) : Incoming :=
  match frame with
  | None => InStart
  | Some (Err e) => InTx (Err e)
  | Some (Ok TrailersFrame) => InBody
  | Some (Ok (DataFrame [])) => InStart
  | Some (Ok (DataFrame data)) => InTx (Ok data)
  end.

(** [response_tx.send(item)] returned; it fails when the reader is gone. *)
Definition in_sent (item : result HyperErr bytes) (accepted : bool) : Incoming :=
  match item with
  | Err _ => InDone (Ok tt)
  | Ok _ => if accepted then InBody else InDone (Ok tt)
  end.

(** * The background task *)

(** The task of [start_proxy]: the two pumps and the HTTP connection future. The ghost
    fields record what went through. *)
Record IoTask : Type := mkIoTask {
  io_in : Incoming;
  io_out : Outgoing;
  io_conn : Poll (result Error unit);
  io_chunks : list bytes;                  (* ghost: chunks [recv] returned *)
  io_posts : list Request;                 (* ghost: write requests sent *)
  io_acks : nat;                           (* ghost: 204 responses *)
  io_gets : list Request;                  (* ghost: read requests sent *)
  io_frames : list bytes;                  (* ghost: non-empty data frames received *)
  io_items : list (result HyperErr bytes); (* ghost: items the reader took *)
}.

(** [start_proxy]: the task as it is spawned. *)
Definition start_proxy : IoTask :=
  mkIoTask InStart (OutRecv true) Pending [] [] 0 [] [] [].

Definition in_result (i : Incoming) : Poll (result Error unit) :=
  match i with InDone r => Ready r | _ => Pending end.
Definition out_result (o : Outgoing) : Poll (result Error unit) :=
  match o with OutDone r => Ready r | _ => Pending end.

(** [try_join(pump_incoming, pump_outgoing)] and [try_join(conn, pump).map_ok(|_| ())] *)
Definition pump_result (t : IoTask) : Poll (result Error (unit * unit)) :=
  try_join (in_result (io_in t)) (out_result (io_out t)).
Definition io_result (t : IoTask) : Poll (result Error unit) :=
  match try_join (io_conn t) (pump_result t) with
  | Pending => Pending
  | Ready (Ok _) => Ready (Ok tt)
  | Ready (Err e) => Ready (Err e)
  end.

Definition set_in (i : Incoming) (t : IoTask) : IoTask :=
  mkIoTask i (io_out t) (io_conn t) (io_chunks t) (io_posts t) (io_acks t) (io_gets t)
    (io_frames t) (io_items t).
Definition set_out (o : Outgoing) (t : IoTask) : IoTask :=
  mkIoTask (io_in t) o (io_conn t) (io_chunks t) (io_posts t) (io_acks t) (io_gets t)
    (io_frames t) (io_items t).

Definition set_conn (c : Poll (result Error unit)) (t : IoTask) : IoTask :=
  mkIoTask (io_in t) (io_out t) c (io_chunks t) (io_posts t) (io_acks t) (io_gets t)
    (io_frames t) (io_items t).

(** What the task may be woken by. *)
Inductive io_label : Type :=
| IoRecv (chunk : option bytes) (path : Uuid)              (* a chunk to send, or the end *)
| IoAck (res : result HyperErr StatusCode)                 (* the response to a write request *)
| IoGet (path : Uuid)                                      (* the outer loop starts again *)
| IoResponse (res : result HyperErr StatusCode)            (* the response to a read request *)
| IoFrame (frame : option (result HyperErr BodyFrame))     (* its body yields *)
| IoSent (accepted : bool)                                 (* the item was taken, or not *)
| IoConn (res : result Error unit).                        (* the connection future ends *)

Definition record_recv (chunk : option bytes) (t : IoTask) : IoTask :=
  mkIoTask (io_in t) (io_out t) (io_conn t)
    (io_chunks t ++ match chunk with Some c => [c] | None => [] end)
    (io_posts t ++ match io_out t with OutSend r => [r] | _ => [] end)
    (io_acks t) (io_gets t) (io_frames t) (io_items t).
Definition record_ack (t : IoTask) : IoTask :=
  mkIoTask (io_in t) (io_out t) (io_conn t) (io_chunks t) (io_posts t)
    (match io_out t with OutRecv _ => S (io_acks t) | _ => io_acks t end)
    (io_gets t) (io_frames t) (io_items t).
Definition record_get (t : IoTask) : IoTask :=
  mkIoTask (io_in t) (io_out t) (io_conn t) (io_chunks t) (io_posts t) (io_acks t)
    (io_gets t ++ match io_in t with InSend r => [r] | _ => [] end) (io_frames t) (io_items t).
Definition record_frame (t : IoTask) : IoTask :=
  mkIoTask (io_in t) (io_out t) (io_conn t) (io_chunks t) (io_posts t) (io_acks t) (io_gets t)
    (io_frames t ++ match io_in t with InTx (Ok d) => [d] | _ => [] end) (io_items t).
Definition record_item (item : result HyperErr bytes) (accepted : bool) (t : IoTask) : IoTask :=
  mkIoTask (io_in t) (io_out t) (io_conn t) (io_chunks t) (io_posts t) (io_acks t) (io_gets t)
    (io_frames t) (io_items t ++ if accepted then [item] else []).

(** A step of the task, while it has not finished. *)
Definition io_step (config : DomainFronting) (session_id : Uuid) (t : IoTask) (l : io_label)
  : option IoTask :=
  match io_result t with
  | Ready _ => None
  | Pending =>
      match l, io_out t, io_in t with
      | IoRecv chunk path, OutRecv first, _ =>
          Some (record_recv chunk (set_out (out_recv config session_id chunk path first) t))
      | IoAck res, OutSend _, _ => Some (record_ack (set_out (out_response res) t))
      | IoGet path, _, InStart => Some (record_get (set_in (in_start config session_id path) t))
      | IoResponse res, _, InSend _ => Some (set_in (in_response res) t)
      | IoFrame frame, _, InBody => Some (record_frame (set_in (in_frame frame) t))
      | IoSent accepted, _, InTx item =>
          Some (record_item item accepted (set_in (in_sent item accepted) t))
      | IoConn res, _, _ =>
          match io_conn t with
          | Pending => Some (set_conn (Ready res) t)
          | Ready _ => None
          end
      | _, _, _ => None
      end
  end.
End Client.
