(* ===== verification/ClientProps.v ===== *)
(** The client's request loop is correct: its requests reach the session they are for,
    chunks are sent and data is received in order and one at a time, and the task ends
    for the reasons the code gives. *)
From S2P Require Import Prelude Ext DomainFronting Stats State Session Server Client.
Import Concrete.

Section Requests.
Context `{UuidLib, HttpLib, FuturesLib, !UuidLaws, !HttpLaws}.

Lemma header_ok name value b head n v :
  b = Ok head → name = Ok n → header_value_try_from value = Ok v →
  header name value b = Ok (mkHead (head_method head) (head_uri head) (head_headers head ++ [(n, v)])).
Proof. intros -> -> Hv. unfold header. simpl. by rewrite Hv. Qed.

Lemma header_inv name value b head' :
  header name value b = Ok head' → ∃ head n v, b = Ok head ∧ name = Ok n ∧
    header_value_try_from value = Ok v ∧
    head' = mkHead (head_method head) (head_uri head) (head_headers head ++ [(n, v)]).
Proof.
  unfold header. intros Hh. destruct b as [head|], name as [n|], (header_value_try_from value) as [v|] eqn:Ev;
    simplify_eq/=. by eauto 10.
Qed.

Lemma builder_inv method uri head :
  builder method uri = Ok head → head_method head = method ∧ head_headers head = [].
Proof. unfold builder. destruct (uri_try_from uri); intros; by simplify_eq/=. Qed.

Lemma build_inv body b request :
  build body b = Ok request → ∃ head, b = Ok head ∧ request = mkRequest head body.
Proof. unfold build. destruct b; intros; simplify_eq/=. by eauto. Qed.

Lemma map_err_ok {E F A} (f : E → F) (r : result E A) a : map_err f r = Ok a → r = Ok a.
Proof. destruct r; intros; by simplify_eq/=. Qed.

(** The three headers of a request and its method. *)
Lemma create_write_inv config sid body can path request :
  create_write_request config sid body can path = Ok request →
  ∃ n key ct host, header_name_try_from (session_key config) = Ok n ∧
    header_value_try_from (uuid_to_string sid) = Ok key ∧
    req_body request = body ∧ head_method (req_head request) = (if can then POST else PATCH) ∧
    head_headers (req_head request) = [(HOST, host); (CONTENT_TYPE, ct); (n, key)].
Proof.
  unfold create_write_request. intros (h1 & Hh & ->)%map_err_ok%build_inv.
  apply header_inv in Hh as (h2 & n & key & Hh & Hn & Hk & ->).
  apply header_inv in Hh as (h3 & n3 & ct & Hh & [= <-] & _ & ->).
  apply header_inv in Hh as (h4 & n4 & host & Hh & [= <-] & _ & ->).
  apply builder_inv in Hh as [Hm Hhd]. simpl. rewrite Hhd, Hm. eauto 10.
Qed.

Lemma create_read_inv config sid path request :
  create_read_request config sid path = Ok request →
  ∃ n key acc host, header_name_try_from (session_key config) = Ok n ∧
    header_value_try_from (uuid_to_string sid) = Ok key ∧
    req_body request = [] ∧ head_method (req_head request) = GET ∧
    head_headers (req_head request) = [(HOST, host); (ACCEPT, acc); (n, key)].
Proof.
  unfold create_read_request. intros (h1 & Hh & ->)%map_err_ok%build_inv.
  apply header_inv in Hh as (h2 & n & key & Hh & Hn & Hk & ->).
  apply header_inv in Hh as (h3 & n3 & acc & Hh & [= <-] & _ & ->).
  apply header_inv in Hh as (h4 & n4 & host & Hh & [= <-] & _ & ->).
  apply builder_inv in Hh as [Hm Hhd]. simpl. rewrite Hhd, Hm. eauto 10.
Qed.

Lemma session_header_found n m host x key sid (cfg : Config) head :
  cfg_session_key cfg = x → header_name_try_from x = Ok n → n ≠ HOST → n ≠ m →
  header_value_try_from (uuid_to_string sid) = Ok key →
  (∃ v, head_headers head = [(HOST, host); (m, v); (n, key)]) →
  parse_session_id cfg head = Some sid.
Proof.
  intros Hx Hn Hh Hm Hk [v Hhd]. unfold parse_session_id, header_get. rewrite Hx, Hn, Hhd. simpl.
  rewrite !decide_False by done. rewrite decide_True by done. simpl.
  rewrite (header_value_to_str _ _ Hk). simpl. apply uuid_parse_print.
Qed.

(** Both sides use the same header name, and it is not one the client sets itself. *)
Definition keys_agree (config : DomainFronting) (cfg : Config) (n : HeaderName) : Prop :=
  cfg_session_key cfg = session_key config ∧ header_name_try_from (session_key config) = Ok n ∧
  n ≠ HOST ∧ n ≠ CONTENT_TYPE ∧ n ≠ ACCEPT.

Lemma write_request_session config cfg n sid body can path request :
  keys_agree config cfg n → create_write_request config sid body can path = Ok request →
  parse_session_id cfg (req_head request) = Some sid ∧
  head_method (req_head request) = (if can then POST else PATCH) ∧ req_body request = body.
Proof.
  intros (Hkey & Hn & Hh & Hc & Ha) Hreq.
  destruct (create_write_inv _ _ _ _ _ _ Hreq) as (n' & key & ct & host & Hn' & Hk & Hb & Hm & Hhd).
  rewrite Hn in Hn'. injection Hn' as <-. split; [|done].
  eapply (session_header_found n CONTENT_TYPE host _ key _ _ _ Hkey Hn Hh Hc Hk). by exists ct.
Qed.

Lemma read_request_session config cfg n sid path request :
  keys_agree config cfg n → create_read_request config sid path = Ok request →
  parse_session_id cfg (req_head request) = Some sid ∧
  head_method (req_head request) = GET ∧ req_body request = [].
Proof.
  intros (Hkey & Hn & Hh & Hc & Ha) Hreq.
  destruct (create_read_inv _ _ _ _ Hreq) as (n' & key & acc & host & Hn' & Hk & Hb & Hm & Hhd).
  rewrite Hn in Hn'. injection Hn' as <-. split; [|done].
  eapply (session_header_found n ACCEPT host _ key _ _ _ Hkey Hn Hh Ha Hk). by exists acc.
Qed.

(** C31. The server finds the session of every request the client builds. If both sides
    use the same header name, and it is not one of the names the client sets itself
    ([Host], [Content-Type], [Accept]), then from the head of a request that the client
    built for a session, the server parses exactly that session's identifier. The method is
    [POST] for the request that may open the session, [PATCH] for the other writes, and
    [GET] for reads; the body is the chunk, or empty. *)
Theorem session_id_roundtrip (config : DomainFronting) (cfg : Config) sid n :
  keys_agree config cfg n →
  (∀ body can path request, create_write_request config sid body can path = Ok request →
     parse_session_id cfg (req_head request) = Some sid ∧
     parse_method (head_method (req_head request)) = Ok (if can then Post else Patch) ∧
     req_body request = body) ∧
  (∀ path request, create_read_request config sid path = Ok request →
     parse_session_id cfg (req_head request) = Some sid ∧
     parse_method (head_method (req_head request)) = Ok Get ∧ req_body request = []).
Proof.
  intros Hk. split.
  - intros body can path request Hreq.
    destruct (write_request_session _ _ _ _ _ _ _ _ Hk Hreq) as (Hs & -> & Hb). by destruct can.
  - intros path request Hreq. by destruct (read_request_session _ _ _ _ _ _ Hk Hreq) as (Hs & -> & Hb).
Qed.
End Requests.

Section Pumps.
Context `{UuidLib, HttpLib, FuturesLib, !FuturesLaws}.
Variable config : DomainFronting.
Variable sid : Uuid.

Abbreviation step := (io_step config sid).

(** * Outgoing data *)

(** The [i]-th write request is built from the [i]-th chunk; only the first may open the
    session. *)
Definition posts_built (posts : list Request) : Prop :=
  ∀ i r, posts !! i = Some r →
    ∃ path, create_write_request config sid (req_body r) (bool_decide (i = 0)) path = Ok r.

Definition out_wf (t : IoTask) : Prop :=
  posts_built (io_posts t) ∧
  match io_out t with
  | OutRecv first =>
      req_body <$> io_posts t = io_chunks t ∧ io_acks t = length (io_posts t) ∧
      first = bool_decide (io_posts t = [])
  | OutSend r =>
      req_body <$> io_posts t = io_chunks t ∧ length (io_posts t) = S (io_acks t)
  | OutDone _ =>
      (∃ lost, io_chunks t = (req_body <$> io_posts t) ++ lost ∧ length lost ≤ 1) ∧
      length (io_posts t) ≤ S (io_acks t)
  end.

Lemma posts_built_snoc posts r path first :
  posts_built posts → first = bool_decide (posts = []) →
  create_write_request config sid (req_body r) first path = Ok r → posts_built (posts ++ [r]).
Proof.
  intros Hp -> Hr i r' [Hi|[Hlen Hi]]%lookup_app_Some; [by apply Hp|].
  apply list_lookup_singleton_Some in Hi as [Hi <-]. exists path.
  replace (bool_decide (i = 0)) with (bool_decide (posts = [])); [done|].
  apply bool_decide_ext. destruct posts; simpl in *; split; intros; (done || lia).
Qed.

(** The steps of the task, one rule for each await. *)
Inductive io_trans (t : IoTask) : io_label → IoTask → Prop :=
| io_recv chunk path first : io_out t = OutRecv first →
    io_trans t (IoRecv chunk path) (record_recv chunk (set_out (out_recv config sid chunk path first) t))
| io_ack res r : io_out t = OutSend r →
    io_trans t (IoAck res) (record_ack (set_out (out_response res) t))
| io_get path : io_in t = InStart →
    io_trans t (IoGet path) (record_get (set_in (in_start config sid path) t))
| io_response res r : io_in t = InSend r →
    io_trans t (IoResponse res) (set_in (in_response res) t)
| io_frame frame : io_in t = InBody →
    io_trans t (IoFrame frame) (record_frame (set_in (in_frame frame) t))
| io_sent accepted item : io_in t = InTx item →
    io_trans t (IoSent accepted) (record_item item accepted (set_in (in_sent item accepted) t))
| io_conn_done res : io_conn t = Pending →
    io_trans t (IoConn res) (set_conn (Ready res) t).

Lemma io_step_trans t l t' : step t l = Some t' → io_trans t l t'.
Proof.
  unfold io_step. destruct (io_result t); [|done].
  destruct l; [..|destruct (io_conn t) eqn:?]; destruct (io_out t) eqn:?, (io_in t) eqn:?;
    intros [= <-]; (eapply io_recv || eapply io_ack || eapply io_get || eapply io_response
      || eapply io_frame || eapply io_sent || eapply io_conn_done); eassumption.
Qed.

Lemma out_wf_step t l t' : out_wf t → step t l = Some t' → out_wf t'.
Proof.
  intros [Hp Ho] Hs%io_step_trans. unfold out_wf. inversion Hs as
    [chunk path first Eo|res r Eo|path Ei|res r Ei|frame Ei|acc item Ei|res Ec]; subst; clear Hs; simpl; try done.
  - rewrite Eo in Ho. destruct Ho as (Hb & Hack & Hf). unfold out_recv. destruct chunk as [c|].
    2:{ rewrite !app_nil_r. split; [done|]. split; [|lia]. exists []. rewrite Hb, app_nil_r. split; [done|simpl; lia]. }
    destruct (create_write_request config sid c first path) as [r|e] eqn:Er.
    + destruct (create_write_inv _ _ _ _ _ _ Er) as (_ & _ & _ & _ & _ & _ & Hbody & _).
      split; [by eapply posts_built_snoc; [..|rewrite Hbody]|].
      rewrite fmap_app, length_app, Hb, Hack. simpl. rewrite Hbody. split; [done|lia].
    + rewrite app_nil_r. split; [done|]. split; [|lia]. exists [c]. rewrite Hb. split; [done|simpl; lia].
  - rewrite Eo in Ho. destruct Ho as (Hb & Hlen). split; [done|].
    unfold out_response. destruct res as [status|e]; [case_decide|]; simpl.
    + split; [done|]. split; [done|]. symmetry. apply bool_decide_eq_false. by destruct (io_posts t).
    + split; [|lia]. exists []. rewrite Hb, app_nil_r. split; [done|simpl; lia].
    + split; [|lia]. exists []. rewrite Hb, app_nil_r. split; [done|simpl; lia].
Qed.

(** * Incoming data *)

Definition gets_built (gets : list Request) : Prop :=
  ∀ r, r ∈ gets → ∃ path, create_read_request config sid path = Ok r.

Definition in_wf (t : IoTask) : Prop :=
  gets_built (io_gets t) ∧
  match io_in t with
  | InTx (Ok d) => ∃ l, io_frames t = l ++ [d] ∧ io_items t = Ok <$> l
  | InDone _ => ∃ l lost err, io_frames t = l ++ lost ∧ io_items t = (Ok <$> l) ++ err ∧
      (lost = [] ∧ (err = [] ∨ ∃ e, err = [Err e]) ∨ err = [] ∧ length lost = 1)
  | _ => io_items t = Ok <$> io_frames t
  end.

Lemma in_done_nil (t : IoTask) :
  io_items t = Ok <$> io_frames t → ∃ l lost err, io_frames t = l ++ lost ∧ io_items t = (Ok <$> l) ++ err ∧
      (lost = [] ∧ (err = [] ∨ ∃ e, err = [Err e]) ∨ err = [] ∧ length lost = 1).
Proof. intros E. exists (io_frames t), [], []. rewrite !app_nil_r. split; [done|]. split; [done|]. auto. Qed.

Lemma in_wf_step t l t' : in_wf t → step t l = Some t' → in_wf t'.
Proof.
  intros [Hg Hi] Hs%io_step_trans. unfold in_wf. inversion Hs as
    [chunk path first Eo|res r Eo|path Ei|res r Ei|frame Ei|acc item Ei|res Ec]; subst; clear Hs; simpl; try done.
  all: rewrite Ei in Hi.
  - unfold in_start. destruct (create_read_request config sid path) as [r|e] eqn:Er.
    + split; [|done]. intros x [Hx|Hx%list_elem_of_singleton]%elem_of_app; subst; eauto.
    + rewrite app_nil_r. split; [done|]. by apply in_done_nil.
  - split; [done|]. unfold in_response. destruct res as [status|e]; [destruct (is_success status)|];
      auto using in_done_nil.
  - split; [done|]. unfold in_frame. destruct frame as [[[[|b d]|]|e]|]; rewrite ?app_nil_r; eauto.
  - split; [done|]. unfold in_sent. destruct item as [d|e].
    + destruct Hi as (l & Hf & Hit). destruct acc.
      * by rewrite Hf, Hit, fmap_app.
      * exists l, [d], []. rewrite !app_nil_r. split; [done|]. split; [done|]. auto.
    + exists (io_frames t), [], (if acc then [Err e] else []). rewrite app_nil_r, Hi.
      split; [done|]. split; [done|]. left. split; [done|]. destruct acc; eauto.
Qed.

(** * Why the task ends *)

Definition end_wf (ls : list io_label) (t : IoTask) : Prop :=
  (io_out t = OutDone (Ok tt) → ∃ path, IoRecv None path ∈ ls) ∧
  (∀ e, io_in t = InTx (Err e) → IoFrame (Some (Err e)) ∈ ls) ∧
  (io_in t = InDone (Ok tt) → (∃ e, IoFrame (Some (Err e)) ∈ ls) ∨ IoSent false ∈ ls) ∧
  (∀ res, io_conn t = Ready res → IoConn res ∈ ls).

Lemma end_wf_step ls t l t' : end_wf ls t → step t l = Some t' → end_wf (ls ++ [l]) t'.
Proof.
  intros (Ho & Ht & Hi & Hc) Hs%io_step_trans. unfold end_wf.
  assert (Hin : l ∈ ls ++ [l]) by set_solver.
  assert (Hold : ∀ x, x ∈ ls → x ∈ ls ++ [l]) by set_solver.
  assert (Hkeep : end_wf (ls ++ [l]) t) by (unfold end_wf; naive_solver).
  destruct Hkeep as (Ho' & Ht' & Hi' & Hc').
  inversion Hs as [chunk path first Eo|res r Eo|path Ei|res r Ei|frame Ei|acc item Ei|res Ec];
    subst; clear Hs; simpl; repeat split; auto.
  - unfold out_recv. destruct chunk; [|by eauto].
    by destruct (create_write_request _ _ _ _ _).
  - unfold out_response. destruct res; [case_decide|]; done.
  - unfold in_start. by destruct (create_read_request config sid path).
  - unfold in_start. by destruct (create_read_request config sid path).
  - unfold in_response. by destruct res; [destruct (is_success _)|].
  - unfold in_response. by destruct res; [destruct (is_success _)|].
  - unfold in_frame. intros e. destruct frame as [[[[|]|]|]|]; intros; by simplify_eq.
  - unfold in_frame. by destruct frame as [[[[|]|]|]|].
  - unfold in_sent. by destruct item, acc.
  - unfold in_sent. destruct item as [|e]; [destruct acc; [done|by auto]|].
    intros _. left. exists e. auto.
  - congruence.
Qed.

(** * The labels of a schedule *)

(** The chunks handed to the task, the data frames it received (an empty one is the end
    of a response), and the number of its writes that were answered [204]. *)
Definition chunks_of (ls : list io_label) : list bytes :=
  omap (λ l, match l with IoRecv c _ => c | _ => None end) ls.
Definition frames_of (ls : list io_label) : list bytes :=
  omap (λ l, match l with IoFrame (Some (Ok (DataFrame (b :: d)))) => Some (b :: d) | _ => None end) ls.
Definition acks_of (ls : list io_label) : list StatusCode :=
  omap (λ l, match l with IoAck (Ok c) => if decide (c = NO_CONTENT) then Some c else None | _ => None end) ls.

Definition trace_wf (ls : list io_label) (t : IoTask) : Prop :=
  io_chunks t = chunks_of ls ∧ io_frames t = frames_of ls ∧ io_acks t = length (acks_of ls).

Lemma trace_wf_step ls t l t' : trace_wf ls t → step t l = Some t' → trace_wf (ls ++ [l]) t'.
Proof.
  intros (Hc & Hf & Ha) Hs%io_step_trans. unfold trace_wf, chunks_of, frames_of, acks_of in *.
  rewrite !omap_app, length_app, <- Hc, <- Hf, <- Ha.
  inversion Hs as [chunk path first Eo|res r Eo|path Ei|res r Ei|frame Ei|acc item Ei|res Ec];
    subst; clear Hs; simpl; rewrite ?app_nil_r, ?Nat.add_0_r; try done.
  - unfold out_response. destruct res as [c|]; [case_decide|]; simpl; repeat split; lia.
  - unfold in_frame. by destruct frame as [[[[|]|]|]|].
Qed.

Lemma client_run_wf ls t :
  run step start_proxy ls = Some t → out_wf t ∧ in_wf t ∧ end_wf ls t ∧ trace_wf ls t.
Proof.
  revert ls t. apply (run_ind_r step (λ ls t, out_wf t ∧ in_wf t ∧ end_wf ls t ∧ trace_wf ls t)).
  - repeat split; simpl; try done; intros; set_solver.
  - intros ls t l t' _ (Ho & Hi & He & Htr) Hs. split; [by eapply out_wf_step|].
    split; [by eapply in_wf_step|]. split; [by eapply end_wf_step|by eapply trace_wf_step].
Qed.

(** The request that is being sent is the last one. *)
Definition sending_wf (t : IoTask) : Prop :=
  (∀ r, io_out t = OutSend r → last (io_posts t) = Some r) ∧
  (∀ r, io_in t = InSend r → last (io_gets t) = Some r).

Lemma sending_wf_step t l t' : sending_wf t → step t l = Some t' → sending_wf t'.
Proof.
  intros [Ho Hi] Hs%io_step_trans. unfold sending_wf. inversion Hs as
    [chunk path first Eo|res r Eo|path Ei|res r Ei|frame Ei|acc item Ei|res Ec]; subst; clear Hs; simpl; try done.
  - split; [|done]. intros r ->. apply last_snoc.
  - split; [|done]. unfold out_response. destruct res; [case_decide|]; done.
  - split; [done|]. intros r ->. apply last_snoc.
  - split; [done|]. unfold in_response. destruct res; [destruct (is_success _)|]; done.
  - split; [done|]. unfold in_frame. by destruct frame as [[[[|]|]|]|].
  - split; [done|]. unfold in_sent. by destruct item, acc.
Qed.

Lemma sending_run ls t : run step start_proxy ls = Some t → sending_wf t.
Proof. apply (run_invariant step sending_wf); [|done]. intros *. apply sending_wf_step. Qed.

(** C40. Outgoing data. The bodies of the write requests the client sends are the chunks
    it was given, one request for each, in order (a chunk is dropped only if its
    request could not be built, which ends the task); the first request is the only
    [POST] and the others are [PATCH]es, all for the connection's session; and a request
    is only sent when every earlier one has been answered [204 No Content]. *)
Theorem outgoing_in_order ls t :
  run step start_proxy ls = Some t →
  (∃ lost, chunks_of ls = (req_body <$> io_posts t) ++ lost ∧ length lost ≤ 1 ∧
     (lost ≠ [] → ∃ e, io_out t = OutDone e)) ∧
  (∀ i r, io_posts t !! i = Some r →
     ∃ path, create_write_request config sid (req_body r) (bool_decide (i = 0)) path = Ok r ∧
       head_method (req_head r) = (if bool_decide (i = 0) then POST else PATCH)) ∧
  length (io_posts t) ≤ S (length (acks_of ls)).
Proof.
  intros ([Hb Ho] & _ & _ & (<- & _ & <-))%client_run_wf. split; [|split].
  - destruct (io_out t) as [first|r|res].
    + exists []. rewrite app_nil_r. destruct Ho as (-> & _). split; [done|]. split; [simpl; lia|done].
    + exists []. rewrite app_nil_r. destruct Ho as (-> & _). split; [done|]. split; [simpl; lia|done].
    + destruct Ho as [(lost & -> & Hl) _]. eauto 10.
  - intros i r Hi. destruct (Hb i r Hi) as [path Hr]. exists path. split; [done|].
    by destruct (create_write_inv _ _ _ _ _ _ Hr) as (? & ? & ? & ? & _ & _ & _ & ? & _).
  - destruct (io_out t); destruct Ho; lia.
Qed.

(** Incoming data. What the reader of the connection gets are the data frames of the
    response bodies, all of them and in order, across responses; if a body fails, the
    failure is the last item the reader gets. The one frame that may be missing is the
    one the reader refused, or is about to take. *)
Theorem incoming_in_order ls t :
  run step start_proxy ls = Some t →
  ∃ got lost err, frames_of ls = got ++ lost ∧ io_items t = (Ok <$> got) ++ err ∧
    length lost ≤ 1 ∧ (err = [] ∨ (∃ e, err = [Err e]) ∧ lost = [] ∧ ∃ res, io_in t = InDone res) ∧
    (lost ≠ [] → ∃ d, lost = [d] ∧ (io_in t = InTx (Ok d) ∨ ∃ res, io_in t = InDone res)).
Proof.
  intros (_ & [_ Hi] & _ & (_ & <- & _))%client_run_wf.
  destruct (io_in t) as [| r| |[d|e]|res].
  all: try (exists (io_frames t), [], []; rewrite !app_nil_r, Hi; simpl;
            split; [done|]; split; [done|]; split; [lia|]; split; [by left|done]).
  - destruct Hi as (l & -> & ->). exists l, [d], []. rewrite app_nil_r. simpl.
    split; [done|]. split; [done|]. split; [lia|]. split; [by auto|]. by eauto.
  - destruct Hi as (l & lost & err & -> & -> & Hl). exists l, lost, err.
    split; [done|]. split; [done|]. destruct Hl as [[-> He]|[-> Hlen]].
    + split; [simpl; lia|]. split; [|done]. destruct He as [->|?]; [by left|right]. eauto.
    + split; [lia|]. split; [by left|]. intros _. destruct lost as [|d [|]]; simplify_eq/=. eauto 10.
Qed.

Lemma try_join_ok_inv {E A B} (x : Poll (result E A)) (y : Poll (result E B)) p :
  try_join x y = Ready (Ok p) → ∃ a b, x = Ready (Ok a) ∧ y = Ready (Ok b).
Proof.
  destruct x as [|[a|e]].
  - destruct y as [|[b|e]]; [by rewrite try_join_wait_l by done..|by rewrite try_join_err_r by done].
  - destruct y as [|[b|e]]; [by rewrite try_join_wait_r| by eauto|by rewrite try_join_err_r by done].
  - by rewrite try_join_err_l.
Qed.

Lemma ended_ok ls t :
  end_wf ls t → io_result t = Ready (Ok tt) →
  (∃ path, IoRecv None path ∈ ls) ∧
  ((∃ e, IoFrame (Some (Err e)) ∈ ls) ∨ IoSent false ∈ ls) ∧ IoConn (Ok tt) ∈ ls.
Proof.
  intros (Ho & _ & Hi & Hc) Hres. unfold io_result in Hres.
  destruct (try_join (io_conn t) (pump_result t)) as [|[p|e]] eqn:Ej; simplify_eq.
  apply try_join_ok_inv in Ej as (c & q & Hconn & Hpump).
  apply try_join_ok_inv in Hpump as (i & o & Hin & Hout). destruct c, i, o.
  destruct (io_in t) as [| | | |r]; simplify_eq/=. destruct (io_out t) as [| |r]; simplify_eq/=.
  auto.
Qed.
End Pumps.

(** * The theorems at work *)

Definition demo_front : DomainFronting :=
  new (mkUri "https://cdn.example.com" (Some "https"%string) (Some "cdn.example.com"%string) None)
    "api.example.com".
Definition demo_sid : Uuid := 7%N.
Definition hi : bytes := String.list_byte_of_string "hi".
Definition there : bytes := String.list_byte_of_string "there".

(** The task sends two chunks and gets two responses with one frame each. *)
Definition demo_io : list io_label :=
  [IoRecv (Some hi) 1%N; IoGet 2%N; IoResponse (Ok OK_200); IoAck (Ok NO_CONTENT);
   IoFrame (Some (Ok (DataFrame there))); IoRecv (Some there) 3%N; IoSent true; IoFrame None;
   IoGet 4%N; IoResponse (Ok OK_200); IoFrame (Some (Ok (DataFrame hi)))].
Definition io_after (ls : list io_label) : IoTask :=
  final (io_step demo_front demo_sid) start_proxy ls.

(** The head of the first write request. *)
Definition demo_request : Request :=
  match create_write_request demo_front demo_sid hi true 1%N with
  | Ok request => request
  | Err _ => mkRequest (mkHead GET (mkUri "" None None None) []) []
  end.

Lemma session_id_roundtrip_witness :
  create_write_request demo_front demo_sid hi true 1%N = Ok demo_request ∧
  parse_session_id (Config_new (mkSocketAddr (V4 0) 80) 45 30) (req_head demo_request) = Some demo_sid.
Proof.
  assert (Hreq : create_write_request demo_front demo_sid hi true 1%N = Ok demo_request) by by_vm.
  split; [exact Hreq|].
  destruct (session_id_roundtrip demo_front (Config_new (mkSocketAddr (V4 0) 80) 45 30) demo_sid
              "x-session"%string) as [Hw _]; [repeat split; discriminate|].
  apply (Hw hi true 1%N demo_request Hreq).
Defined.

Lemma outgoing_in_order_witness :
  req_body <$> io_posts (io_after demo_io) = [hi; there] ∧
  length (io_posts (io_after demo_io)) ≤ S (length (acks_of demo_io)).
Proof.
  split; [by_vm|]. apply (outgoing_in_order demo_front demo_sid demo_io (io_after demo_io)).
  apply run_final. by_vm.
Defined.

Lemma incoming_in_order_witness :
  io_frames (io_after demo_io) = [there; hi] ∧ ∃ got lost err, io_frames (io_after demo_io) = got ++ lost ∧
    io_items (io_after demo_io) = (Ok <$> got) ++ err ∧ length lost ≤ 1.
Proof.
  destruct (incoming_in_order demo_front demo_sid demo_io (io_after demo_io))
    as (got & lost & err & Hf & Hi & Hl & _); [apply run_final; by_vm|].
  split; [by_vm|]. exists got, lost, err. split; [exact Hf|]. split; [exact Hi|exact Hl].
Defined.
