(* ===== verification/Adaptors.v ===== *)
(** The channels between a [ProxyConnection] and its background task, as interfaces.

    [start_proxy] in [src/src/client.rs] connects the two with adaptors of [tokio-util]: the
    user's side of the first channel is an [AsyncWrite] ([SinkWriter] over [CopyToBytes]
    over [PollSender]), the user's side of the second an [AsyncRead] ([StreamReader]).
    These crates are not part of the repository. Each channel is a class of operations,
    an observation of what it holds, and a class with the documented laws that relate the
    two. Operations that are polled return the state in which they leave the channel. *)
From S2P Require Import Prelude Ext.

(** * [mpsc::channel::<Bytes>(1)] behind a [SinkWriter] *)

Class RequestChannel := {
  ReqChan : Type;
  req_new : ReqChan;
  sink_poll_write : bytes → ReqChan → Poll (result io_error nat) * ReqChan;
  sink_poll_flush : ReqChan → Poll (result io_error unit) * ReqChan;
  sink_poll_shutdown : ReqChan → Poll (result io_error unit) * ReqChan;
  req_recv : ReqChan → Poll (option bytes) * ReqChan;    (* [Receiver::recv] *)
  req_drop_tx : ReqChan → ReqChan;                       (* the [AsyncWrite] is dropped *)
  req_drop_rx : ReqChan → ReqChan;                       (* the [Receiver] is dropped *)
  req_queue : ReqChan → list bytes;                      (* observation: what it holds *)
  req_tx_open : ReqChan → bool;                          (* observation: it can still be written *)
  req_rx_open : ReqChan → bool;                          (* observation: the receiver is there *)
}.

(** A write puts the whole buffer into the channel as one message, or nothing at all;
    messages are received in order; the end is received once the writer has been shut down or
    dropped, and everything before it has been received. A write that finds room succeeds. *)
Class RequestChannelLaws `{RequestChannel} : Prop := {
  req_new_queue : req_queue req_new = [];
  req_new_open : req_tx_open req_new = true ∧ req_rx_open req_new = true;
  write_ok buf c n c' : sink_poll_write buf c = (Ready (Ok n), c') →
    n = length buf ∧ req_queue c' = req_queue c ++ [buf] ∧ req_rx_open c = true;
  write_other buf c p c' : sink_poll_write buf c = (p, c') → (∀ n, p ≠ Ready (Ok n)) →
    req_queue c' = req_queue c;
  write_open buf c : req_tx_open (sink_poll_write buf c).2 = req_tx_open c ∧
    req_rx_open (sink_poll_write buf c).2 = req_rx_open c;
  write_room buf c : req_queue c = [] → req_tx_open c = true → req_rx_open c = true →
    (sink_poll_write buf c).1 = Ready (Ok (length buf));
  flush_keeps c : req_queue (sink_poll_flush c).2 = req_queue c ∧
    req_tx_open (sink_poll_flush c).2 = req_tx_open c ∧
    req_rx_open (sink_poll_flush c).2 = req_rx_open c;
  shutdown_keeps c : req_queue (sink_poll_shutdown c).2 = req_queue c ∧
    req_rx_open (sink_poll_shutdown c).2 = req_rx_open c;
  recv_some c d c' : req_recv c = (Ready (Some d), c') → req_queue c = d :: req_queue c';
  recv_none c c' : req_recv c = (Ready None, c') →
    req_queue c = [] ∧ req_queue c' = [] ∧ req_tx_open c = false;
  recv_pending c c' : req_recv c = (Pending, c') → req_queue c = [] ∧ req_queue c' = [];
  recv_open c : req_tx_open (req_recv c).2 = req_tx_open c ∧
    req_rx_open (req_recv c).2 = req_rx_open c;
  req_drop_tx_keeps c : req_queue (req_drop_tx c) = req_queue c ∧
    req_rx_open (req_drop_tx c) = req_rx_open c;
  req_drop_rx_keeps c : req_queue (req_drop_rx c) = [] ∧
    req_tx_open (req_drop_rx c) = req_tx_open c ∧ req_rx_open (req_drop_rx c) = false;
}.

(** * [futures::channel::mpsc::channel::<io::Result<Bytes>>(1)] behind a [StreamReader] *)

(** Sending has two parts, as [SinkExt::send] has: the item is handed over once the channel
    is ready, and then flushed. The observation is what the reader will still get, byte by
    byte. *)
Class ResponseChannel := {
  RespChan : Type;
  resp_new : RespChan;
  resp_start_send : result io_error bytes → RespChan → option RespChan;  (* [None]: not ready *)
  resp_flushed : RespChan → bool;
  reader_poll_read : nat → RespChan → Poll (result io_error bytes) * RespChan;
  resp_drop_tx : RespChan → RespChan;                    (* the [Sender] is dropped *)
  resp_drop_rx : RespChan → RespChan;                    (* the [AsyncRead] is dropped *)
  resp_items : RespChan → list (result io_error Byte.byte);
  resp_tx_open : RespChan → bool;
  resp_rx_open : RespChan → bool;
}.

(** What the reader of an item gets. *)
Definition item_bytes (item : result io_error bytes) : list (result io_error Byte.byte) :=
  match item with Ok d => Ok <$> d | Err e => [Err e] end.

(** A read gets at most as many bytes as its buffer has room for, the next ones of the
    stream; an error is returned in its place; a read waits only for an empty channel, and
    returns no bytes only for an empty buffer or at the end of the stream. *)
Class ResponseChannelLaws `{ResponseChannel} : Prop := {
  resp_new_items : resp_items resp_new = [];
  resp_new_open : resp_tx_open resp_new = true ∧ resp_rx_open resp_new = true;
  send_ok item c c' : resp_start_send item c = Some c' →
    resp_items c' = resp_items c ++ item_bytes item ∧
    resp_tx_open c' = resp_tx_open c ∧ resp_rx_open c' = resp_rx_open c;
  send_ready item c : resp_items c = [] → resp_rx_open c = true → is_Some (resp_start_send item c);
  flush_ready c : resp_items c = [] → resp_flushed c = true;
  read_ok cap c d c' : reader_poll_read cap c = (Ready (Ok d), c') →
    length d ≤ cap ∧ resp_items c = (Ok <$> d) ++ resp_items c' ∧
    (d = [] → cap = 0 ∨ resp_items c = [] ∧ resp_tx_open c = false);
  read_err cap c e c' : reader_poll_read cap c = (Ready (Err e), c') →
    resp_items c = Err e :: resp_items c';
  read_pending cap c c' : reader_poll_read cap c = (Pending, c') →
    resp_items c = [] ∧ resp_items c' = [];
  read_open cap c : resp_tx_open (reader_poll_read cap c).2 = resp_tx_open c ∧
    resp_rx_open (reader_poll_read cap c).2 = resp_rx_open c;
  resp_drop_tx_keeps c : resp_items (resp_drop_tx c) = resp_items c ∧
    resp_tx_open (resp_drop_tx c) = false ∧ resp_rx_open (resp_drop_tx c) = resp_rx_open c;
  resp_drop_rx_keeps c : resp_rx_open (resp_drop_rx c) = false ∧
    resp_tx_open (resp_drop_rx c) = resp_tx_open c;
}.

(** [io::Error::other] of a [hyper] error, whose message is printed. *)
Class HyperDisplay `{HttpLib} := { hyper_to_string : HyperErr → string }.
Definition io_other `{HyperDisplay} (e : HyperErr) : io_error := mkIoError OtherKind (hyper_to_string e).

(** What a reader gets of a list of items, and the bytes among it. *)
Definition flat (items : list (result io_error bytes)) : list (result io_error Byte.byte) :=
  concat (item_bytes <$> items).

Lemma flat_app l k : flat (l ++ k) = flat l ++ flat k.
Proof. unfold flat. by rewrite fmap_app, concat_app. Qed.

Lemma flat_one x : flat [x] = item_bytes x.
Proof. apply app_nil_r. Qed.

Lemma elem_of_flat x items : x ∈ flat items ↔ ∃ item, item ∈ items ∧ x ∈ item_bytes item.
Proof.
  unfold flat. rewrite list_elem_of_In, in_concat. split.
  - intros (l & Hl & Hx). apply list_elem_of_In, list_elem_of_fmap in Hl as (item & -> & Hin).
    exists item. split; [done|]. by apply list_elem_of_In.
  - intros (item & Hin & Hx). exists (item_bytes item). rewrite <- !list_elem_of_In. split; [|done].
    apply list_elem_of_fmap. by exists item.
Qed.

(** The bytes of a stream, without its errors. *)
Definition oks (l : list (result io_error Byte.byte)) : bytes :=
  omap (λ x, match x with Ok b => Some b | Err _ => None end) l.

Lemma oks_app l k : oks (l ++ k) = oks l ++ oks k.
Proof. apply omap_app. Qed.

Lemma oks_bytes (d : bytes) : oks ((λ b, Ok b) <$> d) = d.
Proof. induction d as [|b d IH]; [done|]. simpl. by f_equal. Qed.

Module ConcreteChannels.
(** The channels as queues: the first has room for one message, the second for one item that has
    not been read to its end. *)
Record req_chan := mkReq { rq_list : list bytes; rq_tx : bool; rq_rx : bool }.

#[export] Instance queue_requests : RequestChannel := {|
  ReqChan := req_chan;
  req_new := mkReq [] true true;
  sink_poll_write buf c :=
    if negb (rq_tx c && rq_rx c) then (Ready (Err (mkIoError OtherKind "channel closed")), c) else
    match rq_list c with
    | [] => (Ready (Ok (length buf)), mkReq [buf] true true)
    | _ => (Pending, c)
    end;
  sink_poll_flush c := (Ready (Ok ()), c);
  sink_poll_shutdown c := (Ready (Ok ()), mkReq (rq_list c) false (rq_rx c));
  req_recv c :=
    match rq_list c with
    | d :: l => (Ready (Some d), mkReq l (rq_tx c) (rq_rx c))
    | [] => (if rq_tx c then Pending else Ready None, c)
    end;
  req_drop_tx c := mkReq (rq_list c) false (rq_rx c);
  req_drop_rx c := mkReq [] (rq_tx c) false;
  req_queue := rq_list;
  req_tx_open := rq_tx;
  req_rx_open := rq_rx;
|}.

#[export] Instance queue_requests_laws : RequestChannelLaws.
Proof.
  split; simpl; try done.
  - intros buf [l [] []] n c'; simpl; intros; simplify_eq. destruct l; by simplify_eq.
  - intros buf [l [] []] p c'; simpl; intros; simplify_eq; try done. destruct l; simplify_eq; naive_solver.
  - intros buf [[|d l] [] []]; done.
  - intros buf [[|d l] [] []]; done.
  - intros [[|d l] [] []]; simpl; intros; by simplify_eq.
  - intros [[|d l] [] []]; simpl; intros; by simplify_eq.
  - intros [[|d l] [] []]; simpl; intros; by simplify_eq.
  - intros [[|d l] [] []]; done.
Qed.

(** The bytes at the head of a list of items, at most [cap], and the rest. *)
Fixpoint take_oks (cap : nat) (l : list (result io_error Byte.byte))
  : bytes * list (result io_error Byte.byte) :=
  match cap, l with
  | S cap, Ok b :: l => let (d, r) := take_oks cap l in (b :: d, r)
  | _, _ => ([], l)
  end.

Lemma take_oks_spec cap l :
  length (take_oks cap l).1 ≤ cap ∧ l = (Ok <$> (take_oks cap l).1) ++ (take_oks cap l).2.
Proof.
  revert l. induction cap as [|cap IH]; intros [|[b|e] l]; simpl; try (split; [lia|done]).
  destruct (IH l) as [Hl E]. destruct (take_oks cap l) as [d r]. simpl in *. rewrite E at 1. split; [lia|done].
Qed.

Record resp_chan := mkResp { rp_list : list (result io_error Byte.byte); rp_tx : bool; rp_rx : bool }.

#[export] Instance queue_responses : ResponseChannel := {|
  RespChan := resp_chan;
  resp_new := mkResp [] true true;
  resp_start_send item c :=
    match rp_list c, rp_rx c with
    | [], true => Some (mkResp (item_bytes item) (rp_tx c) true)
    | _, _ => None
    end;
  resp_flushed c := bool_decide (rp_list c = []) || negb (rp_rx c);
  reader_poll_read cap c :=
    match rp_list c with
    | Ok _ :: _ => let (d, r) := take_oks cap (rp_list c) in (Ready (Ok d), mkResp r (rp_tx c) (rp_rx c))
    | Err e :: l => (Ready (Err e), mkResp l (rp_tx c) (rp_rx c))
    | [] => (if rp_tx c then Pending else Ready (Ok []), c)
    end;
  resp_drop_tx c := mkResp (rp_list c) false (rp_rx c);
  resp_drop_rx c := mkResp [] (rp_tx c) false;
  resp_items := rp_list;
  resp_tx_open := rp_tx;
  resp_rx_open := rp_rx;
|}.

#[export] Instance queue_responses_laws : ResponseChannelLaws.
Proof.
  split; simpl; try done.
  - intros item [[|x l] tx []] c'; simpl; intros; by simplify_eq.
  - intros item [[|x l] tx []]; simpl; intros; simplify_eq; eauto.
  - intros [[|x l] tx rx]; simpl; intros; by simplify_eq.
  - intros cap [[|[b|e] l] tx rx] d c'; cbn [rp_list rp_tx rp_rx]; intros Hr.
    + destruct tx; simplify_eq. split; [simpl; lia|]. split; [done|]. auto.
    + pose proof (take_oks_spec cap (Ok b :: l)) as [Hl E].
      destruct (take_oks cap (Ok b :: l)) as [d' r] eqn:Et. simplify_eq/=. split; [done|]. split; [done|].
      intros ->. destruct cap as [|cap]; [by left|]. simpl in Et. by destruct (take_oks cap l).
    + done.
  - intros cap [[|[b|e'] l] tx rx] e c'; cbn [rp_list rp_tx rp_rx]; intros Hr.
    + by destruct tx.
    + by destruct (take_oks cap _).
    + by simplify_eq.
  - intros cap [[|[b|e] l] tx rx] c'; cbn [rp_list rp_tx rp_rx]; intros Hr.
    + by destruct tx; simplify_eq.
    + by destruct (take_oks cap _).
    + done.
  - intros cap [[|[b|e] l] tx rx]; cbn [rp_list rp_tx rp_rx]; [done| |done]. by destruct (take_oks cap _).
Qed.

(** The errors of the instance [Concrete.string_http] are their own messages. *)
#[export] Instance string_display : @HyperDisplay Concrete.string_http :=
  @Build_HyperDisplay Concrete.string_http (λ e : string, e).
End ConcreteChannels.
