(* ===== verification/Connection.v ===== *)
(** [ProxyConnection] as a byte stream: the [AsyncRead] and [AsyncWrite] implementations
    of [src/src/client.rs], the [check_err!] macro they share, and [Drop].

    Every operation first polls the background task. The two halves it then uses,
    [response_rx] and [request_tx], are library adaptors: what polling them returns is
    an argument. *)
From S2P Require Import Prelude Ext DomainFronting Client ClientProps.

Section Connection.
Context `{UuidLib, HttpLib, FuturesLib, !FuturesLaws}.

(** The [io::Error]s the operations return: the task failed to run, the task's own
    error wrapped by [io::Error::other], or an error of the half that was polled. *)
Inductive ConnError : Type :=
| IoJoin (e : io_error)
| IoOther (e : Error)
| IoHalf (e : io_error).

(** An operation returns, or panics. *)
Inductive Outcome (A : Type) : Type :=
| Returns (p : Poll (result ConnError A))
| Panics (msg : string).
Arguments Returns {A} p.
Arguments Panics {A} msg.

(** [check_err!($io_task, $cx)], in front of the rest of an operation; [io] is the result
    of [$io_task.poll_unpin($cx)]. *)
Definition check_err {A} (io : Poll (result io_error (result Error unit))) (rest : Outcome A)
  : Outcome A :=
  match io with
  | Ready (Err e) => Returns (Ready (Err (IoJoin e)))
  | Pending => rest
  | Ready (Ok (Err err)) => Returns (Ready (Err (IoOther err)))
  | Ready (Ok (Ok _)) => Panics "IO task will not stop while connection lives"
  end.

(** The result of polling one of the halves. *)
Definition half {A} (p : Poll (result io_error A)) : Outcome A :=
  Returns (match p with
           | Pending => Pending
           | Ready r => Ready (map_err IoHalf r)
           end).

(** [struct ProxyConnection]: its task, whether the [JoinHandle] has given its result
    away, and whether the connection has been dropped. *)
Record ProxyConnection : Type := mkConn {
  pc_task : IoTask;
  pc_taken : bool;
  pc_aborted : bool;
}.

Definition connection_new : ProxyConnection := mkConn start_proxy false false.

(** Poll the [JoinHandle] of the task. It gives the task's result once, and must not be
    polled again after that: tokio panics. *)
Definition poll_io_task (self : ProxyConnection)
  : Outcome (result Error unit) * ProxyConnection :=
  if pc_taken self then (Panics "JoinHandle polled after completion", self) else
  match io_result (pc_task self) with
  | Pending => (Returns Pending, self)
  | Ready r => (Returns (Ready (Ok r)), mkConn (pc_task self) true (pc_aborted self))
  end.

(** An operation: [check_err!], then [rest]. *)
Definition checked {A} (rest : Outcome A) (self : ProxyConnection) : Outcome A * ProxyConnection :=
  let (io, self) := poll_io_task self in
  (match io with
   | Panics msg => Panics msg
   | Returns Pending => check_err Pending rest
   | Returns (Ready (Ok r)) => check_err (Ready (Ok r)) rest
   | Returns (Ready (Err (IoJoin e))) => check_err (Ready (Err e)) rest
   | Returns (Ready (Err e)) => Returns (Ready (Err e))
   end, self).

(** [poll_read]; [inner] is what [response_rx.poll_read] returns. *)
Definition poll_read (inner : Poll (result io_error bytes)) (self : ProxyConnection)
  : Outcome bytes * ProxyConnection :=
  checked (half inner) self.

(** [poll_write]; [inner] is [request_tx.poll_write]. *)
Definition poll_write (inner : bytes → Poll (result io_error nat)) (buf : bytes)
    (self : ProxyConnection) : Outcome nat * ProxyConnection :=
  checked (half (inner buf)) self.

(** [poll_flush] *)
Definition poll_flush (inner : Poll (result io_error unit)) (self : ProxyConnection)
  : Outcome unit * ProxyConnection :=
  checked (half inner) self.

(** [poll_shutdown] *)
Definition poll_shutdown (inner : Poll (result io_error unit)) (self : ProxyConnection)
  : Outcome unit * ProxyConnection :=
  checked (half inner) self.

(** The loop of [poll_write_vectored]: [for buf in bufs { contiguous.extend_from_slice(buf) }] *)
Fixpoint extend_all (contiguous : bytes) (bufs : list bytes) : bytes :=
  match bufs with
  | [] => contiguous
  | buf :: bufs => extend_all (contiguous ++ buf) bufs
  end.

(** [poll_write_vectored] *)
Definition poll_write_vectored (inner : bytes → Poll (result io_error nat)) (bufs : list bytes)
    (self : ProxyConnection) : Outcome nat * ProxyConnection :=
  checked (half (inner (extend_all [] bufs))) self.

(** [is_write_vectored] *)
Definition is_write_vectored (self : ProxyConnection) : bool := true.

(** [Drop for ProxyConnection]: abort the task. *)
Definition drop_connection (self : ProxyConnection) : ProxyConnection :=
  mkConn (pc_task self) (pc_taken self) true.

(** The task makes a step, unless it has been aborted. *)
Definition conn_step (config : DomainFronting) (session_id : Uuid) (self : ProxyConnection)
    (l : io_label) : option ProxyConnection :=
  if pc_aborted self then None else
  (λ t, mkConn t (pc_taken self) (pc_aborted self)) <$> io_step config session_id (pc_task self) l.

(** * Properties *)

Lemma extend_all_concat acc bufs : extend_all acc bufs = acc ++ concat bufs.
Proof.
  revert acc. induction bufs as [|b bufs IH]; intros acc; simpl; [by rewrite app_nil_r|].
  by rewrite IH, <- app_assoc.
Qed.

(** C38. A vectored write is one write of the concatenation: whatever the sink does with
    it, all the buffers go into a single chunk, and so into a single HTTP request. *)
Theorem write_vectored_contiguous inner bufs self :
  poll_write_vectored inner bufs self = poll_write inner (concat bufs) self ∧
  is_write_vectored self = true.
Proof. unfold poll_write_vectored. by rewrite extend_all_concat. Qed.

(** The three things that can happen to an operation on a connection. *)
Lemma checked_cases {A} (rest : Outcome A) self :
  checked rest self =
    if pc_taken self then (Panics "JoinHandle polled after completion", self) else
    match io_result (pc_task self) with
    | Pending => (rest, self)
    | Ready (Err e) => (Returns (Ready (Err (IoOther e))), mkConn (pc_task self) true (pc_aborted self))
    | Ready (Ok _) => (Panics "IO task will not stop while connection lives",
                       mkConn (pc_task self) true (pc_aborted self))
    end.
Proof.
  unfold checked, poll_io_task. destruct (pc_taken self); [done|].
  by destruct (io_result (pc_task self)) as [|[[]|e]].
Qed.

(** * Using a connection *)

(** A call of one of the operations, with what the half that it polls has to offer. *)
Inductive ConnCall : Type :=
| CallRead (inner : Poll (result io_error bytes))
| CallWrite (inner : bytes → Poll (result io_error nat)) (buf : bytes)
| CallWriteVectored (inner : bytes → Poll (result io_error nat)) (bufs : list bytes)
| CallFlush (inner : Poll (result io_error unit))
| CallShutdown (inner : Poll (result io_error unit)).

(** The operations return three types of values; [returned] brings them into one. *)
Inductive Value : Type :=
| ReadBytes (buf : bytes)
| Written (n : nat)
| Finished.

Definition returned {A} (f : A → Value) (o : Outcome A) : Outcome Value :=
  match o with
  | Returns Pending => Returns Pending
  | Returns (Ready (Ok a)) => Returns (Ready (Ok (f a)))
  | Returns (Ready (Err e)) => Returns (Ready (Err e))
  | Panics msg => Panics msg
  end.

Definition call (c : ConnCall) (self : ProxyConnection) : Outcome Value * ProxyConnection :=
  let ret {A} (f : A → Value) (r : Outcome A * ProxyConnection) := (returned f r.1, r.2) in
  match c with
  | CallRead inner => ret ReadBytes (poll_read inner self)
  | CallWrite inner buf => ret Written (poll_write inner buf self)
  | CallWriteVectored inner bufs => ret Written (poll_write_vectored inner bufs self)
  | CallFlush inner => ret (λ _, Finished) (poll_flush inner self)
  | CallShutdown inner => ret (λ _, Finished) (poll_shutdown inner self)
  end.

(** What the half itself answers to a call. *)
Definition offered (c : ConnCall) : Outcome Value :=
  match c with
  | CallRead inner => returned ReadBytes (half inner)
  | CallWrite inner buf => returned Written (half (inner buf))
  | CallWriteVectored inner bufs => returned Written (half (inner (concat bufs)))
  | CallFlush inner | CallShutdown inner => returned (λ _, Finished) (half inner)
  end.

(** What the calls come to that are made after the task has ended with [r]. *)
Definition after_end (r : result Error unit) (cs : list ConnCall) : list (Outcome Value) :=
  match cs with
  | [] => []
  | _ :: cs =>
      match r with
      | Err e => Returns (Ready (Err (IoOther e)))
      | Ok _ => Panics "IO task will not stop while connection lives"
      end :: ((λ _, Panics "JoinHandle polled after completion") <$> cs)
  end.

Lemma call_cases c self :
  call c self =
    if pc_taken self then (Panics "JoinHandle polled after completion", self) else
    match io_result (pc_task self) with
    | Pending => (offered c, self)
    | Ready r => (match r with
                  | Err e => Returns (Ready (Err (IoOther e)))
                  | Ok _ => Panics "IO task will not stop while connection lives"
                  end, mkConn (pc_task self) true (pc_aborted self))
    end.
Proof.
  destruct c; simpl; unfold poll_read, poll_write, poll_write_vectored, poll_flush, poll_shutdown;
    rewrite checked_cases, ?extend_all_concat; destruct (pc_taken self); try done;
    by destruct (io_result (pc_task self)) as [|[]].
Qed.

Variable config : DomainFronting.
Variable sid : Uuid.

Lemma conn_run_task ls self :
  run (conn_step config sid) connection_new ls = Some self →
  run (io_step config sid) start_proxy ls = Some (pc_task self) ∧ pc_taken self = false ∧
  pc_aborted self = false.
Proof.
  revert ls self. apply (run_ind_r (conn_step config sid) (λ ls self,
    run (io_step config sid) start_proxy ls = Some (pc_task self) ∧ pc_taken self = false ∧
    pc_aborted self = false)); [done|].
  intros ls self l self' _ (Hr & Ht & Hab) Hs. unfold conn_step in Hs. rewrite Hab in Hs.
  apply fmap_Some in Hs as (t & Hs & ->). simpl. split; [by eapply run_snoc|done].
Qed.

(** Calls and steps of the task, in any order; the outcomes of the calls are collected. *)
Inductive ConnEvent : Type :=
| TaskStep (l : io_label)
| Call (c : ConnCall).

Fixpoint use (self : ProxyConnection) (evs : list ConnEvent)
  : option (ProxyConnection * list (Outcome Value)) :=
  match evs with
  | [] => Some (self, [])
  | TaskStep l :: evs => conn_step config sid self l ≫= λ self, use self evs
  | Call c :: evs =>
      let (o, self) := call c self in
      '(self, os) ← use self evs; Some (self, o :: os)
  end.

Definition task_steps (evs : list ConnEvent) : list io_label :=
  omap (λ e, match e with TaskStep l => Some l | Call _ => None end) evs.
Definition calls (evs : list ConnEvent) : list ConnCall :=
  omap (λ e, match e with TaskStep _ => None | Call c => Some c end) evs.

Lemma io_step_ended config' sid' t l r : io_result t = Ready r → io_step config' sid' t l = None.
Proof. intros Hr. unfold io_step. by rewrite Hr. Qed.

(** Once its result has been taken, every call panics. *)
Lemma use_taken evs self t :
  pc_taken self = true → io_result (pc_task self) ≠ Pending →
  run (io_step config sid) (pc_task self) (task_steps evs) = Some t →
  evs = Call <$> calls evs ∧ t = pc_task self ∧
  use self evs = Some (self, (λ _, Panics "JoinHandle polled after completion") <$> calls evs).
Proof.
  intros Ht Hr. induction evs as [|[l|c] evs IH]; csimpl; [by intros [= <-]| |].
  - by destruct (io_result (pc_task self)) as [|r] eqn:E; [|rewrite (io_step_ended _ _ _ _ _ E)].
  - intros (E & -> & Hu)%IH. rewrite call_cases, Ht, Hu. csimpl. by rewrite <- E.
Qed.

Lemma use_ended evs self t r :
  pc_taken self = false → io_result (pc_task self) = Ready r →
  run (io_step config sid) (pc_task self) (task_steps evs) = Some t →
  evs = Call <$> calls evs ∧ t = pc_task self ∧
  ∃ self', use self evs = Some (self', after_end r (calls evs)) ∧ pc_task self' = t.
Proof.
  intros Ht Hr. destruct evs as [|[l|c] evs]; csimpl; [intros [= <-]; eauto| |].
  - by rewrite (io_step_ended _ _ _ _ _ Hr).
  - intros Hrun. rewrite call_cases, Ht, Hr.
    destruct (use_taken evs (mkConn (pc_task self) true (pc_aborted self)) t) as (E & -> & Hu);
      simpl; [done|by rewrite Hr|done|].
    rewrite Hu. csimpl. split_and!; [by rewrite <- E|done|by eauto].
Qed.

Lemma use_running evs self t :
  pc_taken self = false → pc_aborted self = false → io_result (pc_task self) = Pending →
  run (io_step config sid) (pc_task self) (task_steps evs) = Some t →
  ∃ self' os, use self evs = Some (self', os) ∧ pc_task self' = t ∧
    match io_result t with
    | Pending => os = offered <$> calls evs
    | Ready r => ∃ before l after, evs = before ++ TaskStep l :: (Call <$> after) ∧
        os = (offered <$> calls before) ++ after_end r after
    end.
Proof.
  intros Ht Hab Hr Hrun. revert self Ht Hab Hr Hrun.
  induction evs as [|[l|c] evs IH]; intros self Ht Hab Hr Hrun; csimpl in *.
  - simplify_eq. rewrite Hr. eauto.
  - apply bind_Some in Hrun as (t1 & Hs & Hrun). unfold conn_step. rewrite Hab, Hs. csimpl.
    destruct (io_result t1) as [|r] eqn:E1.
    + edestruct (IH (mkConn t1 (pc_taken self) false)) as (self' & os & Hu & Et & Hos); [done..|].
      exists self', os. split_and!; [done..|]. destruct (io_result t) as [|r]; [done|].
      destruct Hos as (before & l' & after & -> & ->). by exists (TaskStep l :: before), l', after.
    + destruct (use_ended evs (mkConn t1 (pc_taken self) false) t r Ht E1 Hrun) as (E & -> & self' & Hu & Et).
      csimpl in *. exists self', (after_end r (calls evs)). split_and!; [done..|].
      rewrite E1. exists [], l, (calls evs). by rewrite <- E.
  - rewrite call_cases, Ht, Hr. csimpl.
    destruct (IH self Ht Hab Hr Hrun) as (self' & os & -> & Et & Hos). csimpl.
    exists self', (offered c :: os). split_and!; [done..|]. destruct (io_result t) as [|r]; [by rewrite Hos|].
    destruct Hos as (before & l & after & -> & ->). by exists (Call c :: before), l, after.
Qed.

(** C34. Operations and the background task, over the whole life of a connection: any steps
    of the task with any calls of the five operations in between. No call blocks, and the task
    takes its steps as if there were no calls. As long as the task runs, each call comes to
    what its half has to offer. Once the task has ended, by the step [l] here, only calls are left;
    the first of them, whichever operation it is and whatever its half has to offer, returns the
    error of the task (or panics, if the task ended without one), and every later one panics. *)
Theorem operations_follow_task evs t :
  run (io_step config sid) start_proxy (task_steps evs) = Some t →
  ∃ self os, use connection_new evs = Some (self, os) ∧ pc_task self = t ∧
    match io_result t with
    | Pending => os = offered <$> calls evs
    | Ready r => ∃ before l after, evs = before ++ TaskStep l :: (Call <$> after) ∧
        os = (offered <$> calls before) ++ after_end r after
    end.
Proof.
  intros Hrun. apply (use_running evs connection_new); [done|done| |done].
  unfold io_result, pump_result. simpl.
  rewrite (try_join_wait_l (A := unit) Pending) by done. by rewrite try_join_wait_l.
Qed.

(** When the [unreachable!] is reached. An operation on a connection whose task has
    not reported yet panics only if the writing half had been closed, a response body had
    failed or the reading half was gone, and the HTTP connection had ended cleanly. *)
Theorem panic_needs_shutdown {A} ls self (p : Poll (result io_error A)) msg self' :
  run (conn_step config sid) connection_new ls = Some self →
  checked (half p) self = (Panics msg, self') →
  (∃ path, IoRecv None path ∈ ls) ∧
  ((∃ e, IoFrame (Some (Err e)) ∈ ls) ∨ IoSent false ∈ ls) ∧ IoConn (Ok tt) ∈ ls.
Proof.
  intros (Hrun & Ht & _)%conn_run_task. rewrite checked_cases, Ht. intros Hp.
  destruct (io_result (pc_task self)) as [|[[]|e]] eqn:Hr; [done| |done].
  destruct (client_run_wf config sid _ _ Hrun) as (_ & _ & Hend & _).
  by eapply ended_ok.
Qed.
End Connection.

Arguments Returns {_ _} p.
Arguments Panics {_ _} msg.

(** * The theorems at work *)

Import Concrete.

(** The writer is shut down, then a response body fails (an HTTP/2 stream is reset, say)
    and, its senders gone, the HTTP connection closes. *)
Definition demo_io_end : list io_label :=
  [IoRecv None 1%N; IoGet 2%N; IoResponse (Ok OK_200);
   IoFrame (Some (Err "stream reset"%string)); IoSent true; IoConn (Ok tt)].
Definition demo_ended : ProxyConnection :=
  final (conn_step demo_front demo_sid) connection_new demo_io_end.

(** The [unreachable!] can be reached. After the user has shut down the writing half,
    as [copy_bidirectional] does at the end of its input, a response body that fails
    makes the task end with [Ok(())], although the connection has not been dropped, and
    the next read panics. *)
Theorem unreachable_reached :
  run (conn_step demo_front demo_sid) connection_new demo_io_end = Some demo_ended ∧
  pc_aborted demo_ended = false ∧
  (poll_read Pending demo_ended).1 = Panics "IO task will not stop while connection lives".
Proof.
  split; [exact (run_final (conn_step demo_front demo_sid) connection_new demo_io_end ltac:(by_vm))|].
  split; by_vm.
Qed.

Lemma panic_needs_shutdown_witness :
  IoConn (Ok tt) ∈ demo_io_end.
Proof.
  apply (panic_needs_shutdown (A := bytes) demo_front demo_sid demo_io_end demo_ended Pending
           "IO task will not stop while connection lives" (checked (half (A := bytes) Pending) demo_ended).2).
  - exact (run_final (conn_step demo_front demo_sid) connection_new demo_io_end ltac:(by_vm)).
  - apply pair_fst. by_vm.
Defined.

(** A write and a read while the first read request is on its way, which is then answered
    [400]; afterwards a flush, a vectored write, a read and a shutdown. *)
Definition demo_uses : list ConnEvent :=
  [Call (CallWrite (λ buf, Ready (Ok (length buf))) (String.list_byte_of_string "hi"));
   TaskStep (IoGet 1%N); Call (CallRead Pending); TaskStep (IoResponse (Ok BAD_REQUEST));
   Call (CallFlush (Ready (Ok ()))); Call (CallWriteVectored (λ buf, Ready (Ok (length buf))) [[]]);
   Call (CallRead (Ready (Ok []))); Call (CallShutdown Pending)].
Definition demo_failed : IoTask :=
  final (io_step demo_front demo_sid) start_proxy (task_steps demo_uses).

Example demo_uses_outcomes :
  snd <$> use demo_front demo_sid connection_new demo_uses =
    Some [Returns (Ready (Ok (Written 2))); Returns Pending;
          Returns (Ready (Err (IoOther (HttpStatusCode BAD_REQUEST))));
          Panics "JoinHandle polled after completion"; Panics "JoinHandle polled after completion";
          Panics "JoinHandle polled after completion"].
Proof. by_vm. Qed.

Lemma operations_follow_task_witness :
  ∃ self os, use demo_front demo_sid connection_new demo_uses = Some (self, os) ∧
    pc_task self = demo_failed ∧
    ∃ before l after, demo_uses = before ++ TaskStep l :: (Call <$> after) ∧
      os = (offered <$> calls before) ++ after_end (Err (HttpStatusCode BAD_REQUEST)) after.
Proof.
  destruct (operations_follow_task demo_front demo_sid demo_uses demo_failed) as (self & os & Hu & Ht & Hos).
  2:{ replace (io_result demo_failed) with (Ready (A := result Error unit) (Err (HttpStatusCode BAD_REQUEST)))
        in Hos by by_vm. by exists self, os. }
  exact (run_final (io_step demo_front demo_sid) start_proxy (task_steps demo_uses) ltac:(by_vm)).
Defined.
