(* ===== verification/TlsStream.v ===== *)
(** Outgoing network connections: [src/src/tls_stream.rs] and [ProxyConfig]'s connect
    functions in [src/src/client.rs].

    Connecting is a sequence of effects on the network, each with a result the
    environment chooses: a small error monad over the log of effects. *)
From S2P Require Import Prelude Ext DomainFronting Client.

(** What the code uses of [rustls]. *)
Class TlsLib := {
  ClientConfig : Type;
  alpn_protocols : ClientConfig → list bytes;
  ServerName : Type;
  server_name_try_from : string → option ServerName;
}.

(** * The stream once connected *)

(** [AsyncRead] and [AsyncWrite]; [poll_read] is given the room in its buffer. *)
Class AsyncStream (S : Type) := {
  stream_read : nat → S → Poll (result io_error bytes) * S;
  stream_write : bytes → S → Poll (result io_error nat) * S;
  stream_flush : S → Poll (result io_error unit) * S;
  stream_shutdown : S → Poll (result io_error unit) * S;
}.

(** [struct TlsStream], over the stream of [tokio_rustls]. *)
Record TlsStream (S : Type) : Type := mkTlsStream { tls_stream : S }.
Arguments mkTlsStream {S} tls_stream.
Arguments tls_stream {S} t.

(** An operation on the field. *)
Definition forward {S A} (op : S → A * S) (self : TlsStream S) : A * TlsStream S :=
  let (a, stream) := op (tls_stream self) in (a, mkTlsStream stream).

(** [AsyncRead for TlsStream] and [AsyncWrite for TlsStream] *)
#[export] Instance TlsStream_async {S} `{AsyncStream S} : AsyncStream (TlsStream S) := {|
  stream_read room := forward (stream_read room);
  stream_write buf := forward (stream_write buf);
  stream_flush := forward stream_flush;
  stream_shutdown := forward stream_shutdown;
|}.

Section TlsStream.
Context `{UuidLib, HttpLib, FuturesLib, TlsLib}.

(** * The network monad *)

(** A stream is known by the position of the effect that made it. *)
Inductive NetEffect : Type :=
| TcpConnect (addr : SocketAddr)
| TlsConnect (over : nat) (host : ServerName) (config : ClientConfig)
| Http1Handshake (over : nat)
| Http2Handshake (over : nat).

(** What the environment answers, given everything that happened so far. *)
Record Network : Type := mkNetwork {
  net_io : list NetEffect → result io_error unit;        (* to the two kinds of connect *)
  net_http : list NetEffect → result HyperErr unit;      (* to the handshakes *)
  net_pending : list NetEffect → nat;   (* for how many polls a handshake is pending *)
}.

(** A computation gets the network and the effects so far, and adds to them. *)
Definition Net (A : Type) : Type := Network → list NetEffect → result Error A * list NetEffect.

Definition net_ret {A} (a : A) : Net A := λ _ log, (Ok a, log).
Definition net_fail {A} (e : Error) : Net A := λ _ log, (Err e, log).
Definition net_bind {A B} (m : Net A) (k : A → Net B) : Net B :=
  λ net log, let (r, log) := m net log in
             match r with Ok a => k a net log | Err e => (Err e, log) end.

#[local] Notation "'let*' x ':=' m 'in' k" := (net_bind m (λ x, k))
  (at level 10, x name, m at level 100, k at level 200, only parsing).

(** [TcpStream::connect(addr).await.map_err(Error::Connection)?] *)
Definition tcp_connect (addr : SocketAddr) : Net nat := λ net log,
  let log' := log ++ [TcpConnect addr] in
  (match net_io net log' with Ok _ => Ok (length log) | Err e => Err (Connection e) end, log').

(** The message of the error for an invalid host name. *)
Definition quote : string := String (Ascii.ascii_of_nat 34) EmptyString.
Definition invalid_hostname (domain : string) : io_error :=
  mkIoError InvalidInput ("invalid hostname " +:+ quote +:+ domain +:+ quote).

(** [TlsStream::connect_with_config(..).await.map_err(Error::Tls)?] *)
Definition connect_with_config (stream : nat) (domain : string) (client_config : ClientConfig)
  : Net nat := λ net log,
  match server_name_try_from domain with
  | None => (Err (Tls (invalid_hostname domain)), log)
  | Some host =>
      let log' := log ++ [TlsConnect stream host client_config] in
      (match net_io net log' with Ok _ => Ok (length log) | Err e => Err (Tls e) end, log')
  end.

(** * [ProxyConnection] *)

(** A connection: the streams below it, its configuration, and its background task. *)
Record Connected : Type := mkConnected {
  cn_streams : list nat;
  cn_config : DomainFronting;
  cn_task : IoTask;
}.

(** The future of the function [connect_http1_1], once it has been polled: the HTTP/1.1
    handshake over a stream is pending for some polls, and then has its result. *)
Record Handshake : Type := mkHandshake {
  hs_pending : nat;
  hs_result : result Error unit;
}.

(** The first poll of [connect_http1_1] makes the handshake. *)
Definition http1_1_handshake (stream : nat) : Network → list NetEffect → Handshake * list NetEffect :=
  λ net log,
  let log' := log ++ [Http1Handshake stream] in
  (mkHandshake (net_pending net log')
     match net_http net log' with Ok _ => Ok tt | Err e => Err (Hyper e) end, log').

(** What the [k]-th poll of it gives. *)
Definition hs_poll (k : nat) (f : Handshake) : Poll (result Error unit) :=
  if k <? hs_pending f then Pending else Ready (hs_result f).

(** [try_join] of two handshakes that have been made: both are polled, the first one first,
    until one has failed or both have succeeded ([join_polls] below). *)
Definition join_handshakes (f1 f2 : Handshake) : result Error unit :=
  match hs_result f1, hs_result f2 with
  | Ok _, Ok _ => Ok tt
  | Err e1, Err e2 => Err (if hs_pending f1 <=? hs_pending f2 then e1 else e2)
  | Err e, Ok _ | Ok _, Err e => Err e
  end.

(** [ProxyConnection::http1_1_from_streams]: both handshakes, unless the first one fails the
    first time it is polled; then both connections are used, one to read and one to write. *)
Definition http1_1_from_streams (stream1 stream2 : nat) (config : DomainFronting)
  : Net Connected := λ net log,
  let (f1, log1) := http1_1_handshake stream1 net log in
  match hs_poll 0 f1 with
  | Ready (Err e) => (Err e, log1)
  | _ =>
      let (f2, log2) := http1_1_handshake stream2 net log1 in
      (match join_handshakes f1 f2 with
       | Ok _ => Ok (mkConnected [stream1; stream2] config start_proxy)
       | Err e => Err e
       end, log2)
  end.

(** [ProxyConnection::http2_from_stream] *)
Definition http2_from_stream (stream : nat) (config : DomainFronting) : Net Connected := λ net log,
  let log' := log ++ [Http2Handshake stream] in
  match net_http net log' with
  | Ok _ => (Ok (mkConnected [stream] config start_proxy), log')
  | Err e => (Err (Hyper e), log')
  end.

(** * [ProxyConfig] *)

(** [b"h2"] *)
Definition ALPN_H2 : bytes := String.list_byte_of_string "h2".

(** [ProxyConfig::connect_https2_over_stream] *)
Definition connect_https2_over_stream (self : ProxyConfig) (stream : nat)
    (tls_config : ClientConfig) : Net Connected :=
  if decide (ALPN_H2 ∉ alpn_protocols tls_config) then net_fail MisconfiguredAlpn else
  let* tls := connect_with_config stream (front_host (domain_fronting self)) tls_config in
  http2_from_stream tls (domain_fronting self).

(** [ProxyConfig::connect_https2] *)
Definition connect_https2 (self : ProxyConfig) (tls_config : ClientConfig) : Net Connected :=
  let* tcp_stream := tcp_connect (addr self) in
  connect_https2_over_stream self tcp_stream tls_config.

(** [ProxyConfig::connect_https1_1_over_streams] *)
Definition connect_https1_1_over_streams (self : ProxyConfig) (stream1 stream2 : nat)
    (tls_config : ClientConfig) : Net Connected :=
  if decide (ALPN_H2 ∈ alpn_protocols tls_config) then net_fail MisconfiguredAlpn else
  let* tls1 := connect_with_config stream1 (front_host (domain_fronting self)) tls_config in
  let* tls2 := connect_with_config stream2 (front_host (domain_fronting self)) tls_config in
  http1_1_from_streams tls1 tls2 (domain_fronting self).

(** [ProxyConfig::connect_https1_1] *)
Definition connect_https1_1 (self : ProxyConfig) (tls_config : ClientConfig) : Net Connected :=
  let* tcp_stream1 := tcp_connect (addr self) in
  let* tcp_stream2 := tcp_connect (addr self) in
  connect_https1_1_over_streams self tcp_stream1 tcp_stream2 tls_config.

(** [ProxyConfig::connect_http1_1_over_streams] *)
Definition connect_http1_1_over_streams (self : ProxyConfig) (stream1 stream2 : nat) : Net Connected :=
  http1_1_from_streams stream1 stream2 (domain_fronting self).

(** [ProxyConfig::connect_http1_1] *)
Definition connect_http1_1 (self : ProxyConfig) : Net Connected :=
  let* tcp_stream1 := tcp_connect (addr self) in
  let* tcp_stream2 := tcp_connect (addr self) in
  connect_http1_1_over_streams self tcp_stream1 tcp_stream2.

(** [ProxyConfig::connect_http2_over_stream] *)
Definition connect_http2_over_stream (self : ProxyConfig) (stream : nat) : Net Connected :=
  http2_from_stream stream (domain_fronting self).

(** * Its properties *)

(** [m1] and [m2] do the same on the network, and fail alike. *)
Definition same_effects {A} (m1 m2 : Net A) : Prop :=
  ∀ net log, (m1 net log).2 = (m2 net log).2 ∧
    (∀ e, (m1 net log).1 = Err e ↔ (m2 net log).1 = Err e).

Lemma same_effects_refl {A} (m : Net A) : same_effects m m.
Proof. by intros net log. Qed.

Lemma same_effects_bind {A B} (m : Net A) (k1 k2 : A → Net B) :
  (∀ a, same_effects (k1 a) (k2 a)) → same_effects (net_bind m k1) (net_bind m k2).
Proof.
  intros Hk net log. unfold net_bind. destruct (m net log) as [[a|e] log'] eqn:E; [apply Hk|done].
Qed.

(** [try_join], polled again and again, is pending until it has the result above. *)
Lemma join_polls `{!FuturesLaws} f1 f2 :
  let polled k := try_join (hs_poll k f1) (hs_poll k f2) in
  ∃ n, (∀ k, k < n → polled k = Pending) ∧
    match join_handshakes f1 f2 with
    | Ok _ => polled n = Ready (Ok (tt, tt))
    | Err e => polled n = Ready (Err e)
    end.
Proof.
  destruct f1 as [n1 r1], f2 as [n2 r2]. unfold hs_poll, join_handshakes. simpl.
  exists match r1, r2 with
         | Ok _, Ok _ => n1 `max` n2 | Err _, Err _ => n1 `min` n2 | Err _, _ => n1 | _, _ => n2
         end.
  destruct r1 as [[]|e1], r2 as [[]|e2]; (split; [intros k Hk|]);
    repeat case_match; rewrite ?Nat.ltb_lt, ?Nat.ltb_ge, ?Nat.leb_le, ?Nat.leb_gt in *; try lia.
  all: rewrite ?try_join_ok, ?try_join_err_l, ?try_join_wait_r by done; try done.
  all: rewrite ?try_join_wait_l by done; try done; by rewrite try_join_err_r by done.
Qed.

Lemma same_http1 s1 s2 c1 c2 : same_effects (http1_1_from_streams s1 s2 c1) (http1_1_from_streams s1 s2 c2).
Proof.
  intros net log. unfold http1_1_from_streams, http1_1_handshake. simpl.
  destruct (hs_poll 0 _) as [|[|]]; [|by destruct (join_handshakes _ _)|done].
  by destruct (join_handshakes _ _).
Qed.

Lemma same_http2 s c1 c2 : same_effects (http2_from_stream s c1) (http2_from_stream s c2).
Proof. intros net log. unfold http2_from_stream. by destruct (net_http net (log ++ _)). Qed.

#[local] Hint Resolve same_effects_refl same_effects_bind same_http1 same_http2 : core.

(** C32. The fronting property: what a client does on the network before the first
    request depends on the front only. Two configurations that differ in nothing but
    the hidden host and the session header open the same TCP connections and make the
    same TLS handshakes, with the same server name, under every behaviour of the
    network: the hidden host is not in the clear part of the traffic. *)
Theorem handshake_hides_host (c1 c2 : ProxyConfig) tls :
  addr c1 = addr c2 → front (domain_fronting c1) = front (domain_fronting c2) →
  same_effects (connect_https2 c1 tls) (connect_https2 c2 tls) ∧
  same_effects (connect_https1_1 c1 tls) (connect_https1_1 c2 tls) ∧
  same_effects (connect_http1_1 c1) (connect_http1_1 c2).
Proof.
  intros Ha Hf.
  unfold connect_https2, connect_https1_1, connect_http1_1, connect_https2_over_stream,
    connect_https1_1_over_streams, connect_http1_1_over_streams, front_host.
  rewrite Ha, Hf. repeat split; repeat (apply same_effects_bind; intros ?); auto;
    case_decide; auto; repeat (apply same_effects_bind; intros ?); auto.
Qed.

Lemma connect_with_config_ok stream domain cfg net log tls log' :
  connect_with_config stream domain cfg net log = (Ok tls, log') →
  ∃ host, server_name_try_from domain = Some host ∧ log' = log ++ [TlsConnect stream host cfg] ∧
    tls = length log.
Proof.
  unfold connect_with_config. intros Hc. repeat case_match; simplify_eq. eauto.
Qed.

Lemma http1_ok s1 s2 config net log c log' :
  http1_1_from_streams s1 s2 config net log = (Ok c, log') →
  log' = log ++ [Http1Handshake s1; Http1Handshake s2] ∧ c = mkConnected [s1; s2] config start_proxy.
Proof.
  unfold http1_1_from_streams, http1_1_handshake. simpl. rewrite <- app_assoc. intros Hc.
  repeat case_match; by simplify_eq.
Qed.

Lemma http2_ok s config net log c log' :
  http2_from_stream s config net log = (Ok c, log') →
  log' = log ++ [Http2Handshake s] ∧ c = mkConnected [s] config start_proxy.
Proof. unfold http2_from_stream. intros Hc. case_match; by simplify_eq. Qed.

(** C33. Connecting over TLS. A connection is only established with a TLS configuration
    whose ALPN fits the HTTP version: with [h2] for HTTP/2 and without it for HTTP/1.1;
    a misfit is [Error::MisconfiguredAlpn], before anything is sent on the streams. A
    connection that is established did exactly one TLS handshake for each stream it
    was given, for the server name of the front, and then one HTTP handshake over
    each, and keeps the fronting configuration. *)
Theorem connect_over_tls (self : ProxyConfig) tls net log :
  (∀ stream, ALPN_H2 ∉ alpn_protocols tls →
     connect_https2_over_stream self stream tls net log = (Err MisconfiguredAlpn, log)) ∧
  (∀ s1 s2, ALPN_H2 ∈ alpn_protocols tls →
     connect_https1_1_over_streams self s1 s2 tls net log = (Err MisconfiguredAlpn, log)) ∧
  (∀ stream c log', connect_https2_over_stream self stream tls net log = (Ok c, log') →
     ALPN_H2 ∈ alpn_protocols tls ∧ ∃ host,
       server_name_try_from (front_host (domain_fronting self)) = Some host ∧
       log' = log ++ [TlsConnect stream host tls; Http2Handshake (length log)] ∧
       c = mkConnected [length log] (domain_fronting self) start_proxy) ∧
  (∀ s1 s2 c log', connect_https1_1_over_streams self s1 s2 tls net log = (Ok c, log') →
     ALPN_H2 ∉ alpn_protocols tls ∧ ∃ host,
       server_name_try_from (front_host (domain_fronting self)) = Some host ∧
       log' = log ++ [TlsConnect s1 host tls; TlsConnect s2 host tls;
                      Http1Handshake (length log); Http1Handshake (S (length log))] ∧
       c = mkConnected [length log; S (length log)] (domain_fronting self) start_proxy).
Proof.
  unfold connect_https2_over_stream, connect_https1_1_over_streams. split; [|split; [|split]].
  - intros stream Hno. by rewrite decide_True.
  - intros s1 s2 Hin. by rewrite decide_True.
  - intros stream c log' Hc. case_decide as Hin; [done|]. unfold net_bind in Hc.
    destruct (connect_with_config stream _ tls net log) as [[t|] log1] eqn:E; [|done].
    destruct (connect_with_config_ok _ _ _ _ _ _ _ E) as (host & Hh & -> & ->).
    apply http2_ok in Hc as [-> ->]. split; [done|]. exists host.
    by rewrite <- app_assoc.
  - intros s1 s2 c log' Hc. case_decide as Hin; [done|]. unfold net_bind in Hc.
    destruct (connect_with_config s1 _ tls net log) as [[t1|] log1] eqn:E1; [|done].
    destruct (connect_with_config_ok _ _ _ _ _ _ _ E1) as (host & Hh & -> & ->).
    destruct (connect_with_config s2 _ tls net _) as [[t2|] log2] eqn:E2; [|done].
    destruct (connect_with_config_ok _ _ _ _ _ _ _ E2) as (host2 & Hh2 & -> & ->). simplify_eq.
    apply http1_ok in Hc as [-> ->]. split; [done|]. exists host.
    rewrite length_app, <- !app_assoc. simpl. rewrite Nat.add_1_r. done.
Qed.
End TlsStream.

(** * The theorems at work *)

(** A TLS library whose configurations are their ALPN lists. *)
Definition alpn_tls : TlsLib := {|
  ClientConfig := list bytes;
  alpn_protocols l := l;
  ServerName := string;
  server_name_try_from s := if String.eqb s "" then None else Some s;
|}.
#[local] Existing Instance alpn_tls.
Import Concrete.

(** A network on which everything succeeds. *)
Definition demo_network : Network := mkNetwork (λ _, Ok tt) (λ _, Ok tt) (λ _, 0).
Definition demo_proxy (host : string) : ProxyConfig :=
  mkProxyConfig (mkSocketAddr (V4 1) 443)
    (new (mkUri "https://cdn.example.com" (Some "https"%string) (Some "cdn.example.com"%string) None) host).

Lemma handshake_hides_host_witness :
  same_effects (connect_https1_1 (demo_proxy "api.example.com") [])
    (connect_https1_1 (demo_proxy "www.example.org") []).
Proof. apply handshake_hides_host; reflexivity. Defined.

Definition h2_config : ClientConfig := ([ALPN_H2] : list bytes).
Definition cdn_name : ServerName := "cdn.example.com"%string.
Definition demo_tcp : NetEffect := TcpConnect (mkSocketAddr (V4 1) 443).

Lemma connect_over_tls_witness : ALPN_H2 ∈ alpn_protocols h2_config.
Proof.
  destruct (connect_over_tls (demo_proxy "api.example.com") h2_config demo_network [demo_tcp])
    as (_ & _ & Hok & _).
  apply (Hok 0 (mkConnected [1] (domain_fronting (demo_proxy "api.example.com")) start_proxy)
    [demo_tcp; TlsConnect 0 cdn_name h2_config; Http2Handshake 1]).
  by_vm.
Defined.
