(* ===== verification/Bins.v ===== *)
(** The three programs of [src/src/bin].

    [domain_fronting_server]: how the command line chooses between TLS and plain TCP
    and becomes a server configuration, and the accept loop with its traffic reports.
    [domain_fronting] and [domain_fronting_stdio]: how they connect. *)
From S2P Require Import Prelude Ext DomainFronting Stats State Client TlsStream.

(** * domain_fronting_server *)

(** What the server program uses of the operating system and of [rustls]: loading a
    certificate chain and a key, and [Duration::from_secs_f32], which panics ([None]) on a
    number that is no duration. *)
Class ServerEnv := {
  ServerConfig : Type;
  f32 : Type;
  read_cert_chain : string → result string (list bytes);   (* File::open, pem_reader_iter *)
  read_private_key : string → result string bytes;         (* PrivateKeyDer::from_pem_file *)
  with_single_cert : list bytes → bytes → result string ServerConfig;
  from_secs_f32 : f32 → option N;
}.

Section ServerMain.
Context `{UuidLib, HttpLib, ServerEnv}.

(** [struct Args] *)
Record Args : Type := mkArgs {
  args_hostname : option string;
  args_cert_path : option string;
  args_key_path : option string;
  args_upstream : SocketAddr;
  args_port : Z;
  args_session_key : string;
  args_total_timeout : f32;
  args_idle_timeout : f32;
}.

(** [load_tls_config] *)
Definition load_tls_config (cert_path key_path : string) : result string ServerConfig :=
  let? cert_chain := read_cert_chain cert_path in
  let? key := read_private_key key_path in
  with_single_cert cert_chain key.

(** The [tls_acceptor] of [main]: all three arguments, none, or a usage error. *)
Definition tls_usage : string :=
  "To enable TLS, all 3 arguments (--cert-path, --key-path and --hostname) must be used".
Definition tls_acceptor (args : Args) : result string (option ServerConfig) :=
  match args_cert_path args, args_key_path args, args_hostname args with
  | Some cert_path, Some key_path, Some _ =>
      let? tls_config := load_tls_config cert_path key_path in Ok (Some tls_config)
  | None, None, None => Ok None
  | _, _, _ => Err tls_usage
  end.

(** [let config = Config::new(..).with_session_key(session_key)]; [None] is a panic. *)
Definition main_config (args : Args) : option Config :=
  total_timeout ← from_secs_f32 (args_total_timeout args);
  idle_timeout ← from_secs_f32 (args_idle_timeout args);
  Some (Config_with_session_key (Config_new (args_upstream args) total_timeout idle_timeout)
          (args_session_key args)).

(** What the accept loop does with an accepted connection: TLS first if there is an
    acceptor, and [serve_connection] unless the handshake fails. *)
Inductive Handling : Type := Serve (tls : bool) | HandshakeFailed.
Definition handle_connection (acceptor : option ServerConfig) (handshake : result string unit)
  : Handling :=
  match acceptor with
  | Some _ => match handshake with Ok _ => Serve true | Err _ => HandshakeFailed end
  | None => Serve false
  end.

(** * The traffic reports *)

(** The local variables of the accept loop. *)
Record LoopState : Type := mkLoop {
  connections_since_report : Z;            (* u64 *)
  last_report : option N;                  (* when, in nanoseconds *)
  loop_stats : AtomicStats;                (* the server's counters *)
}.

Record Report : Type := mkReport { rp_connections : Z; rp_at : N; rp_stats : Stats }.

Definition REPORT_INTERVAL : N := 5000000000.   (* Duration::from_secs(5) *)

Definition loop_start (stats : AtomicStats) : LoopState := mkLoop 0 None stats.

(** [last_report.is_none_or(|t| t.elapsed() >= Duration::from_secs(5))] *)
Definition report_due (now : N) (st : LoopState) : bool :=
  match last_report st with
  | None => true
  | Some t => bool_decide (REPORT_INTERVAL ≤ now - t)%N
  end.

(** One round of the accept loop, at time [now]: count the connection, and report and
    reset if a report is due. *)
Definition accept_round (now : N) (st : LoopState) : option Report * LoopState :=
  let st := mkLoop (add64 (connections_since_report st) 1) (last_report st) (loop_stats st) in
  if report_due now st then
    let (stats, atomic) := Stats.take (loop_stats st) in
    (Some (mkReport (connections_since_report st) now stats), mkLoop 0 (Some now) atomic)
  else (None, st).

(** Between rounds, the sessions count traffic. *)
Inductive loop_event : Type :=
| Accept (now : N)
| CountTx (n : Z)
| CountRx (n : Z).

Definition loop_round (st : LoopState) (e : loop_event) : list Report * LoopState :=
  match e with
  | Accept now => let (r, st) := accept_round now st in (option_list r, st)
  | CountTx n => ([], mkLoop (connections_since_report st) (last_report st) (fetch_add_tx n (loop_stats st)))
  | CountRx n => ([], mkLoop (connections_since_report st) (last_report st) (fetch_add_rx n (loop_stats st)))
  end.

Fixpoint loop_run (st : LoopState) (es : list loop_event) : list Report * LoopState :=
  match es with
  | [] => ([], st)
  | e :: es =>
      let (rs, st) := loop_round st e in
      let (rs', st) := loop_run st es in (rs ++ rs', st)
  end.

(** Sums over the reports and over the events. *)
Definition sum_z {A} (f : A → Z) (l : list A) : Z := foldr (λ a z, (f a + z)%Z) 0%Z l.
Definition accepted_connections (es : list loop_event) : Z :=
  sum_z (λ e, match e with Accept _ => 1 | _ => 0 end)%Z es.
Definition counted_tx (es : list loop_event) : Z :=
  sum_z (λ e, match e with CountTx n => n | _ => 0 end)%Z es.
Definition counted_rx (es : list loop_event) : Z :=
  sum_z (λ e, match e with CountRx n => n | _ => 0 end)%Z es.

Lemma sum_z_app {A} (f : A → Z) l1 l2 : sum_z f (l1 ++ l2) = (sum_z f l1 + sum_z f l2)%Z.
Proof. unfold sum_z. induction l1; simpl; [done|]. rewrite IHl1. lia. Qed.

(** One round accounts for its event. *)
Lemma loop_round_conserves st e :
  let (rs, st') := loop_round st e in
  wrap64 (sum_z rp_connections rs + connections_since_report st') =
    wrap64 (connections_since_report st + accepted_connections [e]) ∧
  wrap64 (sum_z (bytes_tx ∘ rp_stats) rs + atomic_tx (loop_stats st')) =
    wrap64 (atomic_tx (loop_stats st) + counted_tx [e]) ∧
  wrap64 (sum_z (bytes_rx ∘ rp_stats) rs + atomic_rx (loop_stats st')) =
    wrap64 (atomic_rx (loop_stats st) + counted_rx [e]).
Proof.
  destruct e as [now|n|n]; simpl; unfold accept_round, accepted_connections, counted_tx, counted_rx; simpl.
  1: destruct (report_due now _); simpl.
  all: unfold sum_z, add64; simpl; rewrite ?Z.add_0_r, ?Z.add_0_l, ?wrap64_idemp; repeat split.
  all: f_equal; lia.
Qed.

(** The reports account for everything. Over any run of the accept loop, the
    connections reported so far plus those counted since the last report are the
    connections accepted, and the bytes reported plus those still in the counters
    are the bytes transferred, each modulo 2^64: no connection or byte is reported
    twice or left out. *)
Theorem report_conservation st es :
  let (rs, st') := loop_run st es in
  wrap64 (sum_z rp_connections rs + connections_since_report st') =
    wrap64 (connections_since_report st + accepted_connections es) ∧
  wrap64 (sum_z (bytes_tx ∘ rp_stats) rs + atomic_tx (loop_stats st')) =
    wrap64 (atomic_tx (loop_stats st) + counted_tx es) ∧
  wrap64 (sum_z (bytes_rx ∘ rp_stats) rs + atomic_rx (loop_stats st')) =
    wrap64 (atomic_rx (loop_stats st) + counted_rx es).
Proof.
  revert st. induction es as [|e es IH]; intros st; simpl.
  { unfold accepted_connections, counted_tx, counted_rx. simpl. by rewrite !Z.add_0_r. }
  pose proof (loop_round_conserves st e) as Hr. destruct (loop_round st e) as [rs1 st1].
  specialize (IH st1). destruct (loop_run st1 es) as [rs2 st2].
  destruct Hr as (Hc & Htx & Hrx), IH as (IHc & IHtx & IHrx). rewrite !sum_z_app.
  assert (Hstep : ∀ r1 r2 z1 z2 z0 w1 w2 : Z, wrap64 (r1 + z1) = wrap64 (z0 + w1) →
            wrap64 (r2 + z2) = wrap64 (z1 + w2) → wrap64 (r1 + r2 + z2) = wrap64 (z0 + (w1 + w2))).
  { intros r1 r2 z1 z2 z0 w1 w2 H1' H2'.
    transitivity (wrap64 (r1 + z1 + w2)); [apply (wrap64_congr _ _ _ _ r1 H2'); lia|].
    apply (wrap64_congr _ _ _ _ w2 H1'); lia. }
  unfold accepted_connections, counted_tx, counted_rx in *. simpl in *. rewrite ?Z.add_0_r in *.
  split; [|split]; by eapply Hstep.
Qed.

(** Reports are at least five seconds apart, and the first accepted connection is
    reported at once. *)
Theorem report_spacing now st :
  match accept_round now st with
  | (Some r, st') => rp_at r = now ∧ last_report st' = Some now ∧ connections_since_report st' = 0%Z ∧
      freeze (loop_stats st') = mkStats 0 0 ∧
      ∀ t, last_report st = Some t → (t + REPORT_INTERVAL ≤ now)%N
  | (None, st') => last_report st' = last_report st ∧ loop_stats st' = loop_stats st ∧
      ∃ t, last_report st = Some t ∧ (now < t + REPORT_INTERVAL)%N
  end.
Proof.
  unfold accept_round, report_due. simpl. destruct (last_report st) as [t|]; simpl.
  - case_bool_decide as Hd; simpl.
    + repeat split. intros t' [= <-]. unfold REPORT_INTERVAL in *. lia.
    + repeat split. exists t. split; [done|]. unfold REPORT_INTERVAL in *. lia.
  - by repeat split.
Qed.

(** TLS is all or nothing: the server program starts with TLS exactly when the host
    name, the certificate and the key are all given (and can be loaded), without when
    none is, and refuses to start on any other combination. *)
Theorem tls_all_or_nothing (args : Args) :
  (tls_acceptor args = Ok None ↔
     args_cert_path args = None ∧ args_key_path args = None ∧ args_hostname args = None) ∧
  (∀ tls, tls_acceptor args = Ok (Some tls) ↔
     ∃ cert key host, args_cert_path args = Some cert ∧ args_key_path args = Some key ∧
       args_hostname args = Some host ∧ load_tls_config cert key = Ok tls).
Proof.
  unfold tls_acceptor.
  destruct (args_cert_path args) as [c|], (args_key_path args) as [k|], (args_hostname args) as [h|];
    (split; [|intros tls]); (split; [intros Ht|intros Ht]); destruct_and?; try done.
  all: try (by destruct Ht as (? & ? & ? & ? & ? & ? & ?)).
  - by destruct (load_tls_config c k).
  - exists c, k, h. by destruct (load_tls_config c k); simplify_eq/=.
  - destruct Ht as (c' & k' & h' & [= <-] & [= <-] & _ & Hl). by rewrite Hl.
Qed.
End ServerMain.

(** * domain_fronting and domain_fronting_stdio *)

Section ClientMains.
Context `{UuidLib, HttpLib, FuturesLib, TlsLib}.

(** [ClientConfig::builder().with_root_certificates(..).with_no_client_auth()], and pushing
    onto its [alpn_protocols]. *)
Class ClientConfigBuilder := {
  client_config_default : ClientConfig;
  push_alpn : bytes → ClientConfig → ClientConfig;
}.
Class ClientConfigLaws `{ClientConfigBuilder} : Prop := {
  default_alpn : alpn_protocols client_config_default = [];
  push_alpn_protocols p c : alpn_protocols (push_alpn p c) = alpn_protocols c ++ [p];
}.
Context `{!ClientConfigBuilder, !ClientConfigLaws}.

(** [domain_fronting]: the connection of [main]. *)
Definition main_connect (domain_fronting : DomainFronting) (proxy_config : ProxyConfig) : Net Connected :=
  if tls domain_fronting then connect_https1_1 proxy_config client_config_default
  else connect_http1_1 proxy_config.

(** [domain_fronting_stdio]: [None] is [bail!("HTTP/2 requires TLS")]. *)
Definition stdio_connect (domain_fronting : DomainFronting) (proxy_config : ProxyConfig) (http2 : bool)
  : option (Net Connected) :=
  if tls domain_fronting then
    let tls_config := if http2 then push_alpn ALPN_H2 client_config_default else client_config_default in
    Some (if http2 then connect_https2 proxy_config tls_config
          else connect_https1_1 proxy_config tls_config)
  else if http2 then None
  else Some (connect_http1_1 proxy_config).

(** * The two programs up to their connection *)

(** [struct Arguments] of [domain_fronting] and of [domain_fronting_stdio]. *)
Record FetchArguments : Type := mkFetchArguments {
  fetch_front : Uri;
  fetch_host : string;
  fetch_url : option string;
}.
Record StdioArguments : Type := mkStdioArguments {
  stdio_front : Uri;
  stdio_http2 : bool;
  stdio_host : string;
}.

(** How they fail: [context("Failed to resolve proxy")], [context("Failed to connect ..")],
    and [bail!]. *)
Inductive MainError : Type :=
| FailedToResolve (e : Error)
| FailedToConnect (e : Error)
| RequiresTls.

Definition connecting {A} (m : Net A) (net : Network) (log : list NetEffect)
  : result MainError A * list NetEffect :=
  let (r, log) := m net log in (map_err FailedToConnect r, log).

(** [main] of [domain_fronting], up to its connection. *)
Definition fetch_main (dns : DefaultDnsResolver) (args : FetchArguments) (net : Network)
    (log : list NetEffect) : result MainError Connected * list NetEffect :=
  let domain_fronting := DomainFronting.new (fetch_front args) (fetch_host args) in
  match proxy_config dns domain_fronting with
  | Err e => (Err (FailedToResolve e), log)
  | Ok proxy_config => connecting (main_connect domain_fronting proxy_config) net log
  end.

(** The request it then sends through the connection. *)
Definition CRLF : string :=
  String (Ascii.ascii_of_nat 13) (String (Ascii.ascii_of_nat 10) EmptyString).
Definition fetch_request (args : FetchArguments) : string :=
  let url := default ("https://" +:+ fetch_host args +:+ "/") (fetch_url args) in
  "GET " +:+ url +:+ " HTTP/1.1" +:+ CRLF +:+ "Host: " +:+ fetch_host args +:+ CRLF +:+
  "Connection: close" +:+ CRLF +:+ CRLF.

(** [main] of [domain_fronting_stdio], up to its connection. *)
Definition stdio_main (dns : DefaultDnsResolver) (args : StdioArguments) (net : Network)
    (log : list NetEffect) : result MainError Connected * list NetEffect :=
  let domain_fronting := DomainFronting.new (stdio_front args) (stdio_host args) in
  match proxy_config dns domain_fronting with
  | Err e => (Err (FailedToResolve e), log)
  | Ok proxy_config =>
      match stdio_connect domain_fronting proxy_config (stdio_http2 args) with
      | Some m => connecting m net log
      | None => (Err RequiresTls, log)
      end
  end.

(** A step of connecting that checks no ALPN fails only with the error of its layer. *)
Definition no_alpn_error {A} (m : Net A) : Prop :=
  ∀ net log, (m net log).1 ≠ Err MisconfiguredAlpn.

Lemma no_alpn_bind {A B} (m : Net A) (k : A → Net B) :
  no_alpn_error m → (∀ a, no_alpn_error (k a)) → no_alpn_error (net_bind m k).
Proof.
  intros Hm Hk net log. unfold net_bind. specialize (Hm net log).
  destruct (m net log) as [[a|e] log']; [apply Hk|].
  simpl in *. intros [= ->]. by apply Hm.
Qed.

Lemma no_alpn_tcp a : no_alpn_error (tcp_connect a).
Proof. intros net log. unfold tcp_connect. by case_match. Qed.

Lemma no_alpn_tls s d c : no_alpn_error (connect_with_config s d c).
Proof. intros net log. unfold connect_with_config. by repeat case_match. Qed.

Lemma no_alpn_http1 s1 s2 c : no_alpn_error (http1_1_from_streams s1 s2 c).
Proof.
  intros net log. unfold http1_1_from_streams, http1_1_handshake, join_handshakes, hs_poll. simpl.
  by repeat case_match; simplify_eq/=.
Qed.

Lemma no_alpn_http2 s c : no_alpn_error (http2_from_stream s c).
Proof. intros net log. unfold http2_from_stream. by case_match. Qed.

#[local] Hint Resolve no_alpn_bind no_alpn_tcp no_alpn_tls no_alpn_http1 no_alpn_http2 : core.

Lemma mains_connect df pc http2 :
  no_alpn_error (main_connect df pc) ∧
  match stdio_connect df pc http2 with
  | Some m => no_alpn_error m
  | None => http2 = true ∧ uri_scheme (front df) = Some Scheme_HTTP
  end.
Proof.
  assert (Hs1 : no_alpn_error (connect_https1_1 pc client_config_default)).
  { unfold connect_https1_1. apply no_alpn_bind; [auto|intros s1]. apply no_alpn_bind; [auto|intros s2].
    unfold connect_https1_1_over_streams. rewrite default_alpn, decide_False by apply not_elem_of_nil.
    auto 10. }
  assert (Hs2 : no_alpn_error (connect_https2 pc (push_alpn ALPN_H2 client_config_default))).
  { unfold connect_https2. apply no_alpn_bind; [auto|intros s].
    unfold connect_https2_over_stream. rewrite push_alpn_protocols, default_alpn, decide_False by set_solver.
    auto 10. }
  assert (Hp : no_alpn_error (connect_http1_1 pc))
    by (unfold connect_http1_1, connect_http1_1_over_streams; auto 10).
  unfold main_connect, stdio_connect. split; [by destruct (tls df)|].
  destruct (tls df) eqn:Et, http2; try done.
  split; [done|]. unfold tls in Et. by apply bool_decide_eq_false, dec_stable in Et.
Qed.

Lemma connecting_error {A} (m : Net A) net log :
  no_alpn_error m → (connecting m net log).1 ≠ Err (FailedToConnect MisconfiguredAlpn).
Proof.
  intros Hm. unfold connecting. specialize (Hm net log). destruct (m net log) as [[a|e] log']; [done|].
  simpl in *. congruence.
Qed.

(** C37. The client programs configure ALPN correctly: whatever the command line, the
    resolver and the network do, neither fails with [Error::MisconfiguredAlpn]; and
    [--http2] is refused exactly for a plain HTTP front, before any connection is made. *)
Theorem mains_alpn_configured dns fetch_args stdio_args net log :
  (fetch_main dns fetch_args net log).1 ≠ Err (FailedToConnect MisconfiguredAlpn) ∧
  (stdio_main dns stdio_args net log).1 ≠ Err (FailedToConnect MisconfiguredAlpn) ∧
  ((stdio_main dns stdio_args net log).1 = Err RequiresTls →
     stdio_http2 stdio_args = true ∧ uri_scheme (stdio_front stdio_args) = Some Scheme_HTTP ∧
     (stdio_main dns stdio_args net log).2 = log) ∧
  (stdio_http2 stdio_args = true → uri_scheme (stdio_front stdio_args) = Some Scheme_HTTP →
     ∃ e, (stdio_main dns stdio_args net log).1 = Err e ∧ ∀ e', e ≠ FailedToConnect e').
Proof.
  unfold fetch_main, stdio_main. split.
  { destruct (proxy_config _ _) as [pc|e]; [|done]. apply connecting_error, (mains_connect _ _ false). }
  set (df := DomainFronting.new (stdio_front stdio_args) (stdio_host stdio_args)).
  destruct (proxy_config dns df) as [pc|e].
  2:{ split; [done|]. split; [done|]. intros _ _. exists (FailedToResolve e). done. }
  destruct (mains_connect df pc (stdio_http2 stdio_args)) as [_ Hs].
  assert (Hc : stdio_http2 stdio_args = true → uri_scheme (stdio_front stdio_args) = Some Scheme_HTTP →
            stdio_connect df pc (stdio_http2 stdio_args) = None).
  { intros -> Hf. assert (Ht : tls df = false) by (apply bool_decide_eq_false; intros Hne; by apply Hne).
    unfold stdio_connect. by rewrite Ht. }
  destruct (stdio_connect df pc (stdio_http2 stdio_args)) as [m|].
  - split; [by apply connecting_error|]. split.
    + unfold connecting. destruct (m net log) as [[a|e] log']; intros He; simplify_eq/=.
    + intros H1' H2'. by specialize (Hc H1' H2').
  - split; [done|]. split; [by destruct Hs|]. intros _ _. exists RequiresTls. done.
Qed.
End ClientMains.

(** * The theorems at work *)

#[local] Existing Instance alpn_tls.
Import Concrete.

(** Configurations that are their ALPN lists start empty. *)
Definition alpn_builder : ClientConfigBuilder := {|
  client_config_default := ([] : list bytes);
  push_alpn p (c : list bytes) := c ++ [p];
|}.
#[local] Existing Instance alpn_builder.

#[local] Instance alpn_builder_laws : ClientConfigLaws.
Proof. by split. Qed.

Definition demo_fetch : FetchArguments :=
  mkFetchArguments (mkUri "https://cdn.example.com" (Some "https"%string) (Some "cdn.example.com"%string) None)
    "api.example.com" None.
Definition demo_stdio : StdioArguments :=
  mkStdioArguments (mkUri "http://cdn.example.com" (Some "http"%string) (Some "cdn.example.com"%string) None)
    true "api.example.com".
Definition demo_dns : DefaultDnsResolver :=
  mkDefaultDnsResolver (λ _ _, Ok [mkSocketAddr (V4 2130706433) 0]).
Definition demo_quiet_network : Network := mkNetwork (λ _, Ok ()) (λ _, Ok ()) (λ _, 0).

Lemma mains_alpn_configured_witness :
  (stdio_main demo_dns demo_stdio demo_quiet_network []).1 = Err RequiresTls ∧
  (stdio_main demo_dns demo_stdio demo_quiet_network []).2 = [].
Proof.
  assert (He : (stdio_main demo_dns demo_stdio demo_quiet_network []).1 = Err RequiresTls) by reflexivity.
  split; [exact He|].
  apply (mains_alpn_configured demo_dns demo_fetch demo_stdio demo_quiet_network []). exact He.
Defined.
