(* ===== verification/Tunnel.v ===== *)
(** Client and server together: one [ProxyConnection] and the server it talks to.

    The composed system runs the client's background task and the server, and carries
    requests and responses between them. It says what an HTTP transport does: requests
    are delivered at most once, bodies arrive in order and in pieces of any size, a
    message that is cut short is an error and not a clean end; and any request, response
    or body may fail. The server also runs by itself and for other clients, which use
    other session identifiers (they are random UUIDs). *)
From S2P Require Import Prelude Ext DomainFronting Stats State Session Server ServerSteps.
From S2P Require Import ServerInv StreamInv LogInv WriteInv BodyInv PendingInv Invariant Routing Delivery.
From S2P Require Import Client ClientProps.

Section Tunnel.
Context `{UuidLib, HttpLib, TryMutex, FuturesLib}.

(** A write request on its way: the part of its body the server has not got yet. *)
Record Upload : Type := mkUpload { up_rid : nat; up_rest : bytes }.

(** A read request: the bytes of the response body that the client got and those on the
    way, whether the HTTP server still polls the body, and whether the body ended. *)
Record Download : Type := mkDownload {
  dn_rid : nat;
  dn_got : bytes;
  dn_buf : bytes;
  dn_open : bool;
  dn_eof : bool;
}.

Record Net : Type := mkNet {
  nt_server : Sys;
  nt_client : IoTask;
  nt_post : option Upload;         (* the write request in progress *)
  nt_get : option Download;        (* the read request in progress *)
  nt_sess : gmap nat Uuid;         (* the session of each request *)
  nt_posts : list nat;             (* ghost: the client's write requests *)
  nt_gets : list Download;         (* ghost: its completed read requests *)
  nt_trace : list label;           (* ghost: the server's schedule *)
  nt_io : list io_label;           (* ghost: the client's schedule *)
}.

Inductive net_label : Type :=
| NServer (l : label)                             (* the server runs, also for others *)
| NClient (l : io_label)                          (* the client runs *)
| NPost                                           (* a write request arrives *)
| NBody (n : nat)                                 (* [n] bytes of its body arrive *)
| NBodyEnd                                        (* its body is complete *)
| NBodyErr (e : string)                           (* its body fails *)
| NPostDone                                       (* its response arrives *)
| NPostFail (e : HyperErr)                        (* it fails for the client *)
| NGet                                            (* a read request arrives *)
| NHead                                           (* the head of its response arrives *)
| NGetFail (e : HyperErr)                         (* it fails for the client *)
| NPoll (read : Poll (result io_error bytes)) (room : bool)   (* its response body is polled *)
| NDropBody (stid : nat)                          (* a response body is dropped *)
| NFrame (n : nat)                                (* [n] bytes of the body arrive *)
| NEnd (empty_frame : bool)                       (* the body has ended *)
| NBreak (e : HyperErr).                          (* the body fails *)

Variable config : Config.
Variable front : DomainFronting.
Variable sid : Uuid.

Definition net_init : Net :=
  mkNet (with_connector config) start_proxy None None ∅ [] [] [] [].

(** * Updates *)

Definition set_post (x : option Upload) (net : Net) : Net :=
  mkNet (nt_server net) (nt_client net) x (nt_get net) (nt_sess net) (nt_posts net)
    (nt_gets net) (nt_trace net) (nt_io net).
Definition set_get (x : option Download) (net : Net) : Net :=
  mkNet (nt_server net) (nt_client net) (nt_post net) x (nt_sess net) (nt_posts net)
    (nt_gets net) (nt_trace net) (nt_io net).
Definition add_post (rid : nat) (net : Net) : Net :=
  mkNet (nt_server net) (nt_client net) (nt_post net) (nt_get net) (nt_sess net)
    (nt_posts net ++ [rid]) (nt_gets net) (nt_trace net) (nt_io net).
Definition add_get (dn : Download) (net : Net) : Net :=
  mkNet (nt_server net) (nt_client net) (nt_post net) (nt_get net) (nt_sess net)
    (nt_posts net) (nt_gets net ++ [dn]) (nt_trace net) (nt_io net).

(** The server makes a step. *)
Definition served (l : label) (s : Sys) (net : Net) : Net :=
  mkNet s (nt_client net) (nt_post net) (nt_get net) (sess_step (nt_sess net) (nt_server net) l)
    (nt_posts net) (nt_gets net) (nt_trace net ++ [l]) (nt_io net).
Definition serve (l : label) (net : Net) : option Net :=
  s ← step (nt_server net) l; Some (served l s net).

(** The client makes a step. *)
Definition moved (l : io_label) (t : IoTask) (net : Net) : Net :=
  mkNet (nt_server net) t (nt_post net) (nt_get net) (nt_sess net) (nt_posts net) (nt_gets net)
    (nt_trace net) (nt_io net ++ [l]).
Definition client (l : io_label) (net : Net) : option Net :=
  t ← io_step front sid (nt_client net) l; Some (moved l t net).

(** The response of a request, and the stream that is its body. *)
Definition response_to (rid : nat) (s : Sys) : option Response :=
  r ← sys_requests s !! rid;
  match rq_pos r with Responded resp => Some resp | _ => None end.
Definition body_stream (resp : Response) : option nat :=
  match rs_body resp with StreamBody stid => Some stid | Empty => None end.

(** Steps of the server that are not part of the client's own requests. *)
Definition is_own (net : Net) (rid : nat) : bool := bool_decide (nt_sess net !! rid = Some sid).
Definition own_stream (net : Net) (stid : nat) : bool :=
  match sys_streams (nt_server net) !! stid with Some st => is_own net (st_req st) | None => false end.
Definition foreign (net : Net) (l : label) : bool :=
  match l with
  | LRequest head => bool_decide (parse_session_id (sys_config (nt_server net)) head ≠ Some sid)
  | LBody rid _ => negb (is_own net rid)
  | LPoll stid _ _ | LDropStream stid => negb (own_stream net stid)
  | _ => true
  end.

(** Steps of the client that need nothing from the server. *)
Definition local (l : io_label) : bool :=
  match l with
  | IoRecv _ _ | IoGet _ | IoSent _ | IoConn _ | IoFrame (Some (Ok TrailersFrame)) => true
  | _ => false
  end.

(** * The transport *)

(** A request arrives. *)
Definition net_post (net : Net) : option Net :=
  match io_out (nt_client net), nt_post net with
  | OutSend request, None =>
      let rid := sys_next (nt_server net) in
      net' ← serve (LRequest (req_head request)) net;
      Some (add_post rid (set_post (Some (mkUpload rid (req_body request))) net'))
  | _, _ => None
  end.
Definition net_get (net : Net) : option Net :=
  match io_in (nt_client net), nt_get net with
  | InSend request, None =>
      let rid := sys_next (nt_server net) in
      net' ← serve (LRequest (req_head request)) net;
      Some (set_get (Some (mkDownload rid [] [] true false)) net')
  | _, _ => None
  end.

(** The body of the write request. *)
Definition net_body (n : nat) (net : Net) : option Net :=
  up ← nt_post net;
  guard (n ≤ length (up_rest up));;
  net' ← serve (LBody (up_rid up) (Some (Ok (firstn n (up_rest up))))) net;
  Some (set_post (Some (mkUpload (up_rid up) (skipn n (up_rest up)))) net').
Definition net_body_end (net : Net) : option Net :=
  up ← nt_post net;
  guard (up_rest up = []);;
  serve (LBody (up_rid up) None) net.
Definition net_body_err (e : string) (net : Net) : option Net :=
  up ← nt_post net;
  serve (LBody (up_rid up) (Some (Err e))) net.

(** The response of the write request; the client goes on after a [204] only. *)
Definition net_post_done (net : Net) : option Net :=
  up ← nt_post net;
  resp ← response_to (up_rid up) (nt_server net);
  net' ← client (IoAck (Ok (rs_status resp))) net;
  Some (if decide (rs_status resp = NO_CONTENT) then set_post None net' else net').

(** The response of the read request. *)
Definition net_head (net : Net) : option Net :=
  dn ← nt_get net;
  resp ← response_to (dn_rid dn) (nt_server net);
  client (IoResponse (Ok (rs_status resp))) net.

(** The HTTP server polls the response body, until it ends. *)
Definition polled (p : Poll (option bytes)) (dn : Download) : Download :=
  match p with
  | Ready (Some d) => mkDownload (dn_rid dn) (dn_got dn) (dn_buf dn ++ d) (dn_open dn) (dn_eof dn)
  | Ready None => mkDownload (dn_rid dn) (dn_got dn) (dn_buf dn) false true
  | Pending => dn
  end.
Definition net_poll (read : Poll (result io_error bytes)) (room : bool) (net : Net) : option Net :=
  dn ← nt_get net;
  guard (dn_open dn = true);;
  resp ← response_to (dn_rid dn) (nt_server net);
  stid ← body_stream resp;
  '(p, _) ← poll_next stid read room (nt_server net);
  net' ← serve (LPoll stid read room) net;
  Some (set_get (Some (polled p dn)) net').

(** It drops a body of one of the client's requests. *)
Definition close (dn : Download) : Download :=
  mkDownload (dn_rid dn) (dn_got dn) (dn_buf dn) false (dn_eof dn).
Definition close_if (rid : nat) (dn : Download) : Download :=
  if decide (dn_rid dn = rid) then close dn else dn.
Definition net_drop_body (stid : nat) (net : Net) : option Net :=
  st ← sys_streams (nt_server net) !! stid;
  guard (is_own net (st_req st) = true);;
  net' ← serve (LDropStream stid) net;
  Some (set_get (close_if (st_req st) <$> nt_get net) net').

(** The body arrives at the client. *)
Definition framed (n : nat) (dn : Download) : Download :=
  mkDownload (dn_rid dn) (dn_got dn ++ firstn n (dn_buf dn)) (skipn n (dn_buf dn)) (dn_open dn) (dn_eof dn).
Definition net_frame (n : nat) (net : Net) : option Net :=
  dn ← nt_get net;
  guard (0 < n ≤ length (dn_buf dn));;
  net' ← client (IoFrame (Some (Ok (DataFrame (firstn n (dn_buf dn)))))) net;
  Some (set_get (Some (framed n dn)) net').
Definition net_end (empty_frame : bool) (net : Net) : option Net :=
  dn ← nt_get net;
  guard (dn_buf dn = [] ∧ dn_eof dn = true);;
  net' ← client (IoFrame (if empty_frame then Some (Ok (DataFrame [])) else None)) net;
  Some (add_get dn (set_get None net')).

Definition net_step (net : Net) (l : net_label) : option Net :=
  match l with
  | NServer l => guard (foreign net l = true);; serve l net
  | NClient l => guard (local l = true);; client l net
  | NPost => net_post net
  | NBody n => net_body n net
  | NBodyEnd => net_body_end net
  | NBodyErr e => net_body_err e net
  | NPostDone => net_post_done net
  | NPostFail e => client (IoAck (Err e)) net
  | NGet => net_get net
  | NHead => net_head net
  | NGetFail e => client (IoResponse (Err e)) net
  | NPoll read room => net_poll read room net
  | NDropBody stid => net_drop_body stid net
  | NFrame n => net_frame n net
  | NEnd empty_frame => net_end empty_frame net
  | NBreak e => client (IoFrame (Some (Err e))) net
  end.
End Tunnel.

(** Go through a step of the network: its binds, and the states it requires. *)
Ltac net_cases Hs :=
  cbn [net_step] in Hs;
  unfold net_post, net_body, net_body_end, net_body_err, net_post_done, net_get, net_head,
    net_poll, net_drop_body, net_frame, net_end, serve, client in Hs;
  repeat match type of Hs with
    | context [match io_out ?x with _ => _ end] => destruct (io_out x) eqn:?; try done
    | context [match io_in ?x with _ => _ end] => destruct (io_in x) eqn:?; try done
    | context [match nt_post ?x with _ => _ end] => destruct (nt_post x) eqn:?; try done
    | context [match nt_get ?x with _ => _ end] => destruct (nt_get x) eqn:?; try done
    end;
  unbind Hs;
  repeat match type of Hs with (let (_, _) := ?x in _) = Some _ => destruct x; unbind Hs end;
  simplify_eq;
  repeat match goal with Hb : mbind _ _ = Some _ |- _ => unbind Hb end; simplify_eq.

Section Rules.
Context `{UuidLib, HttpLib, TryMutex, FuturesLib}.
Variable front : DomainFronting.
Variable sid : Uuid.

(** * The steps as rules *)

Inductive net_trans (net : Net) : Net → Prop :=
| NT_server l s :
    foreign sid net l = true → step (nt_server net) l = Some s → net_trans net (served l s net)
| NT_client l t :
    local l = true → io_step front sid (nt_client net) l = Some t → net_trans net (moved l t net)
| NT_post r s :
    io_out (nt_client net) = OutSend r → nt_post net = None →
    step (nt_server net) (LRequest (req_head r)) = Some s →
    net_trans net (add_post (sys_next (nt_server net))
      (set_post (Some (mkUpload (sys_next (nt_server net)) (req_body r))) (served (LRequest (req_head r)) s net)))
| NT_body up n s (l := LBody (up_rid up) (Some (Ok (firstn n (up_rest up))))) :
    nt_post net = Some up → n ≤ length (up_rest up) → step (nt_server net) l = Some s →
    net_trans net (set_post (Some (mkUpload (up_rid up) (skipn n (up_rest up)))) (served l s net))
| NT_body_end up s :
    nt_post net = Some up → up_rest up = [] → step (nt_server net) (LBody (up_rid up) None) = Some s →
    net_trans net (served (LBody (up_rid up) None) s net)
| NT_body_err up e s :
    nt_post net = Some up → step (nt_server net) (LBody (up_rid up) (Some (Err e))) = Some s →
    net_trans net (served (LBody (up_rid up) (Some (Err e))) s net)
| NT_acked up resp t (l := IoAck (Ok (rs_status resp))) :
    nt_post net = Some up → response_to (up_rid up) (nt_server net) = Some resp →
    rs_status resp = NO_CONTENT → io_step front sid (nt_client net) l = Some t →
    net_trans net (set_post None (moved l t net))
| NT_refused up resp t (l := IoAck (Ok (rs_status resp))) :
    nt_post net = Some up → response_to (up_rid up) (nt_server net) = Some resp →
    rs_status resp ≠ NO_CONTENT → io_step front sid (nt_client net) l = Some t →
    net_trans net (moved l t net)
| NT_fail l t :
    (∃ e, l = IoAck (Err e)) ∨ (∃ e, l = IoResponse (Err e)) ∨ (∃ e, l = IoFrame (Some (Err e))) →
    io_step front sid (nt_client net) l = Some t → net_trans net (moved l t net)
| NT_get r s :
    io_in (nt_client net) = InSend r → nt_get net = None →
    step (nt_server net) (LRequest (req_head r)) = Some s →
    net_trans net (set_get (Some (mkDownload (sys_next (nt_server net)) [] [] true false))
      (served (LRequest (req_head r)) s net))
| NT_head dn resp t (l := IoResponse (Ok (rs_status resp))) :
    nt_get net = Some dn → response_to (dn_rid dn) (nt_server net) = Some resp →
    io_step front sid (nt_client net) l = Some t → net_trans net (moved l t net)
| NT_poll dn resp stid read room p s :
    nt_get net = Some dn → dn_open dn = true → response_to (dn_rid dn) (nt_server net) = Some resp →
    body_stream resp = Some stid → poll_next stid read room (nt_server net) = Some (p, s) →
    net_trans net (set_get (Some (polled p dn)) (served (LPoll stid read room) s net))
| NT_drop_body stid st s :
    sys_streams (nt_server net) !! stid = Some st → is_own sid net (st_req st) = true →
    step (nt_server net) (LDropStream stid) = Some s →
    net_trans net (set_get (close_if (st_req st) <$> nt_get net) (served (LDropStream stid) s net))
| NT_frame dn n t (l := IoFrame (Some (Ok (DataFrame (firstn n (dn_buf dn)))))) :
    nt_get net = Some dn → 0 < n ≤ length (dn_buf dn) → io_step front sid (nt_client net) l = Some t →
    net_trans net (set_get (Some (framed n dn)) (moved l t net))
| NT_end dn l t :
    nt_get net = Some dn → dn_buf dn = [] → dn_eof dn = true →
    l = IoFrame None ∨ l = IoFrame (Some (Ok (DataFrame []))) →
    io_step front sid (nt_client net) l = Some t →
    net_trans net (add_get dn (set_get None (moved l t net))).

Lemma net_step_trans net l net' : net_step front sid net l = Some net' → net_trans net net'.
Proof.
  intros Hs. destruct l; net_cases Hs.
  all: try match goal with |- context [decide (rs_status ?x = _)] => destruct (decide (rs_status x = NO_CONTENT)) end.
  all: try (econstructor; eauto; fail).
  - cbn [step] in Hx5. rewrite Hx3 in Hx5. simplify_eq/=. by eapply NT_poll.
  - destruct_and?. eapply NT_end; eauto. destruct empty_frame; auto.
Qed.
End Rules.
