(* ===== verification/TunnelInv.v ===== *)
(** The composed system keeps the two ends of a session consistent.

    [base_wf]: its two halves are runs of the server and of the client. [ids_wf]: the
    requests of the client's session are exactly the client's. *)
From S2P Require Import Prelude Ext DomainFronting Stats State Session Server ServerSteps.
From S2P Require Import ServerInv StreamInv LogInv WriteInv BodyInv PendingInv Invariant Routing Delivery.
From S2P Require Import Client ClientProps Tunnel.

Section TunnelInv.
Context `{UuidLib, HttpLib, TryMutex, FuturesLib}.
Context `{!UuidLaws, !HttpLaws, !TryMutexLaws, !FuturesLaws}.
Context {config : Config} {front : DomainFronting} {sid : Uuid} {key : HeaderName}.
Context (keys : keys_agree front config key).
Implicit Types (s : Sys) (net : Net) (t : IoTask).

Abbreviation client_step := (io_step front sid).
Abbreviation init := (net_init config).
Abbreviation step_net := (net_step front sid).

(** * The two halves *)

Record base_wf net : Prop := {
  bw_run : run step (with_connector config) (nt_trace net) = Some (nt_server net);
  bw_io : run client_step start_proxy (nt_io net) = Some (nt_client net);
  bw_routed : routed (nt_sess net) (nt_server net);
}.

Lemma base_served net l s : base_wf net → step (nt_server net) l = Some s → base_wf (served l s net).
Proof.
  intros [Hrun Hio Hrt] Hs.
  assert (Hwf : sys_wf (nt_server net)) by (apply (reachable_wf config); by exists (nt_trace net)).
  split; [by eapply run_snoc|done|]. eapply routed_step; eauto using wf_ids, wf_table.
Qed.

Lemma base_moved net l t : base_wf net → client_step (nt_client net) l = Some t → base_wf (moved l t net).
Proof. intros [Hrun Hio Hrt] Hs. split; [done| |done]. by eapply run_snoc. Qed.

(** The rest of a step is bookkeeping. *)
Lemma base_set_post x net : base_wf net → base_wf (set_post x net).
Proof. intros []. by split. Qed.
Lemma base_set_get x net : base_wf net → base_wf (set_get x net).
Proof. intros []. by split. Qed.
Lemma base_add_post x net : base_wf net → base_wf (add_post x net).
Proof. intros []. by split. Qed.
Lemma base_add_get x net : base_wf net → base_wf (add_get x net).
Proof. intros []. by split. Qed.

#[local] Hint Resolve base_served base_moved base_set_post base_set_get base_add_post base_add_get : core.

Lemma base_wf_trans net net' : base_wf net → net_trans front sid net net' → base_wf net'.
Proof.
  intros Hb Ht. inversion Ht; subst; clear Ht; auto 6.
  apply base_set_get, base_served; [done|]. by eapply poll_step.
Qed.

Lemma base_run_ok net : base_wf net → run_ok (nt_trace net) (nt_server net).
Proof. intros [Hrun _ _]. by eapply run_run_ok. Qed.

Lemma base_sys net : base_wf net → sys_wf (nt_server net).
Proof. intros Hb. apply (ro_wf _ _ (base_run_ok _ Hb)). Qed.

Lemma base_config net : base_wf net → sys_config (nt_server net) = config.
Proof. intros [Hrun _ _]. apply (reachable_config config). by exists (nt_trace net). Qed.

Lemma base_client net :
  base_wf net → out_wf front sid (nt_client net) ∧ in_wf front sid (nt_client net) ∧
    sending_wf (nt_client net).
Proof.
  intros [_ Hio _]. destruct (client_run_wf _ _ _ _ Hio) as (Ho & Hi & _). split; [done|].
  split; [done|]. by eapply sending_run.
Qed.

(** The requests the client sends are for its session. *)
Lemma post_session net r :
  base_wf net → io_out (nt_client net) = OutSend r → parse_session_id config (req_head r) = Some sid.
Proof.
  intros Hb Hr. destruct (base_client _ Hb) as ([Hp _] & _ & [Hs _]).
  specialize (Hs _ Hr). rewrite last_lookup in Hs. destruct (Hp _ _ Hs) as [path Hc].
  by apply (write_request_session _ _ _ _ _ _ _ _ keys) in Hc as [? _].
Qed.

Lemma get_session net r :
  base_wf net → io_in (nt_client net) = InSend r → parse_session_id config (req_head r) = Some sid.
Proof.
  intros Hb Hr. destruct (base_client _ Hb) as (_ & [Hg _] & [_ Hs]).
  specialize (Hs _ Hr). apply last_Some_elem_of in Hs. destruct (Hg _ Hs) as [path Hc].
  by apply (read_request_session _ _ _ _ _ _ keys) in Hc as [? _].
Qed.

(** * The requests of the session are the client's *)

Definition get_rids net : list nat :=
  (dn_rid <$> nt_gets net) ++ (dn_rid <$> option_list (nt_get net)).

Record ids_wf net : Prop := {
  iw_own rid : nt_sess net !! rid = Some sid ↔ rid ∈ nt_posts net ++ get_rids net;
  iw_nodup : NoDup (nt_posts net ++ get_rids net);
  iw_body rid : rid ∈ get_rids net → body_of rid (nt_trace net) = [];
  iw_req rid : rid ∈ nt_posts net ++ get_rids net → is_Some (sys_requests (nt_server net) !! rid);
  iw_post up : nt_post net = Some up → last (nt_posts net) = Some (up_rid up);
}.

(** The identifier of the next request is fresh. *)
Lemma next_fresh net : base_wf net → nt_sess net !! sys_next (nt_server net) = None.
Proof.
  intros Hb. apply eq_None_not_Some. intros [u Hu].
  apply (rt_fresh _ _ (bw_routed _ Hb)) in Hu. lia.
Qed.

Lemma fresh_not_own net rid :
  base_wf net → ids_wf net → rid ∈ nt_posts net ++ get_rids net → rid ≠ sys_next (nt_server net).
Proof. intros Hb Hi Hin%(iw_own _ Hi) ->. by rewrite next_fresh in Hin. Qed.

(** What a step of the server that is not the client's leaves alone. *)
Lemma foreign_sess net l :
  base_wf net → foreign sid net l = true →
  ∀ rid, sess_step (nt_sess net) (nt_server net) l !! rid = Some sid ↔ nt_sess net !! rid = Some sid.
Proof.
  intros Hb Hf rid. unfold sess_step, foreign in *. destruct l; try done.
  apply bool_decide_eq_true in Hf. destruct (parse_session_id _ _) as [u|]; [|done].
  rewrite lookup_insert. case_decide as E; [|done]. rewrite <- E, next_fresh by done. naive_solver.
Qed.

Lemma foreign_body net l rid :
  foreign sid net l = true → nt_sess net !! rid = Some sid →
  body_of rid (nt_trace net ++ [l]) = body_of rid (nt_trace net).
Proof.
  intros Hf Hown. rewrite body_of_snoc. destruct l as [|k c| | | | | | | | | | | | | | |]; rewrite ?app_nil_r; try done.
  destruct c as [[d|]|]; rewrite ?app_nil_r; try done.
  case_decide; [|by rewrite app_nil_r]. subst. simpl in Hf. unfold is_own in Hf.
  by rewrite bool_decide_true in Hf.
Qed.
(** Steps that neither start nor forget a request. *)
Lemma ids_keep net net' :
  ids_wf net → nt_posts net' = nt_posts net → get_rids net' = get_rids net →
  (∀ rid, nt_sess net' !! rid = Some sid ↔ nt_sess net !! rid = Some sid) →
  (∀ rid, rid ∈ get_rids net → body_of rid (nt_trace net') = body_of rid (nt_trace net)) →
  (∀ rid, is_Some (sys_requests (nt_server net) !! rid) → is_Some (sys_requests (nt_server net') !! rid)) →
  (∀ up, nt_post net' = Some up → ∃ up0, nt_post net = Some up0 ∧ up_rid up0 = up_rid up) →
  ids_wf net'.
Proof.
  intros [Ho Hn Hb Hr Hp] Eposts Egets Esess Ebody Ereq Epost. split; rewrite ?Eposts, ?Egets; auto.
  - intros rid. by rewrite Esess, Ho.
  - intros rid Hin. rewrite Ebody by done. auto.
  - intros up Hup. destruct (Epost _ Hup) as (up0 & Hup0 & <-). auto.
Qed.

Lemma polled_rid p dn : dn_rid (polled p dn) = dn_rid dn.
Proof. by destruct p as [|[]]. Qed.

Lemma close_if_rid rid dn : dn_rid (close_if rid dn) = dn_rid dn.
Proof. unfold close_if. by case_decide. Qed.

Lemma post_in net up : ids_wf net → nt_post net = Some up → up_rid up ∈ nt_posts net.
Proof. intros Hi Hp%(iw_post _ Hi). by apply last_Some_elem_of. Qed.

(** The body of the write request is not that of a read request. *)
Lemma post_body net up c rid :
  ids_wf net → nt_post net = Some up → rid ∈ get_rids net →
  body_of rid (nt_trace net ++ [LBody (up_rid up) c]) = body_of rid (nt_trace net).
Proof.
  intros Hi Hp Hin. rewrite body_of_snoc. destruct c as [[d|]|]; rewrite ?app_nil_r; try done.
  case_decide as E; [|by rewrite app_nil_r]. exfalso. pose proof (iw_nodup _ Hi) as Hn.
  apply NoDup_app in Hn as (_ & Hd & _). eapply Hd; [by eapply post_in|]. by rewrite E.
Qed.

Lemma fresh_body net : base_wf net → body_of (sys_next (nt_server net)) (nt_trace net) = [].
Proof.
  intros Hb. pose proof (ro_bodies _ _ (base_run_ok _ Hb) (sys_next (nt_server net))) as Hbody.
  destruct (sys_requests (nt_server net) !! sys_next (nt_server net)) as [r|] eqn:E; [|done].
  apply (wf_ids _ (base_sys _ Hb)) in E. lia.
Qed.

Lemma own_sess net head rid :
  base_wf net → parse_session_id config head = Some sid →
  sess_step (nt_sess net) (nt_server net) (LRequest head) !! rid = Some sid ↔
    rid = sys_next (nt_server net) ∨ nt_sess net !! rid = Some sid.
Proof.
  intros Hb Hp. unfold sess_step. rewrite base_config, Hp by done. rewrite lookup_insert.
  case_decide; naive_solver.
Qed.

Lemma ids_wf_trans net net' :
  base_wf net → ids_wf net → net_trans front sid net net' → ids_wf net'.
Proof.
  intros Hb Hi Ht.
  assert (Hreq : ∀ l s, step (nt_server net) l = Some s → ∀ rid,
            is_Some (sys_requests (nt_server net) !! rid) → is_Some (sys_requests s !! rid)).
  { intros l s Hs rid. by eapply requests_stay, step_trans. }
  inversion Ht; subst; clear Ht.
  all: try (eapply (ids_keep net); [done|done|done|done|done|done|by eauto]).
  - eapply (ids_keep net); [done|done|done|by apply foreign_sess| |by eauto|by eauto].
    intros rid Hin. apply foreign_body; [done|]. apply (iw_own _ Hi), elem_of_app. by right.
  - (* NT_post *)
    pose proof (own_sess net (req_head r)) as Hsess. pose proof (post_session _ _ Hb H7) as Hp.
    split; simpl.
    + intros rid. rewrite Hsess, (iw_own _ Hi) by done. unfold get_rids. simpl. set_solver.
    + rewrite <- app_assoc. simpl. rewrite <- Permutation_middle. apply NoDup_cons. split; [|apply (iw_nodup _ Hi)].
      intros Hin. by eapply fresh_not_own.
    + intros rid Hin. rewrite body_of_snoc, app_nil_r. by apply (iw_body _ Hi).
    + intros rid Hin. destruct (decide (rid = sys_next (nt_server net))) as [->|Hne]; [by eapply arrival_request|].
      eapply Hreq, (iw_req _ Hi); [done|]. unfold get_rids in *. simpl in *. set_solver.
    + intros up [= <-]. by rewrite last_snoc.
  - eapply (ids_keep net); try done; [intros; by eapply post_body|by eauto|]. simpl. intros up0 [= <-]. by eauto.
  - eapply (ids_keep net); try done; [intros; by eapply post_body|by eauto|by eauto].
  - eapply (ids_keep net); try done; [intros; by eapply post_body|by eauto|by eauto].
  - (* NT_get *)
    pose proof (own_sess net (req_head r)) as Hsess. pose proof (get_session _ _ Hb H7) as Hp.
    assert (Hg : get_rids net = dn_rid <$> nt_gets net)
      by (unfold get_rids; rewrite H8; simpl; by rewrite app_nil_r).
    split; simpl.
    + intros rid. rewrite Hsess, (iw_own _ Hi) by done. rewrite Hg. unfold get_rids. simpl. set_solver.
    + unfold get_rids. simpl. rewrite app_assoc, <- Hg. rewrite Permutation_app_comm. simpl.
      apply NoDup_cons. split; [|apply (iw_nodup _ Hi)]. intros Hin. by eapply fresh_not_own.
    + unfold get_rids. simpl. rewrite <- Hg. intros rid Hin. rewrite body_of_snoc, app_nil_r.
      apply elem_of_app in Hin as [Hin|Hin%list_elem_of_singleton]; [by apply (iw_body _ Hi)|].
      subst. by apply fresh_body.
    + intros rid Hin. destruct (decide (rid = sys_next (nt_server net))) as [->|Hne]; [by eapply arrival_request|].
      eapply Hreq, (iw_req _ Hi); [done|]. rewrite Hg. unfold get_rids in *. simpl in *. set_solver.
    + apply (iw_post _ Hi).
  - eapply (ids_keep net); try done; [|by simpl; intros; rewrite body_of_snoc, app_nil_r| |by eauto].
    + unfold get_rids. simpl. rewrite H7. simpl. by rewrite polled_rid.
    + apply (Hreq (LPoll stid read room)). by eapply poll_step.
  - eapply (ids_keep net); try done; [|by simpl; intros; rewrite body_of_snoc, app_nil_r|by eauto|by eauto].
    unfold get_rids. simpl. destruct (nt_get net); simpl; [|done]. by rewrite close_if_rid.
  - eapply (ids_keep net); try done; [|by eauto]. unfold get_rids. simpl. by rewrite H7.
  - eapply (ids_keep net); try done; [|by eauto]. unfold get_rids. simpl. rewrite H7, fmap_app. simpl.
    by rewrite app_nil_r.
Qed.

Lemma ids_wf_init : ids_wf init.
Proof.
  split; simpl; try done; [|constructor|]; intros rid; [split|]; intros Hx.
  - by rewrite lookup_empty in Hx.
  - by apply not_elem_of_nil in Hx.
  - by apply not_elem_of_nil in Hx.
Qed.

Lemma base_wf_init : base_wf init.
Proof. split; simpl; [done|done|apply routed_init]. Qed.
End TunnelInv.

Arguments base_wf {_ _ _ _} config front sid net.
Arguments ids_wf {_ _ _} sid net.
