(* ===== verification/TunnelUp.v ===== *)
(** The uplink: what was written upstream for the client's session, against what the client
    sent ([up_wf]). *)
From S2P Require Import Prelude Ext DomainFronting Stats State Session Server ServerSteps.
From S2P Require Import ServerInv StreamInv LogInv WriteInv BodyInv PendingInv Invariant Routing Delivery.
From S2P Require Import Client ClientProps Tunnel TunnelInv.

Section TunnelUp.
Context `{UuidLib, HttpLib, TryMutex, FuturesLib}.
Context `{!UuidLaws, !HttpLaws, !TryMutexLaws, !FuturesLaws}.
Context {config : Config} {front : DomainFronting} {sid : Uuid}.
Implicit Types (s : Sys) (net : Net) (t : IoTask).

Abbreviation client_step := (io_step front sid).
Abbreviation base_wf := (base_wf config front sid).
Abbreviation ids_wf := (ids_wf sid).
Abbreviation init := (net_init config).

(** The chunks written upstream for the client's session. *)
Definition own_writes (sess : gmap nat Uuid) (log : list UpEvent) : list bytes :=
  omap (λ e, match e with
             | UpWrite _ rid d _ => if decide (sess !! rid = Some sid) then Some d else None
             | _ => None
             end) log.

(** Every write request but the last has been acknowledged and is written upstream as the
    client built it; the last one's body is in part on its way. *)
Record up_wf net : Prop := {
  uw_done i rid : nt_posts net !! i = Some rid → i < io_acks (nt_client net) →
    acknowledged (nt_server net) rid ∧
    ∃ req, io_posts (nt_client net) !! i = Some req ∧ concat (written rid (nt_server net)) = req_body req;
  uw_cur : match nt_post net with
    | None => length (nt_posts net) = io_acks (nt_client net)
    | Some up => length (nt_posts net) = S (io_acks (nt_client net)) ∧
        ∃ req, io_posts (nt_client net) !! io_acks (nt_client net) = Some req ∧
          concat (body_of (up_rid up) (nt_trace net)) ++ up_rest up = req_body req ∧
          (acknowledged (nt_server net) (up_rid up) → up_rest up = [])
    end;
  uw_log : own_writes (nt_sess net) (sys_log (nt_server net)) =
    concat ((λ rid, written rid (nt_server net)) <$> nt_posts net);
}.

Lemma own_writes_app sess log es : own_writes sess (log ++ es) = own_writes sess log ++ own_writes sess es.
Proof. apply omap_app. Qed.

Lemma own_writes_none sess es : (∀ aid rid d n, UpWrite aid rid d n ∉ es) → own_writes sess es = [].
Proof.
  intros Hno. unfold own_writes. induction es as [|e es IH]; [done|].
  assert (IH' := IH (λ aid rid d n Hin, Hno aid rid d n (list_elem_of_further _ _ _ Hin))).
  destruct e as [|aid rid d n|]; [done| |done]. destruct (Hno aid rid d n). by apply list_elem_of_here.
Qed.

Lemma own_writes_ext sess sess' log :
  (∀ aid rid d n, UpWrite aid rid d n ∈ log → sess' !! rid = Some sid ↔ sess !! rid = Some sid) →
  own_writes sess' log = own_writes sess log.
Proof.
  intros He. unfold own_writes. induction log as [|e log IH]; [done|].
  assert (IH' := IH (λ aid rid d n Hin, He aid rid d n (list_elem_of_further _ _ _ Hin))).
  destruct e as [|aid rid d n|]; [done| |done].
  destruct (He aid rid d n) as [Hl Hr]; [by apply list_elem_of_here|]. simpl.
  destruct (decide (sess' !! rid = Some sid)), (decide (sess !! rid = Some sid)); try tauto.
  f_equal. exact IH'.
Qed.

(** A chunk of the client's that is on its way belongs to the last write request. *)
Lemma own_chunk net rid d :
  base_wf net → ids_wf net → up_wf net → nt_sess net !! rid = Some sid →
  on_its_way (nt_server net) rid d → ∃ l, nt_posts net = l ++ [rid].
Proof.
  intros Hb Hi Hu Hown Hway. apply (iw_own _ Hi), elem_of_app in Hown as [Hin|Hin].
  - apply list_elem_of_lookup in Hin as [i Hin].
    destruct (decide (i < io_acks (nt_client net))) as [Hlt|Hge].
    + destruct (uw_done _ Hu _ _ Hin Hlt) as [(r & resp & Hr & Hp & _) _].
      by destruct (responded_no_msg _ _ _ _ d (wf_writes _ (base_sys _ Hb)) Hr Hp).
    + pose proof (lookup_lt_Some _ _ _ Hin) as Hlen. pose proof (uw_cur _ Hu) as Hc.
      destruct (nt_post net) as [up|]; [destruct Hc as [Hc _]|lia].
      assert (Hl : last (nt_posts net) = Some rid) by (rewrite last_lookup, Hc; simpl; by replace (io_acks _) with i by lia).
      by apply last_Some in Hl.
  - destruct (ro_delivered _ _ (base_run_ok _ Hb) rid) as (rest & E & _ & Hrest).
    rewrite (iw_body _ Hi _ Hin), (Hrest _ Hway) in E. by destruct (written rid (nt_server net)).
Qed.

Lemma log_served net l s :
  base_wf net → ids_wf net → up_wf net → step (nt_server net) l = Some s →
  own_writes (nt_sess net) (sys_log s) = concat ((λ rid, written rid s) <$> nt_posts net).
Proof.
  intros Hb Hi Hu Hs. assert (Hpost : ∀ rid, rid ∈ nt_posts net → nt_sess net !! rid = Some sid).
  { intros rid Hin. apply (iw_own _ Hi), elem_of_app. by left. }
  destruct (log_flow _ _ (step_trans _ _ _ Hs)) as [(es & E & Hno)|(aid & rid & d & n & E & Hway)];
    rewrite E, own_writes_app, (uw_log _ Hu).
  - rewrite own_writes_none, app_nil_r by done. f_equal. apply list_fmap_ext. intros i x Hx.
    symmetry. by apply (written_log_other x _ _ es E).
  - unfold own_writes. simpl. destruct (decide _) as [Hown|Hown].
    + destruct (own_chunk _ _ _ Hb Hi Hu Hown Hway) as [l0 El]. pose proof (iw_nodup _ Hi) as Hn.
      rewrite El in Hn |- *. apply NoDup_app in Hn as [(_ & Hn & _)%NoDup_app _].
      rewrite !fmap_app, !concat_app. simpl. rewrite !app_nil_r.
      assert (Ew : written rid s = written rid (nt_server net) ++ [d]).
      { unfold written. rewrite E, writes_of_snoc, decide_True by done. by rewrite fmap_app. }
      rewrite Ew, app_assoc. do 3 f_equal. apply list_fmap_ext. intros i x Hx. symmetry.
      apply (written_log_other x _ _ _ E). intros a0 d0 n0 Hin%list_elem_of_singleton. simplify_eq.
      apply list_elem_of_lookup_2, Hn in Hx. set_solver.
    + rewrite app_nil_r. f_equal. apply list_fmap_ext. intros i x Hx. symmetry.
      apply (written_log_other x _ _ _ E). intros a0 d0 n0 Hin%list_elem_of_singleton. simplify_eq.
      apply Hown, Hpost. by eapply list_elem_of_lookup_2.
Qed.
(** What a step of the client does to the requests it sent and the answers it got. *)
Definition ack_count (l : io_label) : nat :=
  match l with IoAck (Ok c) => if decide (c = NO_CONTENT) then 1 else 0 | _ => 0 end.

Lemma client_counts t l t' :
  client_step t l = Some t' →
  (∃ more, io_posts t' = io_posts t ++ more) ∧
  io_acks t' = io_acks t + ack_count l.
Proof.
  intros Hs%io_step_trans. inversion Hs; subst; simpl.
  2:{ split; [by exists []; rewrite app_nil_r|]. unfold out_response. destruct res as [c|e]; [case_decide|]; lia. }
  all: rewrite Nat.add_0_r; split; [|done].
  all: first [by eexists|by exists []; rewrite app_nil_r].
Qed.

(** The client does not get an acknowledgement. *)
Lemma up_moved net l t :
  up_wf net → client_step (nt_client net) l = Some t → ack_count l = 0 →
  up_wf (moved l t net).
Proof.
  intros [Hd Hc Hl] [[more Ep] Ea]%client_counts E0. rewrite E0, Nat.add_0_r in Ea.
  split; simpl; rewrite ?Ea, ?Ep; [| |done].
  - intros i rid Hi Hlt. destruct (Hd _ _ Hi Hlt) as (Hack & req & Hreq & Hw).
    split; [done|]. exists req. split; [by apply lookup_app_l_Some|done].
  - destruct (nt_post net) as [up|]; [|done]. destruct Hc as (Hlen & req & Hreq & Hb).
    split; [done|]. exists req. split; [by apply lookup_app_l_Some|done].
Qed.

Lemma acknowledged_stays net l s rid :
  base_wf net → step (nt_server net) l = Some s → acknowledged (nt_server net) rid →
  acknowledged s rid ∧ written rid s = written rid (nt_server net).
Proof.
  intros Hb Hs (r & resp & Hr & Hp & Hst). pose proof (base_sys _ Hb) as Hwf.
  pose proof (step_trans _ _ _ Hs) as Ht. split.
  - destruct (responded_stays _ _ _ _ _ (wf_ids _ Hwf) Ht Hr Hp) as (r' & Hr' & Hp'). by exists r', resp.
  - eapply responded_written; [apply (wf_writes _ Hwf)|apply (ro_granted _ _ (base_run_ok _ Hb))|done..].
Qed.

(** Everything in the log after a step was sent by a request that had arrived before. *)
Lemma logged_known net l s aid rid d n :
  base_wf net → step (nt_server net) l = Some s → UpWrite aid rid d n ∈ sys_log s →
  is_Some (nt_sess net !! rid).
Proof.
  intros Hb Hs Hin. pose proof (bw_routed _ Hb) as Hr.
  destruct (fl_write _ _ (flows_trans _ _ (step_trans _ _ _ Hs)) _ _ _ _ Hin) as [Ho|(a & Ha & Hm)].
  - destruct (rt_write _ _ Hr _ _ _ _ Ho) as (u & -> & _). by eauto.
  - destruct (rt_msg _ _ Hr _ _ _ _ Ha Hm eq_refl) as (u & -> & _). by eauto.
Qed.

Lemma own_writes_served net l s :
  base_wf net → step (nt_server net) l = Some s →
  own_writes (sess_step (nt_sess net) (nt_server net) l) (sys_log s) =
    own_writes (nt_sess net) (sys_log s).
Proof.
  intros Hb Hs. apply own_writes_ext. intros aid rid d n Hin.
  destruct (logged_known _ _ _ _ _ _ _ Hb Hs Hin) as [u Hu]. unfold sess_step. destruct l; try done.
  destruct (parse_session_id _ _); [|done]. rewrite lookup_insert_ne; [done|].
  intros E. rewrite <- E, next_fresh in Hu by done. done.
Qed.

Lemma done_served net l s i rid :
  base_wf net → up_wf net → step (nt_server net) l = Some s →
  nt_posts net !! i = Some rid → i < io_acks (nt_client net) →
  acknowledged s rid ∧
  ∃ req, io_posts (nt_client net) !! i = Some req ∧ concat (written rid s) = req_body req.
Proof.
  intros Hb Hu Hs Hk Hlt. destruct (uw_done _ Hu _ _ Hk Hlt) as (Hack & req & Hreq & Hw).
  destruct (acknowledged_stays _ _ _ _ Hb Hs Hack) as [? ->]. by eauto.
Qed.

(** The write request in progress is acknowledged when its body ends. *)
Lemma post_acknowledged net l s up :
  base_wf net → ids_wf net → step (nt_server net) l = Some s → nt_post net = Some up →
  acknowledged s (up_rid up) → acknowledged (nt_server net) (up_rid up) ∨ l = LBody (up_rid up) None.
Proof.
  intros Hb Hi Hs Hp. eapply acknowledged_label; [apply (wf_ids _ (base_sys _ Hb))|done|].
  apply (iw_req _ Hi), elem_of_app. left. by eapply (post_in net _ Hi).
Qed.

(** The server makes a step that gives it no part of the write request in progress. *)
Lemma up_served net l s :
  base_wf net → ids_wf net → up_wf net → step (nt_server net) l = Some s →
  (∀ up, nt_post net = Some up → body_of (up_rid up) (nt_trace net ++ [l]) = body_of (up_rid up) (nt_trace net) ∧
     (l = LBody (up_rid up) None → up_rest up = [])) →
  up_wf (served l s net).
Proof.
  intros Hb Hi Hu Hs Hbody. split; simpl.
  - intros k rid. by eapply done_served.
  - pose proof (uw_cur _ Hu) as Hc. destruct (nt_post net) as [up|] eqn:Ep; [|done].
    destruct Hc as (Hlen & req & Hreq & Hrest & Hempty). split; [done|]. exists req.
    destruct (Hbody up eq_refl) as [-> Hend]. split; [done|]. split; [done|]. intros Hack.
    destruct (post_acknowledged _ _ _ _ Hb Hi Hs Ep Hack); auto.
  - rewrite own_writes_served by done. by eapply log_served.
Qed.

Lemma up_set_get x net : up_wf net → up_wf (set_get x net).
Proof. intros []. by split. Qed.
Lemma up_add_get x net : up_wf net → up_wf (add_get x net).
Proof. intros []. by split. Qed.

Lemma acknowledged_body ls s rid :
  bodies_wf ls s → writes_wf s → acknowledged s rid → body_of rid ls ≠ [].
Proof.
  intros Hb Hw (r & resp & Hr & Hp & Hst) E.
  pose proof (ww_req _ Hw _ _ Hr) as Hok. unfold request_ok in Hok. rewrite Hp in Hok.
  destruct (Hok Hst) as [Hne _]. specialize (Hb rid). rewrite Hr, E in Hb.
  assert (Hnil : rq_acked r = []).
  { specialize (Hb ltac:(unfold may_succeed; by rewrite Hp)). by apply app_eq_nil in Hb as [? _]. }
  by rewrite Hnil in Hne.
Qed.

(** A write request arrives. *)
Lemma up_post net r s :
  base_wf net → ids_wf net → up_wf net → io_out (nt_client net) = OutSend r → nt_post net = None →
  step (nt_server net) (LRequest (req_head r)) = Some s →
  up_wf (add_post (sys_next (nt_server net))
    (set_post (Some (mkUpload (sys_next (nt_server net)) (req_body r))) (served (LRequest (req_head r)) s net))).
Proof.
  intros Hb Hi Hu Hr Hp Hs. pose proof (uw_cur _ Hu) as Hlen. rewrite Hp in Hlen.
  destruct (base_client _ Hb) as ([_ Ho] & _ & [Hsend _]). rewrite Hr in Ho. destruct Ho as [_ Hposts].
  specialize (Hsend _ Hr). rewrite last_lookup, Hposts in Hsend. simpl in Hsend.
  assert (Hfresh : body_of (sys_next (nt_server net)) (nt_trace net ++ [LRequest (req_head r)]) = [])
    by (rewrite body_of_snoc, app_nil_r; by eapply fresh_body).
  split; simpl.
  - intros i rid Hi' Hlt. apply (done_served net _ _ _ _ Hb Hu Hs); [|done].
    by rewrite lookup_app_l in Hi' by lia.
  - rewrite length_app, Hlen. simpl. split; [lia|]. exists r. split; [done|]. rewrite Hfresh.
    split; [done|]. intros Hack. exfalso.
    pose proof (base_run_ok _ (base_served _ _ _ Hb Hs)) as Hok.
    by eapply acknowledged_body, Hfresh; [apply (ro_bodies _ _ Hok)|apply (wf_writes _ (ro_wf _ _ Hok))|].
  - etransitivity; [by apply (own_writes_served net (LRequest (req_head r)) s)|].
    rewrite (log_served _ _ _ Hb Hi Hu Hs), fmap_app, concat_app. simpl.
    destruct (ro_delivered _ _ (base_run_ok _ (base_served _ _ _ Hb Hs)) (sys_next (nt_server net)))
      as (rest & E & _). simpl in E. rewrite Hfresh in E. symmetry in E. apply app_eq_nil in E as [-> _].
    by rewrite !app_nil_r.
Qed.

(** A piece of its body arrives. *)
Lemma up_body net up n s (l := LBody (up_rid up) (Some (Ok (firstn n (up_rest up))))) :
  base_wf net → ids_wf net → up_wf net → nt_post net = Some up → step (nt_server net) l = Some s →
  up_wf (set_post (Some (mkUpload (up_rid up) (skipn n (up_rest up)))) (served l s net)).
Proof.
  intros Hb Hi Hu Hp Hs. pose proof (uw_cur _ Hu) as Hcur. rewrite Hp in Hcur.
  destruct Hcur as (Hlen & req & Hreq & Hrest & Hempty). split; simpl.
  - intros i rid. by eapply done_served.
  - split; [done|]. exists req. split; [done|]. rewrite body_of_snoc. subst l. simpl. rewrite decide_True by done.
    rewrite concat_app. simpl. rewrite app_nil_r, <- app_assoc, firstn_skipn. split; [done|].
    intros Hack. destruct (post_acknowledged _ _ _ _ Hb Hi Hs Hp Hack) as [Ho|?]; [|done].
    by rewrite (Hempty Ho), skipn_nil.
  - etransitivity; [by apply (own_writes_served net l s)|by eapply log_served].
Qed.

(** It is acknowledged to the client. *)
Lemma up_acked net up resp t (l := IoAck (Ok (rs_status resp))) :
  base_wf net → up_wf net → nt_post net = Some up →
  response_to (up_rid up) (nt_server net) = Some resp → rs_status resp = NO_CONTENT →
  ids_wf net → client_step (nt_client net) l = Some t → up_wf (set_post None (moved l t net)).
Proof.
  intros Hb Hu Hp Hresp Hst Hi Hs. pose proof (uw_cur _ Hu) as Hcur. rewrite Hp in Hcur.
  destruct Hcur as (Hlen & req & Hreq & Hrest & Hempty).
  destruct (client_counts _ _ _ Hs) as [[more Ep] Ea]. simpl in Ea. rewrite decide_True in Ea by done.
  unfold response_to in Hresp. apply bind_Some in Hresp as (r & Hr & Hresp).
  destruct (rq_pos r) eqn:Hpos; simplify_eq.
  assert (Hack : acknowledged (nt_server net) (up_rid up)) by (by exists r, resp).
  split; simpl; [| |apply (uw_log _ Hu)].
  - intros i rid Hi' Hlt. rewrite Ep. destruct (decide (i < io_acks (nt_client net))) as [Hl|Hl].
    + destruct (uw_done _ Hu _ _ Hi' Hl) as (? & req' & Hreq' & ?). split; [done|]. exists req'.
      split; [by apply lookup_app_l_Some|done].
    + assert (i = io_acks (nt_client net)) as -> by lia.
      pose proof (iw_post _ Hi _ Hp) as Hlast. rewrite last_lookup, Hlen in Hlast. simpl in Hlast.
      simplify_eq. split; [done|]. exists req. split; [by apply lookup_app_l_Some|].
      rewrite <- Hrest, (Hempty Hack), app_nil_r. f_equal.
      eapply acknowledged_written; try done; [apply (ro_bodies _ _ (base_run_ok _ Hb))|].
      apply (wf_writes _ (base_sys _ Hb)).
  - rewrite Hlen, Ea. lia.
Qed.

Lemma up_wf_trans net net' :
  base_wf net → ids_wf net → up_wf net → net_trans front sid net net' → up_wf net'.
Proof.
  intros Hb Hi Hu Ht.
  assert (Hother : ∀ l s, step (nt_server net) l = Some s → (∀ rid c, l ≠ LBody rid c) → up_wf (served l s net)).
  { intros l s Hs Hl. apply up_served; try done. intros up Hp. split; [|intros E; by destruct (Hl _ _ E)].
    rewrite body_of_snoc. destruct l; rewrite ?app_nil_r; try done. by destruct (Hl rid chunk). }
  inversion Ht; subst; clear Ht.
  - (* NT_server *)
    apply up_served; try done. intros up Hp.
    assert (Hown : nt_sess net !! up_rid up = Some sid).
    { apply (iw_own _ Hi), elem_of_app. left. by eapply (post_in net _ Hi). }
    split; [by eapply foreign_body|]. intros ->. simpl in H7. unfold is_own in H7. by rewrite bool_decide_true in H7.
  - apply up_moved; try done. by destruct l.
  - (* NT_post *) by eapply up_post.
  - (* NT_body *) by eapply up_body.
  - (* NT_body_end *)
    apply up_served; try done. intros up0 Hp. simplify_eq. split; [|done]. by rewrite body_of_snoc, app_nil_r.
  - (* NT_body_err *)
    apply up_served; try done. intros up0 Hp. simplify_eq. split; [|done]. by rewrite body_of_snoc, app_nil_r.
  - (* NT_acked *) by eapply up_acked.
  - (* NT_refused *) apply up_moved; try done. simpl. by rewrite decide_False.
  - apply up_moved; try done. by destruct H7 as [[e ->]|[[e ->]|[e ->]]].
  - (* NT_get *) by apply up_set_get, Hother.
  - by apply up_moved.
  - (* NT_poll *)
    apply up_set_get, Hother; [|done]. by eapply poll_step.
  - by apply up_set_get, Hother.
  - by apply up_set_get, up_moved.
  - apply up_add_get, up_set_get, up_moved; try done. by destruct H10 as [-> | ->].
Qed.

Lemma up_wf_init : up_wf init.
Proof. split; simpl; done. Qed.
End TunnelUp.

Arguments own_writes {_} sid sess log.
Arguments up_wf {_ _ _} sid net.
