(* ===== verification/TunnelDown.v ===== *)
(** The downlink: what the client received, against what was read upstream ([down_wf]).

    For each upstream connection of the session, the chunks read from it are, in order,
    the bytes the client has got, the bytes on their way to it, and what a response body
    holds that has not been polled yet; or, after a failure, what was lost. *)
From S2P Require Import Prelude Ext DomainFronting Stats State Session Server ServerSteps.
From S2P Require Import ServerInv StreamInv LogInv WriteInv BodyInv PendingInv Invariant Routing Delivery Reading.
From S2P Require Import Client ClientProps Tunnel TunnelInv.

Section TunnelDown.
Context `{UuidLib, HttpLib, TryMutex, FuturesLib}.
Context `{!UuidLaws, !HttpLaws, !TryMutexLaws, !FuturesLaws}.
Context {config : Config} {front : DomainFronting} {sid : Uuid}.
Implicit Types (s : Sys) (net : Net) (t : IoTask) (dn : Download) (st : StreamState).

Abbreviation client_step := (io_step front sid).
Abbreviation base_wf := (base_wf config front sid).
Abbreviation ids_wf := (ids_wf sid).

(** * Where a download comes from *)

(** The connection that the body of the response to a request is read from. *)
Definition source s (rid : nat) : option nat :=
  resp ← response_to rid s; k ← body_stream resp; st ← sys_streams s !! k; Some (st_actor st).

Lemma source_inv s rid aid :
  granted s → source s rid = Some aid →
  ∃ r resp k st, sys_requests s !! rid = Some r ∧ rq_pos r = Responded resp ∧
    rs_body resp = StreamBody k ∧ sys_streams s !! k = Some st ∧ st_actor st = aid ∧ st_req st = rid.
Proof.
  unfold source, response_to, body_stream. intros Hg Hs.
  apply bind_Some in Hs as (resp & Hresp & Hs). apply bind_Some in Hs as (k & Hk & Hs).
  apply bind_Some in Hs as (st & Hst & Hs). apply bind_Some in Hresp as (r & Hr & Hp).
  destruct (rs_body resp) as [|k'] eqn:Eb; simplify_eq. destruct (rq_pos r) as [| | | |resp'|] eqn:Ep; simplify_eq.
  destruct (gr_given _ Hg _ _ k Hr) as (st' & Hst' & E); [unfold rq_stream; by rewrite Ep, Eb|].
  simplify_eq. eauto 10.
Qed.

Lemma source_stays s s' rid aid :
  ids_fresh s → granted s → trans s s' → source s rid = Some aid → source s' rid = Some aid.
Proof.
  intros Hf Hg Ht (r & resp & k & st & Hr & Hp & Hb & Hst & <- & _)%source_inv; [|done].
  destruct (responded_stays _ _ _ _ _ Hf Ht Hr Hp) as (r' & Hr' & Hp').
  destruct (stream_stays _ _ _ _ Ht Hf Hst) as (st' & Hst' & E & _).
  unfold source, response_to, body_stream. by rewrite Hr'; simpl; rewrite Hp'; simpl; rewrite Hb; simpl; rewrite Hst'; simpl; rewrite E.
Qed.

(** * The invariant *)

(** What a download has is what its stream has yielded. *)
Record dn_ok s dn : Prop := {
  dk_out k st : sys_streams s !! k = Some st → st_req st = dn_rid dn →
    concat (st_out st) = dn_got dn ++ dn_buf dn ∧
    (dn_eof dn = true → holding st = true → st_aborted st = true);
  dk_none : source s (dn_rid dn) = None → dn_got dn = [] ∧ dn_buf dn = [] ∧ dn_eof dn = false;
  dk_closed : dn_open dn = false → ∃ k st, sys_streams s !! k = Some st ∧ st_req st = dn_rid dn;
}.

(** A completed download had a stream. *)
Lemma done_stream s dn :
  granted s → dn_ok s dn → dn_eof dn = true →
  ∃ k st, sys_streams s !! k = Some st ∧ st_req st = dn_rid dn.
Proof.
  intros Hg Hok He. destruct (source s (dn_rid dn)) as [aid|] eqn:Es.
  - apply source_inv in Es as (_ & _ & k & st & _ & _ & _ & Hst & _ & E); [by eauto|done].
  - destruct (dk_none _ _ Hok Es) as (_ & _ & ?). congruence.
Qed.

(** The bytes of some downloads that come from [aid]. *)
Definition part s (aid : nat) dn (b : bytes) : bytes :=
  if decide (source s (dn_rid dn) = Some aid) then b else [].
Definition got_from s (aid : nat) (dns : list Download) : bytes :=
  concat ((λ dn, part s aid dn (dn_got dn)) <$> dns).
Definition buf_from s (aid : nat) (dns : list Download) : bytes :=
  concat ((λ dn, part s aid dn (dn_buf dn)) <$> dns).

(** The body was dropped before its end. *)
Definition dead dn : Prop := dn_open dn = false ∧ dn_eof dn = false.

Definition is_stopped s (aid : nat) : Prop :=
  ∃ a, sys_actors s !! aid = Some a ∧ ac_status a = Stopped.
Definition has_holder s (aid : nat) : Prop :=
  ∃ k st, sys_streams s !! k = Some st ∧ st_actor st = aid ∧ holding st = true.

Definition account s (aid : nat) (gets : list Download) (cur : option Download) : Prop :=
  ∃ lost,
    concat (actor_reads aid (sys_log s)).*2 =
      got_from s aid (gets ++ option_list cur) ++ buf_from s aid (option_list cur) ++ concat lost ∧
    (∀ k st, sys_streams s !! k = Some st → st_actor st = aid → holding st = true → lost = telling st) ∧
    (lost = [] ∨ has_holder s aid ∨ is_stopped s aid ∨ ∃ dn, cur = Some dn ∧ dead dn).

(** [aid] serves no other session. *)
Definition ours s (aid : nat) : Prop := ∀ u, serves u s aid → u = sid.

Record down_wf net : Prop := {
  dw_frames : concat (io_frames (nt_client net)) =
    concat (dn_got <$> nt_gets net ++ option_list (nt_get net));
  dw_posts rid : rid ∈ nt_posts net → not_reading (nt_server net) rid;
  dw_cur dn : nt_get net = Some dn → dn_ok (nt_server net) dn;
  dw_done dn : dn ∈ nt_gets net → dn_ok (nt_server net) dn ∧ dn_eof dn = true ∧ dn_buf dn = [];
  dw_account aid : ours (nt_server net) aid →
    account (nt_server net) aid (nt_gets net) (nt_get net);
}.

Lemma ours_back s s' aid : ids_fresh s → trans s s' → ours s' aid → ours s aid.
Proof. intros Hf Ht Ho u Hu. eapply Ho, serves_mono; eauto. Qed.

(** A stream of one of our connections answers one of the client's requests. *)
Lemma ours_stream net aid k st :
  base_wf net → ours (nt_server net) aid → sys_streams (nt_server net) !! k = Some st →
  st_actor st = aid → nt_sess net !! st_req st = Some sid.
Proof.
  intros Hb Ho Hst <-. destruct (rt_stream _ _ (bw_routed _ Hb) _ _ Hst) as (u & Hu & Hs).
  by rewrite Hu, (Ho _ Hs).
Qed.

Lemma dn_own net dn :
  ids_wf net → nt_get net = Some dn ∨ dn ∈ nt_gets net → dn_rid dn ∈ get_rids net.
Proof.
  intros Hi [Hd|Hd]; unfold get_rids; [rewrite Hd; set_solver|].
  apply elem_of_app. left. by apply list_elem_of_fmap_2.
Qed.

(** * Steps that leave the client's streams alone *)

Section Serve.
Context net (l : label) s (Hb : base_wf net) (Hi : ids_wf net) (Hd : down_wf net).
Context (Hs : step (nt_server net) l = Some s).
Abbreviation s0 := (nt_server net).

Lemma serve_trans : trans s0 s.
Proof. by eapply step_trans. Qed.
Lemma serve_fresh : ids_fresh s0.
Proof. apply (wf_ids _ (base_sys _ Hb)). Qed.
Lemma serve_granted : granted s0.
Proof. apply (ro_granted _ _ (base_run_ok _ Hb)). Qed.
#[local] Hint Resolve serve_trans serve_fresh serve_granted : core.

Lemma source_new rid : source s rid = None → source s0 rid = None.
Proof.
  intros E. apply eq_None_not_Some. intros [aid Ha]. by erewrite source_stays in E.
Qed.

Lemma part_stays aid dn b :
  (source s0 (dn_rid dn) = None → b = []) → part s aid dn b = part s0 aid dn b.
Proof.
  intros Hn. unfold part. destruct (source s0 (dn_rid dn)) as [x|] eqn:E.
  - by erewrite source_stays.
  - rewrite Hn by done. by destruct (decide (_ = Some aid)), (decide (None = Some aid)).
Qed.

(** A new stream for a download that has nothing yet. *)
Lemma new_stream_none dn k st :
  dn_ok s0 dn → sys_streams s0 !! k = None → sys_streams s !! k = Some st → st_req st = dn_rid dn →
  source s0 (dn_rid dn) = None.
Proof.
  intros Hok Hno Hst E. destruct (new_stream _ _ _ _ serve_trans Hno Hst) as (_ & a & Ha & _ & Hm).
  apply eq_None_not_Some. intros [aid (r & resp & k' & st' & _ & _ & _ & Hst' & _ & E')%source_inv]; [|done].
  eapply (gr_msg _ serve_granted _ _ _ _ Hst' Ha). by rewrite E', <- E.
Qed.

Context (Hsame : ∀ k st, sys_streams s0 !! k = Some st → nt_sess net !! st_req st = Some sid → same_stream s0 s k).

Lemma dn_ok_served dn : nt_sess net !! dn_rid dn = Some sid → dn_ok s0 dn → dn_ok s dn.
Proof.
  intros Hown Hok. split.
  - intros k st' Hst' E. destruct (sys_streams s0 !! k) as [st|] eqn:Hst.
    + destruct (stream_stays _ _ _ _ serve_trans serve_fresh Hst) as (st1 & Hst1 & _ & E1). simplify_eq.
      destruct (Hsame _ _ Hst ltac:(congruence) _ Hst) as (st1 & Hst1' & Hx). simplify_eq.
      destruct (dk_out _ _ Hok _ _ Hst ltac:(congruence)) as [Hout He].
      destruct Hx as [->| ->]; [done|]. split; [done|]. done.
    + destruct (dk_none _ _ Hok (new_stream_none _ _ _ Hok Hst Hst' E)) as (-> & -> & ->).
      destruct (new_stream _ _ _ _ serve_trans Hst Hst') as [-> _]. done.
  - intros Hn%source_new. by apply (dk_none _ _ Hok).
  - intros Ho. destruct (dk_closed _ _ Hok Ho) as (k & st & Hst & E).
    destruct (stream_stays _ _ _ _ serve_trans serve_fresh Hst) as (st1 & Hst1 & _ & E1).
    exists k, st1. split; [done|congruence].
Qed.

(** No stream is granted while the current download waits for its end. *)
Lemma not_granted k st :
  sys_streams s0 !! k = None → sys_streams s !! k = Some st → ours s0 (st_actor st) →
  ¬ is_stopped s0 (st_actor st) ∧ ∀ dn, nt_get net = Some dn → dn_open dn = true.
Proof.
  intros Hno Hst Ho. destruct (new_stream _ _ _ _ serve_trans Hno Hst) as (_ & a & Ha & Hrun & Hm).
  split; [intros (b & Hb' & E); simplify_eq; congruence|]. intros dn Hdn.
  destruct (dn_open dn) eqn:Eo; [done|exfalso].
  destruct (rt_msg _ _ (bw_routed _ Hb) _ _ _ _ Ha Hm eq_refl) as (u & Hu & Hsv).
  rewrite (Ho _ Hsv) in Hu.
  assert (Hfresh : ∀ k' st', sys_streams s0 !! k' = Some st' → st_req st' ≠ st_req st).
  { intros k' st' Hst' E. eapply (gr_msg _ serve_granted _ _ _ _ Hst' Ha). by rewrite E. }
  apply (iw_own _ Hi) in Hu. apply elem_of_app in Hu as [Hp|Hg].
  - by destruct (dw_posts _ Hd _ Hp) as (_ & Hnr & _); eapply Hnr.
  - unfold get_rids in Hg. rewrite Hdn in Hg. apply elem_of_app in Hg as [Hg|Hg].
    + apply list_elem_of_fmap in Hg as (dn' & E & Hin). destruct (dw_done _ Hd _ Hin) as (Hok & He & _).
      destruct (done_stream _ _ serve_granted Hok He) as (k' & st' & Hst' & E').
      eapply Hfresh; [done|congruence].
    + apply list_elem_of_singleton in Hg.
      destruct (dk_closed _ _ (dw_cur _ Hd _ Hdn) Eo) as (k' & st' & Hst' & E').
      eapply Hfresh; [done|congruence].
Qed.

Lemma reads_stay aid :
  ours s0 aid → actor_reads aid (sys_log s) = actor_reads aid (sys_log s0).
Proof.
  intros Ho. destruct (read_flow _ _ aid serve_trans) as [?|(k & st & d & Hst & <- & Hp & st' & Hst' & E)]; [done|].
  assert (Hown : nt_sess net !! st_req st = Some sid) by (by eapply ours_stream).
  by destruct (same_not_read _ _ _ _ _ d (Hsame _ _ Hst Hown) Hst Hp Hst').
Qed.

Lemma parts_stay aid f dns :
  (∀ dn, dn ∈ dns → source s0 (dn_rid dn) = None → f dn = []) →
  concat ((λ dn, part s aid dn (f dn)) <$> dns) = concat ((λ dn, part s0 aid dn (f dn)) <$> dns).
Proof.
  intros Hn. f_equal. apply list_fmap_ext. intros i dn Hi'%list_elem_of_lookup_2.
  apply part_stays. by apply Hn.
Qed.

Lemma dns_none dn :
  dn ∈ nt_gets net ++ option_list (nt_get net) → source s0 (dn_rid dn) = None →
  dn_got dn = [] ∧ dn_buf dn = [].
Proof.
  intros [Hin|Hin]%elem_of_app Hn.
  - destruct (dw_done _ Hd _ Hin) as [Hok _]. by destruct (dk_none _ _ Hok Hn) as (? & ? & _).
  - destruct (nt_get net) as [x|] eqn:E; simpl in Hin; [|by apply not_elem_of_nil in Hin].
    apply list_elem_of_singleton in Hin as ->. by destruct (dk_none _ _ (dw_cur _ Hd _ E) Hn) as (? & ? & _).
Qed.

Lemma stopped_stays aid : is_stopped s0 aid → is_stopped s aid.
Proof.
  intros (a & Ha & Hst). destruct (actor_evolves_trans _ _ _ _ serve_fresh serve_trans Ha) as (a' & Ha' & _ & Hst').
  exists a'. auto.
Qed.

Lemma holder_stays aid k st :
  ours s0 aid → sys_streams s0 !! k = Some st → st_actor st = aid → holding st = true →
  ∃ st', sys_streams s !! k = Some st' ∧ st_actor st' = aid ∧ holding st' = true ∧ telling st' = telling st.
Proof.
  intros Ho Hst Ha Hh. destruct (Hsame _ _ Hst ltac:(by eapply ours_stream) _ Hst) as (st' & Hst' & Hx).
  exists st'. split; [done|]. by destruct Hx as [->| ->].
Qed.

Lemma account_served aid :
  ours s0 aid → account s0 aid (nt_gets net) (nt_get net) → account s aid (nt_gets net) (nt_get net).
Proof.
  intros Ho (lost & E & Ht & Hl). exists lost. split; [|split].
  - rewrite reads_stay, E by done. unfold got_from, buf_from.
    rewrite !parts_stay; [done| |]; intros dn Hin Hn; apply dns_none; auto. apply elem_of_app. by right.
  - intros k st' Hst' Ha Hh. destruct (sys_streams s0 !! k) as [st|] eqn:Hst.
    + destruct (stream_stays _ _ _ _ serve_trans serve_fresh Hst) as (st1 & Hst1 & Ea & _).
      assert (Ha0 : st_actor st = aid) by congruence.
      destruct (Hsame _ _ Hst ltac:(by eapply ours_stream) _ Hst) as (st2 & Hst2 & Hx). simplify_eq.
      destruct Hx as [->| ->]; by apply (Ht k st).
    + destruct (new_stream _ _ _ _ serve_trans Hst Hst') as [En _].
      assert (telling st' = []) as -> by (by rewrite En).
      subst aid. destruct (not_granted _ _ Hst Hst' Ho) as [Hrun Hopen].
      destruct Hl as [?|[(k0 & st0 & Hst0 & Ha0 & Hh0)|[?|(dn & Hdn & Hdead & _)]]]; [done|..|done|].
      * destruct (holder_stays _ _ _ Ho Hst0 Ha0 Hh0) as (st1 & Hst1 & Ea1 & Hh1 & _).
        assert (k0 = k) as -> by (eapply (sw_unique _ (wf_streams _ (base_sys _ (base_served _ _ _ Hb Hs)))); eauto; by rewrite Ea1).
        congruence.
      * rewrite (Hopen _ Hdn) in Hdead. done.
  - destruct Hl as [?|[(k0 & st0 & Hst0 & Ha0 & Hh0)|[?|?]]]; [by left|right; left|by eauto using stopped_stays|by eauto].
    destruct (holder_stays _ _ _ Ho Hst0 Ha0 Hh0) as (st1 & Hst1 & Ea1 & Hh1 & _). by exists k0, st1.
Qed.

Lemma not_reading_served rid : rid ∈ nt_posts net → not_reading s0 rid → not_reading s rid.
Proof.
  intros Hin. apply not_reading_trans; [done|]. destruct (iw_req _ Hi rid) as [r Hr]; [apply elem_of_app; by left|].
  by apply (wf_ids _ (base_sys _ Hb)) in Hr.
Qed.

Lemma own_get dn : nt_get net = Some dn ∨ dn ∈ nt_gets net → nt_sess net !! dn_rid dn = Some sid.
Proof. intros Hx%dn_own; [|done]. apply (iw_own _ Hi), elem_of_app. by right. Qed.

Lemma down_served : down_wf (served l s net).
Proof.
  split; simpl.
  - apply (dw_frames _ Hd).
  - intros rid Hin. apply not_reading_served; [done|by apply (dw_posts _ Hd)].
  - intros dn Hdn. apply dn_ok_served; [apply own_get; auto|by apply (dw_cur _ Hd)].
  - intros dn Hdn. destruct (dw_done _ Hd _ Hdn) as [Hok ?]. split; [|done].
    apply dn_ok_served; [apply own_get; auto|done].
  - intros aid Ho. pose proof (ours_back _ _ _ serve_fresh serve_trans Ho) as Ho'.
    apply account_served; [done|by apply (dw_account _ Hd)].
Qed.
End Serve.

(** * Steps of one of the client's streams *)

(** The stream [k] of a request moves from [st] to [st'], reading [more] and yielding
    [yielded]; [lost] is what it holds afterwards. [f] is the effect on the download. *)
Section Change.
Context net (l : label) s (Hb : base_wf net) (Hi : ids_wf net) (Hd : down_wf net).
Context (Hs : step (nt_server net) l = Some s).
Context (k : nat) st st' (f : Download → Download) (more yielded : bytes) (lost : list bytes).
Abbreviation s0 := (nt_server net).

Record changes : Prop := {
  ch_stream : sys_streams s0 !! k = Some st;
  ch_streams : sys_streams s = <[k := st']> (sys_streams s0);
  ch_requests : sys_requests s = sys_requests s0;
  ch_actor : st_actor st' = st_actor st;
  ch_req : st_req st' = st_req st;
  ch_holding : holding st = true;
  ch_aborted : holding st' = true → st_aborted st' = st_aborted st;
  ch_read aid : concat (actor_reads aid (sys_log s)).*2 =
    concat (actor_reads aid (sys_log s0)).*2 ++ (if decide (st_actor st = aid) then more else []);
  ch_out : concat (st_out st') = concat (st_out st) ++ yielded;
  ch_lost : concat (telling st) ++ more = yielded ++ concat lost;
  ch_telling : holding st' = true → lost = telling st';
  ch_rid dn : nt_get net = Some dn → dn_rid (f dn) = dn_rid dn;
  ch_got dn : nt_get net = Some dn → dn_got (f dn) = dn_got dn;
  ch_buf dn : nt_get net = Some dn → dn_buf (f dn) = dn_buf dn ++ (if decide (dn_rid dn = st_req st) then yielded else []);
  ch_other dn : nt_get net = Some dn → dn_rid dn ≠ st_req st → f dn = dn;
  ch_eof dn : nt_get net = Some dn → dn_eof (f dn) = true → dn_eof dn = true ∨
    source s0 (dn_rid dn) ≠ None ∧ holding st' = false;
  ch_dead dn : nt_get net = Some dn → dead dn → dead (f dn);
  ch_yielded : yielded = [] ∨ ∃ dn, nt_get net = Some dn ∧ dn_rid dn = st_req st ∧
    source s0 (dn_rid dn) = Some (st_actor st);
  ch_end : lost = [] ∨ holding st' = true ∨ is_stopped s0 (st_actor st) ∨
    ∃ dn, nt_get net = Some dn ∧ dead (f dn);
}.
Context (Hc : changes).

Lemma change_source rid : source s rid = source s0 rid.
Proof.
  unfold source, response_to. rewrite (ch_requests Hc).
  destruct (sys_requests s0 !! rid ≫= _) as [resp|]; [|done]. simpl.
  destruct (body_stream resp) as [j|]; [|done]. simpl. rewrite (ch_streams Hc), lookup_insert.
  case_decide; [|done]. subst. by rewrite (ch_stream Hc); simpl; rewrite (ch_actor Hc).
Qed.

Lemma change_part aid dn b : part s aid dn b = part s0 aid dn b.
Proof. unfold part. by rewrite change_source. Qed.

Lemma change_parts aid g dns :
  concat ((λ dn, part s aid dn (g dn)) <$> dns) = concat ((λ dn, part s0 aid dn (g dn)) <$> dns).
Proof. f_equal. apply list_fmap_ext. intros. apply change_part. Qed.

Lemma change_ok dn dn' :
  dn_ok s0 dn → dn_rid dn' = dn_rid dn → dn_got dn' = dn_got dn →
  dn_buf dn' = dn_buf dn ++ (if decide (dn_rid dn = st_req st) then yielded else []) →
  (dn_rid dn ≠ st_req st → dn' = dn) →
  (dn_eof dn' = true → dn_eof dn = true ∨ source s0 (dn_rid dn) ≠ None ∧ holding st' = false) →
  (source s0 (dn_rid dn) = None → dn_rid dn = st_req st → yielded = []) →
  dn_ok s dn'.
Proof.
  intros Hok Er Eg Eb Ho He Hn. split; rewrite Er.
  - intros j sj. rewrite (ch_streams Hc). intros [[<- <-]|[Hne Hj]]%lookup_insert_Some Ej.
    + rewrite (ch_req Hc) in Ej. rewrite decide_True in Eb by done.
      destruct (dk_out _ _ Hok _ _ (ch_stream Hc) Ej) as [Hout Hab].
      rewrite (ch_out Hc), Hout, Eg, Eb, app_assoc. split; [done|]. intros Heof Hh.
      rewrite (ch_aborted Hc Hh). destruct (He Heof) as [Hx|[_ Hx]]; [|congruence].
      apply Hab; [done|apply (ch_holding Hc)].
    + assert (Hne' : dn_rid dn ≠ st_req st).
      { intros E. destruct Hne. eapply (gr_unique _ (ro_granted _ _ (base_run_ok _ Hb))); [apply (ch_stream Hc)|done|].
        congruence. }
      rewrite (Ho Hne'). by apply (dk_out _ _ Hok _ _ Hj).
  - rewrite change_source. intros Hnone. destruct (dk_none _ _ Hok Hnone) as (Hg & Hbuf & Hf).
    rewrite Eg, Eb, Hg, Hbuf. split; [done|]. split; [case_decide; [by apply Hn|done]|].
    destruct (dn_eof dn') eqn:E; [|done]. destruct (He eq_refl) as [|[]]; congruence.
  - intros Hcl. destruct (decide (dn_rid dn = st_req st)) as [E|Hne].
    + exists k, st'. rewrite (ch_streams Hc), lookup_insert_eq, (ch_req Hc). done.
    + rewrite (Ho Hne) in Hcl. destruct (dk_closed _ _ Hok Hcl) as (j & sj & Hj & Ej).
      exists j, sj. rewrite (ch_streams Hc), lookup_insert_ne; [done|]. intros <-.
      apply Hne. rewrite <- Ej. pose proof (ch_stream Hc). by simplify_eq.
Qed.

Lemma change_stopped aid : is_stopped s0 aid → is_stopped s aid.
Proof.
  intros (a & Ha & Hst). pose proof (wf_ids _ (base_sys _ Hb)) as Hf.
  destruct (actor_evolves_trans _ _ _ _ Hf (step_trans _ _ _ Hs) Ha) as (a' & Ha' & _ & Hst'). exists a'. auto.
Qed.

(** What the client has, and what is on its way to it. *)
Lemma change_parts_cur aid :
  got_from s aid (nt_gets net ++ option_list (f <$> nt_get net)) ++ buf_from s aid (option_list (f <$> nt_get net)) =
  got_from s0 aid (nt_gets net ++ option_list (nt_get net)) ++ buf_from s0 aid (option_list (nt_get net)) ++
    (if decide (st_actor st = aid) then yielded else []).
Proof.
  unfold got_from, buf_from. rewrite !change_parts.
  destruct (nt_get net) as [dn|] eqn:Hdn; simpl.
  - rewrite !fmap_app, !concat_app. simpl. rewrite !app_nil_r, <- !app_assoc. do 2 f_equal.
    + unfold part. by rewrite (ch_rid Hc _ Hdn), (ch_got Hc _ Hdn).
    + unfold part. rewrite (ch_rid Hc _ Hdn), (ch_buf Hc _ Hdn).
      destruct (ch_yielded Hc) as [->|(dn' & E & Er & Hsrc)].
      * repeat case_decide; by rewrite ?app_nil_r.
      * simplify_eq. rewrite (decide_True _ _ Er), Hsrc.
        destruct (decide (st_actor st = aid)) as [<-|Hne]; [by rewrite !decide_True|].
        by rewrite !decide_False by congruence.
  - destruct (ch_yielded Hc) as [->|(dn' & E & _)]; [|congruence]. case_decide; by rewrite ?app_nil_r.
Qed.

Lemma change_account aid :
  account s0 aid (nt_gets net) (nt_get net) → account s aid (nt_gets net) (f <$> nt_get net).
Proof.
  intros (lost0 & E & Ht & Hl). pose proof (ch_streams Hc) as Hstr.
  pose proof (wf_streams _ (base_sys _ Hb)) as Hw. unfold account. rewrite (ch_read Hc), E.
  destruct (decide (st_actor st = aid)) as [Ha|Hne].
  - exists lost. rewrite (Ht _ _ (ch_stream Hc) Ha (ch_holding Hc)). split; [|split].
    + rewrite (app_assoc (got_from s _ _)), change_parts_cur, decide_True by done.
      rewrite <- !app_assoc. do 2 f_equal. apply (ch_lost Hc).
    + intros j sj. rewrite Hstr. intros [[<- <-]|[Hne Hj]]%lookup_insert_Some Haj Hh; [by apply (ch_telling Hc)|].
      destruct Hne. by apply (sw_unique _ Hw _ _ _ _ (ch_stream Hc) Hj (ch_holding Hc) Hh); rewrite Ha, Haj.
    + destruct (ch_end Hc) as [?|[Hh|[?|(dn & Hdn & ?)]]]; [by left|..].
      * right. left. exists k, st'. rewrite Hstr, lookup_insert_eq, (ch_actor Hc). done.
      * subst aid. eauto using change_stopped.
      * rewrite Hdn. simpl. eauto 10.
  - exists lost0. rewrite app_nil_r. split; [|split].
    + rewrite (app_assoc (got_from s _ _)), change_parts_cur, decide_False by done. by rewrite app_nil_r, app_assoc.
    + intros j sj. rewrite Hstr. intros [[<- <-]|[_ Hj]]%lookup_insert_Some Haj Hh; [|by eapply Ht].
      by rewrite (ch_actor Hc) in Haj.
    + destruct Hl as [?|[(j & sj & Hj & Haj & Hh)|[?|(dn & Hdn & ?)]]]; [by left|..].
      * right. left. exists j, sj. rewrite Hstr, lookup_insert_ne; [done|]. intros <-.
        apply Hne. rewrite <- Haj. pose proof (ch_stream Hc). by simplify_eq.
      * eauto using change_stopped.
      * rewrite Hdn. simpl. do 3 right. exists (f dn). split; [done|by apply (ch_dead Hc)].
Qed.

Lemma down_change : down_wf (set_get (f <$> nt_get net) (served l s net)).
Proof.
  split; simpl.
  - rewrite (dw_frames _ Hd). destruct (nt_get net) as [dn|] eqn:Hdn; [|done]. simpl.
    by rewrite !fmap_app, !concat_app; simpl; rewrite (ch_got Hc _ Hdn).
  - intros rid Hin. apply (not_reading_served net l s Hb Hi Hs); [done|by apply (dw_posts _ Hd)].
  - intros dn' Hdn'. apply fmap_Some in Hdn' as (dn & Hdn & ->). apply (change_ok dn).
    + by apply (dw_cur _ Hd).
    + by apply (ch_rid Hc).
    + by apply (ch_got Hc).
    + by apply (ch_buf Hc).
    + by apply (ch_other Hc).
    + by apply (ch_eof Hc).
    + intros Hn _. destruct (ch_yielded Hc) as [?|(dn1 & ? & ? & ?)]; [done|]. congruence.
  - intros dn Hin. destruct (dw_done _ Hd _ Hin) as (Hok & He & Hbf). split; [|done].
    assert (Hy : dn_rid dn = st_req st → yielded = []).
    { intros E. destruct (ch_yielded Hc) as [?|(dn1 & Hcur & E1 & _)]; [done|exfalso].
      pose proof (iw_nodup _ Hi) as Hn. unfold get_rids in Hn. rewrite Hcur in Hn.
      apply NoDup_app in Hn as (_ & _ & (_ & Hn & _)%NoDup_app).
      apply (Hn (dn_rid dn)); [by apply list_elem_of_fmap_2|]. simpl. rewrite E, E1. set_solver. }
    apply (change_ok dn); auto. case_decide; [rewrite Hy by done|]; by rewrite app_nil_r.
  - intros aid Ho. apply change_account, (dw_account _ Hd). eapply ours_back; [|by eapply step_trans|done].
    apply (wf_ids _ (base_sys _ Hb)).
Qed.
End Change.

(** * The response body is polled or dropped *)

Lemma responded_stream s rid resp k st :
  granted s → response_to rid s = Some resp → body_stream resp = Some k →
  sys_streams s !! k = Some st → st_req st = rid ∧ source s rid = Some (st_actor st).
Proof.
  intros Hg Hr Hk Hst. unfold source. rewrite Hr. simpl. rewrite Hk. simpl. rewrite Hst. split; [|done].
  unfold response_to, body_stream in *. apply bind_Some in Hr as (r & Hr & Hp).
  destruct (rq_pos r) eqn:Ep; simplify_eq. destruct (rs_body resp) eqn:Eb; simplify_eq.
  destruct (gr_given _ Hg _ _ k Hr) as (st' & Hst' & E); [unfold rq_stream; by rewrite Ep, Eb|]. by simplify_eq.
Qed.

(** The download is marked as ended or dropped. *)
Lemma down_set_cur net dn dn' :
  down_wf net → nt_get net = Some dn →
  dn_rid dn' = dn_rid dn → dn_got dn' = dn_got dn → dn_buf dn' = dn_buf dn →
  (dn_open dn' = false → ∃ k st, sys_streams (nt_server net) !! k = Some st ∧ st_req st = dn_rid dn) →
  (dn_eof dn' = true → dn_eof dn = true ∨ source (nt_server net) (dn_rid dn) ≠ None ∧
     ∀ k st, sys_streams (nt_server net) !! k = Some st → st_req st = dn_rid dn →
       holding st = true → st_aborted st = true) →
  (dead dn → dead dn') →
  down_wf (set_get (Some dn') net).
Proof.
  intros Hd Hdn Er Eg Eb Hcl Heof Hdead. pose proof (dw_cur _ Hd _ Hdn) as Hok. split; simpl.
  - rewrite (dw_frames _ Hd), Hdn. simpl. by rewrite !fmap_app, !concat_app; simpl; rewrite Eg.
  - apply (dw_posts _ Hd).
  - intros x [= <-]. split; rewrite ?Er, ?Eg, ?Eb.
    + intros k st Hst E. destruct (dk_out _ _ Hok _ _ Hst E) as [? Hab]. split; [done|].
      intros He Hh. destruct (Heof He) as [|[_ Hx]]; eauto.
    + intros Hn. destruct (dk_none _ _ Hok Hn) as (? & ? & ?). split; [done|]. split; [done|].
      destruct (dn_eof dn') eqn:E; [|done]. destruct (Heof eq_refl) as [|[]]; congruence.
    + done.
  - apply (dw_done _ Hd).
  - intros aid Ho. destruct (dw_account _ Hd _ Ho) as (lost & E & Ht & Hl). exists lost.
    rewrite Hdn in E. split; [|split; [done|]].
    + rewrite E. unfold got_from, buf_from, part. simpl.
      rewrite !fmap_app, !concat_app. simpl. by rewrite Er, Eg, Eb.
    + destruct Hl as [?|[?|[?|(x & Hx & ?)]]]; auto. simplify_eq. eauto 10.
Qed.

Lemma down_unchanged net l :
  base_wf net → ids_wf net → down_wf net → step (nt_server net) l = Some (nt_server net) →
  down_wf (served l (nt_server net) net).
Proof. intros Hb Hi Hd Hs. apply down_served; try done. intros. by apply same_stream_eq. Qed.

Lemma down_poll net dn resp stid read room p s :
  base_wf net → ids_wf net → down_wf net → nt_get net = Some dn → dn_open dn = true →
  response_to (dn_rid dn) (nt_server net) = Some resp → body_stream resp = Some stid →
  poll_next stid read room (nt_server net) = Some (p, s) →
  down_wf (set_get (Some (polled p dn)) (served (LPoll stid read room) s net)).
Proof.
  intros Hb Hi Hd Hdn Hopen Hresp Hk Hpoll.
  assert (Hs : step (nt_server net) (LPoll stid read room) = Some s) by (by eapply poll_step).
  destruct (poll_cases _ _ _ _ _ _ Hpoll) as (st & Hst & Hcase).
  destruct (responded_stream _ _ _ _ _ (ro_granted _ _ (base_run_ok _ Hb)) Hresp Hk Hst) as [Hreq Hsrc].
  assert (Hd' : s = nt_server net → down_wf (served (LPoll stid read room) s net)) by (intros ->; by apply down_unchanged).
  inversion Hcase as [|Hover|d Hp Hab|d Hp Hab _ _|d Hp Hab _ _|Hp]; subst p s.
  - simpl. rewrite <- Hdn. destruct (Hd' eq_refl). by split.
  - apply (down_set_cur _ dn); simpl; eauto; [|by intros [? ?]; congruence].
    intros _. right. split; [congruence|]. intros k st' Hst' E Hh.
    assert (k = stid) as -> by (eapply (gr_unique _ (ro_granted _ _ (base_run_ok _ Hb))); eauto; congruence).
    simplify_eq. destruct Hover; congruence.
  - assert (Hh : holding st = true) by (unfold holding; by rewrite Hp).
    replace (Some (polled (Ready (Some d)) dn)) with (polled (Ready (Some d)) <$> nt_get net) by (by rewrite Hdn).
    apply (down_change net _ _ Hb Hi Hd Hs stid st
             (mkStream (st_actor st) (st_req st) NextRead (st_aborted st) (st_out st ++ [d])) _ [] d []).
    split; simpl; auto; try (intros dn' Hdn'; simplify_eq).
    + intros aid. by case_decide; rewrite app_nil_r.
    + by rewrite concat_app; simpl; rewrite app_nil_r.
    + unfold telling. rewrite Hp. simpl. by rewrite !app_nil_r.
    + by rewrite decide_True.
    + intros Hne. by rewrite Hreq in Hne.
    + right. exists dn. split; [done|]. split; [done|congruence].
  - assert (Hh : holding st = true) by (unfold holding; by destruct Hp as [-> | ->]).
    replace (Some (polled Pending dn)) with (polled Pending <$> nt_get net) by (by rewrite Hdn).
    apply (down_change net _ _ Hb Hi Hd Hs stid st (with_pos (Telling d) st) _ d [] [d]).
    split; simpl; auto; try (intros dn' Hdn'; simplify_eq).
    + intros aid. rewrite actor_reads_snoc, fmap_app, concat_app. case_decide; simpl; by rewrite ?app_nil_r.
    + by rewrite app_nil_r.
    + unfold telling. destruct Hp as [-> | ->]; simpl; by rewrite app_nil_r.
    + case_decide; by rewrite app_nil_r.
  - assert (Hh : holding st = true) by (unfold holding; by destruct Hp as [-> | ->]).
    replace (Some (polled (Ready (Some d)) dn)) with (polled (Ready (Some d)) <$> nt_get net) by (by rewrite Hdn).
    apply (down_change net _ _ Hb Hi Hd Hs stid st
             (mkStream (st_actor st) (st_req st) NextRead (st_aborted st) (st_out st ++ [d])) _ d d []).
    split; simpl; auto; try (intros dn' Hdn'; simplify_eq).
    + intros aid. rewrite actor_reads_snoc, fmap_app, concat_app. case_decide; simpl; by rewrite ?app_nil_r.
    + by rewrite concat_app; simpl; rewrite app_nil_r.
    + unfold telling. destruct Hp as [-> | ->]; simpl; by rewrite app_nil_r.
    + by rewrite decide_True.
    + intros Hne. by rewrite Hreq in Hne.
    + right. exists dn. split; [done|]. split; [done|congruence].
  - assert (Hh : holding st = true) by (unfold holding; by destruct Hp as [-> | ->]).
    replace (Some (polled (Ready None) dn)) with (polled (Ready None) <$> nt_get net) by (by rewrite Hdn).
    apply (down_change net _ _ Hb Hi Hd Hs stid st (with_pos Ended st) _ [] [] []).
    split; simpl; auto; try (intros dn' Hdn'; simplify_eq).
    + intros aid. by case_decide; rewrite app_nil_r.
    + by rewrite app_nil_r.
    + unfold telling. by destruct Hp as [-> | ->].
    + case_decide; by rewrite app_nil_r.
    + intros Hne. by rewrite Hreq in Hne.
    + intros _. right. split; [congruence|done].
    + intros [? ?]. congruence.
Qed.
(** A body of one of the client's requests is dropped. *)
Lemma close_if_same rid dn :
  dn_got (close_if rid dn) = dn_got dn ∧ dn_buf (close_if rid dn) = dn_buf dn ∧
  dn_eof (close_if rid dn) = dn_eof dn ∧ (dead dn → dead (close_if rid dn)).
Proof. unfold close_if, dead. case_decide; simpl; naive_solver. Qed.

(** What a dropped body held is lost only if its request is the current one. *)
Lemma dropped_end net stid st :
  base_wf net → ids_wf net → down_wf net → sys_streams (nt_server net) !! stid = Some st →
  holding st = true → nt_sess net !! st_req st = Some sid →
  is_stopped (nt_server net) (st_actor st) ∨
  ∃ dn, nt_get net = Some dn ∧ dead (close_if (st_req st) dn).
Proof.
  intros Hb Hi Hd Hst Hh Hown.
  assert (Hstop : ∀ dn, dn_ok (nt_server net) dn → dn_eof dn = true → dn_rid dn = st_req st →
            is_stopped (nt_server net) (st_actor st)).
  { intros dn Hok He E. destruct (dk_out _ _ Hok _ _ Hst ltac:(congruence)) as [_ Hab].
    specialize (Hab He Hh). destruct (sw_holder _ (wf_streams _ (base_sys _ Hb)) _ _ Hst Hh) as (a & Ha & Hm).
    exists a. split; [done|]. destruct (reader_of a) as [[]|]; [|by destruct Hm].
    destruct Hm as (_ & _ & ?). congruence. }
  apply (iw_own _ Hi) in Hown. apply elem_of_app in Hown as [Hp|Hg]; [exfalso|].
  - destruct (dw_posts _ Hd _ Hp) as (_ & _ & Hno). by destruct (Hno _ _ Hst).
  - unfold get_rids in Hg. apply elem_of_app in Hg as [Hg|Hg].
    + apply list_elem_of_fmap in Hg as (dn & E & Hin). destruct (dw_done _ Hd _ Hin) as (Hok & He & _).
      left. by eapply Hstop.
    + destruct (nt_get net) as [dn|] eqn:Hdn; simpl in Hg; [|by apply not_elem_of_nil in Hg].
      apply list_elem_of_singleton in Hg. destruct (dn_eof dn) eqn:He.
      * left. eapply Hstop; [by apply (dw_cur _ Hd)|done..].
      * right. exists dn. split; [done|]. unfold close_if, dead. by rewrite decide_True.
Qed.

Lemma down_drop net stid st s :
  base_wf net → ids_wf net → down_wf net → sys_streams (nt_server net) !! stid = Some st →
  is_own sid net (st_req st) = true → step (nt_server net) (LDropStream stid) = Some s →
  down_wf (set_get (close_if (st_req st) <$> nt_get net) (served (LDropStream stid) s net)).
Proof.
  intros Hb Hi Hd Hst Hown%bool_decide_eq_true Hs.
  assert (Heq : ∀ rid dn, dn_rid dn ≠ rid → close_if rid dn = dn)
    by (intros; unfold close_if; by rewrite decide_False).
  destruct (drop_cases _ _ _ Hs) as (st0 & Hst0 & Hx).
  assert (st0 = st) as -> by congruence. destruct Hx as [->|[Hh ->]].
  - destruct (nt_get net) as [dn|] eqn:Hdn; simpl.
    + destruct (close_if_same (st_req st) dn) as (Eg & Eb & Ee & Hdead).
      apply (down_set_cur _ dn); simpl; auto using close_if_rid.
      * by apply down_unchanged.
      * unfold close_if. case_decide; [by eauto|]. apply (dk_closed _ _ (dw_cur _ Hd _ Hdn)).
      * rewrite Ee. auto.
    + rewrite <- Hdn. destruct (down_unchanged _ _ Hb Hi Hd Hs). by split.
  - destruct (dropped_end _ _ _ Hb Hi Hd Hst Hh Hown) as [Hend|Hend].
    all: apply (down_change net _ _ Hb Hi Hd Hs stid st (with_pos Ended st) _ [] [] (telling st)).
    all: split; simpl; auto; try done; try (intros dn' Hdn'; destruct (close_if_same (st_req st) dn') as (Eg & Eb & Ee & Hdead)).
    all: rewrite ?Eg, ?Eb, ?Ee, ?app_nil_r; auto using close_if_rid.
    all: try (case_decide; by rewrite ?app_nil_r).
    all: try (intros aid; case_decide; by rewrite ?app_nil_r).
Qed.

(** * The rest of the steps *)

(** The client moves and receives no data. *)
Lemma down_moved net l t :
  down_wf net → io_frames t = io_frames (nt_client net) → down_wf (moved l t net).
Proof. intros [Hf Hp Hc Hdn Ha] E. split; simpl; auto. by rewrite E. Qed.

Definition no_data (l : io_label) : bool :=
  match l with IoFrame (Some (Ok (DataFrame (_ :: _)))) => false | _ => true end.

Lemma client_frames t l t' :
  client_step t l = Some t' →
  io_frames t' = io_frames t ++ match l with IoFrame (Some (Ok (DataFrame (b :: d)))) => [b :: d] | _ => [] end.
Proof.
  intros Hs%io_step_trans. inversion Hs; subst; simpl; rewrite ?app_nil_r; try done.
  f_equal. unfold in_frame. by destruct frame as [[[[]|]|]|].
Qed.

Lemma down_quiet net l t :
  down_wf net → client_step (nt_client net) l = Some t → no_data l = true → down_wf (moved l t net).
Proof.
  intros Hd Hs%client_frames Hl. apply down_moved; [done|]. rewrite Hs.
  destruct l as [| | | |[[[[]|]|]|]| |]; by rewrite ?app_nil_r.
Qed.

Lemma down_add_post net rid :
  down_wf net → not_reading (nt_server net) rid → down_wf (add_post rid net).
Proof.
  intros [] Hn. split; simpl; auto. intros x [Hx|Hx%list_elem_of_singleton]%elem_of_app; subst; auto.
Qed.

Lemma down_set_post net x : down_wf net → down_wf (set_post x net).
Proof. intros []. by split. Qed.

(** A read request arrives. *)
Lemma down_get net rid :
  down_wf net → nt_get net = None →
  (∀ k st, sys_streams (nt_server net) !! k = Some st → st_req st ≠ rid) →
  down_wf (set_get (Some (mkDownload rid [] [] true false)) net).
Proof.
  intros [Hf Hp Hc Hdn Ha] Hn Hno. rewrite Hn in Hf. split; simpl; auto.
  - rewrite Hf. simpl. rewrite app_nil_r, fmap_app, concat_app. simpl. by rewrite app_nil_r.
  - intros dn [= <-]. split; simpl; try done. intros k st Hst E. by destruct (Hno _ _ Hst).
  - intros aid Ho. destruct (Ha _ Ho) as (lost & E & Ht & Hl). exists lost. rewrite Hn in *.
    split; [|split; [done|]].
    + rewrite E. unfold got_from, buf_from, part. simpl. rewrite app_nil_r, fmap_app, concat_app. simpl.
      case_decide; by rewrite ?app_nil_r.
    + destruct Hl as [?|[?|[?|(dn & ? & _)]]]; [by auto..|done].
Qed.

(** Part of a response body arrives. *)
Lemma down_frame net dn n t (l := IoFrame (Some (Ok (DataFrame (firstn n (dn_buf dn)))))) :
  down_wf net → nt_get net = Some dn → 0 < n ≤ length (dn_buf dn) → client_step (nt_client net) l = Some t →
  down_wf (set_get (Some (framed n dn)) (moved l t net)).
Proof.
  intros [Hf Hp Hc Hdn Ha] Hg Hn Hs%client_frames. rewrite Hg in *.
  assert (Hfr : concat (io_frames t) = concat (io_frames (nt_client net)) ++ firstn n (dn_buf dn)).
  { rewrite Hs, concat_app. f_equal. subst l. destruct n; [lia|]. destruct (dn_buf dn); simpl in *; [lia|].
    by rewrite app_nil_r. }
  split; simpl; auto.
  - rewrite Hfr, Hf, !fmap_app, !concat_app. simpl. by rewrite !app_nil_r, app_assoc.
  - intros x [= <-]. destruct (Hc _ eq_refl) as [Ho Hno Hcl]. split; simpl; auto.
    + intros k st Hst E. destruct (Ho _ _ Hst E) as [-> ?]. by rewrite <- app_assoc, firstn_skipn.
    + intros Hno'%Hno. destruct Hno' as (-> & -> & ->). by rewrite firstn_nil, skipn_nil.
  - intros aid Ho. destruct (Ha _ Ho) as (lost & E & Ht & Hl). exists lost. split; [|split; [done|]].
    + rewrite E. unfold got_from, buf_from. rewrite !fmap_app, !concat_app. simpl.
      rewrite !app_nil_r, <- !app_assoc. f_equal. rewrite !app_assoc. f_equal. unfold part. simpl.
      case_decide; [|done]. by rewrite <- app_assoc, firstn_skipn.
    + destruct Hl as [?|[?|[?|(x & Hx & ?)]]]; auto. simplify_eq. do 3 right. by exists (framed n x).
Qed.

(** It has ended. *)
Lemma down_end net dn l t :
  down_wf net → nt_get net = Some dn → dn_buf dn = [] → dn_eof dn = true →
  l = IoFrame None ∨ l = IoFrame (Some (Ok (DataFrame []))) → client_step (nt_client net) l = Some t →
  down_wf (add_get dn (set_get None (moved l t net))).
Proof.
  intros [Hf Hp Hc Hdn Ha] Hg Hb He Hl Hs%client_frames. rewrite Hg in *.
  assert (Hfr : io_frames t = io_frames (nt_client net)) by (rewrite Hs; destruct Hl as [-> | ->]; by rewrite app_nil_r).
  split; simpl; auto.
  - by rewrite Hfr, Hf, app_nil_r.
  - done.
  - intros x [Hx|Hx%list_elem_of_singleton]%elem_of_app; [by apply Hdn|]. subst. by auto.
  - intros aid Ho. destruct (Ha _ Ho) as (lost & E & Ht & Hx). exists lost. split; [|split; [done|]].
    + rewrite E. simpl. rewrite app_nil_r. f_equal. unfold buf_from, part. simpl. rewrite Hb.
      by case_decide.
    + destruct Hx as [?|[?|[?|(x & Hx & ? & ?)]]]; auto. simplify_eq. congruence.
Qed.

(** A step of the server that is not one of the client's streams. *)
Lemma foreign_same net l s :
  base_wf net → step (nt_server net) l = Some s → foreign sid net l = true →
  ∀ k st, sys_streams (nt_server net) !! k = Some st → nt_sess net !! st_req st = Some sid →
    same_stream (nt_server net) s k.
Proof.
  intros Hb Hs Hf k st Hst Hown.
  destruct (stream_label _ _ _ k (wf_ids _ (base_sys _ Hb)) Hs) as [?|[(read & room & ->)| ->]]; [done|..].
  all: simpl in Hf; unfold own_stream, is_own in Hf; rewrite Hst in Hf; simpl in Hf.
  all: by rewrite bool_decide_true in Hf.
Qed.

Lemma down_other net l s :
  base_wf net → ids_wf net → down_wf net → step (nt_server net) l = Some s → quiet l = true →
  down_wf (served l s net).
Proof.
  intros Hb Hi Hd Hs Hq. apply down_served; try done. intros k st _ _.
  eapply quiet_streams; [apply (wf_ids _ (base_sys _ Hb))|done..].
Qed.

Lemma post_method net r :
  base_wf net → io_out (nt_client net) = OutSend r → head_method (req_head r) ≠ GET.
Proof.
  intros Hb Hr. destruct (base_client _ Hb) as ([Hp _] & _ & [Hs _]).
  specialize (Hs _ Hr). rewrite last_lookup in Hs. destruct (Hp _ _ Hs) as [path Hc].
  destruct (create_write_inv _ _ _ _ _ _ Hc) as (_ & _ & _ & _ & _ & _ & _ & -> & _). by case_bool_decide.
Qed.

Lemma down_wf_trans net net' :
  base_wf net → ids_wf net → down_wf net → net_trans front sid net net' → down_wf net'.
Proof.
  intros Hb Hi Hd Ht.
  assert (Harr : ∀ head s, step (nt_server net) (LRequest head) = Some s →
    (head_method head ≠ GET → not_reading s (sys_next (nt_server net))) ∧
    ∀ k st, sys_streams s !! k = Some st → st_req st ≠ sys_next (nt_server net)).
  { intros head s Hs. pose proof (base_run_ok _ Hb) as Hok. pose proof (ro_wf _ _ Hok) as Hwf.
    eapply arrival_not_reading; eauto using wf_ids, wf_writes, ro_granted. }
  inversion Ht; subst; clear Ht.
  - apply down_served; try done. by eapply foreign_same.
  - eapply down_quiet; [done..|]. by destruct l as [| | | |[[[]|]|]| |].
  - (* NT_post *)
    apply down_add_post; [by apply down_set_post, down_other|]. simpl.
    destruct (Harr _ _ H9) as [Hno _]. apply Hno. by eapply post_method.
  - by apply down_set_post, down_other.
  - by apply down_other.
  - by apply down_other.
  - apply down_set_post. by eapply down_quiet.
  - by eapply down_quiet.
  - eapply down_quiet; [done..|]. by destruct H7 as [[e ->]|[[e ->]|[e ->]]].
  - (* NT_get *)
    apply down_get; [by apply down_other|done|]. simpl. by destruct (Harr _ _ H9).
  - by eapply down_quiet.
  - by eapply down_poll.
  - by apply (down_drop _ _ _ _ Hb Hi Hd H7).
  - by eapply down_frame.
  - by eapply down_end.
Qed.

(** * The client's reads are not refused *)

(** The stream that reads from one of our connections is the current download's. *)
Lemma reader_current net aid a self :
  base_wf net → ids_wf net → down_wf net → ours (nt_server net) aid →
  sys_actors (nt_server net) !! aid = Some a → ac_session a = Some self →
  mutex_locked (upstream_read self) = true →
  ∃ k st dn, sys_streams (nt_server net) !! k = Some st ∧ nt_get net = Some dn ∧ st_req st = dn_rid dn.
Proof.
  intros Hb Hi Hd Ho Ha Hself Hl. pose proof (wf_streams _ (base_sys _ Hb)) as Hw.
  assert (Hra : reader_of a = Some (upstream_read self, upstream_read_abort self))
    by (unfold reader_of; by rewrite Hself).
  destruct (sw_reader _ Hw _ _ Ha _ _ Hra) as [Hown Hlock].
  destruct (Hlock Hl) as (k & st & Hab & Hst & Hh). destruct (Hown _ Hab) as (st' & Hst' & Hact). simplify_eq.
  destruct (sw_holder _ Hw _ _ Hst Hh) as (a' & Ha' & Hm). simplify_eq. rewrite Hra in Hm.
  destruct Hm as (_ & _ & Hna).
  pose proof (ours_stream _ _ _ _ Hb Ho Hst eq_refl) as Hreq.
  apply (iw_own _ Hi) in Hreq. apply elem_of_app in Hreq as [Hp|Hg].
  - destruct (dw_posts _ Hd _ Hp) as (_ & _ & Hno). by destruct (Hno _ _ Hst).
  - unfold get_rids in Hg. apply elem_of_app in Hg as [Hg|Hg].
    + apply list_elem_of_fmap in Hg as (dn & E & Hin). destruct (dw_done _ Hd _ Hin) as (Hok & He & _).
      destruct (dk_out _ _ Hok _ _ Hst E) as [_ Hx]. rewrite Hx in Hna by done. done.
    + destruct (nt_get net) as [dn|] eqn:Hdn; simpl in Hg; [|by apply not_elem_of_nil in Hg].
      apply list_elem_of_singleton in Hg. eauto 10.
Qed.

Lemma not_refused net l s rid r' :
  base_wf net → ids_wf net → down_wf net → step (nt_server net) l = Some s →
  (∀ u, nt_sess net !! rid = Some u → u = sid) →
  sys_requests s !! rid = Some r' → refused r' = true →
  ∃ r, sys_requests (nt_server net) !! rid = Some r ∧ refused r = true.
Proof.
  intros Hb Hi Hd Hs Hown Hr' Hx.
  destruct (refused_flow _ _ _ _ (step_trans _ _ _ Hs) Hr' Hx) as [?|(aid & a & self & Ha & Hself & Hm & Hl)]; [done|].
  exfalso. destruct (rt_msg _ _ (bw_routed _ Hb) _ _ _ _ Ha Hm eq_refl) as (u & Hu & Hsv).
  assert (u = sid) as -> by (by apply Hown).
  assert (Ho : ours (nt_server net) aid) by (intros v Hv; by eapply serves_fun).
  destruct (reader_current _ _ _ _ Hb Hi Hd Ho Ha Hself Hl) as (k & st & dn & Hst & Hdn & E).
  assert (Hno : ∀ k st, sys_streams (nt_server net) !! k = Some st → st_req st ≠ rid).
  { intros j sj Hj Ej. subst rid. by eapply (gr_msg _ (ro_granted _ _ (base_run_ok _ Hb))). }
  apply (iw_own _ Hi) in Hu. apply elem_of_app in Hu as [Hp|Hg].
  - destruct (dw_posts _ Hd _ Hp) as (_ & Hnm & _). by eapply Hnm.
  - unfold get_rids in Hg. rewrite Hdn in Hg. apply elem_of_app in Hg as [Hg|Hg].
    + apply list_elem_of_fmap in Hg as (dn' & -> & Hin). destruct (dw_done _ Hd _ Hin) as (Hok & He & _).
      destruct (done_stream _ _ (ro_granted _ _ (base_run_ok _ Hb)) Hok He) as (j & sj & Hj & Ej). by eapply Hno.
    + apply list_elem_of_singleton in Hg. eapply Hno; [done|congruence].
Qed.

(** Requests of the client's session, or new ones, are not refused. *)
Definition reads_ok net : Prop :=
  ∀ rid r, nt_sess net !! rid = Some sid → sys_requests (nt_server net) !! rid = Some r → refused r = false.

Lemma reads_ok_served net l s :
  base_wf net → ids_wf net → down_wf net → reads_ok net → step (nt_server net) l = Some s →
  reads_ok (served l s net).
Proof.
  intros Hb Hi Hd Hok Hs rid r' Hown Hr'. simpl in *. destruct (refused r') eqn:Hx; [exfalso|done].
  assert (Hsess : nt_sess net !! rid = Some sid ∨ rid = sys_next (nt_server net)).
  { unfold sess_step in Hown. destruct l; auto. destruct (parse_session_id _ _); auto.
    apply lookup_insert_Some in Hown as [[<- _]|[_ ?]]; auto. }
  assert (Hu : ∀ u, nt_sess net !! rid = Some u → u = sid).
  { intros u Hu. destruct Hsess as [?| ->]; [congruence|]. by rewrite (next_fresh _ Hb) in Hu. }
  destruct (not_refused _ _ _ _ _ Hb Hi Hd Hs Hu Hr' Hx) as (r & Hr & Hx').
  destruct Hsess as [Hsess| ->]; [by rewrite (Hok _ _ Hsess Hr) in Hx'|].
    apply (wf_ids _ (base_sys _ Hb)) in Hr. lia.
Qed.

Lemma reads_ok_trans net net' :
  base_wf net → ids_wf net → down_wf net → reads_ok net → net_trans front sid net net' → reads_ok net'.
Proof.
  intros Hb Hi Hd Hok Ht.
  inversion Ht; subst; clear Ht; try exact Hok; try (by apply reads_ok_served).
  refine (reads_ok_served _ (LPoll stid read room) s Hb Hi Hd Hok _). by eapply poll_step.
Qed.

Lemma down_wf_init : down_wf (net_init config).
Proof.
  split; simpl; try done; try (intros ? Hin; by apply not_elem_of_nil in Hin).
  intros aid _. exists []. split; [done|]. split; [|by left]. intros k st Hk. simpl in Hk. by rewrite lookup_empty in Hk.
Qed.
End TunnelDown.

Arguments down_wf {_ _ _} sid net.
Arguments ours {_ _ _} sid s aid.
Arguments reads_ok {_ _ _} sid net.
