(* ===== verification/TunnelProps.v ===== *)
(** The two ends of the tunnel agree.

    The theorems about [ProxyConnection] and the server together: what the client sends is
    what the connections of its session receive, what it receives is what they send, and
    no other session interferes. Each holds for every schedule of the client, the server,
    the other clients and the transport. *)
From S2P Require Import Prelude Ext DomainFronting Stats State Session Server ServerSteps.
From S2P Require Import ServerInv StreamInv LogInv WriteInv BodyInv ConfigInv PendingInv Invariant.
From S2P Require Import Routing Delivery Reading Scenario.
From S2P Require Import Client ClientProps Tunnel TunnelInv TunnelUp TunnelDown.

Section TunnelProps.
Context `{UuidLib, HttpLib, TryMutex, FuturesLib}.
Context `{!UuidLaws, !HttpLaws, !TryMutexLaws, !FuturesLaws}.
Implicit Types (s : Sys) (net : Net) (t : IoTask) (dn : Download).

(** Everything that holds along a run of the composed system. *)
Record net_ok config front sid net : Prop := {
  no_base : base_wf config front sid net;
  no_ids : ids_wf sid net;
  no_up : up_wf sid net;
  no_down : down_wf sid net;
  no_reads : reads_ok sid net;
}.

Lemma net_ok_init config front sid : net_ok config front sid (net_init config).
Proof.
  split; [apply base_wf_init|apply ids_wf_init|apply up_wf_init|apply down_wf_init|].
  intros rid r Hs. simpl in Hs. by rewrite lookup_empty in Hs.
Qed.

Lemma net_ok_run config front sid key ls net :
  keys_agree front config key → run (net_step front sid) (net_init config) ls = Some net →
  net_ok config front sid net.
Proof.
  intros Hk. apply run_invariant; [|apply net_ok_init].
  intros net0 l net1 [Hb Hi Hu Hd Hr] Ht%net_step_trans. split.
  - by eapply base_wf_trans.
  - by eapply (ids_wf_trans Hk).
  - by eapply up_wf_trans.
  - by eapply down_wf_trans.
  - by eapply reads_ok_trans.
Qed.

(** The chunks written to the connections of the session [sid]. *)
Definition session_writes (sid : Uuid) s : list bytes :=
  omap (λ e, match e with
             | UpWrite aid _ d _ =>
                 a ← sys_actors s !! aid;
                 if decide (arg_session_id (ac_args a) = sid) then Some d else None
             | _ => None
             end) (sys_log s).

Lemma session_writes_own sess sid s :
  routed sess s → session_writes sid s = own_writes sid sess (sys_log s).
Proof.
  intros Hr. unfold session_writes, own_writes.
  assert (Hall : ∀ aid rid d n, UpWrite aid rid d n ∈ sys_log s →
            ∃ u, sess !! rid = Some u ∧ serves u s aid) by apply (rt_write _ _ Hr).
  revert Hall. generalize (sys_log s). intros log Hall. induction log as [|e log IH]; [done|].
  assert (IH' := IH (λ aid rid d n Hin, Hall aid rid d n (list_elem_of_further _ _ _ Hin))).
  destruct e as [|aid rid d n|]; [done| |done].
  destruct (Hall aid rid d n) as (u & Hu & a & Ha & Hs); [by apply list_elem_of_here|].
  simpl. rewrite Ha, Hu. simpl.
  destruct (decide (arg_session_id (ac_args a) = sid)), (decide (Some u = Some sid)); try congruence.
  - f_equal. exact IH'.
  - exact IH'.
Qed.

(** What was sent before the chunk in progress. *)
Lemma posts_chunks front sid t i r :
  out_wf front sid t → io_posts t !! i = Some r → io_chunks t !! i = Some (req_body r).
Proof.
  intros [_ Ho] Hi. assert (Hb : (req_body <$> io_posts t) !! i = Some (req_body r))
    by (by rewrite list_lookup_fmap, Hi).
  destruct (io_out t) as [first|r'|res].
  - by destruct Ho as [<- _].
  - by destruct Ho as [<- _].
  - destruct Ho as [(lost & -> & _) _]. by apply lookup_app_l_Some.
Qed.

Lemma done_chunks config front sid net (n : nat) :
  net_ok config front sid net → n ≤ io_acks (nt_client net) → n ≤ length (nt_posts net) →
  concat (concat ((λ rid, written rid (nt_server net)) <$> firstn n (nt_posts net))) =
    concat (firstn n (io_chunks (nt_client net))).
Proof.
  intros [Hb Hi Hu _ _]. induction n as [|n IH]; intros Ha Hl; [done|].
  destruct (lookup_lt_is_Some_2 (nt_posts net) n) as [rid Hrid]; [lia|].
  destruct (uw_done _ Hu _ _ Hrid ltac:(lia)) as (_ & req & Hreq & Hw).
  destruct (base_client _ Hb) as (Ho & _ & _). pose proof (posts_chunks _ _ _ _ _ Ho Hreq) as Hc.
  rewrite (take_S_r _ _ _ Hrid), (take_S_r _ _ _ Hc), fmap_app, !concat_app, IH by lia. simpl.
  by rewrite !app_nil_r, Hw.
Qed.

(** What was written upstream for the session: the acknowledged chunks, and a part of the next. *)
Lemma session_chunks config front sid net :
  net_ok config front sid net →
  ∃ p, concat (session_writes sid (nt_server net)) =
      concat (firstn (io_acks (nt_client net)) (io_chunks (nt_client net))) ++ p ∧
    (p = [] ∨ ∃ c, io_chunks (nt_client net) !! io_acks (nt_client net) = Some c ∧ p `prefix_of` c).
Proof.
  intros Hok. destruct Hok as [Hb Hi Hu Hd Hrd] eqn:E0. clear E0.
  rewrite (session_writes_own _ _ _ (bw_routed _ Hb)), (uw_log _ Hu).
  pose proof (uw_cur _ Hu) as Hcur. destruct (nt_post net) as [up|] eqn:Hp.
  - destruct Hcur as (Hlen & req & Hreq & Hbody & _).
    pose proof (iw_post _ Hi _ Hp) as Hlast. apply last_Some in Hlast as [l El].
    assert (El' : l = firstn (io_acks (nt_client net)) (nt_posts net)).
    { rewrite El in Hlen |- *. rewrite length_app in Hlen. simpl in Hlen.
      rewrite take_app_le, take_ge by lia. done. }
    destruct (ro_delivered _ _ (base_run_ok _ Hb) (up_rid up)) as (rest & Ebody & _).
    destruct (base_client _ Hb) as (Ho & _ & _).
    exists (concat (written (up_rid up) (nt_server net))). split.
    + rewrite El at 1. rewrite fmap_app, !concat_app. simpl. rewrite app_nil_r, El'. f_equal.
      apply done_chunks with config front sid; [done|lia|lia].
    + right. exists (req_body req). split; [by eapply posts_chunks|].
      rewrite <- Hbody, Ebody, concat_app, <- app_assoc. by eexists.
  - exists []. rewrite app_nil_r. split; [|by left].
    rewrite <- (done_chunks config front sid net (io_acks (nt_client net))) by (done || lia).
    rewrite <- Hcur, take_ge by lia. done.
Qed.

(** C2. The uplink. What the connections of the client's session are given, in the order
    in which they are given it, is what the client was asked to send: the chunks of all its
    acknowledged writes in full, then at most a prefix of the next chunk. Nothing is
    lost, repeated, reordered or mixed with the data of other clients, however the client,
    the server, the other clients and the transport are scheduled, and whatever fails. *)
Theorem tunnel_uplink config front sid key ls net :
  keys_agree front config key → run (net_step front sid) (net_init config) ls = Some net →
  ∃ p, concat (session_writes sid (nt_server net)) =
      concat (firstn (io_acks (nt_client net)) (io_chunks (nt_client net))) ++ p ∧
    (p = [] ∨ ∃ c, io_chunks (nt_client net) !! io_acks (nt_client net) = Some c ∧ p `prefix_of` c).
Proof. intros Hk Hrun. by eapply session_chunks, net_ok_run. Qed.

(** The client's read requests. *)
Definition downloads net : list Download := nt_gets net ++ option_list (nt_get net).

(** The bytes read from a connection. *)
Definition bytes_read (aid : nat) s : bytes := concat (actor_reads aid (sys_log s)).*2.

Lemma download_source config front sid net dn aid :
  net_ok config front sid net → dn ∈ downloads net → source (nt_server net) (dn_rid dn) = Some aid →
  serves sid (nt_server net) aid.
Proof.
  intros [Hb Hi _ _ _] Hin Hs. pose proof (ro_granted _ _ (base_run_ok _ Hb)) as Hg.
  apply source_inv in Hs as (_ & _ & k & st & _ & _ & _ & Hst & <- & E); [|done].
  destruct (rt_stream _ _ (bw_routed _ Hb) _ _ Hst) as (u & Hu & Hsv).
  assert (Hown : nt_sess net !! dn_rid dn = Some sid).
  { apply (iw_own _ Hi), elem_of_app. right. unfold get_rids, downloads in *.
    rewrite <- fmap_app. by apply list_elem_of_fmap_2. }
  by rewrite E, Hown in Hu; simplify_eq.
Qed.

Lemma download_none config front sid net dn :
  net_ok config front sid net → dn ∈ downloads net → source (nt_server net) (dn_rid dn) = None →
  dn_got dn = [].
Proof.
  intros [_ _ _ Hd _] [Hin|Hin]%elem_of_app Hn.
  - destruct (dw_done _ Hd _ Hin) as (Hok & _). by destruct (dk_none _ _ Hok Hn).
  - destruct (nt_get net) as [x|] eqn:E; simpl in Hin; [|by apply not_elem_of_nil in Hin].
    apply list_elem_of_singleton in Hin as ->. by destruct (dk_none _ _ (dw_cur _ Hd _ E) Hn).
Qed.

(** What was received from a connection is a prefix of what was read from it. *)
Lemma got_prefix config front sid net aid :
  net_ok config front sid net → serves sid (nt_server net) aid →
  got_from (nt_server net) aid (downloads net) `prefix_of` bytes_read aid (nt_server net).
Proof.
  intros Hok Hs. destruct (dw_account _ (no_down _ _ _ _ Hok) aid) as (lost & E & _).
  - intros u Hu. by eapply serves_fun.
  - unfold bytes_read in *. eexists. exact E.
Qed.

(** C3. The downlink. The bytes the client receives are, one read request after the other,
    those it got for each; each comes from a connection of its own session; and for each
    of these connections, the bytes received from it are a prefix of what was read from it.
    While the connection is up and the current response has not been cut off, nothing of
    the rest is missing: it is on its way to the client, or held by the response stream. *)
Theorem tunnel_downlink config front sid key ls net :
  keys_agree front config key → run (net_step front sid) (net_init config) ls = Some net →
  concat (io_frames (nt_client net)) = concat (dn_got <$> downloads net) ∧
  (∀ dn, dn ∈ downloads net → dn_got dn ≠ [] →
     ∃ aid, source (nt_server net) (dn_rid dn) = Some aid ∧ serves sid (nt_server net) aid) ∧
  ∀ aid, serves sid (nt_server net) aid →
    ∃ rest, bytes_read aid (nt_server net) = got_from (nt_server net) aid (downloads net) ++ rest ∧
      (¬ is_stopped (nt_server net) aid → (∀ dn, nt_get net = Some dn → ¬ dead dn) →
       ∃ held, rest = buf_from (nt_server net) aid (option_list (nt_get net)) ++ concat held ∧
         (held = [] ∨ ∃ k st, sys_streams (nt_server net) !! k = Some st ∧ st_actor st = aid ∧
                       holding st = true ∧ held = telling st)).
Proof.
  intros Hk Hrun. pose proof (net_ok_run _ _ _ _ _ _ Hk Hrun) as Hok. split; [|split].
  - apply (dw_frames _ (no_down _ _ _ _ Hok)).
  - intros dn Hin Hne. destruct (source (nt_server net) (dn_rid dn)) as [aid|] eqn:E.
    + exists aid. split; [done|]. by eapply download_source.
    + by destruct Hne; eapply download_none.
  - intros aid Hs.
    destruct (dw_account _ (no_down _ _ _ _ Hok) aid) as (lost & E & Ht & Hl); [intros u Hu; by eapply serves_fun|].
    eexists. split; [exact E|]. intros Hup Hcur. exists lost. split; [done|].
    destruct Hl as [?|[(k & st & Hst & Ha & Hh)|[?|(dn & Hdn & Hx)]]]; [by left| |done|by destruct (Hcur _ Hdn)].
    right. exists k, st. split; [done|]. split; [done|]. split; [done|]. by eapply Ht.
Qed.

(** C17. The client never disturbs itself: no request of its session is answered [429 Too
    Many Requests]. Whenever its [GET] reaches a live session, the response stream of
    the previous one has already given back the reader. *)
Theorem own_reads_accepted config front sid key ls net rid resp :
  keys_agree front config key → run (net_step front sid) (net_init config) ls = Some net →
  nt_sess net !! rid = Some sid → response_to rid (nt_server net) = Some resp →
  rs_status resp ≠ TOO_MANY_REQUESTS.
Proof.
  intros Hk Hrun Hown Hresp. pose proof (net_ok_run _ _ _ _ _ _ Hk Hrun) as Hok.
  unfold response_to in Hresp. apply bind_Some in Hresp as (r & Hr & Hp).
  pose proof (no_reads _ _ _ _ Hok _ _ Hown Hr) as Hx. unfold refused in Hx.
  destruct (rq_pos r); simplify_eq. by apply bool_decide_eq_false in Hx.
Qed.
End TunnelProps.

(** * The theorems at work *)

(** The client sends a chunk, reads one frame, and waits for the next. *)
Definition demo_tunnel : list net_label :=
  [NClient (IoRecv (Some hi) 1%N); NPost; NServer (LStart 1); NServer (LConnected 1 (Ok ()));
   NBody 2; NServer (LDeliver 1 0); NServer (LWritten 1 WriteOk true); NServer (LResume 0);
   NBodyEnd; NPostDone; NClient (IoGet 2%N); NGet; NServer (LResume 5); NServer (LDeliver 1 1);
   NServer (LResume 5); NHead; NPoll (Ready (Ok there)) true; NFrame 3;
   NClient (IoSent true)].
Definition demo_net : Net :=
  final (net_step demo_front demo_sid) (net_init demo_config) demo_tunnel.

Lemma demo_keys : keys_agree demo_front demo_config "x-session".
Proof. repeat split; discriminate. Qed.

Lemma demo_net_run : run (net_step demo_front demo_sid) (net_init demo_config) demo_tunnel = Some demo_net.
Proof. unfold demo_net. apply run_final. by_vm. Qed.

Lemma tunnel_uplink_witness :
  session_writes demo_sid (nt_server demo_net) = [hi] ∧
  ∃ p, concat (session_writes demo_sid (nt_server demo_net)) =
    concat (firstn (io_acks (nt_client demo_net)) (io_chunks (nt_client demo_net))) ++ p.
Proof.
  split; [by_vm|].
  destruct (tunnel_uplink demo_config demo_front demo_sid _ demo_tunnel demo_net demo_keys demo_net_run)
    as (p & Hp & _).
  exists p. exact Hp.
Defined.

Lemma tunnel_downlink_witness :
  got_from (nt_server demo_net) 1 (downloads demo_net) = firstn 3 there ∧
  buf_from (nt_server demo_net) 1 (option_list (nt_get demo_net)) = skipn 3 there ∧
  concat (io_frames (nt_client demo_net)) = concat (dn_got <$> downloads demo_net).
Proof.
  split; [by_vm|]. split; [by_vm|].
  apply (tunnel_downlink demo_config demo_front demo_sid _ demo_tunnel demo_net demo_keys demo_net_run).
Defined.

Lemma own_reads_accepted_witness : ∃ resp,
  response_to 5 (nt_server demo_net) = Some resp ∧ rs_status resp ≠ TOO_MANY_REQUESTS.
Proof.
  exists (read_response 6). split; [by_vm|].
  apply (own_reads_accepted demo_config demo_front demo_sid _ demo_tunnel demo_net 5 _ demo_keys demo_net_run).
  - by_vm.
  - by_vm.
Defined.

(** The head of the client's [GET] with the random path [path]. *)
Definition get_head (path : Uuid) : RequestHead :=
  match create_read_request demo_front demo_sid path with
  | Ok request => req_head request
  | Err _ => demo_head GET ""
  end.

(** The client: a response with one frame, its end, and the next [GET]. *)
Definition client_rereads : list io_label :=
  [IoGet 2%N; IoResponse (Ok OK_200); IoFrame (Some (Ok (DataFrame hello))); IoSent true;
   IoFrame None; IoGet 4%N; IoResponse (Ok OK_200)].

(** The server: the first [GET] opens a session, whose body yields one chunk and ends; the
    session then times out; the second [GET] arrives. *)
Definition server_reopens : list label :=
  [LRequest (get_head 2%N); LStart 1; LConnected 1 (Ok ()); LResume 0; LDeliver 1 0; LResume 0;
   LPoll 5 (Ready (Ok hello)) true; LPoll 5 Pending true;
   LTick 31; LFire 4; LStop 1 0; LDrop 1;
   LRequest (get_head 4%N); LStart 7; LConnected 7 (Ok ()); LResume 6; LDeliver 7 0; LResume 6].

(** A session that has ended is silently reopened. The client's [GET] loop keeps asking
    with the same session identifier, and the server opens a new upstream connection
    for any identifier without a live session, not only for ones it has never seen.
    So when a session times out between two reads, the next [GET] is answered [200 OK]
    from a second upstream connection, and the client's task neither ends nor reports
    anything: the byte stream goes on with the data of another connection. *)
Theorem silent_reconnect :
  ∃ s t, run step demo_start server_reopens = Some s ∧
    run (io_step demo_front demo_sid) start_proxy client_rereads = Some t ∧
    req_head <$> io_gets t = [get_head 2%N; get_head 4%N] ∧
    opens (sys_log s) = [(1, cfg_upstream demo_config); (7, cfg_upstream demo_config)] ∧
    arg_session_id ∘ ac_args <$> sys_actors s !! 1 = Some demo_sid ∧
    arg_session_id ∘ ac_args <$> sys_actors s !! 7 = Some demo_sid ∧
    rs_status <$> (sys_requests s !! 6 ≫= λ r, match rq_pos r with Responded resp => Some resp | _ => None end)
      = Some OK_200 ∧
    io_result t = Pending ∧ io_items t = [Ok hello].
Proof.
  exists (after server_reopens), (io_after client_rereads).
  split; [by_run|]. split; [apply run_final; by_vm|]. do 6 (split; [by_vm|]). by_vm.
Qed.
