(* ===== verification/User.v ===== *)
(** The user of a connection: the byte stream of [Connection] on top of [Tunnel].

    [start_proxy] in [src/src/client.rs] connects a [ProxyConnection] with its background
    task by two channels ([Adaptors]). Here the operations of the byte stream act on
    the user's ends of the channels, the task on its own ends, and task, transport and
    server are those of [Tunnel]. An operation polls the task first and its half of the
    connection afterwards; the task may run on another thread in between. *)
From S2P Require Import Prelude Ext DomainFronting Stats State Session Server ServerSteps.
From S2P Require Import Client ClientProps Adaptors Connection Tunnel.

(** The operations of [AsyncRead] and [AsyncWrite]; a read says how much room its buffer has. *)
Inductive Operation : Type :=
| OpRead (cap : nat)
| OpWrite (buf : bytes)
| OpWriteVectored (bufs : list bytes)
| OpFlush
| OpShutdown.

(** What polling an operation once came to. *)
Inductive OpEvent `{HttpLib} : Type :=
| DidRead (cap : nat) (o : Outcome bytes)
| DidWrite (buf : bytes) (o : Outcome nat)
| DidFlush (o : Outcome unit)
| DidShutdown (o : Outcome unit).

Section User.
Context `{UuidLib, HttpLib, TryMutex, FuturesLib, RequestChannel, ResponseChannel, !HyperDisplay}.

(** * The ends of the channels *)

Record Ends : Type := mkEnds {
  en_req : ReqChan;            (* [request_tx], [request_rx] *)
  en_resp : RespChan;          (* [response_tx], [response_rx] *)
  en_fed : bool;               (* [response_tx.send] has handed its item over *)
  en_taken : bool;             (* [pc_taken] *)
  en_aborted : bool;           (* [pc_aborted] *)
  en_op : option Operation;    (* an operation between [check_err!] and its half *)
  en_log : list OpEvent;       (* ghost: what the operations came to *)
}.

(** [start_proxy]: the two channels of a new connection. *)
Definition ends_new : Ends := mkEnds req_new resp_new false false false None [].

Definition set_req (c : ReqChan) (en : Ends) : Ends :=
  mkEnds c (en_resp en) (en_fed en) (en_taken en) (en_aborted en) (en_op en) (en_log en).
Definition set_resp (c : RespChan) (en : Ends) : Ends :=
  mkEnds (en_req en) c (en_fed en) (en_taken en) (en_aborted en) (en_op en) (en_log en).
Definition set_fed (fed : bool) (en : Ends) : Ends :=
  mkEnds (en_req en) (en_resp en) fed (en_taken en) (en_aborted en) (en_op en) (en_log en).
Definition set_op (op : option Operation) (en : Ends) : Ends :=
  mkEnds (en_req en) (en_resp en) (en_fed en) (en_taken en) (en_aborted en) op (en_log en).
Definition set_taken (taken : bool) (en : Ends) : Ends :=
  mkEnds (en_req en) (en_resp en) (en_fed en) taken (en_aborted en) (en_op en) (en_log en).
Definition add_event (e : OpEvent) (en : Ends) : Ends :=
  mkEnds (en_req en) (en_resp en) (en_fed en) (en_taken en) (en_aborted en) (en_op en)
    (en_log en ++ [e]).

(** [ProxyConnection], whose task is [t]. *)
Definition conn_of (t : IoTask) (en : Ends) : ProxyConnection :=
  mkConn t (en_taken en) (en_aborted en).

(** * Operations *)

(** The event of an operation that came to [o]; a vectored write is a write of the merged
    buffers. *)
Definition op_event (op : Operation) (o : ∀ A : Type, Outcome A) : OpEvent :=
  match op with
  | OpRead cap => DidRead cap (o bytes)
  | OpWrite buf => DidWrite buf (o nat)
  | OpWriteVectored bufs => DidWrite (extend_all [] bufs) (o nat)
  | OpFlush => DidFlush (o unit)
  | OpShutdown => DidShutdown (o unit)
  end.

(** [check_err!]: the operation goes on if the task is running. *)
Definition op_begin (op : Operation) (t : IoTask) (en : Ends) : Ends :=
  let (o, self) := checked (Returns (Ready (Ok ()))) (conn_of t en) in
  let en := set_taken (pc_taken self) en in
  match o with
  | Returns Pending | Returns (Ready (Ok _)) => set_op (Some op) en
  | Returns (Ready (Err e)) => add_event (op_event op (λ A, Returns (Ready (Err e)))) en
  | Panics msg => add_event (op_event op (λ A, Panics msg)) en
  end.

(** The half of the connection is polled. *)
Definition op_end (op : Operation) (en : Ends) : Ends :=
  let en := set_op None en in
  let write buf :=
    let (p, c) := sink_poll_write buf (en_req en) in
    add_event (DidWrite buf (half p)) (set_req c en) in
  match op with
  | OpRead cap =>
      let (p, c) := reader_poll_read cap (en_resp en) in
      add_event (DidRead cap (half p)) (set_resp c en)
  | OpWrite buf => write buf
  | OpWriteVectored bufs => write (extend_all [] bufs)
  | OpFlush =>
      let (p, c) := sink_poll_flush (en_req en) in
      add_event (DidFlush (half p)) (set_req c en)
  | OpShutdown =>
      let (p, c) := sink_poll_shutdown (en_req en) in
      add_event (DidShutdown (half p)) (set_req c en)
  end.

(** [Drop]: the task is aborted and the user's ends are dropped. *)
Definition drop_ends (t : IoTask) (en : Ends) : Ends :=
  mkEnds (req_drop_tx (en_req en)) (resp_drop_rx (en_resp en)) (en_fed en) (en_taken en)
    (pc_aborted (drop_connection (conn_of t en))) (en_op en) (en_log en).

(** * The task's side *)

(** A pump that returns drops its end, and so does the task when it ends. *)
Definition ended {A} (t : IoTask) (p : Poll A) : bool :=
  match io_result t, p with Pending, Pending => false | _, _ => true end.
Definition settle (t : IoTask) (en : Ends) : Ends :=
  let en := if ended t (out_result (io_out t)) then set_req (req_drop_rx (en_req en)) en else en in
  if ended t (in_result (io_in t)) then set_resp (resp_drop_tx (en_resp en)) en else en.

(** The item at [response_tx.send(item)]. *)
Definition io_item (item : result HyperErr bytes) : result io_error bytes :=
  match item with Ok d => Ok d | Err e => Err (io_other e) end.

(** [send] hands the item over. *)
Definition feed_item (t : IoTask) (en : Ends) : option Ends :=
  match io_result t, io_in t, en_fed en with
  | Pending, InTx item, false =>
      c ← resp_start_send (io_item item) (en_resp en); Some (set_fed true (set_resp c en))
  | _, _, _ => None
  end.

(** What a step of the task does with its ends of the channels. *)
Definition chan_step (l : io_label) (en : Ends) : option Ends :=
  match l with
  | IoRecv chunk _ =>
      match req_recv (en_req en) with
      | (Ready got, c) => if decide (got = chunk) then Some (set_req c en) else None
      | (Pending, _) => None
      end
  | IoSent true =>                                  (* handed over and flushed *)
      if en_fed en && resp_flushed (en_resp en) then Some (set_fed false en) else None
  | IoSent false =>                                 (* the reader is gone *)
      if negb (en_fed en) && negb (resp_rx_open (en_resp en)) then Some en else None
  | _ => Some en
  end.

(** * The whole *)

Record UserNet : Type := mkUser { us_net : Net; us_ends : Ends }.

Inductive user_label : Type :=
| UNet (l : net_label)          (* a step of task, transport or server *)
| UFeed                         (* [response_tx.send] hands its item over *)
| UBegin (op : Operation)       (* an operation is polled: [check_err!] *)
| UEnd                          (* and its half *)
| UDrop.                        (* the connection is dropped *)

(** The step of the client's task that is part of a step of the network. *)
Definition task_label (l : net_label) (net : Net) : option io_label :=
  match l with
  | NClient l => Some l
  | NPostDone =>
      up ← nt_post net; resp ← response_to (up_rid up) (nt_server net); Some (IoAck (Ok (rs_status resp)))
  | NPostFail e => Some (IoAck (Err e))
  | NHead =>
      dn ← nt_get net; resp ← response_to (dn_rid dn) (nt_server net); Some (IoResponse (Ok (rs_status resp)))
  | NGetFail e => Some (IoResponse (Err e))
  | NFrame n => dn ← nt_get net; Some (IoFrame (Some (Ok (DataFrame (firstn n (dn_buf dn))))))
  | NEnd empty_frame => Some (IoFrame (if empty_frame then Some (Ok (DataFrame [])) else None))
  | NBreak e => Some (IoFrame (Some (Err e)))
  | _ => None
  end.

Variable config : Config.
Variable front : DomainFronting.
Variable sid : Uuid.

Definition user_init : UserNet := mkUser (net_init config) ends_new.

(** An aborted task makes no step. *)
Definition user_net (l : net_label) (u : UserNet) : option UserNet :=
  net ← net_step front sid (us_net u) l;
  match task_label l (us_net u) with
  | None => Some (mkUser net (us_ends u))
  | Some l =>
      guard (en_aborted (us_ends u) = false);;
      en ← chan_step l (us_ends u);
      Some (mkUser net (settle (nt_client net) en))
  end.

Definition user_step (u : UserNet) (l : user_label) : option UserNet :=
  let t := nt_client (us_net u) in
  match l with
  | UNet l => user_net l u
  | UFeed =>
      guard (en_aborted (us_ends u) = false);;
      en ← feed_item t (us_ends u); Some (mkUser (us_net u) en)
  | UBegin op =>
      guard (en_aborted (us_ends u) = false ∧ en_op (us_ends u) = None);;
      Some (mkUser (us_net u) (op_begin op t (us_ends u)))
  | UEnd => op ← en_op (us_ends u); Some (mkUser (us_net u) (op_end op (us_ends u)))
  | UDrop =>
      guard (en_aborted (us_ends u) = false ∧ en_op (us_ends u) = None);;
      Some (mkUser (us_net u) (drop_ends t (us_ends u)))
  end.

(** * What the user saw *)

(** The buffers that were written, and the bytes and errors that were read. *)
Definition written_by (log : list OpEvent) : list bytes :=
  omap (λ e, match e with DidWrite buf (Returns (Ready (Ok _))) => Some buf | _ => None end) log.
Definition read_event (e : OpEvent) : list (result io_error Byte.byte) :=
  match e with
  | DidRead _ (Returns (Ready (Ok d))) => Ok <$> d
  | DidRead _ (Returns (Ready (Err (IoHalf e)))) => [Err e]
  | _ => []
  end.
Definition read_items (log : list OpEvent) : list (result io_error Byte.byte) :=
  concat (read_event <$> log).
Definition bytes_got (log : list OpEvent) : bytes := oks (read_items log).
End User.
