(* ===== verification/UserInv.v ===== *)
(** The channels between the user and the task lose nothing ([user_wf]).

    What the user wrote is what the task received and what the first channel holds; what the
    user read is what the task sent, but for what the second channel holds. *)
From S2P Require Import Prelude Ext DomainFronting Stats State Session Server ServerSteps.
From S2P Require Import Client ClientProps Adaptors Connection Tunnel TunnelInv TunnelProps User.

Section UserInv.
Context `{UuidLib, HttpLib, TryMutex, FuturesLib, RequestChannel, ResponseChannel, !HyperDisplay}.
Context `{!UuidLaws, !HttpLaws, !TryMutexLaws, !FuturesLaws}.
Context `{!RequestChannelLaws, !ResponseChannelLaws}.
Context {config : Config} {front : DomainFronting} {sid : Uuid}.
Implicit Types (net : Net) (t : IoTask) (en : Ends) (u : UserNet).

Abbreviation client_step := (io_step front sid).

(** * The steps as rules *)

Inductive user_trans u : UserNet → Prop :=
| UT_net l net :
    net_step front sid (us_net u) l = Some net → nt_client net = nt_client (us_net u) →
    nt_io net = nt_io (us_net u) → user_trans u (mkUser net (us_ends u))
| UT_task l li net en :
    net_step front sid (us_net u) l = Some net →
    client_step (nt_client (us_net u)) li = Some (nt_client net) →
    nt_io net = nt_io (us_net u) ++ [li] → en_aborted (us_ends u) = false →
    chan_step li (us_ends u) = Some en → user_trans u (mkUser net (settle (nt_client net) en))
| UT_feed item c :
    en_aborted (us_ends u) = false → io_result (nt_client (us_net u)) = Pending →
    io_in (nt_client (us_net u)) = InTx item → en_fed (us_ends u) = false →
    resp_start_send (io_item item) (en_resp (us_ends u)) = Some c →
    user_trans u (mkUser (us_net u) (set_fed true (set_resp c (us_ends u))))
| UT_begin op :
    en_aborted (us_ends u) = false → en_op (us_ends u) = None →
    user_trans u (mkUser (us_net u) (op_begin op (nt_client (us_net u)) (us_ends u)))
| UT_end op :
    en_op (us_ends u) = Some op → user_trans u (mkUser (us_net u) (op_end op (us_ends u)))
| UT_drop :
    en_aborted (us_ends u) = false → en_op (us_ends u) = None →
    user_trans u (mkUser (us_net u) (drop_ends (nt_client (us_net u)) (us_ends u))).

(** A step of the network is a step of the task, or leaves it alone. *)
Lemma task_moves net l net' :
  net_step front sid net l = Some net' →
  match task_label l net with
  | None => nt_client net' = nt_client net ∧ nt_io net' = nt_io net
  | Some li => client_step (nt_client net) li = Some (nt_client net') ∧ nt_io net' = nt_io net ++ [li]
  end.
Proof.
  intros Hs. destruct l; net_cases Hs; simpl; try done.
  all: repeat match goal with Hx : ?x = Some _ |- context [?x] => rewrite Hx; simpl end; try done.
  all: try (by case_decide).
Qed.

(** * What a step of the task does *)

(** The item the task is sending, when it is in the channel already. *)
Definition cur_item t en : list (result HyperErr bytes) :=
  if en_fed en then match io_in t with InTx item => [item] | _ => [] end else [].
(** A frame that has been received and not been sent on. *)
Definition unsent t : bytes := match io_in t with InTx (Ok d) => d | _ => [] end.

Lemma task_chunks t l t' :
  client_step t l = Some t' →
  io_chunks t' = io_chunks t ++ match l with IoRecv (Some c) _ => [c] | _ => [] end.
Proof. intros Hs%io_step_trans. inversion Hs; subst; simpl; rewrite ?app_nil_r; done. Qed.

Lemma task_running t l t' : client_step t l = Some t' → io_result t = Pending.
Proof. unfold io_step. by destruct (io_result t). Qed.

(** A pump that has returned stays that way. *)
Lemma out_ended t l t' :
  client_step t l = Some t' → ended t' (out_result (io_out t')) = false →
  ended t (out_result (io_out t)) = false.
Proof.
  intros Hs. pose proof (task_running _ _ _ Hs) as Hr. apply io_step_trans in Hs. unfold ended. rewrite Hr.
  destruct (io_out t) as [| |res] eqn:E; try done. simpl.
  assert (E' : io_out t' = io_out t) by (inversion Hs; subst; simpl in *; congruence).
  rewrite E', E. by destruct (io_result t').
Qed.

Lemma in_ended t l t' :
  client_step t l = Some t' → ended t' (in_result (io_in t')) = false →
  ended t (in_result (io_in t)) = false.
Proof.
  intros Hs. pose proof (task_running _ _ _ Hs) as Hr. apply io_step_trans in Hs. unfold ended. rewrite Hr.
  destruct (io_in t) as [| | | |res] eqn:E; try done. simpl.
  assert (E' : io_in t' = io_in t) by (inversion Hs; subst; simpl in *; congruence).
  rewrite E', E. by destruct (io_result t').
Qed.

(** The task stays at [response_tx.send] until it returns. *)
Lemma task_sending t l t' item :
  client_step t l = Some t' → io_in t = InTx item →
  (∃ acc, l = IoSent acc ∧ io_items t' = io_items t ++ if acc then [item] else []) ∨
  io_in t' = InTx item ∧ io_items t' = io_items t.
Proof.
  intros Hs%io_step_trans Hi. inversion Hs; subst; simpl in *; try congruence; auto.
  left. match goal with Hx : io_in t = InTx ?x |- context [[?x]] => rewrite Hi in Hx end. simplify_eq. eauto.
Qed.

Lemma task_items t l t' :
  client_step t l = Some t' → (∀ acc, l ≠ IoSent acc) → io_items t' = io_items t.
Proof. intros Hs%io_step_trans Hl. inversion Hs; subst; simpl; try done. by destruct (Hl accepted). Qed.

(** Frames are sent on, except for the one being sent. *)
Definition frames_sent t : Prop :=
  concat (io_frames t) = oks (flat (io_item <$> io_items t)) ++ unsent t.

Lemma frames_sent_step t l t' :
  client_step t l = Some t' → l ≠ IoSent false → frames_sent t → frames_sent t'.
Proof.
  intros Hs%io_step_trans Hl. unfold frames_sent, unsent.
  inversion Hs as [chunk path first Eo|res r Eo|path Ei|res r Ei|frame Ei|acc item Ei|res Ec]; subst; clear Hs;
    simpl; try done; rewrite Ei.
  - unfold in_start. by destruct (create_read_request _ _ _).
  - unfold in_response. by destruct res; [destruct (is_success _)|].
  - rewrite concat_app, app_nil_r. intros ->.
    unfold in_frame. destruct frame as [[[[|b d]|]|e]|]; simpl; by rewrite ?app_nil_r.
  - destruct acc; [|done]. rewrite fmap_app, flat_app, oks_app. intros ->. simpl. rewrite flat_one.
    destruct item as [d|e]; simpl; rewrite !app_nil_r; [by rewrite oks_bytes|done].
Qed.

(** * The invariant *)

Definition shut_down en : Prop := ∃ o, DidShutdown o ∈ en_log en.

Record user_wf u (t := nt_client (us_net u)) (en := us_ends u) : Prop := {
  uw_net : ∃ ls, run (net_step front sid) (net_init config) ls = Some (us_net u);
  uw_rx : req_rx_open (en_req en) = negb (ended t (out_result (io_out t)));
  uw_written : ∃ rest, written_by (en_log en) = io_chunks t ++ rest ∧
    (req_rx_open (en_req en) = true → rest = req_queue (en_req en));
  uw_fed : en_fed en = true → ∃ item, io_in t = InTx item;
  uw_resp : en_aborted en = false →
    resp_rx_open (en_resp en) = true ∧ resp_tx_open (en_resp en) = negb (ended t (in_result (io_in t)));
  uw_items : ∃ rest, flat (io_item <$> io_items t ++ cur_item t en) = read_items (en_log en) ++ rest ∧
    (en_aborted en = false → rest = resp_items (en_resp en));
  uw_frames : frames_sent t;
  uw_shut : req_tx_open (en_req en) = false → en_aborted en = true ∨ shut_down en;
  uw_recv path : IoRecv None path ∈ nt_io (us_net u) → shut_down en;
  uw_sent : IoSent false ∉ nt_io (us_net u);
  uw_op op : en_op en = Some op → en_aborted en = false;
}.

Lemma user_wf_init : user_wf (user_init config).
Proof.
  pose proof req_new_open as [Htx Hrx]. pose proof resp_new_open as [Hrtx Hrrx].
  assert (Hp : io_result start_proxy = Pending).
  { unfold io_result, pump_result. simpl. by rewrite (try_join_wait_l Pending), try_join_wait_l by done. }
  split; simpl; try done.
  - by exists [].
  - unfold ended. by rewrite Hp, Hrx.
  - exists []. rewrite req_new_queue. done.
  - intros _. split; [done|]. unfold ended. by rewrite Hp, Hrtx.
  - exists []. by rewrite resp_new_items.
  - by rewrite Htx.
  - intros path Hin. by apply not_elem_of_nil in Hin.
  - apply not_elem_of_nil.
Qed.

(** Steps of transport and server. *)
Lemma user_wf_net u l net :
  user_wf u → net_step front sid (us_net u) l = Some net → nt_client net = nt_client (us_net u) →
  nt_io net = nt_io (us_net u) → user_wf (mkUser net (us_ends u)).
Proof.
  intros [[ls Hn] ? ? ? ? ? ? ? ? ? ?] Hs Ec Ei. split; simpl; rewrite ?Ec, ?Ei; try done.
  exists (ls ++ [l]). by eapply run_snoc.
Qed.

(** * Steps of the user *)

Lemma written_snoc log e : written_by (log ++ [e]) = written_by log ++ written_by [e].
Proof. apply omap_app. Qed.

Lemma read_snoc log e : read_items (log ++ [e]) = read_items log ++ read_event e.
Proof. unfold read_items. rewrite fmap_app, concat_app. simpl. by rewrite app_nil_r. Qed.

Lemma shut_snoc en e log : en_log en = log ++ [e] → (∃ o, DidShutdown o ∈ log) → shut_down en.
Proof. intros E [o Ho]. exists o. rewrite E, elem_of_app. by left. Qed.

(** An operation ends without a read: the first channel and the log may change. *)
Lemma user_wf_event u en e :
  user_wf u → en_log en = en_log (us_ends u) ++ [e] → read_event e = [] →
  en_resp en = en_resp (us_ends u) → en_fed en = en_fed (us_ends u) →
  en_aborted en = en_aborted (us_ends u) → en_op en = None →
  req_rx_open (en_req en) = req_rx_open (en_req (us_ends u)) → req_queue (en_req en) = req_queue (en_req (us_ends u)) ++ written_by [e] →
  (req_tx_open (en_req en) = false → req_tx_open (en_req (us_ends u)) = false ∨ ∃ o, e = DidShutdown o) →
  user_wf (mkUser (us_net u) en).
Proof.
  intros Hu El Hr Er Ef Ea Eo Hrx Hq Htx. pose proof (uw_written _ Hu) as (rest & Ew & Hrest).
  destruct Hu as [Hnet Hrx0 _ Hfed Hresp Hitems Hfr Hshut Hrecv Hsent Hop].
  split; simpl; rewrite ?El, ?Er, ?Ef, ?Ea, ?Eo; try done.
  - by rewrite Hrx.
  - rewrite written_snoc, Ew, <- app_assoc. eexists. split; [done|]. rewrite Hrx, Hq. by intros ->%Hrest.
  - unfold cur_item. rewrite read_snoc, Hr, app_nil_r, Ef. done.
  - intros [Hc|[o ->]]%Htx.
    + destruct (Hshut Hc) as [?|[o Ho]]; [by left|right; by eapply shut_snoc; eauto].
    + right. exists o. rewrite El. set_solver.
  - intros path [o Ho]%Hrecv. by eapply shut_snoc; eauto.
Qed.

Lemma user_wf_write u buf p c :
  user_wf u → sink_poll_write buf (en_req (us_ends u)) = (p, c) →
  user_wf (mkUser (us_net u) (add_event (DidWrite buf (half p)) (set_op None (set_req c (us_ends u))))).
Proof.
  intros Hu E. pose proof (write_open buf (en_req (us_ends u))) as [Ht Hr]. rewrite E in Ht, Hr.
  eapply user_wf_event; try done; simpl in *; [|rewrite Ht; auto].
  destruct p as [|[n|e]].
  - rewrite app_nil_r. by eapply write_other.
  - by apply write_ok in E as (_ & -> & _).
  - rewrite app_nil_r. by eapply write_other.
Qed.

(** The user reads. *)
Lemma user_wf_read u cap p c :
  user_wf u → en_aborted (us_ends u) = false → reader_poll_read cap (en_resp (us_ends u)) = (p, c) →
  user_wf (mkUser (us_net u) (add_event (DidRead cap (half p)) (set_op None (set_resp c (us_ends u))))).
Proof.
  intros Hu Hab E. pose proof (read_open cap (en_resp (us_ends u))) as [Ht Hr]. rewrite E in Ht, Hr. simpl in Ht, Hr.
  destruct Hu as [Hnet Hrx [rest [Ew Hw]] Hfed Hresp (left & Ei & Hi) Hfr Hshut Hrecv Hsent Hop].
  split; simpl; try done.
  - rewrite written_snoc, app_nil_r. eauto.
  - intros Hf. rewrite Ht, Hr. auto.
  - exists (resp_items c). split; [|done]. rewrite read_snoc, <- app_assoc.
    etransitivity; [exact Ei|]. f_equal. rewrite Hi by done.
    destruct p as [|[d|e]]; simpl.
    + by apply read_pending in E as [-> ->].
    + by apply read_ok in E as (_ & -> & _).
    + by apply read_err in E as ->.
  - intros [?|[o Ho]]%Hshut; [by left|right; by eapply shut_snoc; eauto].
  - intros path [o Ho]%Hrecv. by eapply shut_snoc; eauto.
Qed.
Lemma user_wf_end u op :
  user_wf u → en_op (us_ends u) = Some op → user_wf (mkUser (us_net u) (op_end op (us_ends u))).
Proof.
  intros Hu Hop. pose proof (uw_op _ Hu _ Hop) as Hab.
  destruct op as [cap|buf|bufs| |]; unfold op_end.
  - destruct (reader_poll_read _ _) as [p c] eqn:E. by apply user_wf_read.
  - destruct (sink_poll_write _ _) as [p c] eqn:E. by apply user_wf_write.
  - destruct (sink_poll_write _ _) as [p c] eqn:E. by apply user_wf_write.
  - pose proof (flush_keeps (en_req (set_op None (us_ends u)))) as (Hq & Ht & Hr).
    destruct (sink_poll_flush _) as [p c]. simpl in *.
    eapply user_wf_event; try done; [by rewrite app_nil_r|simpl; rewrite Ht; auto].
  - pose proof (shutdown_keeps (en_req (set_op None (us_ends u)))) as (Hq & Hr).
    destruct (sink_poll_shutdown _) as [p c]. simpl in *.
    eapply user_wf_event; try done; [by rewrite app_nil_r|simpl; eauto].
Qed.

(** [check_err!] changes neither channel. *)
Lemma user_wf_begin u op :
  user_wf u → en_aborted (us_ends u) = false → en_op (us_ends u) = None →
  user_wf (mkUser (us_net u) (op_begin op (nt_client (us_net u)) (us_ends u))).
Proof.
  intros Hu Hab Hop. unfold op_begin. rewrite checked_cases. simpl.
  destruct (en_taken (us_ends u)); [|destruct (io_result _) as [|[[]|e]]]; simpl.
  2: by destruct Hu; split; simpl; eauto.
  all: eapply user_wf_event; simpl; try done; destruct op; rewrite ?app_nil_r; auto.
Qed.
Lemma user_wf_drop u :
  user_wf u → en_op (us_ends u) = None →
  user_wf (mkUser (us_net u) (drop_ends (nt_client (us_net u)) (us_ends u))).
Proof.
  intros [Hnet Hrx [rest [Ew Hw]] Hfed Hresp [left [Ei Hi]] Hfr Hshut Hrecv Hsent Hop] Hno.
  pose proof (req_drop_tx_keeps (en_req (us_ends u))) as [Hq Hr].
  split; simpl; try done.
  - by rewrite Hr.
  - exists rest. rewrite Hr, Hq. done.
  - exists left. done.
  - by left.
  - by rewrite Hno.
Qed.

(** * Steps of the task *)

(** An item is handed over. *)
Lemma user_wf_feed u item c :
  user_wf u → en_aborted (us_ends u) = false → io_in (nt_client (us_net u)) = InTx item →
  en_fed (us_ends u) = false → resp_start_send (io_item item) (en_resp (us_ends u)) = Some c →
  user_wf (mkUser (us_net u) (set_fed true (set_resp c (us_ends u)))).
Proof.
  intros [Hnet Hrx Hw Hfed Hresp [left [Ei Hi]] Hfr Hshut Hrecv Hsent Hop] Hab Hin Hnf Hsend.
  apply send_ok in Hsend as (Hitems & Ht & Hr). split; simpl; try done; eauto.
  - intros _. rewrite Ht, Hr. auto.
  - exists (resp_items c). split; [|done]. unfold cur_item in *. simpl. rewrite Hin. rewrite Hnf, app_nil_r in Ei.
    rewrite fmap_app, flat_app, Ei, Hitems, <- app_assoc, Hi by done. simpl. by rewrite flat_one.
Qed.

Lemma settle_ends t en :
  en_fed (settle t en) = en_fed en ∧ en_aborted (settle t en) = en_aborted en ∧
  en_op (settle t en) = en_op en ∧ en_log (settle t en) = en_log en.
Proof. unfold settle. by repeat case_match. Qed.

Lemma settle_req t en (c := en_req en) (c' := en_req (settle t en)) :
  req_rx_open c' = negb (ended t (out_result (io_out t))) && req_rx_open c ∧
  req_tx_open c' = req_tx_open c ∧ (req_rx_open c' = true → req_queue c' = req_queue c).
Proof.
  pose proof (req_drop_rx_keeps c) as (_ & Ht & Hr). unfold c', c, settle in *.
  destruct (ended t (out_result _)); [|by destruct (ended t (in_result _))].
  destruct (ended t (in_result _)); simpl; by rewrite Hr.
Qed.

Lemma settle_resp t en (c := en_resp en) (c' := en_resp (settle t en)) :
  resp_tx_open c' = negb (ended t (in_result (io_in t))) && resp_tx_open c ∧
  resp_rx_open c' = resp_rx_open c ∧ resp_items c' = resp_items c.
Proof.
  pose proof (resp_drop_tx_keeps c) as (Hi & Ht & Hr). unfold c', c, settle in *.
  destruct (ended t (in_result _)); [|by destruct (ended t (out_result _))].
  destruct (ended t (out_result _)); simpl; by rewrite Ht, Hr, Hi.
Qed.

(** What a step of the task does to its ends. *)
Lemma chan_step_ends l en en' :
  chan_step l en = Some en' →
  en_aborted en' = en_aborted en ∧ en_op en' = en_op en ∧ en_log en' = en_log en ∧
  en_resp en' = en_resp en ∧
  req_rx_open (en_req en') = req_rx_open (en_req en) ∧ req_tx_open (en_req en') = req_tx_open (en_req en) ∧
  req_queue (en_req en) = match l with IoRecv (Some c) _ => [c] | _ => [] end ++ req_queue (en_req en') ∧
  (∀ path, l = IoRecv None path → req_tx_open (en_req en) = false) ∧
  match l with
  | IoSent true => en_fed en = true ∧ en_fed en' = false
  | IoSent false => resp_rx_open (en_resp en) = false
  | _ => en_fed en' = en_fed en
  end.
Proof.
  unfold chan_step. intros Hs. destruct l as [chunk path| | | | |[]|]; simplify_eq/=; try (repeat split; done).
  - pose proof (recv_open (en_req en)) as [Ht Hr]. destruct (req_recv (en_req en)) as [[|got] c] eqn:E; [done|].
    case_decide; simplify_eq/=. repeat split; try done.
    + destruct chunk; [by apply recv_some in E|]. apply recv_none in E as (-> & -> & _). done.
    + intros p' [= -> _]. by apply recv_none in E as (_ & _ & ->).
  - destruct (en_fed en) eqn:Ef, (resp_flushed _); simplify_eq/=. repeat split; done.
  - destruct (en_fed en), (resp_rx_open (en_resp en)) eqn:Er; simplify_eq/=. repeat split; done.
Qed.
(** The items that were handed over stay the same, whether the task is told or not. *)
Lemma handed_over t li t' en en' :
  client_step t li = Some t' → chan_step li en = Some en' → li ≠ IoSent false →
  (en_fed en = true → ∃ item, io_in t = InTx item) →
  io_items t' ++ cur_item t' en' = io_items t ++ cur_item t en ∧
  (en_fed en' = true → ∃ item, io_in t' = InTx item).
Proof.
  intros Hs Hc Hl Hfed. apply chan_step_ends in Hc as (_ & _ & _ & _ & _ & _ & _ & _ & Hf). unfold cur_item.
  assert (Hcase : li = IoSent true ∨ li ≠ IoSent true) by (destruct li as [| | | | |[]|]; auto).
  destruct Hcase as [->|Hne].
  - destruct Hf as [Hf ->]. rewrite Hf. destruct (Hfed Hf) as [item Hi]. rewrite Hi, app_nil_r.
    destruct (task_sending _ _ _ _ Hs Hi) as [(acc & [= <-] & E)|[E _]]; [done|].
    apply io_step_trans in Hs. inversion Hs; subst; simpl in *. unfold in_sent in E. by repeat case_match.
  - assert (Hno : ∀ acc, li ≠ IoSent acc) by (intros []; done).
    assert (Ef : en_fed en' = en_fed en) by (by destruct li as [| | | | |[]|]).
    rewrite (task_items _ _ _ Hs Hno), Ef. destruct (en_fed en); [|done].
    destruct (Hfed eq_refl) as [item Hi]. rewrite Hi.
    destruct (task_sending _ _ _ _ Hs Hi) as [(acc & -> & _)|[-> _]]; [by destruct (Hno acc)|]. eauto.
Qed.

Lemma user_wf_task u l li net en :
  user_wf u → net_step front sid (us_net u) l = Some net →
  client_step (nt_client (us_net u)) li = Some (nt_client net) →
  nt_io net = nt_io (us_net u) ++ [li] → en_aborted (us_ends u) = false →
  chan_step li (us_ends u) = Some en → user_wf (mkUser net (settle (nt_client net) en)).
Proof.
  intros [[ls Hnet] Hrx [rest [Ew Hw]] Hfed Hresp [left [Ei Hi]] Hfr Hshut Hrecv Hsent Hop] Hs Ht Eio Hab Hc.
  destruct (Hresp Hab) as [Hrrx Hrtx].
  pose proof (chan_step_ends _ _ _ Hc) as (Ea & Eo & El & Er & Erx & Etx & Eq & Hnone & Hf).
  assert (Hl : li ≠ IoSent false) by (intros ->; congruence).
  destruct (handed_over _ _ _ _ _ Ht Hc Hl Hfed) as [Ecur Hfed'].
  destruct (settle_ends (nt_client net) en) as (Sf & Sa & So & Sl).
  destruct (settle_req (nt_client net) en) as (Srx & Stx & Sq).
  destruct (settle_resp (nt_client net) en) as (Rtx & Rrx & Ri).
  pose proof (out_ended _ _ _ Ht) as Hout. pose proof (in_ended _ _ _ Ht) as Hin.
  assert (Hsd : shut_down (us_ends u) → shut_down (settle (nt_client net) en)).
  { unfold shut_down. by rewrite Sl, El. }
  split; simpl.
  - exists (ls ++ [l]). by eapply run_snoc.
  - rewrite Srx, Erx, Hrx. destruct (ended (nt_client net) _) eqn:E; [done|]. by rewrite Hout.
  - rewrite Sl, El, Ew, (task_chunks _ _ _ Ht). destruct (req_rx_open (en_req (us_ends u))) eqn:E.
    + rewrite (Hw eq_refl), Eq, app_assoc. eexists. split; [done|]. by intros ->%Sq.
    + symmetry in Hrx. apply negb_false_iff in Hrx.
      destruct (ended (nt_client net) (out_result (io_out (nt_client net)))) eqn:E'; [|by rewrite Hout in Hrx].
      simpl in Srx. rewrite Srx. assert (Hkeep : ∀ q, ∃ r, io_chunks (nt_client (us_net u)) ++ rest =
        (io_chunks (nt_client (us_net u)) ++ []) ++ r ∧ (false = true → r = q))
        by (intros; exists rest; by rewrite app_nil_r).
      destruct li as [[c|] p'| | | | | |]; try done.
      apply io_step_trans in Ht as Ht'. inversion Ht'; subst.
      unfold ended in Hrx. rewrite (task_running _ _ _ Ht) in Hrx.
      match goal with Hx : io_out _ = OutRecv _ |- _ => rewrite Hx in Hrx end. done.
  - rewrite Sf. exact Hfed'.
  - rewrite Sa, Ea, Rrx, Rtx, Er, Hrrx, Hrtx. intros _. split; [done|].
    destruct (ended (nt_client net) (in_result (io_in (nt_client net)))); [done|]. by rewrite Hin.
  - exists left. rewrite Sl, El, Sa, Ea, Ri, Er. split; [|done]. rewrite <- Ei, <- Ecur. unfold cur_item. by rewrite Sf.
  - by eapply frames_sent_step.
  - rewrite Stx, Etx, Sa, Ea. intros Hx. destruct (Hshut Hx); auto.
  - intros path. rewrite Eio, elem_of_app, list_elem_of_singleton. intros [Hx|<-]; [by eauto|].
    destruct (Hshut (Hnone _ eq_refl)) as [?|?]; [congruence|auto].
  - rewrite Eio, elem_of_app, list_elem_of_singleton. naive_solver.
  - rewrite So, Sa, Eo, Ea. done.
Qed.

Lemma user_step_trans u l u' : user_step front sid u l = Some u' → user_trans u u'.
Proof.
  destruct l as [l| |op| |]; simpl.
  - unfold user_net. intros Hs. apply bind_Some in Hs as (net & Hn & Hs).
    pose proof (task_moves _ _ _ Hn) as Hm. destruct (task_label l (us_net u)) as [li|].
    + unbind Hs. destruct Hm. simplify_eq. by eapply UT_task.
    + destruct Hm. simplify_eq. by eapply UT_net.
  - intros Hs. unbind Hs. unfold feed_item in *. repeat case_match; try done.
    match goal with Hb : mbind _ _ = Some _ |- _ => unbind Hb end. simplify_eq. by eapply UT_feed.
  - intros Hs. unbind Hs. destruct_and?. simplify_eq. by eapply UT_begin.
  - intros Hs. unbind Hs. simplify_eq. by eapply UT_end.
  - intros Hs. unbind Hs. destruct_and?. simplify_eq. by eapply UT_drop.
Qed.

Lemma user_wf_trans u u' : user_wf u → user_trans u u' → user_wf u'.
Proof.
  intros Hu Ht. destruct Ht.
  - by eapply user_wf_net.
  - by eapply user_wf_task.
  - by eapply user_wf_feed.
  - by apply user_wf_begin.
  - by apply user_wf_end.
  - by apply user_wf_drop.
Qed.

Lemma user_run_wf ls u : run (user_step front sid) (user_init config) ls = Some u → user_wf u.
Proof.
  apply (run_invariant (user_step front sid) user_wf); [|apply user_wf_init].
  intros u0 l u1 Hu Hs%user_step_trans. by eapply user_wf_trans.
Qed.
End UserInv.
