(* ===== verification/Pipe.v ===== *)
(** The abstract specification of a connection: a pipe of bytes in each direction.

    [pipe_step] is the specification: what the user writes can be given to the upstream later,
    what is taken from the upstream can be read by the user later, each in order. [Pipe_of]
    is the pipe that a state of the whole system ([User]) implements. *)
From S2P Require Import Prelude Ext DomainFronting Stats State Session Server ServerSteps.
From S2P Require Import ServerInv StreamInv LogInv WriteInv BodyInv PendingInv Invariant Routing Delivery.
From S2P Require Import Client ClientProps Adaptors Connection Tunnel TunnelInv TunnelUp TunnelDown TunnelProps.
From S2P Require Import User UserInv.

(** * The specification *)

(** The bytes on their way up and down. *)
Record Pipe : Type := mkPipe { p_up : bytes; p_down : bytes }.

Inductive pipe_event : Type :=
| Write (b : bytes)                   (* the user writes *)
| Give (b : bytes)                    (* the upstream is given *)
| Take (rid : nat) (b : bytes)        (* the response to request [rid] brings *)
| Read (b : bytes).                   (* the user reads *)

Definition pipe_empty : Pipe := mkPipe [] [].

Definition pipe_step (p : Pipe) (e : pipe_event) : option Pipe :=
  match e with
  | Write b => Some (mkPipe (p_up p ++ b) (p_down p))
  | Give b => guard (b = firstn (length b) (p_up p));; Some (mkPipe (skipn (length b) (p_up p)) (p_down p))
  | Take _ b => Some (mkPipe (p_up p) (p_down p ++ b))
  | Read b => guard (b = firstn (length b) (p_down p));; Some (mkPipe (p_up p) (skipn (length b) (p_down p)))
  end.

(** What went in and out; [takes g] is what the responses to the requests in [g] brought. *)
Definition flow (f : pipe_event → bytes) (evs : list pipe_event) : bytes := concat (f <$> evs).
Definition writes : list pipe_event → bytes := flow (λ e, match e with Write b => b | _ => [] end).
Definition gives : list pipe_event → bytes := flow (λ e, match e with Give b => b | _ => [] end).
Definition takes (g : nat → bool) : list pipe_event → bytes :=
  flow (λ e, match e with Take rid b => if g rid then b else [] | _ => [] end).
Definition reads : list pipe_event → bytes := flow (λ e, match e with Read b => b | _ => [] end).

Lemma flow_cons f e evs : flow f (e :: evs) = f e ++ flow f evs.
Proof. done. Qed.

(** A pipe neither loses nor invents nor reorders. *)
Lemma pipe_fifo evs p p' :
  run pipe_step p evs = Some p' →
  p_up p ++ writes evs = gives evs ++ p_up p' ∧
  p_down p ++ takes (λ _, true) evs = reads evs ++ p_down p'.
Proof.
  revert p. induction evs as [|e evs IH]; intros p Hr; simpl in Hr; [by simplify_eq; rewrite !app_nil_r|].
  apply bind_Some in Hr as (p1 & Hs & Hr). destruct (IH _ Hr) as [Hu Hd].
  unfold writes, gives, takes, reads in *. rewrite !flow_cons. destruct e as [b|b|rid b|b]; simpl in Hs.
  - simplify_eq/=. by rewrite app_assoc.
  - apply bind_Some in Hs as (E & _ & [= <-]). simpl in *. split; [|done].
    rewrite <- app_assoc, <- Hu, app_assoc. f_equal. rewrite E at 1. by rewrite take_drop.
  - simplify_eq/=. by rewrite app_assoc.
  - apply bind_Some in Hs as (E & _ & [= <-]). simpl in *. split; [done|].
    rewrite <- app_assoc, <- Hd, app_assoc. f_equal. rewrite E at 1. by rewrite take_drop.
Qed.

(** Moving bytes through a pipe of which the ends are known. *)
Lemma pipe_moves (w w' g g' t t' r r' : bytes) up down rid up' down' :
  w = g ++ up → t = r ++ down → w ++ w' = (g ++ g') ++ up' → t ++ t' = (r ++ r') ++ down' →
  run pipe_step (mkPipe up down) [Write w'; Give g'; Take rid t'; Read r'] = Some (mkPipe up' down').
Proof.
  intros -> -> Eu Ed. rewrite <- !app_assoc in Eu, Ed. apply app_inv_head in Eu, Ed. simpl.
  rewrite Eu, take_app_length, guard_pass by done. simpl.
  rewrite Ed, take_app_length, guard_pass by done. simpl. by rewrite !drop_app_length.
Qed.

Section Pipe.
Context `{UuidLib, HttpLib, TryMutex, FuturesLib, RequestChannel, ResponseChannel, !HyperDisplay}.
Context `{!UuidLaws, !HttpLaws, !TryMutexLaws, !FuturesLaws}.
Context `{!RequestChannelLaws, !ResponseChannelLaws}.
Implicit Types (net : Net) (t : IoTask) (en : Ends) (u : UserNet).

(** * The pipe of a state *)

(** What the user has written and read, what the upstream connections of the session were
    given, and what the responses to the read requests in [g] have brought. *)
Definition user_wrote u : bytes := concat (written_by (en_log (us_ends u))).
Definition user_got u : bytes := bytes_got (en_log (us_ends u)).
Definition given (sid : Uuid) u : bytes := concat (session_writes sid (nt_server (us_net u))).
Definition brought (g : nat → bool) u : bytes :=
  concat ((λ dn, if g (dn_rid dn) then dn_got dn else []) <$> downloads (us_net u)).
Definition taken u : bytes := concat (dn_got <$> downloads (us_net u)).

Definition pipe_of (sid : Uuid) u : Pipe :=
  mkPipe (skipn (length (given sid u)) (user_wrote u)) (skipn (length (user_got u)) (taken u)).

(** The events [evs] are what happened between [u] and [u']. *)
Record observed (sid : Uuid) u (evs : list pipe_event) u' : Prop := {
  ob_wrote : user_wrote u' = user_wrote u ++ writes evs;
  ob_given : given sid u' = given sid u ++ gives evs;
  ob_brought g : brought g u' = brought g u ++ takes g evs;
  ob_got : user_got u' = user_got u ++ reads evs;
}.

Lemma brought_all u : brought (λ _, true) u = taken u.
Proof. done. Qed.

Context {config : Config} {front : DomainFronting} {sid : Uuid} {key : HeaderName}.
Context (keys : keys_agree front config key).
Abbreviation user_wf := (user_wf (config := config) (front := front) (sid := sid)).
Abbreviation net_ok := (net_ok config front sid).

Lemma user_net_ok u : user_wf u → net_ok (us_net u).
Proof. intros Hu. destruct (uw_net _ Hu) as [ls Hls]. by eapply net_ok_run. Qed.

(** * What is in the pipe *)

(** The chunk the task is sending. *)
Definition sending t : bytes := match io_out t with OutSend r => req_body r | _ => [] end.

(** While the task takes chunks, what the user wrote and the upstream was not given is the
    rest of the chunk in progress, and what the channel holds. *)
Lemma up_in_pipe u :
  user_wf u → ∃ rest, user_wrote u = given sid u ++ rest ∧
    (req_rx_open (en_req (us_ends u)) = true →
     ∃ part, part `suffix_of` sending (nt_client (us_net u)) ∧
       rest = part ++ concat (req_queue (en_req (us_ends u)))).
Proof.
  intros Hu. pose proof (user_net_ok _ Hu) as Hok.
  destruct (uw_written _ Hu) as (q & Ew & Hq). unfold user_wrote, given. rewrite Ew.
  destruct (session_chunks _ _ _ _ Hok) as (p & -> & Hp).
  set (t := nt_client (us_net u)) in *.
  destruct (base_client _ (no_base _ _ _ _ Hok)) as ([_ Ho] & _ & Hs & _). fold t in Ho, Hs.
  assert (Hrest : ∃ x, concat (io_chunks t) = (concat (firstn (io_acks t) (io_chunks t)) ++ p) ++ x).
  { pose proof (f_equal (concat (A:=Byte.byte)) (take_drop (io_acks t) (io_chunks t))) as E. rewrite concat_app in E.
    destruct Hp as [->|(c & Hc & [x ->])].
    - exists (concat (skipn (io_acks t) (io_chunks t))). by rewrite app_nil_r, E.
    - rewrite (drop_S _ _ _ Hc) in E. exists (x ++ concat (skipn (S (io_acks t)) (io_chunks t))).
      rewrite <- E. simpl. by rewrite <- !app_assoc. }
  rewrite concat_app. destruct Hrest as [x Ex]. exists (x ++ concat q). rewrite Ex, <- !app_assoc.
  split; [done|]. intros Hrx. rewrite (Hq Hrx). exists x. split; [|done].
  pose proof (uw_rx _ Hu) as Ho'. rewrite Hrx in Ho'. fold t in Ho'. unfold sending.
  destruct (io_out t) as [first|r|res] eqn:Eo.
  - destruct Ho as (Eb & Ea & _). rewrite <- Eb, Ea, take_ge in Ex by (by rewrite length_fmap).
    rewrite <- app_assoc in Ex. rewrite <- (app_nil_r (concat _)) in Ex at 1. apply app_inv_head in Ex.
    symmetry in Ex. by apply app_nil in Ex as [_ ->].
  - destruct Ho as (Eb & Ea). rewrite <- Eb in Ex.
    assert (El : io_posts t = firstn (io_acks t) (io_posts t) ++ [r]).
    { pose proof (Hs _ eq_refl) as Hl. apply last_Some in Hl as [l E].
      rewrite E in Ea |- *. rewrite length_app in Ea. simpl in Ea.
      rewrite take_app_le, take_ge by lia. done. }
    rewrite El in Ex at 1. rewrite fmap_app, concat_app, fmap_take, <- !app_assoc in Ex.
    apply app_inv_head in Ex. simpl in Ex. rewrite app_nil_r in Ex. by exists p.
  - unfold ended in Ho'. simpl in Ho'. by destruct (io_result t).
Qed.

(** What the responses brought and the user has not read is in the channel, or about to be. *)
Lemma down_in_pipe u :
  user_wf u → ∃ rest, taken u = user_got u ++ rest ∧
    (en_aborted (us_ends u) = false →
     rest = oks (resp_items (en_resp (us_ends u))) ++
       (if en_fed (us_ends u) then [] else unsent (nt_client (us_net u)))).
Proof.
  intros Hu. pose proof (user_net_ok _ Hu) as Hok. unfold taken, downloads.
  rewrite <- (dw_frames _ (no_down _ _ _ _ Hok)), (uw_frames _ Hu).
  destruct (uw_items _ Hu) as (rest & Ei & Hrest). set (t := nt_client (us_net u)) in *.
  apply (f_equal oks) in Ei. rewrite fmap_app, flat_app, !oks_app in Ei. fold (user_got u) in Ei.
  assert (Eu : unsent t = oks (flat (io_item <$> cur_item t (us_ends u))) ++
            (if en_fed (us_ends u) then [] else unsent t)).
  { unfold cur_item. destruct (en_fed (us_ends u)) eqn:Ef; [|done]. destruct (uw_fed _ Hu Ef) as [item Hi].
    fold t in Hi. unfold unsent. rewrite Hi. simpl. rewrite flat_one, app_nil_r.
    destruct item; simpl; by rewrite ?oks_bytes. }
  exists (oks rest ++ (if en_fed (us_ends u) then [] else unsent t)). split; [|by intros ->%Hrest].
  rewrite Eu at 1. by rewrite app_assoc, Ei, <- app_assoc.
Qed.

(** * What a step moves *)

Lemma log_grows u u' :
  user_trans (front := front) (sid := sid) u u' → ∃ es, en_log (us_ends u') = en_log (us_ends u) ++ es.
Proof.
  assert (Hsame : ∀ l : list OpEvent, ∃ es, l = l ++ es) by (intros l; exists []; by rewrite app_nil_r).
  intros Ht. destruct Ht as [l net|l li net en ? ? ? ? Hc|item c|op|op|]; simpl; auto.
  - destruct (settle_ends (nt_client net) en) as (_ & _ & _ & ->).
    by destruct (chan_step_ends _ _ _ Hc) as (_ & _ & -> & _).
  - unfold op_begin. rewrite checked_cases.
    destruct (pc_taken _); [|destruct (io_result _) as [|[[]|]]]; simpl; eauto.
  - destruct op; unfold op_end; match goal with |- context [let (_, _) := ?x in _] => destruct x end;
      simpl; eauto.
Qed.

(** The server makes a step, or none. *)
Lemma server_moves net net' :
  net_trans front sid net net' →
  nt_server net' = nt_server net ∨ ∃ l, step (nt_server net) l = Some (nt_server net').
Proof.
  intros Ht. inversion Ht; subst; clear Ht; simpl; eauto. right. exists (LPoll stid read room).
  by eapply poll_step.
Qed.

Lemma session_writes_grow net s l :
  base_wf config front sid net → step (nt_server net) l = Some s →
  ∃ es, session_writes sid s = session_writes sid (nt_server net) ++ es.
Proof.
  intros Hb Hs. pose proof (step_trans _ _ _ Hs) as Ht.
  pose proof (wf_ids _ (base_sys _ Hb)) as Hf.
  assert (Hlog : ∃ es, sys_log s = sys_log (nt_server net) ++ es)
    by (destruct (log_flow _ _ Ht) as [(es & E & _)|(aid & rid & d & n & E & _)]; eauto).
  destruct Hlog as [es E]. unfold session_writes. rewrite E, omap_app. eexists. f_equal.
  apply list_omap_ext, Forall_Forall2_diag, Forall_forall. intros [|aid rid d n|] Hin; try done.
  destruct (rt_write _ _ (bw_routed _ Hb) _ _ _ _ Hin) as (v & _ & Hsv).
  destruct (serves_mono _ _ _ _ Hf Ht Hsv) as (a' & -> & E'). destruct Hsv as (a & -> & E0). simpl.
  by rewrite E', E0.
Qed.

Lemma given_grows net net' :
  base_wf config front sid net → net_trans front sid net net' →
  ∃ b, concat (session_writes sid (nt_server net')) = concat (session_writes sid (nt_server net)) ++ b.
Proof.
  intros Hb Ht. destruct (server_moves _ _ Ht) as [->|[l Hs]]; [exists []; by rewrite app_nil_r|].
  destruct (session_writes_grow _ _ _ Hb Hs) as [es ->]. rewrite concat_app. eauto.
Qed.

(** At most one response brings something. *)
Lemma brought_grows net net' :
  net_trans front sid net net' →
  ∃ rid b, ∀ g : nat → bool,
    concat ((λ dn, if g (dn_rid dn) then dn_got dn else []) <$> downloads net') =
    concat ((λ dn, if g (dn_rid dn) then dn_got dn else []) <$> downloads net) ++ (if g rid then b else []).
Proof.
  intros Ht. unfold downloads.
  assert (Hsame : ∀ x y : bytes, x = y → x = y ++ []) by (intros; subst; by rewrite app_nil_r).
  assert (Hopt : ∀ (f : Download → Download) (cur : option Download) (g : nat → bool),
    (∀ dn, dn_rid (f dn) = dn_rid dn ∧ dn_got (f dn) = dn_got dn) →
    concat ((λ dn, if g (dn_rid dn) then dn_got dn else []) <$> option_list (f <$> cur)) =
    concat ((λ dn, if g (dn_rid dn) then dn_got dn else []) <$> option_list cur)).
  { intros f [dn|] g Hf; [|done]. simpl. by destruct (Hf dn) as [-> ->]. }
  inversion Ht; subst; clear Ht; simpl.
  all: try (exists 0, []; intros g; destruct (g 0); by apply Hsame).
  all: try match goal with Hg : nt_get _ = _ |- _ => rewrite Hg end; simpl.
  - (* NT_get *) exists 0, []. intros g. rewrite !fmap_app, !concat_app. simpl. repeat case_match; by rewrite ?app_nil_r.
  - (* NT_poll *) exists 0, []. intros g. rewrite !fmap_app, !concat_app. simpl.
    destruct p as [|[]]; simpl; repeat case_match; by rewrite ?app_nil_r.
  - (* NT_drop_body *) exists 0, []. intros g. rewrite !fmap_app, !concat_app, Hopt.
    + repeat case_match; by rewrite ?app_nil_r.
    + intros dn. unfold close_if. by case_decide.
  - (* NT_frame *) exists (dn_rid dn), (firstn n (dn_buf dn)). intros g.
    rewrite !fmap_app, !concat_app. simpl. destruct (g (dn_rid dn)); by rewrite ?app_nil_r, ?app_assoc.
  - (* NT_end *) exists 0, []. intros g. repeat case_match; by rewrite ?app_nil_r.
Qed.

Lemma net_step_of u u' :
  user_trans (front := front) (sid := sid) u u' →
  us_net u' = us_net u ∨ net_trans front sid (us_net u) (us_net u').
Proof. intros Ht. destruct Ht; simpl; eauto using net_step_trans. Qed.

(** * Refinement *)

(** What a step moves, as events of the pipe. *)
Lemma user_step_observed u u' :
  user_wf u → user_trans (front := front) (sid := sid) u u' →
  ∃ w g rid b r, observed sid u [Write w; Give g; Take rid b; Read r] u'.
Proof.
  intros Hu Ht. destruct (log_grows _ _ Ht) as [es Elog].
  assert (Hnet : ∃ g rid b, given sid u' = given sid u ++ g ∧
            ∀ f : nat → bool, brought f u' = brought f u ++ if f rid then b else []).
  { destruct (net_step_of _ _ Ht) as [E|Hn].
    - exists [], 0, []. unfold given, brought. rewrite E, app_nil_r. split; [done|].
      intros f. by destruct (f 0); rewrite app_nil_r.
    - destruct (given_grows _ _ (no_base _ _ _ _ (user_net_ok _ Hu)) Hn) as [g Hg].
      destruct (brought_grows _ _ Hn) as (rid & b & Hb). eauto 10. }
  destruct Hnet as (g & rid & b & Hg & Hb).
  exists (concat (written_by es)), g, rid, b, (oks (read_items es)).
  split; unfold writes, gives, takes, reads, flow; simpl; rewrite ?app_nil_r; try done.
  - unfold user_wrote, written_by. by rewrite Elog, omap_app, concat_app.
  - intros f. by rewrite Hb, app_nil_r.
  - unfold user_got, bytes_got, read_items. by rewrite Elog, fmap_app, concat_app, oks_app.
Qed.
End Pipe.
