(* ===== verification/PipeProps.v ===== *)
(** The theorems about a connection as its user sees it.

    They hold for every schedule of user, task, transport, server and other clients. *)
From S2P Require Import Prelude Ext DomainFronting Stats State Session Server ServerSteps Invariant Routing.
From S2P Require Import Scenario Client ClientProps Adaptors Connection.
From S2P Require Import Tunnel TunnelInv TunnelDown TunnelProps User UserInv Pipe.

Section PipeProps.
Context `{UuidLib, HttpLib, TryMutex, FuturesLib, RequestChannel, ResponseChannel, !HyperDisplay}.
Context `{!UuidLaws, !HttpLaws, !TryMutexLaws, !FuturesLaws}.
Context `{!RequestChannelLaws, !ResponseChannelLaws}.
Implicit Types (net : Net) (t : IoTask) (en : Ends) (u : UserNet).

(** C4. The whole system implements a pipe in each direction. Each step of the user, the
    client's task, the transport, the server or another client is, seen from the two ends, a
    sequence of steps of the abstract pipe, in which bytes leave in the order in which they went
    in: what the user writes waits in the pipe until the upstream is given it, and what a response
    brings waits until the user reads it. *)
Theorem pipe_refinement config front sid key :
  keys_agree front config key →
  pipe_of sid (user_init config) = pipe_empty ∧
  ∀ ls u l u',
    run (user_step front sid) (user_init config) ls = Some u → user_step front sid u l = Some u' →
    ∃ evs, run pipe_step (pipe_of sid u) evs = Some (pipe_of sid u') ∧ observed sid u evs u'.
Proof.
  intros Hk. split; [done|]. intros ls u l u' Hrun Hs%user_step_trans.
  pose proof (user_run_wf _ _ Hrun) as Hu. pose proof (user_wf_trans _ _ Hu Hs) as Hu'.
  destruct (user_step_observed Hk _ _ Hu Hs) as (w & g & rid & b & r & Hob).
  exists [Write w; Give g; Take rid b; Read r]. split; [|done].
  destruct (up_in_pipe Hk _ Hu) as (up & Eup & _), (up_in_pipe Hk _ Hu') as (up' & Eup' & _).
  destruct (down_in_pipe Hk _ Hu) as (dn & Edn & _), (down_in_pipe Hk _ Hu') as (dn' & Edn' & _).
  pose proof (ob_wrote _ _ _ _ Hob) as Ew. pose proof (ob_given _ _ _ _ Hob) as Eg.
  pose proof (ob_got _ _ _ _ Hob) as Er. pose proof (ob_brought _ _ _ _ Hob (λ _, true)) as Eb.
  rewrite !brought_all in Eb. unfold writes, gives, takes, reads, flow in Ew, Eg, Er, Eb. simpl in *.
  rewrite ?app_nil_r in *. unfold pipe_of. rewrite Eup', Edn', Eup, Edn, !drop_app_length.
  apply (pipe_moves (user_wrote u) _ (given sid u) _ (taken u) _ (user_got u) _ _ _ rid);
    [done|done|..].
  - by rewrite <- Ew, <- Eg.
  - by rewrite <- Eb, <- Er.
Qed.

(** C39. What the user writes. The connections of the session are given a prefix of it; and
    while the task still takes chunks, nothing of the rest is lost: it is the end of the chunk that is
    being sent, and then what the channel holds. *)
Theorem user_uplink config front sid key ls u :
  keys_agree front config key → run (user_step front sid) (user_init config) ls = Some u →
  ∃ rest, user_wrote u = given sid u ++ rest ∧
    (req_rx_open (en_req (us_ends u)) = true →
     ∃ part, part `suffix_of` sending (nt_client (us_net u)) ∧
       rest = part ++ concat (req_queue (en_req (us_ends u)))).
Proof. intros Hk Hrun. by eapply up_in_pipe, user_run_wf. Qed.

(** * What the user reads *)

(** What the responses brought, by the connection it was read from. *)
Definition pieces net : list (nat * bytes) :=
  omap (λ dn, aid ← source (nt_server net) (dn_rid dn); Some (aid, dn_got dn)) (downloads net).
Definition pieces_of (aid : nat) net : bytes :=
  concat (filter (λ p, p.1 = aid) (pieces net)).*2.

Lemma pieces_of_got net aid : pieces_of aid net = got_from (nt_server net) aid (downloads net).
Proof.
  unfold pieces_of, pieces, got_from. induction (downloads net) as [|dn l IH]; [done|]. simpl.
  unfold part at 1. destruct (source _ _) as [k|] eqn:E; simpl.
  - rewrite filter_cons. simpl. destruct (decide (k = aid)) as [->|Hne].
    + rewrite decide_True by done. simpl. by f_equal.
    + rewrite decide_False by congruence. exact IH.
  - exact IH.
Qed.

Lemma pieces_all config front sid net :
  net_ok config front sid net → concat (pieces net).*2 = concat (dn_got <$> downloads net).
Proof.
  intros Hok. unfold pieces. assert (Hn := λ dn, download_none config front sid net dn Hok).
  induction (downloads net) as [|dn l IH]; [done|]. simpl.
  assert (IH' := IH (λ d Hin, Hn d (list_elem_of_further _ _ _ Hin))).
  destruct (source _ _) as [k|] eqn:E; simpl; [by f_equal|].
  rewrite (Hn dn (list_elem_of_here _ _) E). exact IH'.
Qed.

Lemma pieces_of_none net aid : (∀ b, (aid, b) ∉ pieces net) → pieces_of aid net = [].
Proof.
  unfold pieces_of. induction (pieces net) as [|[k b] l IH]; intros Hno; [done|].
  rewrite filter_cons. simpl. rewrite decide_False.
  - apply IH. intros c Hc. by eapply Hno, list_elem_of_further.
  - intros ->. by eapply Hno, list_elem_of_here.
Qed.

Lemma downlink config front sid key u :
  keys_agree front config key → user_wf (config := config) (front := front) (sid := sid) u →
  (∃ rest, concat (pieces (us_net u)).*2 = user_got u ++ rest ∧
     (en_aborted (us_ends u) = false →
      rest = oks (resp_items (en_resp (us_ends u))) ++
        (if en_fed (us_ends u) then [] else unsent (nt_client (us_net u))))) ∧
  (∀ aid b, (aid, b) ∈ pieces (us_net u) → serves sid (nt_server (us_net u)) aid) ∧
  ∀ aid, pieces_of aid (us_net u) `prefix_of` bytes_read aid (nt_server (us_net u)).
Proof.
  intros Hk Hu. pose proof (user_net_ok Hk _ Hu) as Hok.
  assert (Hserves : ∀ aid b, (aid, b) ∈ pieces (us_net u) → serves sid (nt_server (us_net u)) aid).
  { intros aid b (dn & Hin & Hx)%list_elem_of_omap. apply bind_Some in Hx as (k & Hsrc & [= <- <-]).
    by eapply download_source. }
  split; [|split; [done|]].
  - destruct (down_in_pipe Hk _ Hu) as (rest & E & Hrest). exists rest.
    by rewrite (pieces_all _ _ _ _ Hok).
  - intros aid. assert (Hd : serves sid (nt_server (us_net u)) aid ∨ ¬ serves sid (nt_server (us_net u)) aid).
    { unfold serves. destruct (sys_actors (nt_server (us_net u)) !! aid) as [a|]; [|right; by intros (a & ? & _)].
      destruct (decide (arg_session_id (ac_args a) = sid)); [left; eauto|right]. intros (b & ? & ?). congruence. }
    destruct Hd as [Hsv|Hsv].
    + rewrite pieces_of_got. by eapply got_prefix.
    + rewrite pieces_of_none; [apply prefix_nil|]. intros b Hin. apply Hsv. by eapply Hserves.
Qed.

(** C18. What the user reads. It is a prefix of pieces that the responses brought one after the
    other; each piece was read from a connection of the user's session, and the pieces from each
    connection are, in order, a prefix of what that connection sent. What has not been read yet is
    in the channel, or is the frame the task is about to hand over. *)
Theorem user_downlink config front sid key ls u :
  keys_agree front config key → run (user_step front sid) (user_init config) ls = Some u →
  (∃ rest, concat (pieces (us_net u)).*2 = user_got u ++ rest ∧
     (en_aborted (us_ends u) = false →
      rest = oks (resp_items (en_resp (us_ends u))) ++
        (if en_fed (us_ends u) then [] else unsent (nt_client (us_net u))))) ∧
  (∀ aid b, (aid, b) ∈ pieces (us_net u) → serves sid (nt_server (us_net u)) aid) ∧
  ∀ aid, pieces_of aid (us_net u) `prefix_of` bytes_read aid (nt_server (us_net u)).
Proof. intros Hk Hrun. by eapply downlink, user_run_wf. Qed.

(** * The end of the stream *)

(** A read with room in its buffer returned no bytes; a read returned an error. *)
Definition eof_seen (log : list OpEvent) : Prop :=
  ∃ cap, 0 < cap ∧ DidRead cap (Returns (Ready (Ok []))) ∈ log.
Definition error_seen (log : list OpEvent) : Prop := ∃ e, Err e ∈ read_items log.

Section Eof.
Context {config : Config} {front : DomainFronting} {sid : Uuid}.
Abbreviation user_wf := (user_wf (config := config) (front := front) (sid := sid)).

(** The reading pump only returns [Ok] after a failed body, or without a reader. *)
Lemma in_done_error ls t :
  run (io_step front sid) start_proxy ls = Some t → IoSent false ∉ ls →
  io_in t = InDone (Ok tt) → ∃ e, Err e ∈ io_items t.
Proof.
  revert ls t. apply (run_ind_r (io_step front sid) (λ ls t, IoSent false ∉ ls →
    io_in t = InDone (Ok tt) → ∃ e, Err e ∈ io_items t)); [done|].
  intros ls t l t' _ IH Hs%io_step_trans. rewrite elem_of_app, list_elem_of_singleton. intros Hno.
  assert (Hno' : IoSent false ∉ ls ∧ l ≠ IoSent false) by naive_solver. destruct Hno' as [Hls Hl].
  specialize (IH Hls).
  inversion Hs as [chunk path first Eo|res r Eo|path Ei|res r Ei|frame Ei|acc item Ei|res Ec]; subst; simpl; auto.
  - unfold in_start. by destruct (create_read_request _ _ _).
  - unfold in_response. by destruct res; [destruct (is_success _)|].
  - unfold in_frame. by destruct frame as [[[[|]|]|]|].
  - destruct acc; [|done]. unfold in_sent. destruct item as [d|e]; [done|]. intros _. exists e. set_solver.
Qed.

Lemma io_failed t e : io_in t = InDone (Err e) → ∃ e', io_result t = Ready (Err e').
Proof.
  intros Hi. unfold io_result, pump_result. rewrite Hi. simpl. rewrite try_join_err_l.
  destruct (io_conn t) as [|[[]|e']].
  - rewrite try_join_err_r by done. eauto.
  - rewrite try_join_err_r by done. eauto.
  - rewrite try_join_err_l. eauto.
Qed.

(** Why the reader finds the end of its channel. *)
Lemma eof_cause u :
  user_wf u → en_aborted (us_ends u) = false → resp_items (en_resp (us_ends u)) = [] →
  resp_tx_open (en_resp (us_ends u)) = false →
  error_seen (en_log (us_ends u)) ∨ ∃ e, io_result (nt_client (us_net u)) = Ready (Err e).
Proof.
  intros Hu Hab Hempty Htx. destruct (uw_resp _ Hu Hab) as [_ Ht]. rewrite Htx in Ht.
  set (t := nt_client (us_net u)) in *. destruct (uw_net _ Hu) as [ns Hns].
  assert (Hio : run (io_step front sid) start_proxy (nt_io (us_net u)) = Some t).
  { eapply bw_io, (run_invariant (net_step front sid) (base_wf config front sid)); [|apply base_wf_init|exact Hns].
    intros n l n' Hb Hs%net_step_trans. by eapply base_wf_trans. }
  assert (Hbody : io_in t = InDone (Ok tt) → error_seen (en_log (us_ends u))).
  { intros Hi. destruct (in_done_error _ _ Hio (uw_sent _ Hu) Hi) as [e He].
    destruct (uw_items _ Hu) as (rest & Ei & Hrest). rewrite (Hrest Hab), Hempty, app_nil_r in Ei.
    exists (io_other e). rewrite <- Ei. apply elem_of_flat. exists (Err (io_other e)).
    split; [|by apply list_elem_of_here].
    apply list_elem_of_fmap. exists (Err e). split; [done|]. apply elem_of_app. by left. }
  destruct (io_result t) as [|[[]|e]] eqn:Er; [| |by eauto].
  - unfold ended in Ht. rewrite Er in Ht. destruct (io_in t) as [| | | |[[]|e]] eqn:Ei; try done; [by auto|].
    destruct (io_failed _ _ Ei) as [e' E']. congruence.
  - unfold io_result in Er. destruct (try_join (io_conn t) (pump_result t)) as [|[p|e]] eqn:Ej; simplify_eq.
    apply try_join_ok_inv in Ej as (c & q & _ & Hpump). apply try_join_ok_inv in Hpump as (i & o & Hin & _).
    destruct (io_in t) as [| | | |[[]|]]; simplify_eq/=. auto.
Qed.

(** An operation that is polled adds one event; only a read can find the end. *)
Lemma op_end_eof u op :
  user_wf u → en_op (us_ends u) = Some op →
  eof_seen (en_log (op_end op (us_ends u))) → eof_seen (en_log (us_ends u)) ∨
  resp_items (en_resp (us_ends u)) = [] ∧ resp_tx_open (en_resp (us_ends u)) = false.
Proof.
  intros Hu Hop (cap & Hcap & Hin).
  assert (Hold : ∀ e, en_log (op_end op (us_ends u)) = en_log (us_ends u) ++ [e] →
            e ≠ DidRead cap (Returns (Ready (Ok []))) → eof_seen (en_log (us_ends u))).
  { intros e E Hne. rewrite E, elem_of_app, list_elem_of_singleton in Hin.
    exists cap. split; [done|]. destruct Hin; congruence. }
  destruct op as [k|buf|bufs| |]; unfold op_end in *.
  2-5: left; match goal with Hx : context [let (_, _) := ?x in _] |- _ => destruct x end; by eapply Hold.
  destruct (reader_poll_read k _) as [p c] eqn:E. simpl in *.
  rewrite elem_of_app, list_elem_of_singleton in Hin. destruct Hin as [Hin|Hin]; [left; by exists cap|].
  right. injection Hin as -> Hp. destruct p as [|[d|]]; simplify_eq/=.
  apply read_ok in E as (_ & _ & Hd). destruct (Hd eq_refl) as [->|?]; [lia|done].
Qed.

Definition eof_ok u : Prop :=
  eof_seen (en_log (us_ends u)) →
  error_seen (en_log (us_ends u)) ∨ ∃ e, io_result (nt_client (us_net u)) = Ready (Err e).

Lemma error_mono log es : error_seen log → error_seen (log ++ es).
Proof.
  intros [e He]. exists e. unfold read_items in *. rewrite fmap_app, concat_app, elem_of_app. by left.
Qed.

Lemma eof_trans u u' :
  user_wf u → user_trans (front := front) (sid := sid) u u' → eof_ok u → eof_ok u'.
Proof.
  intros Hu Ht Hok. destruct (log_grows _ _ Ht) as [es Elog].
  assert (Hkeep : (∀ e, io_result (nt_client (us_net u)) = Ready (Err e) →
                     io_result (nt_client (us_net u')) = Ready (Err e)) →
            eof_seen (en_log (us_ends u)) →
            error_seen (en_log (us_ends u')) ∨ ∃ e, io_result (nt_client (us_net u')) = Ready (Err e)).
  { intros Hres [Herr|[e He]]%Hok; [|by eauto]. rewrite Elog. eauto using error_mono. }
  unfold eof_ok. destruct Ht as [l net ? Ec|l li net en ? Hs|item c|op|op Hop|]; simpl in *.
  - apply Hkeep. by rewrite Ec.
  - destruct (settle_ends (nt_client net) en) as (_ & _ & _ & El). rewrite El in *.
    destruct (chan_step_ends _ _ _ ltac:(eassumption)) as (_ & _ & El' & _). rewrite El' in *.
    apply Hkeep. intros e He. apply task_running in Hs. congruence.
  - apply Hkeep. congruence.
  - intros (cap & Hcap & Hin). apply Hkeep; [done|]. exists cap. split; [done|].
    unfold op_begin in Hin. rewrite checked_cases in Hin.
    destruct (pc_taken _); [|destruct (io_result _) as [|[[]|]]]; simpl in Hin; try done.
    all: apply elem_of_app in Hin as [Hin|Hin%list_elem_of_singleton]; [done|]; by destruct op.
  - intros [Hold|[Hempty Htx]]%op_end_eof; [by apply Hkeep| |done..].
    destruct (eof_cause _ Hu (uw_op _ Hu _ Hop) Hempty Htx); [|by auto]. rewrite Elog. eauto using error_mono.
  - apply Hkeep. done.
Qed.
End Eof.

Lemma eof_run config front sid ls u :
  run (user_step front sid) (user_init config) ls = Some u → eof_seen (en_log (us_ends u)) →
  error_seen (en_log (us_ends u)) ∨ ∃ e, io_result (nt_client (us_net u)) = Ready (Err e).
Proof.
  intros Hrun. enough (Hx : user_wf (config := config) (front := front) (sid := sid) u ∧
    eof_ok u) by apply Hx.
  revert Hrun. apply (run_invariant (user_step front sid) (λ u, user_wf (config := config) (front := front) (sid := sid) u ∧
    eof_ok u)).
  - intros u0 l u1 [Hu Hok] Hs%user_step_trans. split; [by eapply user_wf_trans|].
    by eapply eof_trans.
  - split; [apply user_wf_init|]. intros (cap & _ & Hin). by apply not_elem_of_nil in Hin.
Qed.

(** The end of the stream is not passed on. A read of the user returns no bytes, which
    is how an [AsyncRead] says that its stream has ended, only if an earlier read returned
    an error, or if the background task has failed. That the upstream has closed its connection
    is never reported: the client asks for the next response instead. So a loop that
    reads to the end, as the [read_to_end] of [domain_fronting] does, cannot succeed while the task
    has not failed. *)
Theorem no_clean_eof config front sid ls u :
  run (user_step front sid) (user_init config) ls = Some u → eof_seen (en_log (us_ends u)) →
  error_seen (en_log (us_ends u)) ∨ ∃ e, io_result (nt_client (us_net u)) = Ready (Err e).
Proof. apply eof_run. Qed.
End PipeProps.

(** * The theorems at work *)

Import ConcreteChannels.

(** Poll an operation, with nothing in between. *)
Definition poll (op : Operation) : list user_label := [UBegin op; UEnd].

(** The user writes a chunk, which goes all the way up; what comes back is read in two parts,
    the second of them while another chunk is on its way. *)
Definition demo_dialog : list user_label :=
  poll (OpWrite hi) ++
  (UNet <$> [NClient (IoRecv (Some hi) 1%N); NPost; NServer (LStart 1); NServer (LConnected 1 (Ok ()));
    NBody 2; NServer (LDeliver 1 0); NServer (LWritten 1 WriteOk true); NServer (LResume 0);
    NBodyEnd; NPostDone; NClient (IoGet 2%N); NGet; NServer (LResume 5); NServer (LDeliver 1 1);
    NServer (LResume 5); NHead; NPoll (Ready (Ok there)) true; NFrame 5]) ++
  [UFeed] ++ poll (OpRead 3) ++ poll (OpWriteVectored [hi; there]) ++
  [UNet (NClient (IoRecv (Some (hi ++ there)) 3%N))] ++ poll (OpRead 100) ++
  [UNet (NClient (IoSent true))] ++ poll (OpWrite hi).
Definition demo_user : UserNet :=
  final (user_step demo_front demo_sid) (user_init demo_config) demo_dialog.

Lemma demo_user_run :
  run (user_step demo_front demo_sid) (user_init demo_config) demo_dialog = Some demo_user.
Proof. unfold demo_user. apply run_final. by_vm. Qed.

Definition demo_last : UserNet :=
  final (user_step demo_front demo_sid) (user_init demo_config) (demo_dialog ++ [UNet NPost]).

Lemma demo_last_step : user_step demo_front demo_sid demo_user (UNet NPost) = Some demo_last.
Proof.
  exact (final_step (user_step demo_front demo_sid) (user_init demo_config) demo_dialog (UNet NPost) ltac:(by_vm)).
Qed.

Lemma pipe_refinement_witness :
  pipe_of demo_sid demo_user = mkPipe (hi ++ there ++ hi) [] ∧
  ∃ evs, run pipe_step (pipe_of demo_sid demo_user) evs = Some (pipe_of demo_sid demo_last) ∧
    observed demo_sid demo_user evs demo_last.
Proof.
  split; [by_vm|].
  destruct (pipe_refinement demo_config demo_front demo_sid _ demo_keys) as [_ Hs].
  exact (Hs demo_dialog demo_user (UNet NPost) demo_last demo_user_run demo_last_step).
Defined.

Lemma user_uplink_witness :
  given demo_sid demo_user = hi ∧ sending (nt_client (us_net demo_user)) = hi ++ there ∧
  req_queue (en_req (us_ends demo_user)) = [hi] ∧
  ∃ rest, user_wrote demo_user = given demo_sid demo_user ++ rest.
Proof.
  split; [by_vm|]. split; [by_vm|]. split; [by_vm|].
  destruct (user_uplink demo_config demo_front demo_sid _ demo_dialog demo_user demo_keys demo_user_run)
    as (rest & E & _). exists rest. exact E.
Defined.

Lemma user_downlink_witness :
  user_got demo_user = there ∧ pieces (us_net demo_user) = [(1, there)] ∧
  pieces_of 1 (us_net demo_user) `prefix_of` bytes_read 1 (nt_server (us_net demo_user)).
Proof.
  split; [by_vm|]. split; [by_vm|].
  apply (user_downlink demo_config demo_front demo_sid _ demo_dialog demo_user demo_keys demo_user_run).
Defined.

(** A response body that fails: the user is told, and then the stream ends. *)
Definition demo_broken_body : list user_label :=
  (UNet <$> [NClient (IoGet 1%N); NGet; NServer (LStart 1); NServer (LConnected 1 (Ok ()));
    NServer (LResume 0); NServer (LDeliver 1 0); NServer (LResume 0); NHead; NBreak "reset"%string]) ++
  [UFeed] ++ poll (OpRead 10) ++ [UNet (NClient (IoSent true))] ++ poll (OpRead 10).
Definition demo_broken : UserNet :=
  final (user_step demo_front demo_sid) (user_init demo_config) demo_broken_body.

Lemma no_clean_eof_witness :
  en_log (us_ends demo_broken) =
    [DidRead 10 (Returns (Ready (Err (IoHalf (mkIoError OtherKind "reset")))));
     DidRead 10 (Returns (Ready (Ok [])))] ∧
  (error_seen (en_log (us_ends demo_broken)) ∨
   ∃ e, io_result (nt_client (us_net demo_broken)) = Ready (Err e)).
Proof.
  split; [by_vm|].
  apply (no_clean_eof demo_config demo_front demo_sid demo_broken_body demo_broken).
  - exact (run_final (user_step demo_front demo_sid) (user_init demo_config) demo_broken_body ltac:(by_vm)).
  - exists 10. split; [lia|]. apply list_elem_of_lookup. exists 1. by_vm.
Defined.

(** A write of no bytes is not the no-op that it is for other streams: the [SinkWriter] puts an
    empty chunk into the channel, the client sends an empty request for it, the server answers
    [400 Bad Request] ("Empty body"), and the task ends with an error. *)
Definition demo_empty_write : list user_label :=
  poll (OpWrite []) ++ (UNet <$> [NClient (IoRecv (Some []) 1%N); NPost; NBodyEnd; NPostDone]) ++
  [UBegin (OpWrite hi)].
Definition demo_empty : UserNet :=
  final (user_step demo_front demo_sid) (user_init demo_config) demo_empty_write.

Lemma empty_write_fatal :
  run (user_step demo_front demo_sid) (user_init demo_config) demo_empty_write
    = Some demo_empty ∧
  en_log (us_ends demo_empty) =
    [DidWrite [] (Returns (Ready (Ok 0)));
     DidWrite hi (Returns (Ready (Err (IoOther (HttpStatusCode BAD_REQUEST)))))] ∧
  given demo_sid demo_empty = [].
Proof.
  split; [|split; by_vm].
  exact (run_final (user_step demo_front demo_sid) (user_init demo_config) demo_empty_write ltac:(by_vm)).
Qed.
