(* ===== verification/Fetch.v ===== *)
(** The end of the program [domain_fronting]: [src/src/bin/domain_fronting.rs] writes one request
    to its connection with [write_all], and reads the response with [read_to_end].

    Both are loops over the operations of the connection; here they are one state machine,
    which is driven by what the operations come to. *)
From S2P Require Import Prelude Ext DomainFronting Stats State Session Server ServerSteps.
From S2P Require Import Scenario Client ClientProps Adaptors Connection.
From S2P Require Import Tunnel TunnelProps User UserInv Pipe PipeProps.

Section Fetch.
Context `{UuidLib, HttpLib, TryMutex, FuturesLib, RequestChannel, ResponseChannel, !HyperDisplay}.

(** Why the program ends without a response. *)
Inductive FetchError : Type := WriteZero | Io (e : ConnError) | Panicked (msg : string).

(** In [write_all], with what is left to write; in [read_to_end]; returned. *)
Inductive Fetch : Type :=
| Sending (rest : bytes)
| Reading (response : bytes)
| Fetched (response : bytes)
| Failed (e : FetchError).

(** [write_all] returns once nothing is left. *)
Definition writing (rest : bytes) : Fetch :=
  match rest with [] => Reading [] | _ => Sending rest end.

Definition fetch_wrote (rest : bytes) (o : Outcome nat) : Fetch :=
  match o with
  | Returns Pending => Sending rest
  | Returns (Ready (Ok 0)) => Failed WriteZero
  | Returns (Ready (Ok n)) => writing (skipn n rest)
  | Returns (Ready (Err e)) => Failed (Io e)
  | Panics msg => Failed (Panicked msg)
  end.
Definition fetch_read (response : bytes) (o : Outcome bytes) : Fetch :=
  match o with
  | Returns Pending => Reading response
  | Returns (Ready (Ok [])) => Fetched response
  | Returns (Ready (Ok d)) => Reading (response ++ d)
  | Returns (Ready (Err e)) => Failed (Io e)
  | Panics msg => Failed (Panicked msg)
  end.

(** An operation of the program was polled; [None] if it is not one that the program polls. *)
Definition fetch_step (st : Fetch) (e : OpEvent) : option Fetch :=
  match st, e with
  | Sending rest, DidWrite buf o => guard (buf = rest);; Some (fetch_wrote rest o)
  | Reading response, DidRead cap o => guard (0 < cap);; Some (fetch_read response o)
  | _, _ => None
  end.

(** * What the program has done *)

(** A write that succeeds takes the whole buffer. *)
Definition whole (log : list OpEvent) : Prop :=
  ∀ buf n, DidWrite buf (Returns (Ready (Ok n))) ∈ log → n = length buf.

Definition fetch_ok (request : bytes) (log : list OpEvent) (st : Fetch) : Prop :=
  match st with
  | Sending rest => concat (written_by log) ++ rest = request ∧ read_items log = []
  | Reading response => concat (written_by log) = request ∧ read_items log = Ok <$> response
  | Fetched response =>
      concat (written_by log) = request ∧ read_items log = Ok <$> response ∧ eof_seen log
  | Failed _ => True
  end.

Lemma written_event log e : written_by (log ++ [e]) = written_by log ++ written_by [e].
Proof. apply omap_app. Qed.

Lemma read_event_snoc log e : read_items (log ++ [e]) = read_items log ++ read_event e.
Proof. unfold read_items. rewrite fmap_app, concat_app. simpl. by rewrite app_nil_r. Qed.

Lemma writing_ok request log rest :
  concat (written_by log) ++ rest = request → read_items log = [] → fetch_ok request log (writing rest).
Proof. intros Ew Er. destruct rest; [by rewrite app_nil_r in Ew|done]. Qed.

Lemma fetch_wrote_ok request log rest o :
  whole (log ++ [DidWrite rest o]) → fetch_ok request log (Sending rest) →
  fetch_ok request (log ++ [DidWrite rest o]) (fetch_wrote rest o).
Proof.
  intros Hw [Ew Er].
  assert (Er' : read_items (log ++ [DidWrite rest o]) = [])
    by (by rewrite read_event_snoc, Er; destruct o as [[|[]]|]).
  destruct o as [[|[n|e]]|msg]; simpl; try done.
  - split; [by rewrite written_event; simpl; rewrite app_nil_r|done].
  - destruct n as [|n]; [done|]. apply writing_ok; [|done].
    assert (En : S n = length rest) by (apply (Hw rest); apply elem_of_app; right; by apply list_elem_of_singleton).
    rewrite En, drop_all, written_event, concat_app. simpl. by rewrite !app_nil_r.
Qed.

Lemma fetch_read_ok request log response cap o :
  0 < cap → fetch_ok request log (Reading response) →
  fetch_ok request (log ++ [DidRead cap o]) (fetch_read response o).
Proof.
  intros Hcap [Ew Er].
  assert (Ew' : concat (written_by (log ++ [DidRead cap o])) = request)
    by (by rewrite written_event; simpl; rewrite app_nil_r).
  pose proof (read_event_snoc log (DidRead cap o)) as Er'. rewrite Er in Er'.
  destruct o as [[|[[|b d]|e]]|msg]; simpl in *; try done.
  - split; [done|]. by rewrite Er', app_nil_r.
  - split; [done|]. split; [by rewrite Er', app_nil_r|]. exists cap. split; [done|].
    apply elem_of_app. right. by apply list_elem_of_singleton.
  - split; [done|]. by rewrite Er', fmap_app.
Qed.

Lemma fetch_run_ok request log st :
  whole log → run fetch_step (writing request) log = Some st → fetch_ok request log st.
Proof.
  intros Hw Hrun. revert log st Hrun Hw.
  apply (run_ind_r fetch_step (λ log st, whole log → fetch_ok request log st)).
  { intros _. by apply writing_ok. }
  intros log st e st' _ IH Hs Hw.
  assert (Hok : fetch_ok request log st) by (apply IH; intros buf n Hin; apply Hw, elem_of_app; by left).
  destruct st as [rest|response| |], e as [cap o|buf o| |]; try done; simpl in Hs; unbind Hs; simplify_eq.
  - by apply fetch_wrote_ok.
  - by apply fetch_read_ok.
Qed.

(** * The program and its connection *)

Context `{!UuidLaws, !HttpLaws, !TryMutexLaws, !FuturesLaws}.
Context `{!RequestChannelLaws, !ResponseChannelLaws}.
Implicit Types (u : UserNet).

Lemma whole_snoc log e :
  whole log → (∀ buf n, e = DidWrite buf (Returns (Ready (Ok n))) → n = length buf) → whole (log ++ [e]).
Proof. intros Hw He buf n [Hin|Hin%list_elem_of_singleton]%elem_of_app; eauto. Qed.

Lemma whole_end op en : whole (en_log en) → whole (en_log (op_end op en)).
Proof.
  intros Hw.
  assert (Hwrite : ∀ buf p c, sink_poll_write buf (en_req en) = (p, c) → whole (en_log en ++ [DidWrite buf (half p)])).
  { intros buf p c E. apply whole_snoc; [done|]. intros buf' n [= -> Hp]. destruct p as [|[k|]]; simplify_eq/=.
    by apply write_ok in E as [? _]. }
  destruct op; unfold op_end; simpl.
  - destruct (reader_poll_read _ _). by apply whole_snoc.
  - destruct (sink_poll_write _ _) eqn:E. by eapply Hwrite.
  - destruct (sink_poll_write _ _) eqn:E. by eapply Hwrite.
  - destruct (sink_poll_flush _). by apply whole_snoc.
  - destruct (sink_poll_shutdown _). by apply whole_snoc.
Qed.

Lemma whole_run config front sid ls u :
  run (user_step front sid) (user_init config) ls = Some u → whole (en_log (us_ends u)).
Proof.
  apply (run_invariant (user_step front sid) (λ u, whole (en_log (us_ends u)))).
  - intros u0 l u1 Hw Ht%user_step_trans. destruct Ht as [l' net|l' li net en ? ? ? ? Hc|item c|op|op|]; simpl; try done.
    + destruct (settle_ends (nt_client net) en) as (_ & _ & _ & ->).
      by destruct (chan_step_ends _ _ _ Hc) as (_ & _ & -> & _).
    + unfold op_begin. rewrite checked_cases.
      destruct (pc_taken _); [|destruct (io_result _) as [|[[]|]]]; simpl; try done.
      all: apply whole_snoc; [done|]; by destruct op.
    + by apply whole_end.
  - intros buf n Hin. by apply not_elem_of_nil in Hin.
Qed.

(** C19. The program [domain_fronting] as a user of its connection. When it gets to read, it has written
    exactly its request, and what it has collected so far is what it got through the pipe. It
    returns a response only if by then the background task of its connection has failed, so
    a response that ended properly is never printed: the connection does not pass on the end of
    the upstream's data, and [read_to_end] waits for it. *)
Theorem fetch_needs_failure config front sid ls u request st :
  run (user_step front sid) (user_init config) ls = Some u →
  run fetch_step (writing request) (en_log (us_ends u)) = Some st →
  (∀ rest, st = Sending rest → user_wrote u ++ rest = request ∧ user_got u = []) ∧
  (∀ response, st = Reading response → user_wrote u = request ∧ user_got u = response) ∧
  (∀ response, st = Fetched response → user_wrote u = request ∧ user_got u = response ∧
     ∃ e, io_result (nt_client (us_net u)) = Ready (Err e)).
Proof.
  intros Hrun Hst. pose proof (fetch_run_ok _ _ _ (whole_run _ _ _ _ _ Hrun) Hst) as Hok.
  unfold user_wrote, user_got, bytes_got. split; [|split].
  - intros rest ->. by destruct Hok as [? ->].
  - intros response ->. destruct Hok as [? ->]. by rewrite oks_bytes.
  - intros response ->. destruct Hok as (Ew & Er & Heof). rewrite Er, oks_bytes. split; [done|]. split; [done|].
    destruct (eof_run _ _ _ _ _ Hrun Heof) as [[e He]|Hf]; [|done].
    rewrite Er in He. by apply list_elem_of_fmap in He as (b & ? & _).
Qed.
End Fetch.

(** * The theorem at work *)

Import Concrete ConcreteChannels.

(** The request goes up, an answer comes back, and the connection to the front breaks while the
    program polls its next read: after [check_err!] has seen the task running. *)
Definition demo_fetch_run : list user_label :=
  poll (OpWrite hi) ++
  (UNet <$> [NClient (IoRecv (Some hi) 1%N); NPost; NServer (LStart 1); NServer (LConnected 1 (Ok ()));
    NBody 2; NServer (LDeliver 1 0); NServer (LWritten 1 WriteOk true); NServer (LResume 0);
    NBodyEnd; NPostDone; NClient (IoGet 2%N); NGet; NServer (LResume 5); NServer (LDeliver 1 1);
    NServer (LResume 5); NHead; NPoll (Ready (Ok there)) true; NFrame 5]) ++
  [UFeed] ++ poll (OpRead 32) ++
  [UNet (NClient (IoSent true)); UBegin (OpRead 32);
   UNet (NClient (IoConn (Err (Hyper "connection reset"%string)))); UEnd].
Definition demo_fetched : UserNet :=
  final (user_step demo_front demo_sid) (user_init demo_config) demo_fetch_run.

Lemma fetch_needs_failure_witness :
  run fetch_step (writing hi) (en_log (us_ends demo_fetched)) = Some (Fetched there) ∧
  user_wrote demo_fetched = hi ∧ user_got demo_fetched = there ∧
  ∃ e, io_result (nt_client (us_net demo_fetched)) = Ready (Err e).
Proof.
  assert (Hst : run fetch_step (writing hi) (en_log (us_ends demo_fetched)) = Some (Fetched there)) by by_vm.
  split; [exact Hst|].
  apply (fetch_needs_failure demo_config demo_front demo_sid demo_fetch_run demo_fetched hi (Fetched there)).
  - exact (run_final (user_step demo_front demo_sid) (user_init demo_config) demo_fetch_run ltac:(by_vm)).
  - exact Hst.
  - reflexivity.
Defined.
