(* ===== verification/Moves.v ===== *)
(** What the parts of the system can do next.

    The other files say what every step preserves. Here each lemma says that a certain step can be
    made, and where it leads: first for the server's side of a session, then for the client's
    task and the ends of the channels, and last for a chunk that goes all the way up. [Dialog]
    and [Drain] put schedules together from them. *)
From S2P Require Import Prelude Ext DomainFronting Stats State Session Server ServerSteps LogInv Invariant Scenario.
From S2P Require Import Client ClientProps Adaptors Connection Tunnel TunnelInv TunnelProps User UserInv Pipe.

Set Implicit Arguments.
Unset Strict Implicit.

Section Moves.
Context `{UuidLib, HttpLib, TryMutex, FuturesLib, RequestChannel, ResponseChannel, !HyperDisplay}.
Context `{!UuidLaws, !HttpLaws, !TryMutexLaws, !FuturesLaws}.
Context `{!RequestChannelLaws, !ResponseChannelLaws}.
Context {config : Config} {front : DomainFronting} {sid : Uuid} {key : HeaderName}.
Implicit Types (s : Sys) (net : Net) (t : IoTask) (en : Ends) (u : UserNet).

(** * The server's side *)

(** The session's actor runs, with this mailbox, write and lock. *)
Record serves_at s (aid : nat) (mail : list Msg) (busy : option (bytes * nat)) (lock : bool) : Prop := {
  sv_up : sys_server_up s = true;
  sv_config : sys_config s = config;
  sv_session : sys_sessions s !! sid = Some aid;
  sv_actor : ∃ a self, sys_actors s !! aid = Some a ∧ ac_status a = Running ∧ ac_session a = Some self ∧
    ac_kill a = false ∧ ac_stop a = false ∧ ac_mailbox a = mail ∧ ac_busy a = busy ∧ mutex_locked (upstream_read self) = lock;
}.
Definition req_at s (rid : nat) (pos : ReqPos) : Prop :=
  (∃ acked, sys_requests s !! rid = Some (mkReq pos acked)) ∧ rid < sys_next s.
Definition stream_at s (aid stid : nat) (pos : StreamPos) : Prop :=
  ∃ st, sys_streams s !! stid = Some st ∧ st_actor st = aid ∧ st_aborted st = false ∧ st_pos st = pos.

(** A step that concerns the request [rid] leaves the others alone. *)
Definition keeps s s' (rid : nat) : Prop :=
  (∀ k pos, k ≠ rid → req_at s k pos → req_at s' k pos) ∧
  ∀ aid stid pos, stream_at s aid stid pos → stream_at s' aid stid pos.

(** Steps that change one request and at most the actor. *)
Lemma keeps_intro s s' rid :
  sys_next s ≤ sys_next s' → sys_streams s' = sys_streams s →
  (∀ k, k ≠ rid → sys_requests s' !! k = sys_requests s !! k) → keeps s s' rid.
Proof.
  intros Hn Est Er. split.
  - intros k pos Hk [Hr Hlt]. split; [by rewrite Er|lia].
  - intros aid stid pos Hst. unfold stream_at. by rewrite Est.
Qed.

Ltac lookups :=
  simpl; rewrite ?lookup_alter_eq, ?lookup_insert_eq; simpl;
  repeat match goal with Hx : _ !! ?k = Some _ |- context [_ !! ?k] => rewrite Hx; simpl end;
  try done.
(** Only [rid] is changed. *)
Ltac by_keeps := apply keeps_intro; [simpl; lia|done|intros k Hk; simpl; by rewrite ?lookup_alter_ne, ?lookup_insert_ne].

Lemma sv_body s aid mail busy lock rid total d :
  serves_at s aid mail busy lock → req_at s rid (AtBody aid total) →
  ∃ s', step s (LBody rid (Some (Ok d))) = Some s' ∧
    serves_at s' aid (mail ++ [SessionWrite d rid]) busy lock ∧
    req_at s' rid (AtWrite aid (add64 total (blen d)) d None) ∧ keeps s s' rid.
Proof.
  intros [Hu Hc Hs (a & self & Ha & Hst & Hse & Hkill & Hstop & Hm & Hb & Hl)] [[acked Hr] Hlt].
  simpl. unfold write_request_next. rewrite Hr. simpl. eexists. split; [done|]. split; [|split].
  - split; [done|done|done|]. exists (push_msg (SessionWrite d rid) a), self. lookups.
    unfold push_msg, is_alive. rewrite Hst. simpl. by rewrite Hm.
  - split; [|done]. exists acked. lookups.
  - by_keeps.
Qed.

Lemma sv_body_end s aid mail busy lock rid total :
  serves_at s aid mail busy lock → req_at s rid (AtBody aid total) → total ≠ 0%Z →
  ∃ s', step s (LBody rid None) = Some s' ∧ serves_at s' aid mail busy lock ∧
    req_at s' rid (Responded write_response) ∧ keeps s s' rid.
Proof.
  intros [Hu Hc Hs Ha] [[acked Hr] Hlt] Ht.
  simpl. unfold write_request_next. rewrite Hr. simpl. rewrite (proj2 (Z.eqb_neq _ _) Ht).
  eexists. split; [done|]. split; [|split].
  - by split.
  - split; [|done]. exists acked. lookups.
  - by_keeps.
Qed.

Lemma sv_deliver_write s aid lock rid total d :
  serves_at s aid [SessionWrite d rid] None lock → req_at s rid (AtWrite aid total d None) →
  ∃ s', step s (LDeliver aid 0) = Some s' ∧ serves_at s' aid [] (Some (d, rid)) lock ∧
    req_at s' rid (AtWrite aid total d None) ∧ keeps s s' rid.
Proof.
  intros [Hu Hc Hs (a & self & Ha & Hst & Hse & Hkill & Hstop & Hm & Hb & Hl)] Hr.
  simpl. unfold deliver. rewrite Ha. simpl. rewrite guard_pass by done. rewrite Hst, Hse, Hb, Hstop, Hm. simpl.
  eexists. split; [done|]. split; [|split; [done|]].
  - split; [done|done|done|]. eexists _, self. simpl. rewrite lookup_insert_eq. split; [done|]. done.
  - by_keeps.
Qed.

Lemma sv_written s aid lock rid total d :
  serves_at s aid [] (Some (d, rid)) lock → req_at s rid (AtWrite aid total d None) →
  ∃ s', step s (LWritten aid WriteOk false) = Some s' ∧ serves_at s' aid [] None lock ∧
    req_at s' rid (AtWrite aid total d (Some ())) ∧ keeps s s' rid.
Proof.
  intros [Hu Hc Hs (a & self & Ha & Hst & Hse & Hkill & Hstop & Hm & Hb & Hl)] [[acked Hr] Hlt].
  simpl. unfold handle_written. rewrite Ha. simpl. rewrite guard_pass by done. rewrite Hb. simpl.
  eexists. split; [done|]. split; [|split].
  - split; [done|done|done|]. eexists _, self. simpl. rewrite lookup_insert_eq. split; [done|]. done.
  - split; [|done]. exists acked. lookups.
  - by_keeps.
Qed.

Lemma sv_acked s aid mail busy lock rid total d :
  serves_at s aid mail busy lock → req_at s rid (AtWrite aid total d (Some ())) →
  ∃ s', step s (LResume rid) = Some s' ∧ serves_at s' aid mail busy lock ∧
    req_at s' rid (AtBody aid total) ∧ keeps s s' rid.
Proof.
  intros [Hu Hc Hs Ha] [[acked Hr] Hlt]. simpl. unfold request_resumes. rewrite Hr. simpl.
  eexists. split; [done|]. split; [|split].
  - by split.
  - split; [|done]. exists (acked ++ [d]). lookups.
  - by_keeps.
Qed.

(** A request for the session arrives. *)
Lemma sv_request s aid mail busy lock head m :
  serves_at s aid mail busy lock → parse_method (head_method head) = Ok m →
  parse_session_id config head = Some sid →
  ∃ s', step s (LRequest head) = Some s' ∧ serves_at s' aid mail busy lock ∧
    req_at s' (sys_next s) (match m with Get => AtReadSend aid | _ => AtBody aid 0 end) ∧
    keeps s s' (sys_next s).
Proof.
  intros [Hu Hc Hs (a & self & Ha & Hst & Hse & Hrest)] Hm Hsid.
  simpl. unfold request_arrives. rewrite guard_pass by done.
  unfold handle_request, handle_request_inner. rewrite Hm. simpl. rewrite Hc, Hsid.
  unfold lookup_session. simpl. rewrite Hs. unfold actor_alive. simpl. rewrite Ha. unfold is_alive.
  rewrite Hst.
  eexists. split; [done|]. split; [|split].
  - split; simpl; try done. by exists a, self.
  - split; [|simpl; lia]. exists []. lookups.
  - by_keeps.
Qed.

Lemma sv_ask s aid mail busy lock rid :
  serves_at s aid mail busy lock → req_at s rid (AtReadSend aid) →
  ∃ s', step s (LResume rid) = Some s' ∧ serves_at s' aid (mail ++ [SessionRead rid]) busy lock ∧
    req_at s' rid (AtRead aid None) ∧ keeps s s' rid.
Proof.
  intros [Hu Hc Hs (a & self & Ha & Hst & Hse & Hkill & Hstop & Hm & Hb & Hl)] [[acked Hr] Hlt].
  simpl. unfold request_resumes. rewrite Hr. simpl. eexists. split; [done|]. split; [|split].
  - split; [done|done|done|]. exists (push_msg (SessionRead rid) a), self. lookups.
    unfold push_msg, is_alive. rewrite Hst. simpl. by rewrite Hm.
  - split; [|done]. exists acked. lookups.
  - by_keeps.
Qed.

(** The lock is free, so the request gets a stream. *)
Lemma sv_deliver_read s aid rid :
  serves_at s aid [SessionRead rid] None false → req_at s rid (AtRead aid None) →
  ∃ s' stid, step s (LDeliver aid 0) = Some s' ∧ serves_at s' aid [] None true ∧
    req_at s' rid (AtRead aid (Some (Some stid))) ∧ stream_at s' aid stid FirstRead.
Proof.
  intros [Hu Hc Hs (a & self & Ha & Hst & Hse & Hkill & Hstop & Hm & Hb & Hl)] [[acked Hr] Hlt].
  destruct (try_lock_free _ Hl) as (m & Htry & Hlock).
  simpl. unfold deliver. rewrite Ha. simpl. rewrite guard_pass by done. rewrite Hst, Hse, Hb, Hstop, Hm. simpl.
  unfold handle_read. rewrite Htry. eexists _, (sys_next s). split; [done|]. split; [|split].
  - split; [done|done|done|]. eexists _, _. simpl. rewrite lookup_insert_eq. split; [done|]. simpl.
    split_and!; done.
  - split; [|simpl; lia]. exists acked. lookups.
  - eexists. simpl. by rewrite lookup_insert_eq.
Qed.

Lemma sv_answered s aid mail busy lock rid stid :
  serves_at s aid mail busy lock → req_at s rid (AtRead aid (Some (Some stid))) →
  ∃ s', step s (LResume rid) = Some s' ∧ serves_at s' aid mail busy lock ∧
    req_at s' rid (Responded (read_response stid)) ∧ keeps s s' rid.
Proof.
  intros [Hu Hc Hs Ha] [[acked Hr] Hlt]. simpl. unfold request_resumes. rewrite Hr. simpl.
  eexists. split; [done|]. split; [|split].
  - by split.
  - split; [|done]. exists acked. lookups.
  - by_keeps.
Qed.

(** * The stream of a response *)

(** A chunk is there to be read: it is yielded at once. *)
Lemma sv_poll_data s aid mail busy lock stid spos d rid pos :
  serves_at s aid mail busy lock → stream_at s aid stid spos → spos = FirstRead ∨ spos = NextRead →
  chunk_ok d → req_at s rid pos →
  ∃ s', poll_next stid (Ready (Ok d)) true s = Some (Ready (Some d), s') ∧
    serves_at s' aid (mail ++ [SessionResetIdleTimeout]) busy lock ∧
    stream_at s' aid stid NextRead ∧ req_at s' rid pos.
Proof.
  intros [Hu Hc Hs (a & self & Ha & Hst & Hse & Hkill & Hstop & Hm & Hb & Hl)] (st & Hk & Hsa & Hab & Hp) Hor
    [Hd Hlen] Hr.
  destruct d as [|b d]; [done|]. unfold poll_next. rewrite Hk. cbn [mbind option_bind]. rewrite Hab, Hp.
  assert (E : (guard (blen (b :: d) ≤ READ_CAPACITY)%Z;;
      Some (tell_session stid st (b :: d) true (received stid st (b :: d) s))) =
    Some (Ready (Some (b :: d)), yielded stid st (b :: d) (received stid st (b :: d) s)))
    by (by rewrite guard_pass).
  eexists. split; [destruct Hor as [-> | ->]; exact E|]. split; [|split; [|done]].
  - split; [done|done|done|]. exists (push_msg SessionResetIdleTimeout a), self. simpl. rewrite Hsa. lookups.
    unfold push_msg, is_alive. rewrite Hst. simpl. by rewrite Hm.
  - eexists. simpl. by rewrite lookup_insert_eq.
Qed.

(** Nothing more to read: the response ends, and the lock is released. *)
Lemma sv_poll_end s aid mail busy lock stid rid pos :
  serves_at s aid mail busy lock → stream_at s aid stid NextRead → req_at s rid pos →
  ∃ s', poll_next stid Pending true s = Some (Ready None, s') ∧ serves_at s' aid mail busy false ∧ req_at s' rid pos.
Proof.
  intros [Hu Hc Hs (a & self & Ha & Hst & Hse & Hkill & Hstop & Hm & Hb & Hl)] (st & Hk & Hsa & Hab & Hp) Hr.
  unfold poll_next. rewrite Hk. simpl. rewrite Hab, Hp. eexists. split; [done|]. split; [|done].
  split; [done|done|done|]. eexists (unlock_reader a), _. simpl. rewrite Hsa. lookups.
  unfold unlock_reader. rewrite Hse. simpl. split_and!; try done. apply drop_guard_frees.
Qed.

Lemma sv_deliver_reset s aid lock rid pos stid spos :
  serves_at s aid [SessionResetIdleTimeout] None lock → req_at s rid pos → stream_at s aid stid spos →
  ∃ s', step s (LDeliver aid 0) = Some s' ∧ serves_at s' aid [] None lock ∧ req_at s' rid pos ∧
    stream_at s' aid stid spos.
Proof.
  intros [Hu Hc Hs (a & self & Ha & Hst & Hse & Hkill & Hstop & Hm & Hb & Hl)] [Hr Hlt] Hstr.
  simpl. unfold deliver. rewrite Ha. simpl. rewrite guard_pass by done. rewrite Hst, Hse, Hb, Hstop, Hm. simpl.
  eexists. split; [done|]. split; [|split; [split; [done|simpl; lia]|done]].
  split; [done|done|done|]. eexists _, _. simpl. rewrite lookup_insert_eq. split; [done|]. simpl.
  split_and!; done.
Qed.

(** The first request opens the session. *)
Lemma sv_first head :
  parse_method (head_method head) = Ok Get → parse_session_id config head = Some sid →
  ∃ s0 s1 s2, step (with_connector config) (LRequest head) = Some s0 ∧ step s0 (LStart 1) = Some s1 ∧
    step s1 (LConnected 1 (Ok ())) = Some s2 ∧ serves_at s2 1 [] None false ∧ req_at s2 0 (AtReadSend 1).
Proof.
  intros Hm Hsid. eexists _, _, _. simpl. unfold request_arrives. rewrite guard_pass by done.
  unfold handle_request, handle_request_inner. rewrite Hm. simpl. rewrite Hsid. unfold lookup_session. simpl.
  rewrite lookup_empty. simpl. split; [done|].
  unfold on_start. simpl. rewrite lookup_insert_eq. simpl. split; [done|].
  unfold on_start_connected. simpl. rewrite lookup_insert_eq. simpl. split; [done|]. split.
  - split; simpl; [done|done|by rewrite lookup_insert_eq|]. eexists _, _. rewrite lookup_insert_eq.
    split; [done|]. simpl. split_and!; try done. apply mutex_new_free.
  - split; [|simpl; lia]. exists []. lookups.
Qed.

(** * The client's task *)

Definition task_at t (i : Incoming) (o : Outgoing) : Prop :=
  io_conn t = Pending ∧ io_in t = i ∧ io_out t = o ∧ in_result i = Pending ∧ out_result o = Pending.

Lemma task_pending t i o : task_at t i o → io_result t = Pending.
Proof.
  intros (Hc & Hi & Ho & Ei & Eo). unfold io_result, pump_result.
  rewrite Hc, Hi, Ho, Ei, Eo, (try_join_wait_l (A := unit) Pending) by done. by rewrite try_join_wait_l.
Qed.

Lemma settle_running t i o en : task_at t i o → settle t en = en.
Proof.
  intros Ht. pose proof (task_pending Ht) as Hr. destruct Ht as (_ & Hi & Ho & Ei & Eo).
  unfold settle, ended. by rewrite Hr, Hi, Ho, Ei, Eo.
Qed.

(** What wakes the task, and where it waits next. *)
Inductive task_goes : Incoming → Outgoing → io_label → Incoming → Outgoing → Prop :=
| TG_recv i first d path r : create_write_request front sid d first path = Ok r →
    task_goes i (OutRecv first) (IoRecv (Some d) path) i (OutSend r)
| TG_ack i r : task_goes i (OutSend r) (IoAck (Ok NO_CONTENT)) i (OutRecv false)
| TG_get o path r : create_read_request front sid path = Ok r → task_goes InStart o (IoGet path) (InSend r) o
| TG_response o r : task_goes (InSend r) o (IoResponse (Ok OK_200)) InBody o
| TG_frame o d : d ≠ [] → task_goes InBody o (IoFrame (Some (Ok (DataFrame d)))) (InTx (Ok d)) o
| TG_end o : task_goes InBody o (IoFrame None) InStart o
| TG_sent o d : task_goes (InTx (Ok d)) o (IoSent true) InBody o.

Lemma task_step t i o l i' o' :
  task_at t i o → task_goes i o l i' o' → ∃ t', io_step front sid t l = Some t' ∧ task_at t' i' o'.
Proof.
  intros Ht Hg. pose proof (task_pending Ht) as Hr. destruct Ht as (Hc & Hi & Ho & Ei & Eo).
  unfold io_step. rewrite Hr. destruct Hg as [? first d path r Hreq|?|? path r Hreq| |? d Hd| |];
    rewrite ?Hi, ?Ho; (eexists; split; [done|]); unfold task_at; simpl; rewrite ?Hi, ?Ho.
  - unfold out_recv. by rewrite Hreq.
  - done.
  - unfold in_start. by rewrite Hreq.
  - done.
  - by destruct d.
  - done.
  - done.
Qed.

(** * The ends of the channels *)

(** The task and the reader are there, [tx] says whether the writer is, and the channels hold
    [q] and [items]. *)
Record ends_at (tx : bool) en (q : list bytes) (items : list (result io_error Byte.byte)) (fed : bool)
    (log : list OpEvent) : Prop := {
  ea_taken : en_taken en = false;
  ea_aborted : en_aborted en = false;
  ea_op : en_op en = None;
  ea_fed : en_fed en = fed;
  ea_log : en_log en = log;
  ea_queue : req_queue (en_req en) = q;
  ea_req : req_tx_open (en_req en) = tx ∧ req_rx_open (en_req en) = true;
  ea_items : resp_items (en_resp en) = items;
  ea_resp : resp_rx_open (en_resp en) = true;
}.

Abbreviation goes := (reaches (user_step front sid)).

Lemma by_net u l net :
  net_step front sid (us_net u) l = Some net → task_label l (us_net u) = None →
  user_step front sid u (UNet l) = Some (mkUser net (us_ends u)).
Proof. intros Hn Hl. simpl. unfold user_net. rewrite Hn. simpl. by rewrite Hl. Qed.

Lemma by_task u l li net en i o :
  net_step front sid (us_net u) l = Some net → task_label l (us_net u) = Some li →
  en_aborted (us_ends u) = false → chan_step li (us_ends u) = Some en → task_at (nt_client net) i o →
  user_step front sid u (UNet l) = Some (mkUser net en).
Proof.
  intros Hn Hl Ha Hc Ht. simpl. unfold user_net. rewrite Hn. simpl. rewrite Hl, guard_pass by done.
  rewrite Hc. simpl. by rewrite (settle_running _ Ht).
Qed.

(** An operation of a user whose task is running is polled. *)
Lemma by_poll tx u i o q items fed log op :
  task_at (nt_client (us_net u)) i o → ends_at tx (us_ends u) q items fed log →
  goes u (mkUser (us_net u) (op_end op (us_ends u))).
Proof.
  intros Ht He. exists [UBegin op; UEnd]. simpl. rewrite guard_pass; [|split; apply He]. simpl.
  destruct u as [net en]. simpl in *. destruct He as [Hta Hab Hop _ _ _ _ _ _].
  destruct en as [cq cr fd ta ab op' lg]. simpl in *. subst. unfold op_begin. rewrite checked_cases. simpl.
  rewrite (task_pending Ht). simpl. by destruct op.
Qed.

Lemma recv_ready c d q :
  req_queue c = d :: q → ∃ c', req_recv c = (Ready (Some d), c') ∧ req_queue c' = q ∧
    req_tx_open c' = req_tx_open c ∧ req_rx_open c' = req_rx_open c.
Proof.
  intros Hq. pose proof (recv_open c) as [Ht Hr]. destruct (req_recv c) as [[|[d'|]] c'] eqn:E; simpl in *.
  - apply recv_pending in E as [E _]. congruence.
  - exists c'. apply recv_some in E. rewrite Hq in E. by injection E as <- ->.
  - apply recv_none in E as [E _]. congruence.
Qed.

(** The user reads until the channel is empty. *)
Lemma read_all tx u i o q items fed log :
  task_at (nt_client (us_net u)) i o → ends_at tx (us_ends u) q items fed log →
  ∃ u' evs, goes u u' ∧ us_net u' = us_net u ∧ read_items evs = items ∧ written_by evs = [] ∧
    ends_at tx (us_ends u') q [] fed (log ++ evs).
Proof.
  intros Ht. revert u log Ht. induction items as [items IH] using (induction_ltof1 _ length).
  unfold ltof in IH.
  intros u log Ht He. destruct (decide (items = [])) as [->|Hne].
  { exists u, []. rewrite app_nil_r. split; [apply reaches_refl|done]. }
  pose proof (by_poll (OpRead 1) Ht He) as G. simpl in G.
  destruct He as [Hta Hab Hop Hfd Hlg Hq Hopen Hit Hrs]. set (en := us_ends u) in *.
  assert (Hread : ∃ p c rest, reader_poll_read 1 (en_resp en) = (p, c) ∧ resp_items c = rest ∧
    items = read_event (DidRead 1 (half p)) ++ rest ∧ read_event (DidRead 1 (half p)) ≠ []).
  { destruct (reader_poll_read 1 (en_resp en)) as [[|[d|e]] c] eqn:E.
    - apply read_pending in E as [E _]. congruence.
    - eexists _, c, (resp_items c). pose proof (read_ok _ _ _ _ E) as (_ & Ed & Hd). rewrite Hit in Ed, Hd.
      split; [done|]. split; [done|]. split; [done|]. simpl. destruct d; [|done].
      destruct (Hd eq_refl) as [?|[? _]]; done.
    - eexists _, c, (resp_items c). apply read_err in E. rewrite Hit in E. done. }
  destruct Hread as (p & c & rest & Hpoll & Er & El & Hnil).
  pose proof (read_open 1 (en_resp en)) as [_ Hro]. rewrite Hpoll in G, Hro. simpl in G, Hro.
  destruct (IH rest) with (u := mkUser (us_net u) (add_event (DidRead 1 (half p)) (set_resp c (set_op None en))))
    (log := log ++ [DidRead 1 (half p)]) as (u' & evs & G' & En & Er' & Ew' & He').
  - rewrite El, length_app. destruct (read_event _); [done|simpl; lia].
  - done.
  - split; simpl; try done; congruence.
  - exists u', (DidRead 1 (half p) :: evs). split; [by eapply reaches_trans|]. split; [done|].
    split; [|split; [exact Ew'|by rewrite <- app_assoc in He']].
    rewrite El, <- Er'. done.
Qed.

(** An item is handed over to an empty channel. *)
Lemma feed_ready tx u item o q log :
  task_at (nt_client (us_net u)) (InTx item) o → ends_at tx (us_ends u) q [] false log →
  ∃ u', goes u u' ∧ us_net u' = us_net u ∧ ends_at tx (us_ends u') q (item_bytes (io_item item)) true log.
Proof.
  intros Ht [Hta Hab Hop Hfd Hlg Hq Hopen Hit Hrs].
  destruct (send_ready (io_item item) _ Hit Hrs) as [c Hc]. pose proof (send_ok _ _ _ Hc) as (Eit & _ & Erx).
  eexists. split.
  - eapply (reaches_step _ _ UFeed). simpl. rewrite guard_pass by done. unfold feed_item.
    rewrite (task_pending Ht). destruct Ht as (_ & -> & _). rewrite Hfd. simpl. by rewrite Hc.
  - split; [done|]. split; simpl; try done; [by rewrite Eit, Hit|congruence].
Qed.

(** * A message goes up *)

Section Uploading.
(** What does not change meanwhile: the session's actor, the read request that waits for data with its
    stream (if that matters), the lock, and the reader's side of the task and of the channels. *)
Context (tx : bool) (aid : nat) (reader : option (nat * nat)) (lock : bool).
Context (i : Incoming) (items : list (result io_error Byte.byte)) (fed : bool).

Record uploading u (mail : list Msg) (busy : option (bytes * nat)) (post : option (Upload * ReqPos))
    (o : Outgoing) (q : list bytes) (log : list OpEvent) : Prop := {
  ul_server : serves_at (nt_server (us_net u)) aid mail busy lock;
  ul_reader : match reader with
              | None => True
              | Some (rid, stid) =>
                  nt_get (us_net u) = Some (mkDownload rid [] [] true false) ∧
                  req_at (nt_server (us_net u)) rid (Responded (read_response stid)) ∧
                  stream_at (nt_server (us_net u)) aid stid FirstRead ∧
                  ∀ up, nt_post (us_net u) = Some up → up_rid up ≠ rid
              end;
  ul_post : match post with
            | None => nt_post (us_net u) = None
            | Some (up, pos) => nt_post (us_net u) = Some up ∧ req_at (nt_server (us_net u)) (up_rid up) pos
            end;
  ul_task : task_at (nt_client (us_net u)) i o;
  ul_ends : ends_at tx (us_ends u) q items fed log;
}.

(** The server makes a step for the write request. *)
Lemma ul_serve u mail busy up pos o q log s' net' mail' busy' up' pos' :
  uploading u mail busy (Some (up, pos)) o q log →
  serves_at s' aid mail' busy' lock → req_at s' (up_rid up) pos' →
  keeps (nt_server (us_net u)) s' (up_rid up) → up_rid up' = up_rid up →
  nt_server net' = s' → nt_client net' = nt_client (us_net u) → nt_get net' = nt_get (us_net u) →
  nt_post net' = Some up' →
  uploading (mkUser net' (us_ends u)) mail' busy' (Some (up', pos')) o q log.
Proof.
  intros [Hsv Hrd [Hp Hrp] Ht He] Hsv' Hr' [Hk Hks] Eid Es Ec Eg Ep.
  split; simpl; rewrite ?Es, ?Ec, ?Eg, ?Ep, ?Eid; auto.
  destruct reader as [[rid stid]|]; [|done]. destruct Hrd as (Hg & Hr & Hst & Hne).
  assert (Hne' : up_rid up ≠ rid) by eauto.
  split; [done|]. split; [by apply Hk|]. split; [by apply Hks|]. intros x [= <-]. by rewrite Eid.
Qed.

Lemma ul_write u o log d :
  tx = true → uploading u [] None None o [] log →
  ∃ u', goes u u' ∧
    uploading u' [] None None o [d] (log ++ [DidWrite d (Returns (Ready (Ok (length d))))]).
Proof.
  intros Etx [Hsv Hrd Hp Ht He]. eexists. split; [exact (by_poll (OpWrite d) Ht He)|].
  destruct He as [Hta Hab Hop Hfd Hlg Hq [Htx Hrx] Hit Hrs]. simpl.
  pose proof (write_room d _ Hq (eq_trans Htx Etx) Hrx) as Hroom.
  pose proof (write_open d (en_req (us_ends u))) as [Ew1 Ew2].
  destruct (sink_poll_write d _) as [p c] eqn:E. simpl in *. subst p.
  apply write_ok in E as (_ & Eq & _). rewrite Hq in Eq. split; simpl; try done.
  split; simpl; try done; [by rewrite Hlg|]. by rewrite Ew1, Ew2.
Qed.

Lemma ul_recv u log d q first path r :
  uploading u [] None None (OutRecv first) (d :: q) log →
  create_write_request front sid d first path = Ok r →
  ∃ u', goes u u' ∧ uploading u' [] None None (OutSend r) q log.
Proof.
  intros [Hsv Hrd Hp Ht He] Hreq.
  destruct (task_step Ht (TG_recv _ Hreq)) as (t' & Hs & Ht').
  destruct He as [Hta Hab Hop Hfd Hlg Hq Hopen Hit Hrs].
  destruct (recv_ready Hq) as (c & Hrecv & Hqc & Etx & Erx).
  eexists. split.
  - eapply reaches_step, (by_task (l := NClient (IoRecv (Some d) path))).
    + simpl. unfold client. by rewrite Hs.
    + done.
    + done.
    + simpl. by rewrite Hrecv, decide_True.
    + exact Ht'.
  - split; simpl; try done. split; simpl; try done. by rewrite Etx, Erx.
Qed.

Context (keys : keys_agree front config key).

Lemma ul_request u q log d first path r :
  uploading u [] None None (OutSend r) q log → create_write_request front sid d first path = Ok r →
  ∃ u' k, goes u u' ∧ uploading u' [] None (Some (mkUpload k d, AtBody aid 0)) (OutSend r) q log.
Proof.
  intros [Hsv Hrd Hp Ht He] Hreq.
  destruct (write_request_session _ _ _ _ _ _ _ _ keys Hreq) as (Hsid & Hm & Hb).
  assert (Hm' : ∃ m, parse_method (head_method (req_head r)) = Ok m ∧ m ≠ Get)
    by (rewrite Hm; destruct first; simpl; eauto).
  destruct Hm' as (m & Hm' & Hne).
  destruct (sv_request Hsv Hm' Hsid) as (s' & Hs & Hsv' & Hr' & Hk & Hks).
  set (k := sys_next (nt_server (us_net u))) in *.
  pose proof Ht as (_ & _ & Ho & _).
  eexists _, k. split.
  - eapply reaches_step, (by_net (l := NPost)); [|done]. simpl. unfold net_post, serve. rewrite Ho, Hp, Hs.
    simpl. done.
  - split; simpl; try done.
    + destruct reader as [[rid stid]|]; [|done]. destruct Hrd as (Hg & Hr & Hst & _).
      assert (Hne' : k ≠ rid) by (destruct Hr as [_ Hlt]; unfold k; lia).
      split; [done|]. split; [by apply Hk|]. split; [by apply Hks|]. by intros up [= <-].
    + rewrite Hb. fold k. split; [done|]. by destruct m.
Qed.

(** The server's part of a write. *)
Lemma ul_body u k total d o q log :
  uploading u [] None (Some (mkUpload k d, AtBody aid total)) o q log →
  ∃ u', goes u u' ∧
    uploading u' [SessionWrite d k] None (Some (mkUpload k [], AtWrite aid (add64 total (blen d)) d None)) o q log.
Proof.
  intros Hu. pose proof Hu as [Hsv _ (Hp & Hr) _ _].
  cbn [up_rid] in *. destruct (sv_body d Hsv Hr) as (s' & Hs & Hsv' & Hr' & Hk).
  eexists. split.
  - eapply reaches_step, (by_net (l := NBody (length d))); [|done]. cbn [net_step]. unfold net_body, serve.
    rewrite Hp. cbn [mbind option_bind up_rest up_rid]. rewrite guard_pass by done.
    rewrite take_ge, drop_ge, Hs by done. simpl. done.
  - by eapply ul_serve.
Qed.

Lemma ul_server_step u mail busy up pos o q log l s' mail' busy' pos' :
  uploading u mail busy (Some (up, pos)) o q log →
  (∀ net, foreign sid net l = true) → step (nt_server (us_net u)) l = Some s' →
  serves_at s' aid mail' busy' lock → req_at s' (up_rid up) pos' → keeps (nt_server (us_net u)) s' (up_rid up) →
  ∃ u', goes u u' ∧ uploading u' mail' busy' (Some (up, pos')) o q log.
Proof.
  intros Hu Hf Hs Hsv Hr Hk. pose proof (ul_post Hu) as [Hp _]. eexists. split.
  - eapply reaches_step, (by_net (l := NServer l)); [|done]. simpl. rewrite guard_pass by apply Hf.
    unfold serve. by rewrite Hs.
  - by eapply ul_serve.
Qed.

Lemma ul_acked u k rest d o q log total :
  uploading u [] None (Some (mkUpload k rest, AtWrite aid total d (Some ()))) o q log →
  ∃ u', goes u u' ∧ uploading u' [] None (Some (mkUpload k rest, AtBody aid total)) o q log.
Proof.
  intros Hu. pose proof Hu as [Hsv _ (_ & Hr) _ _]. cbn [up_rid] in *.
  destruct (sv_acked Hsv Hr) as (s3 & Hs3 & Hsv3 & Hr3 & Hk3).
  exact (ul_server_step (l := LResume k) Hu ltac:(done) Hs3 Hsv3 Hr3 Hk3).
Qed.

Lemma ul_write_all u k d o q log total :
  uploading u [SessionWrite d k] None (Some (mkUpload k [], AtWrite aid total d None)) o q log →
  ∃ u', goes u u' ∧ uploading u' [] None (Some (mkUpload k [], AtBody aid total)) o q log.
Proof.
  intros Hu. pose proof Hu as [Hsv _ (_ & Hr) _ _]. cbn [up_rid] in *.
  destruct (sv_deliver_write Hsv Hr) as (s1 & Hs1 & Hsv1 & Hr1 & Hk1).
  destruct (ul_server_step (l := LDeliver aid 0) Hu ltac:(done) Hs1 Hsv1 Hr1 Hk1) as (u1 & G1 & Hu1).
  pose proof Hu1 as [Hsv1' _ (_ & Hr1') _ _]. cbn [up_rid] in *.
  destruct (sv_written Hsv1' Hr1') as (s2 & Hs2 & Hsv2 & Hr2 & Hk2).
  destruct (ul_server_step (l := LWritten aid WriteOk false) Hu1 ltac:(done) Hs2 Hsv2 Hr2 Hk2)
    as (u2 & G2 & Hu2).
  destruct (ul_acked Hu2) as (u3 & G3 & Hu3).
  exists u3. split; [|done]. eauto using reaches_trans.
Qed.

(** Its response arrives, and before that the end of its body. *)
Lemma ul_responded u k r q log :
  uploading u [] None (Some (mkUpload k [], Responded write_response)) (OutSend r) q log →
  ∃ u', goes u u' ∧ uploading u' [] None None (OutRecv false) q log.
Proof.
  intros [Hsv2 Hrd2 (Hp2 & [[acked Hr2] _]) Ht2 He2].
  cbn [up_rid] in *. destruct (task_step Ht2 (TG_ack _ _)) as (t' & Hs2 & Ht').
  eexists. split.
  - eapply reaches_step, (by_task (l := NPostDone)).
    + cbn [net_step]. unfold net_post_done, response_to, client. rewrite Hp2. cbn [mbind option_bind up_rid].
      rewrite Hr2. cbn [mbind option_bind rq_pos rs_status write_response]. rewrite Hs2. done.
    + cbn [task_label]. unfold response_to. rewrite Hp2. cbn [mbind option_bind up_rid]. by rewrite Hr2.
    + apply He2.
    + done.
    + exact Ht'.
  - split; try done. simpl. destruct reader as [[rid stid]|]; [|done].
    by destruct Hrd2 as (Hg & Hr & Hst & _).
Qed.

Lemma ul_done u k r q log total :
  uploading u [] None (Some (mkUpload k [], AtBody aid total)) (OutSend r) q log → total ≠ 0%Z →
  ∃ u', goes u u' ∧ uploading u' [] None None (OutRecv false) q log.
Proof.
  intros Hu Htot. pose proof Hu as [Hsv _ (Hp & Hr) _ _]. cbn [up_rid] in *.
  destruct (sv_body_end Hsv Hr Htot) as (s1 & Hs1 & Hsv1 & Hr1 & Hk1).
  assert (G1 : user_step front sid u (UNet NBodyEnd) = Some (mkUser (served (LBody k None) s1 (us_net u)) (us_ends u))).
  { apply by_net; [|done]. cbn [net_step]. unfold net_body_end, serve. rewrite Hp.
    cbn [mbind option_bind up_rid up_rest].
    rewrite guard_pass by done. by rewrite Hs1. }
  destruct (ul_responded (u := mkUser (served (LBody k None) s1 (us_net u)) (us_ends u)) (k := k) (r := r) (q := q) (log := log)) as (u2 & G2 & Hu2);
    [by eapply ul_serve|].
  exists u2. split; [|done]. eapply reaches_trans; [by eapply reaches_step|done].
Qed.

(** A chunk that a [u64] can count. *)
Definition fits (d : bytes) : Prop := d ≠ [] ∧ (blen d < u64_modulus)%Z.

Lemma fits_total d : fits d → add64 0 (blen d) ≠ 0%Z.
Proof.
  intros [Hd Hlen]. unfold add64, wrap64. rewrite Z.mod_small; [|pose proof (blen_nonneg d); lia].
  unfold blen. destruct d; simpl; [done|lia].
Qed.

(** The request for a chunk, from its arrival to its response. *)
Lemma ul_carry u q log d first path r :
  uploading u [] None None (OutSend r) q log → create_write_request front sid d first path = Ok r → fits d →
  ∃ u', goes u u' ∧ uploading u' [] None None (OutRecv false) q log.
Proof.
  intros Hu Hreq Hd.
  destruct (ul_request Hu Hreq) as (u3 & k & G3 & Hu3).
  destruct (ul_body Hu3) as (u4 & G4 & Hu4).
  destruct (ul_write_all Hu4) as (u5 & G5 & Hu5).
  destruct (ul_done Hu5 (fits_total Hd)) as (u6 & G6 & Hu6).
  exists u6. split; [|done]. eauto 10 using reaches_trans.
Qed.
End Uploading.

(** Requests can be built: the proxy's host and the session key make valid headers. *)
Definition can_build : Prop :=
  (∀ d first, ∃ path r, create_write_request front sid d first path = Ok r) ∧
  ∃ path r, create_read_request front sid path = Ok r.
End Moves.
