(* ===== verification/Dialog.v ===== *)
(** A conversation can always go on.

    The theorems of [Pipe] say that no byte is lost, duplicated or reordered, which a system that
    never moves a byte satisfies too. Here a schedule is given that carries any message: from
    a state in which a session is established and nothing is on its way, whatever the user
    writes gets to the upstream, and whatever the upstream sends gets to the user. *)
From S2P Require Import Prelude Ext DomainFronting Stats State Session Server ServerSteps LogInv Invariant Scenario.
From S2P Require Import Client ClientProps Adaptors Connection Tunnel TunnelInv TunnelProps User UserInv Pipe Moves.

Set Implicit Arguments.
Unset Strict Implicit.

Section Dialog.
Context `{UuidLib, HttpLib, TryMutex, FuturesLib, RequestChannel, ResponseChannel, !HyperDisplay}.
Context `{!UuidLaws, !HttpLaws, !TryMutexLaws, !FuturesLaws}.
Context `{!RequestChannelLaws, !ResponseChannelLaws}.
Context {config : Config} {front : DomainFronting} {sid : Uuid} {key : HeaderName}.
Implicit Types (s : Sys) (net : Net) (t : IoTask) (en : Ends) (u : UserNet).

Context (keys : keys_agree front config key) (build_ok : can_build (front := front) (sid := sid)).

Abbreviation serves_at := (serves_at (config := config) (sid := sid)).
Abbreviation goes := (reaches (user_step front sid)).
Abbreviation task_goes := (task_goes (front := front) (sid := sid)).

(** * A message goes up *)

(** A response waits for data, in the stream [stid] of the request [rid]. *)
Abbreviation uploading aid rid stid :=
  (uploading (config := config) (sid := sid) true aid (Some (rid, stid)) true InBody [] false).

Lemma ul_message aid rid stid u first log d :
  uploading aid rid stid u [] None None (OutRecv first) [] log → fits d →
  ∃ u', goes u u' ∧
    uploading aid rid stid u' [] None None (OutRecv false) [] (log ++ [DidWrite d (Returns (Ready (Ok (length d))))]).
Proof.
  intros Hu Hd. destruct (proj1 build_ok d first) as (path & r & Hreq).
  destruct (ul_write (front := front) d eq_refl Hu) as (u1 & G1 & Hu1).
  destruct (ul_recv Hu1 Hreq) as (u2 & G2 & Hu2).
  destruct (ul_carry keys Hu2 Hreq Hd) as (u3 & G3 & Hu3).
  exists u3. split; [|done]. eauto using reaches_trans.
Qed.

(** * A message comes down *)

(** No write request is in progress. The response of the read request [get], if there is one, is
    read from [stream]. *)
Record downloading (aid : nat) u (mail : list Msg) (lock : bool) (get : option (Download * ReqPos))
    (stream : option (nat * StreamPos)) (i : Incoming) (first : bool) (items : bytes) (fed : bool)
    (log : list OpEvent) : Prop := {
  dl_server : serves_at (nt_server (us_net u)) aid mail None lock;
  dl_post : nt_post (us_net u) = None;
  dl_get : match get with
           | None => nt_get (us_net u) = None
           | Some (dn, pos) => nt_get (us_net u) = Some dn ∧ req_at (nt_server (us_net u)) (dn_rid dn) pos
           end;
  dl_stream : match stream with
              | None => True
              | Some (stid, pos) => stream_at (nt_server (us_net u)) aid stid pos
              end;
  dl_task : task_at (nt_client (us_net u)) i (OutRecv first);
  dl_ends : ends_at true (us_ends u) [] (Ok <$> items) fed log;
}.

(** The task makes a step, which may complete the read request. *)
Lemma dl_task_step aid u mail lock get stream i first items fed log l li i' get'
    (net' : IoTask → Net) en fed' :
  downloading aid u mail lock get stream i first items fed log →
  task_goes i (OutRecv first) li i' (OutRecv first) → task_label l (us_net u) = Some li →
  (∀ t', io_step front sid (nt_client (us_net u)) li = Some t' →
     net_step front sid (us_net u) l = Some (net' t') ∧ nt_client (net' t') = t' ∧
     nt_server (net' t') = nt_server (us_net u) ∧ nt_post (net' t') = None ∧
     match get' with
     | None => nt_get (net' t') = None
     | Some (dn, pos) => nt_get (net' t') = Some dn ∧ req_at (nt_server (us_net u)) (dn_rid dn) pos
     end) →
  chan_step li (us_ends u) = Some en → ends_at true en [] (Ok <$> items) fed' log →
  ∃ u', goes u u' ∧ downloading aid u' mail lock get' stream i' first items fed' log.
Proof.
  intros [Hsv Hp Hg Hst Ht He] Hgo Hl Hnet Hc He'.
  destruct (task_step Ht Hgo) as (t' & Hs & Ht').
  destruct (Hnet _ Hs) as (Hn & Ec & Es & Ep & Eg).
  exists (mkUser (net' t') en). split.
  - eapply reaches_step, by_task; [exact Hn|exact Hl|apply He|exact Hc|]. rewrite Ec. exact Ht'.
  - split; simpl; rewrite ?Es, ?Ec; done.
Qed.

(** So does the server. *)
Lemma dl_poll aid u mail lock dn stid spos i first items fed log read room p s' mail' lock' stream' :
  downloading aid u mail lock (Some (dn, Responded (read_response stid))) (Some (stid, spos)) i first items fed log →
  dn_open dn = true → poll_next stid read room (nt_server (us_net u)) = Some (p, s') →
  serves_at s' aid mail' None lock' → req_at s' (dn_rid dn) (Responded (read_response stid)) →
  match stream' with None => True | Some (k, pos) => stream_at s' aid k pos end →
  ∃ u', goes u u' ∧
    downloading aid u' mail' lock' (Some (polled p dn, Responded (read_response stid))) stream' i first items fed log.
Proof.
  intros [Hsv Hp [Hg [[acked Hr] Hlt]] Hst Ht He] Ho Hpoll Hsv' Hr' Hst'. eexists. split.
  - eapply reaches_step, (by_net (l := NPoll read room)); [|done]. cbn [net_step].
    unfold net_poll, response_to, serve.
    rewrite Hg. cbn [mbind option_bind]. rewrite guard_pass by done. rewrite Hr.
    cbn [mbind option_bind rq_pos body_stream rs_body read_response]. rewrite Hpoll.
    cbn [mbind option_bind step]. rewrite Hpoll. simpl. done.
  - split; simpl; try done. split; [done|]. by destruct p as [|[]].
Qed.

Lemma dl_server_step aid u mail lock dn pos stream i first items fed log l s' mail' lock' pos' stream' :
  downloading aid u mail lock (Some (dn, pos)) stream i first items fed log →
  (∀ net, foreign sid net l = true) → step (nt_server (us_net u)) l = Some s' →
  serves_at s' aid mail' None lock' → req_at s' (dn_rid dn) pos' →
  match stream' with None => True | Some (k, p) => stream_at s' aid k p end →
  ∃ u', goes u u' ∧ downloading aid u' mail' lock' (Some (dn, pos')) stream' i first items fed log.
Proof.
  intros [Hsv Hp [Hg Hr] Hst Ht He] Hf Hs Hsv' Hr' Hst'. eexists. split.
  - eapply reaches_step, (by_net (l := NServer l)); [|done]. simpl. rewrite guard_pass by apply Hf.
    unfold serve. by rewrite Hs.
  - split; done.
Qed.

(** The response body yields a chunk, and the actor notes that the session is not idle. *)
Lemma dl_yield aid u rid got stid spos first log d :
  downloading aid u [] true (Some (mkDownload rid got [] true false, Responded (read_response stid)))
    (Some (stid, spos)) InBody first [] false log → spos = FirstRead ∨ spos = NextRead → chunk_ok d →
  ∃ u', goes u u' ∧
    downloading aid u' [] true (Some (mkDownload rid got d true false, Responded (read_response stid)))
      (Some (stid, NextRead)) InBody first [] false log.
Proof.
  intros Hu Hpos Hd. pose proof Hu as [Hsv _ [_ Hr] Hst _ _].
  destruct (sv_poll_data Hsv Hst Hpos Hd Hr) as (s1 & Hs1 & Hsv1 & Hst1 & Hr1).
  destruct (dl_poll (stream' := Some (stid, _)) Hu eq_refl Hs1 Hsv1 Hr1 Hst1) as (u1 & G1 & Hu1).
  pose proof Hu1 as [Hsv1' _ [_ Hr1'] Hst1' _ _].
  destruct (sv_deliver_reset Hsv1' Hr1' Hst1') as (s2 & Hs2 & Hsv2 & Hr2 & Hst2).
  destruct (dl_server_step (l := LDeliver aid 0) (stream' := Some (stid, NextRead)) Hu1 ltac:(done) Hs2 Hsv2 Hr2 Hst2)
    as (u2 & G2 & Hu2).
  exists u2. split; [eauto using reaches_trans|exact Hu2].
Qed.

(** It has nothing more, and ends. *)
Lemma dl_over aid u rid got stid first log :
  downloading aid u [] true (Some (mkDownload rid got [] true false, Responded (read_response stid)))
    (Some (stid, NextRead)) InBody first [] false log →
  ∃ u', goes u u' ∧
    downloading aid u' [] false (Some (mkDownload rid got [] false true, Responded (read_response stid)))
      None InBody first [] false log.
Proof.
  intros Hu. pose proof Hu as [Hsv _ [_ Hr] Hst _ _].
  destruct (sv_poll_end Hsv Hst Hr) as (s1 & Hs1 & Hsv1 & Hr1).
  exact (dl_poll (stream' := None) Hu eq_refl Hs1 Hsv1 Hr1 I).
Qed.

(** The user reads until the channel is empty. *)
Lemma dl_drain aid u mail lock get stream i first items fed log :
  downloading aid u mail lock get stream i first items fed log →
  ∃ u' evs, goes u u' ∧ read_items evs = Ok <$> items ∧ written_by evs = [] ∧
    downloading aid u' mail lock get stream i first [] fed (log ++ evs).
Proof.
  intros [Hsv Hp Hg Hst Ht He].
  destruct (read_all (front := front) (sid := sid) Ht He) as (u' & evs & G & En & Er & Ew & He').
  exists u', evs. split; [done|]. split; [done|]. split; [done|]. by split; rewrite ?En.
Qed.

(** The frame is handed over. *)
Lemma dl_feed aid u mail lock get stream first d log :
  downloading aid u mail lock get stream (InTx (Ok d)) first [] false log →
  ∃ u', goes u u' ∧ downloading aid u' mail lock get stream (InTx (Ok d)) first d true log.
Proof.
  intros [Hsv Hp Hg Hst Ht He].
  destruct (feed_ready (front := front) (sid := sid) Ht He) as (u' & G & En & He').
  exists u'. split; [done|]. by split; rewrite ?En.
Qed.

(** The client gets the frame and passes it to the user, who reads it. *)
Lemma dl_deliver aid u rid got pos stream lock first log d :
  downloading aid u [] lock (Some (mkDownload rid got d true false, pos)) stream InBody first [] false log →
  d ≠ [] →
  ∃ u' evs, goes u u' ∧ read_items evs = Ok <$> d ∧ written_by evs = [] ∧
    downloading aid u' [] lock (Some (mkDownload rid (got ++ d) [] true false, pos)) stream InBody first [] false
      (log ++ evs).
Proof.
  intros Hu Hd. pose proof Hu as [_ Hp [Hg Hr] _ _ He].
  destruct (dl_task_step (l := NFrame (length d)) (get' := Some (mkDownload rid (got ++ d) [] true false, pos))
    (net' := λ t', set_get (Some (mkDownload rid (got ++ d) [] true false))
                     (moved (IoFrame (Some (Ok (DataFrame d)))) t' (us_net u)))
    (en := us_ends u) (fed' := false) Hu (TG_frame _ Hd)) as (u1 & G1 & Hu1); [| |done|done|].
  { simpl. rewrite Hg. simpl. by rewrite take_ge. }
  { intros t' Hs. cbn [net_step]. unfold net_frame, client. rewrite Hg.
    cbn [mbind option_bind dn_buf]. rewrite guard_pass by (destruct d; [done|simpl; lia]).
    unfold framed. simpl. rewrite take_ge, drop_ge, Hs by done. done. }
  destruct (dl_feed Hu1) as (u2 & G2 & Hu2).
  destruct (dl_drain Hu2) as (u3 & evs & G3 & Er & Ew & Hu3).
  pose proof Hu3 as [_ Hp3 [Hg3 Hr3] _ _ He3].
  destruct (dl_task_step (l := NClient (IoSent true)) (get' := Some (mkDownload rid (got ++ d) [] true false, pos))
    (net' := λ t', moved (IoSent true) t' (us_net u3)) (en := set_fed false (us_ends u3)) (fed' := false) Hu3 (TG_sent _ d))
    as (u4 & G4 & Hu4); [done| | | |].
  { intros t' Hs. simpl. unfold client. by rewrite Hs. }
  { simpl. destruct He3 as [_ _ _ -> _ _ _ Hit _]. by rewrite (flush_ready _ Hit). }
  { by destruct He3. }
  exists u4, evs. split; [eauto using reaches_trans|done].
Qed.

(** The first chunk of a message. *)
Lemma split_chunk (d : bytes) :
  d ≠ [] → ∃ c rest, d = c ++ rest ∧ chunk_ok c ∧ length rest < length d.
Proof.
  intros Hd. set (n := Z.to_nat READ_CAPACITY). exists (firstn n d), (skipn n d).
  assert (Hn : (Z.of_nat n = READ_CAPACITY)%Z) by done. assert (Hn0 : n ≠ 0) by (intros E; rewrite E in Hn; done).
  clearbody n. rewrite firstn_skipn. split; [done|]. destruct d as [|b d]; [done|]. destruct n as [|n]; [done|].
  split; [split; [done|]|].
  - unfold blen. rewrite <- Hn, length_firstn. lia.
  - rewrite length_skipn. simpl. lia.
Qed.

(** A message of any length comes in chunks that the server's buffer holds: its first read waits for
    the first one, and the others are there when it reads on. *)
Lemma dl_chunks aid u rid got stid spos first log d :
  downloading aid u [] true (Some (mkDownload rid got [] true false, Responded (read_response stid)))
    (Some (stid, spos)) InBody first [] false log → spos = FirstRead ∨ spos = NextRead → d ≠ [] →
  ∃ u' evs, goes u u' ∧ read_items evs = Ok <$> d ∧ written_by evs = [] ∧
    downloading aid u' [] true (Some (mkDownload rid (got ++ d) [] true false, Responded (read_response stid)))
      (Some (stid, NextRead)) InBody first [] false (log ++ evs).
Proof.
  revert u got spos log. induction d as [d IH] using (induction_ltof1 _ length). unfold ltof in IH.
  intros u got spos log Hu Hpos Hd.
  destruct (split_chunk Hd) as (c & rest & -> & Hc & Hlen).
  destruct (dl_yield Hu Hpos Hc) as (u1 & G1 & Hu1).
  destruct (dl_deliver Hu1 (proj1 Hc)) as (u2 & evs & G2 & Er & Ew & Hu2).
  destruct (decide (rest = [])) as [->|Hrest].
  { exists u2, evs. rewrite !app_nil_r. split; [eauto using reaches_trans|done]. }
  destruct (IH rest Hlen u2 (got ++ c) NextRead (log ++ evs) Hu2 (or_intror eq_refl) Hrest)
    as (u3 & evs3 & G3 & Er3 & Ew3 & Hu3).
  exists u3, (evs ++ evs3). rewrite <- !app_assoc in Hu3. split; [eauto using reaches_trans|].
  unfold read_items, written_by in *. by rewrite fmap_app, concat_app, omap_app, fmap_app, Er, Er3, Ew, Ew3.
Qed.

(** The server answers a read request. *)
Lemma dl_opened aid u rid r first log :
  downloading aid u [] false (Some (mkDownload rid [] [] true false, AtReadSend aid)) None (InSend r) first [] false log →
  ∃ u' stid, goes u u' ∧
    downloading aid u' [] true (Some (mkDownload rid [] [] true false, Responded (read_response stid)))
      (Some (stid, FirstRead)) InBody first [] false log.
Proof.
  intros Hu. pose proof Hu as [Hsv _ [_ Hr] _ _ _].
  destruct (sv_ask Hsv Hr) as (s1 & Hs1 & Hsv1 & Hr1 & _).
  destruct (dl_server_step (l := LResume rid) (stream' := None) Hu ltac:(done) Hs1 Hsv1 Hr1 I)
    as (u1 & G1 & Hu1).
  pose proof Hu1 as [Hsv1' _ [_ Hr1'] _ _ _].
  destruct (sv_deliver_read Hsv1' Hr1') as (s2 & stid & Hs2 & Hsv2 & Hr2 & Hst2).
  destruct (dl_server_step (l := LDeliver aid 0) (stream' := (Some (stid, FirstRead))) Hu1
    ltac:(done) Hs2 Hsv2 Hr2 Hst2) as (u2 & G2 & Hu2).
  pose proof Hu2 as [Hsv2' _ [_ Hr2'] Hst2' _ _].
  destruct (sv_answered Hsv2' Hr2') as (s3 & Hs3 & Hsv3 & Hr3 & Hk).
  destruct (dl_server_step (l := LResume rid) (stream' := (Some (stid, FirstRead))) Hu2
    ltac:(done) Hs3 Hsv3 Hr3 (proj2 Hk _ _ _ Hst2')) as (u3 & G3 & Hu3).
  pose proof Hu3 as [_ _ [Hg3 Hr3'] _ _ He3]. pose proof Hr3' as [[acked Hr4] _]. cbn [dn_rid] in Hr4.
  destruct (dl_task_step (l := NHead)
    (get' := Some (mkDownload rid [] [] true false, Responded (read_response stid)))
    (net' := λ t', moved (IoResponse (Ok OK_200)) t' (us_net u3)) (en := us_ends u3) (fed' := false) Hu3 (TG_response _ r))
    as (u4 & G4 & Hu4); [| |done|done|].
  { cbn [task_label]. unfold response_to. rewrite Hg3. cbn [mbind option_bind dn_rid]. by rewrite Hr4. }
  { intros t' Hs. cbn [net_step]. unfold net_head, response_to, client. rewrite Hg3.
    cbn [mbind option_bind dn_rid]. rewrite Hr4. cbn [mbind option_bind rq_pos rs_status read_response].
    rewrite Hs. split; [done|]. split; [done|]. split; [done|].
    split; [apply (dl_post Hu3)|done]. }
  exists u4, stid. split; [eauto using reaches_trans|done].
Qed.

(** The task asks for the next response, when the last one has ended. *)
Lemma dl_next aid u rid stid first log d :
  downloading aid u [] false (Some (mkDownload rid d [] false true, Responded (read_response stid)))
    None InBody first [] false log →
  ∃ u' k r, goes u u' ∧
    downloading aid u' [] false (Some (mkDownload k [] [] true false, AtReadSend aid)) None (InSend r) first [] false log.
Proof.
  intros Hu. destruct (proj2 build_ok) as (path & r & Hreq).
  pose proof Hu as [_ Hp [Hg _] _ _ He].
  destruct (dl_task_step (l := NEnd false) (get' := None)
    (net' := λ t', add_get (mkDownload rid d [] false true) (set_get None (moved (IoFrame None) t' (us_net u))))
    (en := us_ends u) (fed' := false) Hu (TG_end _)) as (u1 & G1 & Hu1); [done| |done|done|].
  { intros t' Hs. cbn [net_step]. unfold net_end, client. rewrite Hg.
    cbn [mbind option_bind]. rewrite guard_pass, Hs by done. done. }
  pose proof Hu1 as [_ Hp1 Hg1 _ _ He1].
  destruct (dl_task_step (l := NClient (IoGet path)) (get' := None)
    (net' := λ t', moved (IoGet path) t' (us_net u1)) (en := us_ends u1) (fed' := false) Hu1 (TG_get _ Hreq))
    as (u2 & G2 & Hu2); [done| |done|done|].
  { intros t' Hs. simpl. unfold client. by rewrite Hs. }
  destruct Hu2 as [Hsv2 Hp2 Hg2 _ Ht2 He2].
  destruct (read_request_session _ _ _ _ _ _ keys Hreq) as (Hsid & Hm & _).
  destruct (sv_request (head := req_head r) (m := Get) Hsv2 ltac:(by rewrite Hm) Hsid) as (s' & Hs & Hsv' & Hr' & _).
  pose proof Ht2 as (_ & Hi & _).
  eexists _, (sys_next (nt_server (us_net u2))), r. split.
  - eapply reaches_trans; [exact G1|]. eapply reaches_trans; [exact G2|].
    eapply reaches_step, (by_net (l := NGet)); [|done]. cbn [net_step]. unfold net_get, serve.
    rewrite Hi, Hg2, Hs. done.
  - split; done.
Qed.

(** * The conversation *)

(** A session is established, nothing is on its way, and a response waits for data. *)
Definition idle (aid : nat) u (log : list OpEvent) : Prop :=
  ∃ rid stid first,
    downloading aid u [] true (Some (mkDownload rid [] [] true false, Responded (read_response stid)))
      (Some (stid, FirstRead)) InBody first [] false log.

Lemma idle_up aid u log d :
  idle aid u log → fits d →
  ∃ u', goes u u' ∧ idle aid u' (log ++ [DidWrite d (Returns (Ready (Ok (length d))))]).
Proof.
  intros (rid & stid & first & [Hsv Hp [Hg Hr] Hst Ht He]) Hd.
  destruct (ul_message (aid := aid) (rid := rid) (stid := stid) (u := u) (first := first) (log := log) (d := d)) as (u' & G & Hu'); [|done|].
  { split; try done. split; [done|]. split; [done|]. split; [done|]. intros up Hup. congruence. }
  exists u'. split; [done|]. destruct Hu' as [Hsv' (Hg' & Hr' & Hst' & _) Hp' Ht' He'].
  exists rid, stid, false. by split.
Qed.

Lemma idle_down aid u log d :
  idle aid u log → d ≠ [] →
  ∃ u' evs, goes u u' ∧ idle aid u' (log ++ evs) ∧ read_items evs = Ok <$> d ∧ written_by evs = [].
Proof.
  intros (rid & stid & first & Hu) Hd.
  destruct (dl_chunks Hu (or_introl eq_refl) Hd) as (u1 & evs & G1 & Er & Ew & Hu1).
  destruct (dl_over Hu1) as (u2 & G2 & Hu2).
  destruct (dl_next Hu2) as (u3 & k & r & G3 & Hu3).
  destruct (dl_opened Hu3) as (u4 & k' & G4 & Hu4).
  exists u4, evs. split; [eauto using reaches_trans|]. split; [|done]. by exists k, k', first.
Qed.

(** The connection of a new user becomes idle. *)
Lemma idle_start : ∃ u, goes (user_init config) u ∧ idle 1 u [].
Proof.
  destruct (proj2 build_ok) as (path & r & Hreq).
  destruct (read_request_session _ _ _ _ _ _ keys Hreq) as (Hsid & Hm & _).
  destruct (sv_first (head := req_head r) ltac:(by rewrite Hm) Hsid) as (s0 & s1 & s2 & H0' & H1' & H2' & Hsv & Hr).
  assert (Ht : task_at start_proxy InStart (OutRecv true)) by done.
  destruct (task_step Ht (TG_get _ Hreq)) as (t' & Hs & Ht').
  set (net1 := moved (IoGet path) t' (us_net (user_init config))).
  set (net2 := set_get (Some (mkDownload 0 [] [] true false)) (served (LRequest (req_head r)) s0 net1)).
  set (net4 := served (LConnected 1 (Ok ())) s2 (served (LStart 1) s1 net2)).
  assert (G : goes (user_init config) (mkUser net4 ends_new)).
  { pose proof Ht' as (_ & Hi & _).
    exists (UNet <$> [NClient (IoGet path); NGet; NServer (LStart 1); NServer (LConnected 1 (Ok ()))]).
    cbn [fmap list_fmap]. eapply run_cons.
    { apply (by_task (u := user_init config) (li := IoGet path) (net := net1) (en := ends_new) (i := InSend r) (o := OutRecv true));
        [|done..].
      cbn [net_step]. unfold client. cbn [local]. rewrite guard_pass by done.
      cbn [us_net user_init net_init nt_client].
      by rewrite Hs. }
    assert (Ei : io_in (nt_client net1) = InSend r) by exact Hi.
    assert (Eg : nt_get net1 = None) by done.
    assert (E0 : step (nt_server net1) (LRequest (req_head r)) = Some s0) by exact H0'.
    assert (E1 : step (nt_server net2) (LStart 1) = Some s1) by exact H1'.
    assert (E2 : step (nt_server (served (LStart 1) s1 net2)) (LConnected 1 (Ok ())) = Some s2) by exact H2'.
    eapply run_cons; [apply by_net with (net := net2); [|done]|].
    { cbn [net_step us_net]. unfold net_get, serve. by rewrite Ei, Eg, E0. }
    eapply run_cons; [apply by_net with (net := served (LStart 1) s1 net2); [|done]|].
    { cbn [net_step us_net]. unfold serve. cbn [foreign]. by rewrite guard_pass, E1. }
    eapply run_cons; [apply by_net with (net := net4); [|done]|done].
    cbn [net_step us_net]. unfold serve. cbn [foreign]. by rewrite guard_pass, E2. }
  destruct (dl_opened (aid := 1) (u := mkUser net4 ends_new) (rid := 0) (r := r) (first := true) (log := [])) as (u & stid & G' & Hu).
  { split; try done.
    split; simpl; try done; [by rewrite req_new_queue|apply req_new_open|by rewrite resp_new_items|
      apply resp_new_open]. }
  exists u. split; [by eapply reaches_trans|]. by exists 0, stid, true.
Qed.

(** What one side says to the other. *)
Inductive message : Type := Up (d : bytes) | Down (d : bytes).
Definition message_ok (m : message) : Prop := match m with Up d => fits d | Down d => d ≠ [] end.

(** Between [u] and [u'] the message went all the way, and nothing else moved. *)
Definition delivered (m : message) u u' : Prop :=
  match m with
  | Up d => user_wrote u' = user_wrote u ++ d ∧ given sid u' = given sid u ++ d ∧ user_got u' = user_got u
  | Down d => user_wrote u' = user_wrote u ∧ given sid u' = given sid u ∧ user_got u' = user_got u ++ d
  end.

(** One message after the other, with nothing left in the pipe in between. *)
Inductive carries : list message → UserNet → UserNet → Prop :=
| carries_nil u : carries [] u u
| carries_cons m msgs u u1 u' :
    goes u u1 → delivered m u u1 → pipe_of sid u1 = pipe_empty → carries msgs u1 u' → carries (m :: msgs) u u'.

Lemma idle_empty aid u log :
  user_wf (config := config) (front := front) (sid := sid) u → idle aid u log →
  en_log (us_ends u) = log ∧ given sid u = user_wrote u ∧ pipe_of sid u = pipe_empty.
Proof.
  intros Hu (rid & stid & first & [_ _ _ _ (_ & Hi & Ho & _) [_ Hab _ Hfd Hlg Hq [_ Hrx] Hit _]]).
  destruct (up_in_pipe keys _ Hu) as (rest & Ew & Hrest). destruct (Hrest Hrx) as (part & Hpart & ->).
  destruct (down_in_pipe keys _ Hu) as (rest & Ed & Hrest'). specialize (Hrest' Hab).
  rewrite Hit, Hfd in Hrest'. unfold unsent in Hrest'. rewrite Hi in Hrest'. simpl in Hrest'. subst rest.
  unfold sending in Hpart. rewrite Ho in Hpart. apply suffix_nil_inv in Hpart as ->.
  rewrite Hq in Ew. simpl in Ew. rewrite app_nil_r in Ew, Ed. split; [done|]. split; [done|].
  unfold pipe_of. by rewrite Ew, Ed, !drop_all.
Qed.

Lemma idle_carries aid msgs ls u log :
  run (user_step front sid) (user_init config) ls = Some u → idle aid u log → Forall message_ok msgs →
  ∃ u' log', carries msgs u u' ∧ idle aid u' log'.
Proof.
  intros Hrun Hidle Hok. revert ls u log Hrun Hidle.
  induction Hok as [|m msgs Hm _ IH]; intros ls u log Hrun Hidle.
  { exists u, log. split; [constructor|done]. }
  assert (Hnext : ∃ u1 evs, goes u u1 ∧ idle aid u1 (log ++ evs) ∧ match m with
    | Up d => evs = [DidWrite d (Returns (Ready (Ok (length d))))]
    | Down d => read_items evs = Ok <$> d ∧ written_by evs = []
    end).
  { destruct m as [d|d]; [destruct (idle_up Hidle Hm) as (u1 & G & H1')|
      destruct (idle_down Hidle Hm) as (u1 & evs & G & H1' & Hr)]; eauto 10. }
  destruct Hnext as (u1 & evs & [ks Hks] & Hidle1 & Hevs).
  assert (Hrun1 : run (user_step front sid) (user_init config) (ls ++ ks) = Some u1) by (by rewrite run_app, Hrun).
  destruct (IH _ _ _ Hrun1 Hidle1) as (u' & log' & Hc & Hidle').
  exists u', log'. split; [|done].
  destruct (idle_empty (user_run_wf _ _ Hrun) Hidle) as (El & Eg & _).
  destruct (idle_empty (user_run_wf _ _ Hrun1) Hidle1) as (El1 & Eg1 & Ep1).
  eapply carries_cons; [by exists ks| |done|exact Hc].
  unfold delivered. rewrite Eg, Eg1. unfold user_wrote, user_got, bytes_got. rewrite El, El1.
  unfold written_by, read_items. rewrite omap_app, fmap_app, !concat_app, oks_app.
  destruct m as [d| d]; [subst evs; simpl; by rewrite !app_nil_r|].
  destruct Hevs as [Er Ew]. unfold read_items in Er. unfold written_by in Ew. rewrite Er, Ew. simpl.
  by rewrite oks_bytes, app_nil_r.
Qed.

(** C5. Any conversation can be held. A new connection gets to a state from which every list of
    messages, each from the user to the upstream or from the upstream to the user, can be carried,
    one after the other: a write of the user goes through its channel, the [POST], the session's
    mailbox and the upstream connection; what the upstream sends goes through a response, in as
    many reads as it takes with the 2048 bytes that each of them has room for, its end and the
    next [GET], and the user's reads. After each message the pipe is empty, and the connection is
    again in such a state. (A message has to be non-empty, one that goes up no longer than a
    [usize] counts; the proxy's host and the session key have to make valid headers.) *)
Theorem any_conversation msgs :
  Forall message_ok msgs →
  ∃ u u' log, goes (user_init config) u ∧ pipe_of sid u = pipe_empty ∧ carries msgs u u' ∧ idle 1 u' log.
Proof.
  intros Hok. destruct idle_start as (u & [ls Hrun] & Hidle).
  destruct (idle_carries Hrun Hidle Hok) as (u' & log & Hc & Hidle').
  exists u, u', log. split; [by exists ls|]. split; [|done].
  by apply (idle_empty (user_run_wf _ _ Hrun) Hidle).
Qed.
End Dialog.

(** * The theorem at work *)

Import Concrete ConcreteChannels.

Lemma demo_can_build : can_build (front := demo_front) (sid := demo_sid).
Proof.
  split.
  - intros d first. exists 1%N. destruct (create_write_request _ _ _ _ _) as [r|e] eqn:E; [by exists r|].
    by destruct first.
  - exists 1%N. by eexists.
Qed.

Definition demo_messages : list message := [Up hi; Down there; Down hi; Up there; Up hi].

Lemma any_conversation_witness : ∃ u u' log,
  reaches (user_step demo_front demo_sid) (user_init demo_config) u ∧ pipe_of demo_sid u = pipe_empty ∧
  carries (front := demo_front) (sid := demo_sid) demo_messages u u' ∧
  idle (config := demo_config) (sid := demo_sid) 1 u' log.
Proof.
  apply (any_conversation (config := demo_config) (front := demo_front) (sid := demo_sid) demo_keys demo_can_build).
  repeat (constructor; [by vm_compute|]). constructor.
Defined.
