(* ===== verification/Drain.v ===== *)
(** Nothing gets stuck on its way.

    [Dialog] carries messages from a state in which nothing is on its way. Here the state is
    any that the system can reach, with requests, messages and chunks anywhere on their way:
    as long as the two pumps run and the session's actor does, a schedule is given by which
    everything that the user wrote gets to the upstream, and everything that the responses
    brought gets to the user. *)
From S2P Require Import Prelude Ext DomainFronting Stats State Session Server ServerSteps Invariant.
From S2P Require Import ServerInv WriteInv BodyInv PendingInv Delivery Scenario.
From S2P Require Import Client ClientProps Adaptors Connection.
From S2P Require Import Tunnel TunnelInv TunnelUp TunnelProps User UserInv Pipe PipeProps Moves Dialog.

Set Implicit Arguments.
Unset Strict Implicit.

Section Drain.
Context `{UuidLib, HttpLib, TryMutex, FuturesLib, RequestChannel, ResponseChannel, !HyperDisplay}.
Context `{!UuidLaws, !HttpLaws, !TryMutexLaws, !FuturesLaws}.
Context `{!RequestChannelLaws, !ResponseChannelLaws}.
Context {config : Config} {front : DomainFronting} {sid : Uuid} {key : HeaderName}.
Implicit Types (s : Sys) (a : Actor) (net : Net) (t : IoTask) (en : Ends) (u : UserNet).

Abbreviation serves_at := (serves_at (config := config) (sid := sid)).
Abbreviation user_wf := (user_wf (config := config) (front := front) (sid := sid)).
Abbreviation goes := (reaches (user_step front sid)).

Context (keys : keys_agree front config key).

Lemma goes_wf u u' : user_wf u → goes u u' → user_wf u'.
Proof. intros Hu. apply (reaches_invariant _ user_wf); [|done]. intros x l y Hx Hs%user_step_trans.
  by eapply user_wf_trans. Qed.

Lemma user_sys u : user_wf u → run_ok (nt_trace (us_net u)) (nt_server (us_net u)).
Proof. intros Hu. by eapply base_run_ok, no_base, user_net_ok. Qed.

(** * The actor catches up *)

(** What the actor has yet to do before it waits. *)
Definition backlog a : nat :=
  match ac_status a with Spawned => 2 | Starting _ _ => 1 | _ => 0 end +
  2 * length (ac_mailbox a) + match ac_busy a with Some _ => 1 | None => 0 end.

(** The session's actor lives, it has not been killed or stopped, and it has [n] things to do. *)
Record lives s (aid n : nat) : Prop := {
  lv_up : sys_server_up s = true;
  lv_config : sys_config s = config;
  lv_session : sys_sessions s !! sid = Some aid;
  lv_actor : ∃ a, sys_actors s !! aid = Some a ∧ is_alive a = true ∧ ac_kill a = false ∧ ac_stop a = false ∧ backlog a = n;
}.

(** Meanwhile, requests only get the replies they wait for. *)
Inductive answered : ReqPos → ReqPos → Prop :=
| answered_no pos : answered pos pos
| answered_write aid total d : answered (AtWrite aid total d None) (AtWrite aid total d (Some ()))
| answered_read aid reply : answered (AtRead aid None) (AtRead aid (Some reply)).

Definition calm s s' : Prop :=
  ∀ rid r, sys_requests s !! rid = Some r →
    ∃ pos, answered (rq_pos r) pos ∧ sys_requests s' !! rid = Some (mkReq pos (rq_acked r)).

Lemma calm_same s s' : sys_requests s' = sys_requests s → calm s s'.
Proof. intros E rid r Hr. exists (rq_pos r). rewrite E. split; [constructor|by destruct r]. Qed.

Lemma calm_alter s s' k f :
  sys_requests s' = alter f k (sys_requests s) →
  (∀ r, answered (rq_pos r) (rq_pos (f r)) ∧ rq_acked (f r) = rq_acked r) → calm s s'.
Proof.
  intros E Hf rid r Hr. rewrite E, lookup_alter. case_decide; subst; rewrite Hr; simpl.
  - exists (rq_pos (f r)). destruct (Hf r) as [Ha <-]. split; [done|by destruct (f r)].
  - exists (rq_pos r). split; [constructor|by destruct r].
Qed.

Lemma calm_trans s1 s2 s3 : calm s1 s2 → calm s2 s3 → calm s1 s3.
Proof.
  intros H1' H2' rid r Hr. destruct (H1' _ _ Hr) as (p & Hp & Hr2). destruct (H2' _ _ Hr2) as (q & Hq & Hr3).
  exists q. split; [|done]. simpl in Hq. destruct Hp; [done| |]; inversion Hq; constructor.
Qed.

(** These steps are taken whatever the client does. *)
Definition inner (l : label) : Prop :=
  match l with LStart _ | LConnected _ _ | LDeliver _ _ | LWritten _ _ _ => True | _ => False end.

Lemma answer_write_calm r : answered (rq_pos r) (rq_pos (answer_write r)) ∧ rq_acked (answer_write r) = rq_acked r.
Proof. unfold answer_write.
  destruct r as [[|? ? ? []| | | |] acked]; simpl; split; try done; constructor. Qed.

Lemma answer_read_calm reply r :
  answered (rq_pos r) (rq_pos (answer_read reply r)) ∧ rq_acked (answer_read reply r) = rq_acked r.
Proof. unfold answer_read. destruct r as [[| | |? []| |] acked]; simpl; split; try done; constructor. Qed.

(** The actor gets on with a mailbox that is not empty. *)
Lemma deliver_lives s aid a self m mail n :
  lives s aid n → sys_actors s !! aid = Some a → ac_status a = Running → ac_session a = Some self →
  ac_kill a = false → ac_stop a = false → ac_busy a = None → ac_mailbox a = m :: mail →
  ∃ s' n', step s (LDeliver aid 0) = Some s' ∧ lives s' aid n' ∧ calm s s' ∧ n' < n.
Proof.
  intros [Hu Hc Hs (a' & Ha' & _ & _ & _ & <-)] Ha Hst Hse Hkill Hstop Hb Hm.
  assert (a' = a) as -> by congruence.
  simpl. unfold deliver. rewrite Ha. simpl. rewrite guard_pass by done. rewrite Hst, Hse, Hb, Hstop, Hm. simpl.
  assert (Hmu : backlog a = S (S (2 * length mail))) by (unfold backlog; rewrite Hst, Hm, Hb; simpl; lia).
  rewrite Hmu. destruct m as [rid|d rid|].
  - unfold handle_read. destruct (try_lock_owned _) as [lk|]; eexists _, (2 * length mail).
    all: split; [done|]; split; [|split; [by eapply calm_alter; [|apply answer_read_calm]|lia]].
    all: split; simpl; try done; eexists; rewrite lookup_insert_eq; split; [done|].
    all: unfold is_alive, backlog; simpl; rewrite Hst, Hb; split_and!; try done; lia.
  - eexists _, (S (2 * length mail)). split; [done|]. split; [|split; [by apply calm_same|lia]].
    split; simpl; try done; eexists; rewrite lookup_insert_eq; split; [done|].
    unfold is_alive, backlog. simpl. rewrite Hst. split_and!; try done; lia.
  - eexists _, (2 * length mail). split; [done|]. split; [|split; [by apply calm_same|lia]].
    split; simpl; try done; eexists; rewrite lookup_insert_eq; split; [done|].
    unfold is_alive, backlog. simpl. rewrite Hst, Hb. split_and!; try done; lia.
Qed.

(** The actor gets on with what it has to do. *)
Lemma lives_step s aid n :
  sys_wf s → lives s aid (S n) →
  ∃ l s' n', inner l ∧ step s l = Some s' ∧ lives s' aid n' ∧ calm s s' ∧ n' ≤ n.
Proof.
  intros Hwf Hl. pose proof Hl as [Hu Hc Hs (a & Ha & Hal & Hkill & Hstop & Hn)].
  destruct (wf_actors _ Hwf _ _ Ha) as [_ Hst]. unfold backlog in Hn.
  assert (Hlives : ∀ s' a' n', sys_server_up s' = true → sys_config s' = config →
    sys_sessions s' !! sid = Some aid → sys_actors s' !! aid = Some a' → is_alive a' = true →
    ac_kill a' = false → ac_stop a' = false → backlog a' = n' → lives s' aid n') by (intros; split; eauto 10).
  destruct (ac_status a) eqn:E.
  - (* it starts *) destruct Hst as (_ & Hb & _). eexists (LStart aid), _, n. split; [done|].
    split; [simpl; unfold on_start; by rewrite Ha; simpl; rewrite E|].
    split; [|split; [by apply calm_same|done]].
    eapply Hlives; simpl; [done|done|done|by apply lookup_insert_eq|done..|].
    unfold backlog. simpl. rewrite Hb in *. lia.
  - (* it connects *) destruct Hst as (_ & Hb & _). eexists (LConnected aid (Ok ())), _, n. split; [done|].
    split; [simpl; unfold on_start_connected; by rewrite Ha; simpl; rewrite E|].
    split; [|split; [by apply calm_same|done]].
    eapply Hlives; simpl; [done|done|done|by apply lookup_insert_eq|done..|].
    unfold backlog. simpl. rewrite Hb in *. lia.
  - destruct Hst as [self Hse]. destruct (ac_busy a) as [[d rid]|] eqn:Hb.
    + (* it has written *) eexists (LWritten aid WriteOk false), _, n. split; [done|].
      split; [simpl; unfold handle_written; rewrite Ha; simpl; rewrite guard_pass by done; by rewrite Hb|].
      split; [|split; [by eapply calm_alter; [|apply answer_write_calm]|done]].
      eapply Hlives; simpl; [done|done|done|by apply lookup_insert_eq| |done|done|].
      * unfold is_alive. simpl. by rewrite E.
      * unfold backlog. simpl. rewrite E. lia.
    + destruct (ac_mailbox a) as [|m mail] eqn:Hm; [done|].
      destruct (deliver_lives Hl Ha E Hse Hkill Hstop Hb Hm) as (s' & n' & Hst & Hl' & Hca & Hlt).
      exists (LDeliver aid 0), s', n'. repeat (split; [done|]). lia.
  - unfold is_alive in Hal. by rewrite E in Hal.
Qed.

(** In the end it waits. *)
Lemma lives_idle s aid : sys_wf s → lives s aid 0 → ∃ lock, serves_at s aid [] None lock.
Proof.
  intros Hwf [Hu Hc Hs (a & Ha & Hal & Hkill & Hstop & Hn)]. destruct (wf_actors _ Hwf _ _ Ha) as [_ Hst].
  unfold backlog in Hn. unfold is_alive in Hal. destruct (ac_status a) eqn:E; try done.
  destruct Hst as [self Hse], (ac_mailbox a) eqn:Hm, (ac_busy a) eqn:Hb; try done.
  eexists. split; try done. by exists a, self.
Qed.

(** Nothing else moves in the meantime. *)
Record steady u u' : Prop := {
  sd_ends : us_ends u' = us_ends u;
  sd_client : nt_client (us_net u') = nt_client (us_net u);
  sd_post : nt_post (us_net u') = nt_post (us_net u);
  sd_calm : calm (nt_server (us_net u)) (nt_server (us_net u'));
}.

Lemma catch_up u aid n :
  user_wf u → lives (nt_server (us_net u)) aid n →
  ∃ u' lock, goes u u' ∧ steady u u' ∧ serves_at (nt_server (us_net u')) aid [] None lock.
Proof.
  revert u. induction (lt_wf n) as [n _ IH]. intros u Hu Hl. pose proof (ro_wf _ _ (user_sys Hu)) as Hwf.
  destruct n as [|n].
  { destruct (lives_idle Hwf Hl) as [lock Hsv]. exists u, lock. split; [apply reaches_refl|].
    split; [|done].
    split; try done. by apply calm_same. }
  destruct (lives_step Hwf Hl) as (l & s' & n' & Hin & Hs & Hl' & Hca & Hlt).
  set (u1 := mkUser (served l s' (us_net u)) (us_ends u)).
  assert (G1 : goes u u1).
  { eapply reaches_step, (by_net (l := NServer l)); [|done]. simpl. rewrite guard_pass by (by destruct l).
    unfold serve. by rewrite Hs. }
  destruct (IH n' ltac:(lia) u1 (goes_wf Hu G1) Hl') as (u' & lock & G & [Ee Ec Ep Hca'] & Hsv).
  exists u', lock. split; [by eapply reaches_trans|]. split; [|done].
  split; rewrite ?Ee, ?Ec, ?Ep; try done. by eapply calm_trans.
Qed.

(** * The write request in progress *)

(** It can still succeed: neither has it been refused nor has its body failed. *)
Definition post_alive (aid : nat) (pos : ReqPos) : Prop :=
  match pos with
  | AtBody k _ | AtWrite k _ _ _ => k = aid
  | Responded resp => resp = write_response
  | _ => False
  end.

Abbreviation uploading tx aid := (uploading (config := config) (sid := sid) tx aid None).

(** It is one of the client's, and what it carries is known. *)
Lemma post_carries u up pos acked :
  user_wf u → nt_post (us_net u) = Some up → io_result (nt_client (us_net u)) = Pending →
  sys_requests (nt_server (us_net u)) !! up_rid up = Some (mkReq pos acked) → may_succeed (mkReq pos acked) →
  out_result (io_out (nt_client (us_net u))) = Pending →
  ∃ r, io_out (nt_client (us_net u)) = OutSend r ∧
    concat (rq_chunks (mkReq pos acked)) ++ up_rest up = req_body r ∧
    (pos = Responded write_response → up_rest up = []).
Proof.
  intros Hu Hp Hres Hr Hmay Hout. pose proof (user_net_ok keys _ Hu) as Hok.
  pose proof (no_base _ _ _ _ Hok) as Hb.
  destruct (base_client _ Hb) as ([_ Ho] & _ & Hs & _).
  pose proof (uw_cur _ (no_up _ _ _ _ Hok)) as Hcur. rewrite Hp in Hcur.
  destruct Hcur as (_ & req & Hreq & Hbody & Hack).
  destruct (io_out (nt_client (us_net u))) as [first|r|] eqn:Eo; [|exists r|done].
  { destruct Ho as (_ & Ea & _). apply lookup_lt_Some in Hreq. lia. }
  destruct Ho as (_ & Ea). specialize (Hs _ eq_refl). rewrite last_lookup, Ea in Hs. simpl in Hs.
  assert (req = r) as -> by congruence. split; [done|].
  pose proof (ro_bodies _ _ (base_run_ok _ Hb) (up_rid up)) as Hw. rewrite Hr in Hw. rewrite Hw by done.
  split; [done|]. intros ->. apply Hack. by eexists _, _.
Qed.

(** A body that is being taken has counted what it has taken. *)
Lemma post_total u rid pos acked aid total :
  user_wf u → sys_requests (nt_server (us_net u)) !! rid = Some (mkReq pos acked) →
  pos = AtBody aid total ∨ (∃ d, pos = AtWrite aid total d (Some ())) →
  total = wrap64 (total_len (rq_chunks (mkReq pos acked))).
Proof.
  intros Hu Hr Hpos. pose proof (ww_req _ (wf_writes _ (ro_wf _ _ (user_sys Hu))) _ _ Hr) as Hok.
  unfold request_ok, rq_chunks in *.
  destruct Hpos as [->|[d ->]]; simpl in *; [rewrite app_nil_r|]; by destruct Hok as [_ ->].
Qed.

(** The actor would have the message it waits for. *)
Lemma not_waiting s aid lock rid total d acked :
  sys_wf s → serves_at s aid [] None lock → sys_requests s !! rid ≠ Some (mkReq (AtWrite aid total d None) acked).
Proof.
  intros Hwf [_ _ _ (a & self & Ha & Hst & _ & _ & _ & Hm & Hb & _)] Hr.
  destruct (pw_req _ (wf_pending _ Hwf) _ _ Hr) as (a' & Ha' & [Hst'|Hin]); [congruence|].
  assert (a' = a) as -> by congruence. unfold actor_msgs in Hin. rewrite Hm, Hb in Hin.
  by apply not_elem_of_nil in Hin.
Qed.

(** The rest of its body arrives, and its response. *)
Lemma finish_body tx u aid lock i items fed up total r q log :
  uploading tx aid lock i items fed u [] None (Some (up, AtBody aid total)) (OutSend r) q log →
  add64 total (blen (up_rest up)) ≠ 0%Z →
  ∃ u', goes u u' ∧ uploading tx aid lock i items fed u' [] None None (OutRecv false) q log.
Proof.
  intros Hu Htot. destruct up as [k rest].
  destruct (ul_body (front := front) Hu) as (u1 & G1 & Hu1).
  destruct (ul_write_all (front := front) Hu1) as (u2 & G2 & Hu2).
  destruct (ul_done (front := front) Hu2 Htot) as (u3 & G3 & Hu3).
  exists u3. split; [|done]. eauto using reaches_trans.
Qed.

Lemma finish_post tx u aid lock i items fed up pos o q log :
  user_wf u → uploading tx aid lock i items fed u [] None (Some (up, pos)) o q log → post_alive aid pos →
  (∀ r, o = OutSend r → fits (req_body r)) →
  ∃ u', goes u u' ∧ uploading tx aid lock i items fed u' [] None None (OutRecv false) q log.
Proof.
  intros Hwf Hu Hal Hfit. pose proof Hu as [Hsv _ [Hp [[acked Hr] _]] Ht _].
  pose proof (task_pending Ht) as Hres. pose proof Ht as (_ & _ & Ho & _ & Hout). rewrite <- Ho in Hout.
  assert (Hmay : may_succeed (mkReq pos acked)) by (by destruct pos; try done; simpl in *; subst).
  destruct (post_carries Hwf Hp Hres Hr Hmay Hout) as (r & Er & Hbody & Hdone). rewrite Er in Ho.
  subst o.
  specialize (Hfit r eq_refl).
  assert (Htotal : ∀ total, pos = AtBody aid total ∨ (∃ d, pos = AtWrite aid total d (Some ())) →
            add64 total (blen (up_rest up)) ≠ 0%Z).
  { intros total Hpos. rewrite (post_total Hwf Hr Hpos). unfold add64.
    rewrite wrap64_add_l. unfold total_len. rewrite <- blen_app, Hbody. apply (fits_total Hfit). }
  destruct pos as [k total|k total d [[]|]| | |resp|]; try done; simpl in Hal; subst.
  - eapply finish_body; eauto.
  - destruct up as [k rest].
    destruct (ul_acked (front := front) Hu) as (u1 & G1 & Hu1).
    destruct (finish_body Hu1) as (u2 & G2 & Hu2); [by apply Htotal; eauto|].
    exists u2. split; [by eapply reaches_trans|done].
  - by destruct (not_waiting (ro_wf _ _ (user_sys Hwf)) Hsv Hr).
  - destruct up as [k rest]. simpl in Hdone. rewrite Hdone in Hu by done. by eapply ul_responded.
Qed.

(** * What the user wrote *)

Context (build_ok : can_build (front := front) (sid := sid)).

(** The task takes one chunk after the other. *)
Lemma queue_drains tx u aid lock i items fed first q log :
  uploading tx aid lock i items fed u [] None None (OutRecv first) q log → Forall fits q →
  ∃ u' first', goes u u' ∧ uploading tx aid lock i items fed u' [] None None (OutRecv first') [] log.
Proof.
  intros Hu Hq. revert u first Hu. induction Hq as [|d q Hd _ IH]; intros u first Hu.
  { exists u, first. split; [apply reaches_refl|done]. }
  destruct (proj1 build_ok d first) as (path & r & Hreq).
  destruct (ul_recv Hu Hreq) as (u1 & G1 & Hu1).
  destruct (ul_carry keys Hu1 Hreq Hd) as (u2 & G2 & Hu2).
  destruct (IH _ _ Hu2) as (u' & first' & G & Hu'). exists u', first'. split; [|done].
  eauto using reaches_trans.
Qed.

(** The chunk that it is sending was built into a request. *)
Lemma sending_built u r :
  user_wf u → io_out (nt_client (us_net u)) = OutSend r →
  ∃ first path, create_write_request front sid (req_body r) first path = Ok r.
Proof.
  intros Hu Eo. destruct (base_client _ (no_base _ _ _ _ (user_net_ok keys _ Hu))) as ([Hp _] & _ & Hs & _).
  specialize (Hs _ Eo). rewrite last_lookup in Hs. destruct (Hp _ _ Hs) as (path & Hreq). eauto.
Qed.

(** Both pumps run, the connection is there and no operation is half done, the session's actor
    lives, the write request in progress can still succeed, and chunks can be counted. *)
Record healthy u (aid : nat) : Prop := {
  hl_task : ∃ i o, task_at (nt_client (us_net u)) i o;
  hl_ends : en_taken (us_ends u) = false ∧ en_aborted (us_ends u) = false ∧ en_op (us_ends u) = None;
  hl_actor : ∃ n, lives (nt_server (us_net u)) aid n;
  hl_post up : nt_post (us_net u) = Some up →
    ∃ pos acked, sys_requests (nt_server (us_net u)) !! up_rid up = Some (mkReq pos acked) ∧ post_alive aid pos;
  hl_sending r : io_out (nt_client (us_net u)) = OutSend r → fits (req_body r);
  hl_queue : Forall fits (req_queue (en_req (us_ends u)));
}.

Lemma ends_here u i o :
  user_wf u → task_at (nt_client (us_net u)) i o → en_taken (us_ends u) = false →
  en_aborted (us_ends u) = false → en_op (us_ends u) = None →
  ends_at (req_tx_open (en_req (us_ends u))) (us_ends u) (req_queue (en_req (us_ends u)))
    (resp_items (en_resp (us_ends u))) (en_fed (us_ends u)) (en_log (us_ends u)).
Proof.
  intros Hu Ht Hta Hab Hop. split; try done; [split; [done|]|by apply (uw_resp _ Hu)].
  rewrite (uw_rx _ Hu). unfold ended. rewrite (task_pending Ht).
  destruct Ht as (_ & _ & -> & _ & ->). done.
Qed.

(** The channel, the chunk being sent and the request in progress are emptied, in reverse order. *)
Lemma uplink_drains u aid :
  user_wf u → healthy u aid →
  ∃ u' lock i first, goes u u' ∧
    uploading (req_tx_open (en_req (us_ends u))) aid lock i (resp_items (en_resp (us_ends u))) (en_fed (us_ends u))
      u' [] None None (OutRecv first) [] (en_log (us_ends u)).
Proof.
  intros Hu [(i & o & Ht) (Hta & Hab & Hop) [n Hl] Hpost Hsend Hq].
  pose proof (ends_here Hu Ht Hta Hab Hop) as He.
  destruct (catch_up Hu Hl) as (u1 & lock & G1 & [Ee Ec Ep Hca] & Hsv).
  pose proof (goes_wf Hu G1) as Hu1. rewrite <- Ec in Ht, Hsend. rewrite <- Ep in Hpost.
  rewrite <- Ee in Hq, He |- *.
  assert (Hsent : ∃ u2 first, goes u1 u2 ∧ uploading (req_tx_open (en_req (us_ends u1))) aid lock i
    (resp_items (en_resp (us_ends u1))) (en_fed (us_ends u1)) u2 [] None None (OutRecv first)
    (req_queue (en_req (us_ends u1))) (en_log (us_ends u1))).
  { pose proof Ht as (_ & _ & Ho & _ & Hout). destruct (nt_post (us_net u1)) as [up|] eqn:Epost.
    - destruct (Hpost _ eq_refl) as (pos & acked & Hr & Hal). destruct (Hca _ _ Hr) as (pos' & Hans & Hr').
      simpl in Hr', Hans. assert (Hal' : post_alive aid pos') by (by destruct Hans).
      assert (Hup : uploading (req_tx_open (en_req (us_ends u1))) aid lock i (resp_items (en_resp (us_ends u1)))
        (en_fed (us_ends u1)) u1 [] None (Some (up, pos')) o (req_queue (en_req (us_ends u1))) (en_log (us_ends u1))).
      { split; try done. split; [done|]. split; [by eexists|].
        by apply (wf_ids _ (ro_wf _ _ (user_sys Hu1))) in Hr'. }
      destruct (finish_post Hu1 Hup Hal') as (u2 & G2 & Hu2); [by rewrite <- Ho|].
      eauto.
    - assert (Hup : uploading (req_tx_open (en_req (us_ends u1))) aid lock i (resp_items (en_resp (us_ends u1)))
        (en_fed (us_ends u1)) u1 [] None None o (req_queue (en_req (us_ends u1))) (en_log (us_ends u1))) by (by split).
      destruct o as [first|r|]; [exists u1, first; split; [apply reaches_refl|done]| |done].
      destruct (sending_built Hu1 Ho) as (first & path & Hreq).
      destruct (ul_carry keys Hup Hreq) as (u2 & G2 & Hu2); eauto. }
  destruct Hsent as (u2 & first & G2 & Hu2).
  destruct (queue_drains Hu2 Hq) as (u3 & first' & G3 & Hu3).
  exists u3, lock, i, first'. split; [|done]. eauto using reaches_trans.
Qed.

(** * What the responses brought *)

Lemma downlink_drains tx u i o q items fed log :
  task_at (nt_client (us_net u)) i o → ends_at tx (us_ends u) q items fed log →
  ∃ u' evs fed', goes u u' ∧ us_net u' = us_net u ∧ written_by evs = [] ∧
    ends_at tx (us_ends u') q [] fed' (log ++ evs) ∧ (fed' = false → unsent (nt_client (us_net u)) = []).
Proof.
  intros Ht He.
  destruct (read_all (front := front) (sid := sid) Ht He) as (u1 & evs & G1 & En & _ & Ew & He1).
  destruct fed; [by exists u1, evs, true|]. unfold unsent. pose proof Ht as (_ & -> & _).
  destruct i as [| | |item|]; try (by exists u1, evs, false). rewrite <- En in Ht.
  destruct (feed_ready (front := front) (sid := sid) Ht He1) as (u2 & G2 & En2 & He2).
  rewrite <- En2 in Ht.
  destruct (read_all (front := front) (sid := sid) Ht He2) as (u3 & evs3 & G3 & En3 & _ & Ew3 & He3).
  exists u3, (evs ++ evs3), true. split; [eauto using reaches_trans|]. split; [congruence|].
  split; [|by rewrite app_assoc].
  unfold written_by in *. by rewrite omap_app, Ew, Ew3.
Qed.

(** Responses never take back what they have brought. *)
Lemma taken_stays u u' : goes u u' → taken u `prefix_of` taken u'.
Proof.
  apply (reaches_invariant _ (λ x, taken u `prefix_of` taken x)); [|done].
  intros x l y Hx Hs%user_step_trans. destruct (net_step_of _ _ Hs) as [E|(rid & b & Hb)%brought_grows].
  - unfold taken. by rewrite E.
  - assert (Hb' : taken y = taken x ++ b) by exact (Hb (λ _, true)). rewrite Hb'. by apply prefix_app_r.
Qed.

(** C6. Nothing gets stuck. From every state that the system can reach in which the two pumps
    and the session's actor run, the write request in progress can still succeed and no operation
    of the user is half done - with chunks in the channel, a request at any of its await points,
    messages in the actor's mailbox or a write to the upstream in progress, frames of a response
    that nobody has read - there is a schedule by which all that the user wrote is given to the
    upstream and all that the responses have brought is read by the user, so that the pipe is empty. *)
Theorem pipe_drains ls u aid :
  run (user_step front sid) (user_init config) ls = Some u → healthy u aid →
  ∃ u', goes u u' ∧ pipe_of sid u' = pipe_empty ∧ user_wrote u' = user_wrote u ∧
    given sid u' = user_wrote u ∧ taken u `prefix_of` user_got u'.
Proof.
  intros Hu%user_run_wf Hh.
  destruct (uplink_drains Hu Hh) as (u1 & lock & i & first & G1 & [_ _ _ Ht He]).
  destruct (downlink_drains Ht He) as (u2 & evs & fed & G2 & En & Ew & [_ Hab _ Hfd Hlg Hq [_ Hrx] Hit _] & Hun).
  pose proof (reaches_trans _ _ _ _ G1 G2) as G. pose proof (goes_wf Hu G) as Hu2.
  rewrite <- En in Ht, Hun.
  destruct (up_in_pipe keys _ Hu2) as (up & Eup & Hup). destruct (Hup Hrx) as (part & Hpart & ->).
  destruct (down_in_pipe keys _ Hu2) as (down & Ed & Hdown). rewrite (Hdown Hab), Hit, Hfd in Ed.
  unfold sending in Hpart. destruct Ht as (_ & _ & Ho & _). rewrite Ho in Hpart.
  apply suffix_nil_inv in Hpart as ->.
  rewrite Hq in Eup. simpl in Eup. rewrite app_nil_r in Eup.
  replace (oks [] ++ (if fed then [] else unsent (nt_client (us_net u2)))) with (@nil Byte.byte) in Ed
    by (destruct fed; [done|by rewrite Hun]).
  rewrite app_nil_r in Ed.
  assert (Ewr : user_wrote u2 = user_wrote u).
  { unfold user_wrote. rewrite Hlg. unfold written_by in *. by rewrite omap_app, Ew, app_nil_r. }
  exists u2. split; [done|]. split; [|split; [done|split; [congruence|by rewrite <- Ed; apply taken_stays]]].
  unfold pipe_of. by rewrite Eup, Ed, !drop_all.
Qed.
End Drain.

(** * The theorem at work *)

Import Concrete ConcreteChannels.

(** The user's second chunk is half in the actor's mailbox and half on its way, the third is
    in the channel, and a frame that the client has got is not even in the channel. *)
Definition busy_dialog : list user_label :=
  demo_dialog ++
  (UNet <$> [NPost; NBody 3; NPoll (Ready (Ok hi)) true; NFrame 1]).
Definition busy_user : UserNet := final (user_step demo_front demo_sid) (user_init demo_config) busy_dialog.

Lemma busy_user_run : run (user_step demo_front demo_sid) (user_init demo_config) busy_dialog = Some busy_user.
Proof. unfold busy_user. apply run_final. by_vm. Qed.

Lemma busy_user_healthy : healthy (config := demo_config) (sid := demo_sid) busy_user 1.
Proof.
  split.
  - eexists _, _. split_and!; [by_vm|reflexivity|reflexivity|by_vm|by_vm].
  - split_and!; by_vm.
  - destruct (found (sys_actors (nt_server (us_net busy_user)) !! 1) (λ a, is_alive a && negb (ac_kill a) && negb (ac_stop a)) ltac:(by_vm))
      as (a & Ha & [[Hal Hkill%negb_true_iff]%andb_true_iff Hstop%negb_true_iff]%andb_true_iff).
    exists (backlog a). split; [by_vm|by_vm|by_vm|]. exists a. by split_and!.
  - intros up Hup. destruct (found (nt_post (us_net busy_user)) (λ up, up_rid up =? 7) ltac:(by_vm))
      as (up' & Hup' & E%Nat.eqb_eq).
    assert (up' = up) as <- by congruence. rewrite E.
    destruct (found (sys_requests (nt_server (us_net busy_user)) !! 7)
      (λ r, match rq_pos r with AtWrite k _ _ _ => k =? 1 | _ => false end) ltac:(by_vm)) as ([pos acked] & Hr & Hpos).
    exists pos, acked. split; [exact Hr|]. clear Hr. destruct pos; try discriminate Hpos. by apply Nat.eqb_eq.
  - intros r Hr. assert (Hf : match io_out (nt_client (us_net busy_user)) with
      | OutSend r => bool_decide (req_body r ≠ []) && (blen (req_body r) <? u64_modulus)%Z | _ => true end = true) by by_vm.
    rewrite Hr in Hf. apply andb_true_iff in Hf as [Hne%bool_decide_eq_true Hlt%Z.ltb_lt]. by split.
  - assert (Hq : req_queue (en_req (us_ends busy_user)) = [hi]) by by_vm. rewrite Hq. by repeat constructor.
Qed.

Lemma pipe_drains_witness :
  ∃ u', reaches (user_step demo_front demo_sid) busy_user u' ∧ pipe_of demo_sid u' = pipe_empty ∧
    user_wrote u' = user_wrote busy_user ∧ given demo_sid u' = user_wrote busy_user ∧
    taken busy_user `prefix_of` user_got u'.
Proof.
  apply (pipe_drains demo_keys demo_can_build busy_user_run busy_user_healthy).
Defined.
