(* ===== verification/Stdio.v ===== *)
(** The end of the program [domain_fronting_stdio]: [src/src/bin/domain_fronting_stdio.rs] relays
    between its connection and its standard streams with tokio's [copy_bidirectional].

    [copy_bidirectional] is not this repository's code: it is an interface here, a machine that is driven
    by what the operations on the two streams come to, with the laws that tokio documents.
    The theorem is about the program, its connection and the rest of the system. *)
From S2P Require Import Prelude Ext DomainFronting Stats State Session Server ServerSteps.
From S2P Require Import Scenario Client ClientProps Adaptors Connection.
From S2P Require Import Tunnel TunnelInv TunnelProps User UserInv Pipe PipeProps Fetch.

Section Stdio.
Context `{UuidLib, HttpLib, TryMutex, FuturesLib, RequestChannel, ResponseChannel, !HyperDisplay}.

(** * What is copied *)

(** An operation on the connection was polled, or one on [tokio::io::join(stdin(), stdout())] has
    returned. *)
Inductive copy_event : Type :=
| OnConn (e : OpEvent)
| StdinRead (res : result io_error bytes)
| StdoutWrite (buf : bytes) (res : result io_error nat)
| StdoutFlush (res : result io_error unit)
| StdoutShutdown (res : result io_error unit).

(** Why copying fails; an operation that panics unwinds the program. *)
Inductive CopyError : Type := CopyConn (e : ConnError) | CopyStd (e : io_error) | CopyWriteZero.

(** What was read from and written to each side. *)
Definition conn_events (evs : list copy_event) : list OpEvent :=
  omap (λ e, match e with OnConn e => Some e | _ => None end) evs.
Definition stdin_bytes (evs : list copy_event) : bytes :=
  concat (omap (λ e, match e with StdinRead (Ok d) => Some d | _ => None end) evs).
Definition stdout_bytes (evs : list copy_event) : bytes :=
  concat (omap (λ e, match e with StdoutWrite buf (Ok n) => Some (firstn n buf) | _ => None end) evs).
Definition conn_accepted (log : list OpEvent) : bytes :=
  concat (omap (λ e, match e with DidWrite buf (Returns (Ready (Ok n))) => Some (firstn n buf) | _ => None end) log).

(** An operation that failed. *)
Definition fails (e : copy_event) : Prop :=
  match e with
  | OnConn (DidRead _ o) => ∃ e, o = Returns (Ready (Err e))
  | OnConn (DidWrite _ o) => ∃ e, o = Returns (Ready (Err e))
  | OnConn (DidFlush o) | OnConn (DidShutdown o) => ∃ e, o = Returns (Ready (Err e))
  | StdinRead res => ∃ e, res = Err e
  | StdoutWrite _ res => ∃ e, res = Err e
  | StdoutFlush res | StdoutShutdown res => ∃ e, res = Err e
  end.

(** * [copy_bidirectional] *)

(** [cp_step] is [None] for an operation that it does not poll in that state. *)
Class CopyBidirectional := {
  copying : Type;
  cp_start : copying;
  cp_step : copying → copy_event → option copying;
  cp_result : copying → Poll (result CopyError (nat * nat));
}.

(** "Copies data in both directions [..] writing any data read to the opposing stream"; "if an EOF is
    observed on one stream, [shutdown()] will be invoked on the other"; "the future will complete
    successfully once both directions of communication has been shut down [..] when the reader reports
    EOF"; "will immediately return an error if any IO operation on [a] or [b] returns an error". *)
Class CopyLaws `{CopyBidirectional} : Prop := {
  cp_up evs st : run cp_step cp_start evs = Some st →
    conn_accepted (conn_events evs) `prefix_of` stdin_bytes evs;
  cp_down evs st : run cp_step cp_start evs = Some st →
    stdout_bytes evs `prefix_of` bytes_got (conn_events evs);
  cp_shutdown evs st o : run cp_step cp_start evs = Some st → OnConn (DidShutdown o) ∈ evs →
    StdinRead (Ok []) ∈ evs;
  cp_done evs st n m : run cp_step cp_start evs = Some st → cp_result st = Ready (Ok (n, m)) →
    eof_seen (conn_events evs) ∧ StdinRead (Ok []) ∈ evs ∧
    conn_accepted (conn_events evs) = stdin_bytes evs ∧ stdout_bytes evs = bytes_got (conn_events evs);
  cp_fails evs st e : run cp_step cp_start evs = Some st → e ∈ evs → fails e →
    ∃ err, cp_result st = Ready (Err err);
}.

(** * The program *)

(** [copy_bidirectional(&mut connection, &mut stdio).await?; Ok(())] *)
Definition stdio_end `{CopyBidirectional} (st : copying) : Poll (result CopyError unit) :=
  match cp_result st with
  | Pending => Pending
  | Ready (Err e) => Ready (Err e)
  | Ready (Ok _) => Ready (Ok ())
  end.

Context `{!UuidLaws, !HttpLaws, !TryMutexLaws, !FuturesLaws}.
Context `{!RequestChannelLaws, !ResponseChannelLaws}.
Implicit Types (u : UserNet).

(** Writes to the connection are whole. *)
Lemma accepted_written log : whole log → conn_accepted log = concat (written_by log).
Proof.
  intros Hw. unfold conn_accepted, written_by. f_equal.
  apply list_omap_ext, Forall_Forall2_diag, Forall_forall.
  intros [|buf [[|[n|]]|]| |] Hin; try done. by rewrite (Hw _ _ Hin), firstn_all.
Qed.

(** An error that was read is an operation that failed. *)
Lemma error_fails evs : error_seen (conn_events evs) → ∃ e, e ∈ evs ∧ fails e.
Proof.
  intros [e He]. unfold read_items in He.
  apply list_elem_of_In, in_concat in He as (l & Hl%list_elem_of_In & He%list_elem_of_In).
  apply list_elem_of_fmap in Hl as (ev & -> & Hev). apply list_elem_of_omap in Hev as (cev & Hin & Hc).
  destruct cev as [ev'| | | |]; simplify_eq. exists (OnConn ev). split; [done|].
  destruct ev as [cap [[|[d|[]]]|]| | |]; simpl in *; try by apply not_elem_of_nil in He.
  - by apply list_elem_of_fmap in He as (b & ? & _).
  - by eexists.
Qed.

Context `{!CopyBidirectional, !CopyLaws}.

(** C20. The program [domain_fronting_stdio] relays, and does not end. However the program, its
    standard streams, its connection and the rest of the system are scheduled: the upstream is given a
    prefix of what was read from the standard input, and what was written to the standard output is a
    prefix of what the responses brought; the connection is shut down only once the standard input
    has ended. If the program ends with success, then all that was read on either side was passed on,
    the standard input had ended - and the background task of the connection had failed: when the
    upstream just closes its connection the program goes on waiting. *)
Theorem stdio_relays config front sid key ls u evs st :
  keys_agree front config key → run (user_step front sid) (user_init config) ls = Some u →
  run cp_step cp_start evs = Some st → conn_events evs = en_log (us_ends u) →
  given sid u `prefix_of` stdin_bytes evs ∧ stdout_bytes evs `prefix_of` taken u ∧
  (shut_down (us_ends u) → StdinRead (Ok []) ∈ evs) ∧
  (stdio_end st = Ready (Ok ()) →
     user_wrote u = stdin_bytes evs ∧ stdout_bytes evs = user_got u ∧ StdinRead (Ok []) ∈ evs ∧
     ∃ e, io_result (nt_client (us_net u)) = Ready (Err e)).
Proof.
  intros Hk Hrun Hcp Hlog. pose proof (user_run_wf _ _ Hrun) as Hu.
  pose proof (accepted_written _ (whole_run _ _ _ _ _ Hrun)) as Hacc. rewrite <- Hlog in Hacc.
  assert (Hwrote : conn_accepted (conn_events evs) = user_wrote u) by (unfold user_wrote; by rewrite Hacc, Hlog).
  assert (Hgot : bytes_got (conn_events evs) = user_got u) by (unfold user_got; by rewrite Hlog).
  split; [|split; [|split]].
  - pose proof (cp_up _ _ Hcp) as Hup. rewrite Hwrote in Hup.
    destruct (up_in_pipe Hk _ Hu) as (rest & E & _). rewrite E in Hup.
    etransitivity; [by apply prefix_app_r|exact Hup].
  - pose proof (cp_down _ _ Hcp) as Hdown. rewrite Hgot in Hdown.
    destruct (down_in_pipe Hk _ Hu) as (rest & E & _). rewrite E. by apply prefix_app_r.
  - intros [o Ho]. rewrite <- Hlog in Ho. apply list_elem_of_omap in Ho as (ev & Hin & E).
    destruct ev; simplify_eq. by eapply cp_shutdown.
  - unfold stdio_end. destruct (cp_result st) as [|[[n m]|]] eqn:Hres; try done. intros _.
    destruct (cp_done _ _ _ _ Hcp Hres) as (Heof & Hin & Eup & Edown).
    rewrite Hwrote in Eup. rewrite Hgot in Edown. split; [done|]. split; [done|]. split; [done|].
    pose proof Heof as Heof'. rewrite Hlog in Heof'.
    destruct (eof_run _ _ _ _ _ Hrun Heof') as [Herr|?]; [|done].
    rewrite <- Hlog in Herr. apply error_fails in Herr as (e & He & Hf).
    destruct (cp_fails _ _ _ Hcp He Hf) as [err Herr]. congruence.
Qed.
End Stdio.

(** * A loop that copies *)

(** An implementation of the interface: one buffer for each direction. *)
Module ConcreteCopy.
Section Copy.
Context `{UuidLib, HttpLib, TryMutex, FuturesLib, RequestChannel, ResponseChannel, !HyperDisplay}.

Record copy_state : Type := mkCopy {
  c_up : bytes;                                  (* read from stdin, to be written *)
  c_down : bytes;                                (* read from the connection *)
  c_ends : bool * bool;                          (* stdin, the connection have ended *)
  c_shut : bool * bool;                          (* the connection, stdout were shut down *)
  c_counts : nat * nat;                          (* bytes written to them *)
  c_failed : option CopyError;
}.

Definition set_up (d : bytes) (n : nat) (st : copy_state) : copy_state :=
  mkCopy d (c_down st) (c_ends st) (c_shut st) ((c_counts st).1 + n, (c_counts st).2) (c_failed st).
Definition set_down (d : bytes) (n : nat) (st : copy_state) : copy_state :=
  mkCopy (c_up st) d (c_ends st) (c_shut st) ((c_counts st).1, (c_counts st).2 + n) (c_failed st).
Definition set_ends (x : bool * bool) (st : copy_state) : copy_state :=
  mkCopy (c_up st) (c_down st) x (c_shut st) (c_counts st) (c_failed st).
Definition set_shut (x : bool * bool) (st : copy_state) : copy_state :=
  mkCopy (c_up st) (c_down st) (c_ends st) x (c_counts st) (c_failed st).
Definition set_failed (e : CopyError) (st : copy_state) : copy_state :=
  mkCopy (c_up st) (c_down st) (c_ends st) (c_shut st) (c_counts st) (Some e).

(** What an operation on the connection came to; it fails, or panics, or [k] goes on. *)
Definition on_conn {A} (o : Outcome A) (st : copy_state) (k : A → copy_state) : option copy_state :=
  match o with
  | Returns Pending => Some st
  | Returns (Ready (Ok a)) => Some (k a)
  | Returns (Ready (Err e)) => Some (set_failed (CopyConn e) st)
  | Panics _ => None
  end.
Definition on_std {A} (res : result io_error A) (st : copy_state) (k : A → copy_state) : copy_state :=
  match res with Ok a => k a | Err e => set_failed (CopyStd e) st end.

Definition copy_running (st : copy_state) : bool :=
  match c_failed st with Some _ => false | None => negb ((c_shut st).1 && (c_shut st).2) end.

Definition copy_step (st : copy_state) (ev : copy_event) : option copy_state :=
  guard (copy_running st = true);;
  match ev with
  | StdinRead res =>
      guard (c_up st = [] ∧ (c_ends st).1 = false);;
      Some (on_std res st (λ d, match d with [] => set_ends (true, (c_ends st).2) st | _ => set_up d 0 st end))
  | OnConn (DidWrite buf o) =>
      guard (buf = c_up st ∧ buf ≠ []);;
      on_conn o st (λ n, if n =? 0 then set_failed CopyWriteZero st else set_up (skipn n buf) (length (firstn n buf)) st)
  | OnConn (DidShutdown o) =>
      guard (c_up st = [] ∧ (c_ends st).1 = true ∧ (c_shut st).1 = false);;
      on_conn o st (λ _, set_shut (true, (c_shut st).2) st)
  | OnConn (DidFlush o) => on_conn o st (λ _, st)
  | OnConn (DidRead cap o) =>
      guard (0 < cap ∧ c_down st = [] ∧ (c_ends st).2 = false);;
      on_conn o st (λ d, match d with [] => set_ends ((c_ends st).1, true) st | _ => set_down d 0 st end)
  | StdoutWrite buf res =>
      guard (buf = c_down st ∧ buf ≠ []);;
      Some (on_std res st (λ n, if n =? 0 then set_failed CopyWriteZero st
                                else set_down (skipn n buf) (length (firstn n buf)) st))
  | StdoutFlush res => Some (on_std res st (λ _, st))
  | StdoutShutdown res =>
      guard (c_down st = [] ∧ (c_ends st).2 = true ∧ (c_shut st).2 = false);;
      Some (on_std res st (λ _, set_shut ((c_shut st).1, true) st))
  end.

Definition copy_start : copy_state := mkCopy [] [] (false, false) (false, false) (0, 0) None.
Definition copy_result (st : copy_state) : Poll (result CopyError (nat * nat)) :=
  match c_failed st with
  | Some e => Ready (Err e)
  | None => if (c_shut st).1 && (c_shut st).2 then Ready (Ok (c_counts st)) else Pending
  end.

#[export] Instance copy_loop : CopyBidirectional := {|
  cp_start := copy_start;
  cp_step := copy_step;
  cp_result := copy_result;
|}.

Record copy_ok (evs : list copy_event) (st : copy_state) : Prop := {
  co_up : conn_accepted (conn_events evs) ++ c_up st = stdin_bytes evs;
  co_down : stdout_bytes evs ++ c_down st = bytes_got (conn_events evs);
  co_stdin : (c_ends st).1 = true → c_up st = [] ∧ StdinRead (Ok []) ∈ evs;
  co_conn : (c_ends st).2 = true → c_down st = [] ∧ eof_seen (conn_events evs);
  co_shut : (c_shut st).1 = true → (c_ends st).1 = true;
  co_shut_out : (c_shut st).2 = true → (c_ends st).2 = true;
  co_shut_ev o : OnConn (DidShutdown o) ∈ evs → (c_ends st).1 = true;
  co_fails e : e ∈ evs → fails e → is_Some (c_failed st);
}.

Lemma copy_ok_init : copy_ok [] copy_start.
Proof. split; try done; intros * Hin; by apply not_elem_of_nil in Hin. Qed.

Lemma conn_events_snoc evs e :
  conn_events (evs ++ [e]) = conn_events evs ++ match e with OnConn e => [e] | _ => [] end.
Proof. unfold conn_events. rewrite omap_app. by destruct e. Qed.
Lemma eof_snoc log log' : eof_seen log → eof_seen (log ++ log').
Proof. intros (cap & Hc & Hin). exists cap. split; [done|]. apply elem_of_app. by left. Qed.

(** What one event adds. *)
Lemma copy_adds evs e :
  conn_accepted (conn_events (evs ++ [e])) = conn_accepted (conn_events evs) ++
    match e with OnConn (DidWrite buf (Returns (Ready (Ok n)))) => firstn n buf | _ => [] end ∧
  stdin_bytes (evs ++ [e]) = stdin_bytes evs ++ match e with StdinRead (Ok d) => d | _ => [] end ∧
  stdout_bytes (evs ++ [e]) = stdout_bytes evs ++ match e with StdoutWrite buf (Ok n) => firstn n buf | _ => [] end ∧
  bytes_got (conn_events (evs ++ [e])) = bytes_got (conn_events evs) ++
    match e with OnConn (DidRead _ (Returns (Ready (Ok d)))) => d | _ => [] end.
Proof.
  rewrite conn_events_snoc. unfold conn_accepted, stdin_bytes, stdout_bytes, bytes_got, read_items.
  rewrite !omap_app, fmap_app, !concat_app, oks_app.
  destruct e as [[cap [[|[d|[]]]|]|buf [[|[n|]]|]| |]|[]|buf []| |]; simpl; rewrite ?app_nil_r; try done.
  by rewrite oks_bytes.
Qed.

(** What an event adds, in a state whose flags say at least what they said. *)
Lemma copy_ok_snoc evs st e st' :
  copy_ok evs st →
  conn_accepted (conn_events (evs ++ [e])) ++ c_up st' = stdin_bytes (evs ++ [e]) →
  stdout_bytes (evs ++ [e]) ++ c_down st' = bytes_got (conn_events (evs ++ [e])) →
  ((c_ends st').1 = true → c_up st' = [] ∧ ((c_ends st).1 = true ∨ e = StdinRead (Ok []))) →
  ((c_ends st').2 = true → c_down st' = [] ∧
     ((c_ends st).2 = true ∨ ∃ cap, 0 < cap ∧ e = OnConn (DidRead cap (Returns (Ready (Ok [])))))) →
  ((c_shut st').1 = true → (c_ends st').1 = true) → ((c_shut st').2 = true → (c_ends st').2 = true) →
  ((c_ends st).1 = true → (c_ends st').1 = true) →
  (∀ o, e = OnConn (DidShutdown o) → (c_ends st').1 = true) →
  (is_Some (c_failed st) ∨ fails e → is_Some (c_failed st')) → copy_ok (evs ++ [e]) st'.
Proof.
  intros [_ _ Hi Hc _ _ Hev Hf] Hup Hdown Hi' Hc' Hs1 Hs2 Hmono Hsh Hfe. split; try done.
  - intros Hx. destruct (Hi' Hx) as [Hn [Hold| ->]]; (split; [done|]).
    + apply elem_of_app. left. by apply Hi.
    + apply elem_of_app. right. by apply list_elem_of_singleton.
  - intros Hx. rewrite conn_events_snoc. destruct (Hc' Hx) as [Hn [Hold|(cap & Hcap & ->)]]; (split; [done|]).
    + by apply eof_snoc, Hc.
    + exists cap. split; [done|]. apply elem_of_app. right. by apply list_elem_of_singleton.
  - intros o [Hin|Hin%list_elem_of_singleton]%elem_of_app; eauto.
  - intros x [Hin|Hin%list_elem_of_singleton]%elem_of_app Hx; subst; eauto.
Qed.

Lemma copy_ok_step evs st e st' : copy_ok evs st → copy_step st e = Some st' → copy_ok (evs ++ [e]) st'.
Proof.
  intros Hok Hs. pose proof Hok as [Hup Hdown Hi Hc Hs1 Hs2 _ _].
  unfold copy_step in Hs. apply bind_Some in Hs as (Hrun & _ & Hs).
  assert (Hnf : ¬ is_Some (c_failed st)).
  { intros [x Hx]. unfold copy_running in Hrun. by rewrite Hx in Hrun. }
  destruct (copy_adds evs e) as (E1 & E2 & E3 & E4).
  destruct st as [up down [i c] [s1 s2] [n m] f]. simpl in *.
  destruct e as [[cap [[|[[|b d]|x]]|]|buf [[|[[|k]|x]]|]|[[|[|x]]|]|[[|[|x]]|]]|[[|b d]|x]|buf [[|k]|x]|[|x]|[|x]];
    unbind Hs; try done; simplify_eq/=; destruct_and?; subst; rewrite ?app_nil_r in *.
  all: apply (copy_ok_snoc _ _ _ _ Hok); simpl; rewrite ?E1, ?E2, ?E3, ?E4, ?app_nil_r; try done; eauto.
  all: try (rewrite <- app_assoc, take_drop; done).
  all: try (intros [?|[]]; done).
  all: try (by rewrite ?Hup, ?Hdown).
  all: intros E; first [destruct (Hi E) as [-> _]|destruct (Hc E) as [-> _]]; rewrite ?drop_nil; by auto.
Qed.

Lemma copy_run_ok evs st : run copy_step copy_start evs = Some st → copy_ok evs st.
Proof. revert evs st. apply (run_ind_r copy_step copy_ok); [apply copy_ok_init|].
  eauto using copy_ok_step. Qed.

#[export] Instance copy_loop_laws : CopyLaws.
Proof.
  split; cbn [cp_step cp_start cp_result copy_loop copying]; intros evs st; intros *; intros Hok%copy_run_ok.
  - rewrite <- (co_up _ _ Hok). by apply prefix_app_r.
  - rewrite <- (co_down _ _ Hok). by apply prefix_app_r.
  - intros Hin%(co_shut_ev _ _ Hok). by apply (co_stdin _ _ Hok).
  - unfold copy_result. destruct (c_failed st) as [|]; [done|].
    destruct (c_shut st) as [[] []] eqn:Es; try done. intros _.
    destruct (co_stdin _ _ Hok) as [Eu Hin]; [apply (co_shut _ _ Hok); by rewrite Es|].
    destruct (co_conn _ _ Hok) as [Ed Heof]; [apply (co_shut_out _ _ Hok); by rewrite Es|].
    pose proof (co_up _ _ Hok) as Hup. pose proof (co_down _ _ Hok) as Hdown.
    rewrite Eu, app_nil_r in Hup. rewrite Ed, app_nil_r in Hdown. done.
  - intros Hin Hf. destruct (co_fails _ _ Hok _ Hin Hf) as [err Herr]. exists err. unfold copy_result.
    by rewrite Herr.
Qed.
End Copy.
End ConcreteCopy.

(** * The theorem at work *)

Import Concrete ConcreteChannels ConcreteCopy.

(** A message and the answer to it are copied, the standard input ends, and the connection to the
    front breaks while the next read is polled. *)
Definition demo_stdio_run : list user_label :=
  poll (OpWrite hi) ++
  (UNet <$> [NClient (IoRecv (Some hi) 1%N); NPost; NServer (LStart 1); NServer (LConnected 1 (Ok ()));
    NBody 2; NServer (LDeliver 1 0); NServer (LWritten 1 WriteOk true); NServer (LResume 0);
    NBodyEnd; NPostDone; NClient (IoGet 2%N); NGet; NServer (LResume 5); NServer (LDeliver 1 1);
    NServer (LResume 5); NHead; NPoll (Ready (Ok there)) true; NFrame 5]) ++
  [UFeed] ++ poll (OpRead 32) ++ poll OpShutdown ++
  [UNet (NClient (IoSent true)); UBegin (OpRead 32);
   UNet (NClient (IoConn (Err (Hyper "connection reset"%string)))); UEnd].
Definition demo_copied : UserNet :=
  final (user_step demo_front demo_sid) (user_init demo_config) demo_stdio_run.

Definition demo_copy : list copy_event :=
  [StdinRead (Ok hi); OnConn (DidWrite hi (Returns (Ready (Ok 2))));
   OnConn (DidRead 32 (Returns (Ready (Ok there)))); StdinRead (Ok []);
   OnConn (DidShutdown (Returns (Ready (Ok ())))); StdoutWrite there (Ok 5);
   OnConn (DidRead 32 (Returns (Ready (Ok [])))); StdoutShutdown (Ok ())].
Definition demo_copy_end : copying := final cp_step cp_start demo_copy.

Lemma stdio_relays_witness :
  stdio_end demo_copy_end = Ready (Ok ()) ∧ given demo_sid demo_copied `prefix_of` hi ∧
  there `prefix_of` taken demo_copied ∧ user_wrote demo_copied = hi ∧ user_got demo_copied = there ∧
  ∃ e, io_result (nt_client (us_net demo_copied)) = Ready (Err e).
Proof.
  destruct (stdio_relays demo_config demo_front demo_sid _ demo_stdio_run demo_copied demo_copy demo_copy_end demo_keys
    (run_final (user_step demo_front demo_sid) (user_init demo_config) demo_stdio_run ltac:(by_vm))
    (run_final cp_step cp_start demo_copy ltac:(by_vm)) ltac:(by_vm)) as (Hup & Hdown & _ & Hend).
  split; [by_vm|]. split; [exact Hup|]. split; [exact Hdown|].
  destruct (Hend ltac:(by_vm)) as (Ew & Er & _ & He). split; [exact Ew|].
  split; [symmetry; exact Er|exact He].
Defined.
