(* ===== verification/Crowd.v ===== *)
(** Several clients of one server.

    [Tunnel] describes the server from the side of one client, and lets the rest of the world take
    any step that does not concern its session. Here the rest of the world are clients too:
    each of them is a [UserNet] of its own, with its own session identifier, and all see the
    same server, since the steps that one client makes at the server are steps of the rest of the
    world for every other one. *)
From S2P Require Import Prelude Ext DomainFronting Stats State Session Server ServerSteps.
From S2P Require Import ServerInv PendingInv Invariant Routing Delivery Reading Scenario.
From S2P Require Import Client ClientProps Adaptors Connection Tunnel TunnelInv TunnelProps User UserInv Pipe PipeProps.

Section Crowd.
Context `{UuidLib, HttpLib, TryMutex, FuturesLib, RequestChannel, ResponseChannel, !HyperDisplay}.
Context `{!UuidLaws, !HttpLaws, !TryMutexLaws, !FuturesLaws}.
Context `{!RequestChannelLaws, !ResponseChannelLaws}.
Context (config : Config).
Implicit Types (net : Net) (u v : UserNet).

(** A client: its configuration, its session and its state. *)
Record Member : Type := mkMember { mb_front : DomainFronting; mb_sid : Uuid; mb_user : UserNet }.
Implicit Types (m : Member) (c : gmap nat Member).

Definition with_user (u : UserNet) (m : Member) : Member := mkMember (mb_front m) (mb_sid m) u.
Definition member_step (m : Member) (l : user_label) : option Member :=
  u ← user_step (mb_front m) (mb_sid m) (mb_user m) l; Some (with_user u m).
Definition server_of (m : Member) : Sys := nt_server (us_net (mb_user m)).

(** The step of the server that is part of a step of the network. *)
Definition server_label (l : net_label) net : option label :=
  match l with
  | NServer l => Some l
  | NPost => match io_out (nt_client net) with OutSend r => Some (LRequest (req_head r)) | _ => None end
  | NGet => match io_in (nt_client net) with InSend r => Some (LRequest (req_head r)) | _ => None end
  | NBody n => up ← nt_post net; Some (LBody (up_rid up) (Some (Ok (firstn n (up_rest up)))))
  | NBodyEnd => up ← nt_post net; Some (LBody (up_rid up) None)
  | NBodyErr e => up ← nt_post net; Some (LBody (up_rid up) (Some (Err e)))
  | NPoll read room =>
      dn ← nt_get net; resp ← response_to (dn_rid dn) (nt_server net);
      stid ← body_stream resp; Some (LPoll stid read room)
  | NDropBody stid => Some (LDropStream stid)
  | _ => None
  end.
Definition label_of (l : user_label) u : option label :=
  match l with UNet l => server_label l (us_net u) | _ => None end.

(** The client [i] makes a step. If it is one at the server, all see it. *)
Definition watches (sl : label) (i j : nat) (m : Member) : option Member :=
  if decide (j = i) then Some m else member_step m (UNet (NServer sl)).
Definition crowd_step c (l : nat * user_label) : option (gmap nat Member) :=
  let (i, l) := l in
  m ← c !! i;
  m' ← member_step m l;
  match label_of l (mb_user m) with
  | None => Some (<[i := m']> c)
  | Some sl =>
      guard (map_Forall (λ j x, is_Some (watches sl i j x)) c);;
      Some (<[i := m']> (map_imap (watches sl i) c))
  end.

(** New clients of a new server. *)
Definition crowd_init (clients : list (DomainFronting * Uuid)) : gmap nat Member :=
  list_to_map (imap (λ i cl, (i, mkMember cl.1 cl.2 (user_init config))) clients).

(** * Every client is a client of [Tunnel] *)

Lemma label_server l net net' front sid :
  net_step front sid net l = Some net' →
  match server_label l net with
  | None => nt_server net' = nt_server net ∧ nt_sess net' = nt_sess net
  | Some sl => step (nt_server net) sl = Some (nt_server net') ∧
      nt_sess net' = sess_step (nt_sess net) (nt_server net) sl
  end.
Proof.
  intros Hs. destruct l; net_cases Hs; simpl; try done.
  all: repeat match goal with
         | Hx : ?x = Some _ |- context [?x] => rewrite Hx; simpl
         | Hx : ?x = _ |- context [match ?x with _ => _ end] => rewrite Hx; simpl
         end; try done.
  all: try by case_decide.
  cbn [step] in *. by match goal with Hx : poll_next _ _ _ _ = Some (_, ?s), Hy : snd <$> _ = Some _ |- _ =>
    rewrite Hx in Hy; simplify_eq/= end.
Qed.

Lemma member_step_inv m l m' :
  member_step m l = Some m' → mb_front m' = mb_front m ∧ mb_sid m' = mb_sid m ∧
  user_step (mb_front m) (mb_sid m) (mb_user m) l = Some (mb_user m').
Proof. unfold member_step. intros Hs. by apply bind_Some in Hs as (u & Hu & [= <-]). Qed.

(** A step of a client as the server and the table of sessions see it. *)
Lemma user_server u l u' front sid :
  user_step front sid u l = Some u' →
  match label_of l u with
  | None => nt_server (us_net u') = nt_server (us_net u) ∧ nt_sess (us_net u') = nt_sess (us_net u)
  | Some sl => step (nt_server (us_net u)) sl = Some (nt_server (us_net u')) ∧
      nt_sess (us_net u') = sess_step (nt_sess (us_net u)) (nt_server (us_net u)) sl
  end.
Proof.
  destruct l as [l| |op| |]; simpl.
  - unfold user_net. intros Hs. apply bind_Some in Hs as (net & Hn & Hs). apply label_server in Hn.
    destruct (task_label l _); [unbind Hs|]; by simplify_eq.
  - intros Hs. unbind Hs. by simplify_eq.
  - intros Hs. unbind Hs. by simplify_eq.
  - intros Hs. unbind Hs. by simplify_eq.
  - intros Hs. unbind Hs. by simplify_eq.
Qed.

(** * The invariant *)

Context (clients : list (DomainFronting * Uuid)).

Record crowd_wf c : Prop := {
  cw_run i m : c !! i = Some m → clients !! i = Some (mb_front m, mb_sid m) ∧
    ∃ ls, run (user_step (mb_front m) (mb_sid m)) (user_init config) ls = Some (mb_user m);
  cw_same i j m m' : c !! i = Some m → c !! j = Some m' →
    server_of m = server_of m' ∧ nt_sess (us_net (mb_user m)) = nt_sess (us_net (mb_user m'));
}.

Lemma crowd_wf_init : crowd_wf (crowd_init clients).
Proof.
  assert (Hl : ∀ i m, crowd_init clients !! i = Some m →
            ∃ cl, clients !! i = Some cl ∧ m = mkMember cl.1 cl.2 (user_init config)).
  { intros i m Hm%elem_of_list_to_map_2. apply elem_of_lookup_imap in Hm as (j & cl & [= <- ->] & Hj). eauto. }
  split.
  - intros i m (cl & Hcl & ->)%Hl. simpl. split; [by rewrite Hcl; destruct cl|]. by exists [].
  - intros i j m m' (cl & _ & ->)%Hl (cl' & _ & ->)%Hl. done.
Qed.

Lemma run_member m l m' :
  member_step m l = Some m' →
  (∃ ls, run (user_step (mb_front m) (mb_sid m)) (user_init config) ls = Some (mb_user m)) →
  ∃ ls, run (user_step (mb_front m') (mb_sid m')) (user_init config) ls = Some (mb_user m').
Proof.
  intros (Ef & Es & Hs)%member_step_inv [ls Hls]. rewrite Ef, Es. exists (ls ++ [l]). by eapply run_snoc.
Qed.

(** The others, after a step of [i]. *)
Lemma watches_inv sl i j m m' :
  watches sl i j m = Some m' → j ≠ i → member_step m (UNet (NServer sl)) = Some m'.
Proof. unfold watches. intros Hw Hne. by rewrite decide_False in Hw. Qed.

Lemma crowd_wf_step c l c' : crowd_wf c → crowd_step c l = Some c' → crowd_wf c'.
Proof.
  intros Hc Hs. destruct l as [i l]. unfold crowd_step in Hs.
  apply bind_Some in Hs as (m & Hm & Hs). apply bind_Some in Hs as (m' & Hm' & Hs).
  pose proof (member_step_inv _ _ _ Hm') as (Ef & Es & Hstep). pose proof (user_server _ _ _ _ _ Hstep) as Hsrv.
  destruct (cw_run _ Hc _ _ Hm) as [Hcl Hrun]. pose proof (run_member _ _ _ Hm' Hrun) as Hrun'.
  assert (Hall : ∀ j x', c' !! j = Some x' →
    j = i ∧ x' = m' ∨ ∃ x, c !! j = Some x ∧ mb_front x' = mb_front x ∧ mb_sid x' = mb_sid x ∧
      (∃ ls, run (user_step (mb_front x') (mb_sid x')) (user_init config) ls = Some (mb_user x')) ∧
      server_of x' = server_of m' ∧ nt_sess (us_net (mb_user x')) = nt_sess (us_net (mb_user m'))).
  { intros j x' Hj. destruct (label_of l (mb_user m)) as [sl|] eqn:El.
    - unbind Hs. simplify_eq. apply lookup_insert_Some in Hj as [[<- <-]|[Hne Hj]]; [by left|right].
      rewrite map_lookup_imap in Hj. apply bind_Some in Hj as (y & Hy & Hw).
      apply watches_inv in Hw; [|done]. exists y. split; [done|].
      destruct (cw_run _ Hc _ _ Hy) as [_ Hry]. destruct (cw_same _ Hc _ _ _ _ Hm Hy) as [E1 E2].
      pose proof (member_step_inv _ _ _ Hw) as (Efy & Esy & Hsy).
      split; [done|]. split; [done|]. split; [by eapply run_member|].
      apply user_server in Hsy. simpl in Hsy. unfold server_of in *. rewrite <- E1, <- E2 in Hsy.
      destruct Hsrv as [Hs1 ->], Hsy as [Hs2 ->]. split; congruence.
    - simplify_eq. apply lookup_insert_Some in Hj as [[<- <-]|[Hne Hj]]; [by left|right].
      destruct (cw_run _ Hc _ _ Hj) as [_ Hrx]. destruct (cw_same _ Hc _ _ _ _ Hm Hj) as [E1 E2].
      exists x'. unfold server_of in *. destruct Hsrv as [-> ->]. auto 10. }
  split.
  - intros j x' [[-> ->]|(x & Hx & -> & -> & Hr & _)]%Hall; [split; [by rewrite Ef, Es|done]|].
    split; [|done]. apply (cw_run _ Hc _ _ Hx).
  - intros j k x y Hx Hy.
    assert (Hto : ∀ j x', c' !! j = Some x' → server_of x' = server_of m' ∧
              nt_sess (us_net (mb_user x')) = nt_sess (us_net (mb_user m'))).
    { intros j' x' [[_ ->]|(_ & _ & _ & _ & _ & E)]%Hall; done. }
    destruct (Hto _ _ Hx) as [-> ->], (Hto _ _ Hy) as [-> ->]. done.
Qed.

Lemma crowd_run_wf ls c : run crowd_step (crowd_init clients) ls = Some c → crowd_wf c.
Proof.
  apply (run_invariant crowd_step crowd_wf); [|apply crowd_wf_init]. intros *. apply crowd_wf_step.
Qed.

(** * The clients do not get in each other's way *)

(** The step of the server belongs to the session [sid]. *)
Definition concerns (sid : Uuid) net (sl : label) : Prop :=
  match sl with
  | LRequest head => parse_session_id (sys_config (nt_server net)) head = Some sid
  | LBody rid _ => nt_sess net !! rid = Some sid
  | LPoll k _ _ | LDropStream k =>
      ∃ st, sys_streams (nt_server net) !! k = Some st ∧ nt_sess net !! st_req st = Some sid
  | _ => False
  end.

Lemma concerns_foreign sid sid' net net' sl :
  concerns sid net sl → sid' ≠ sid → nt_server net' = nt_server net → nt_sess net' = nt_sess net →
  foreign sid' net' sl = true.
Proof.
  intros Hc Hne Es Et. unfold concerns in Hc. destruct sl; try done; simpl.
  - rewrite Es, Hc. apply bool_decide_eq_true. congruence.
  - unfold is_own. rewrite Et, Hc. rewrite bool_decide_false; [done|congruence].
  - destruct Hc as (st & Hst & Hr). unfold own_stream, is_own. rewrite Es, Hst, Et, Hr.
    rewrite bool_decide_false; [done|congruence].
  - destruct Hc as (st & Hst & Hr). unfold own_stream, is_own. rewrite Es, Hst, Et, Hr.
    rewrite bool_decide_false; [done|congruence].
Qed.

(** What a client does at the server by itself concerns its own session. *)
Lemma own_concerns front sid key net l sl net' :
  keys_agree front config key → net_ok config front sid net →
  net_step front sid net l = Some net' → server_label l net = Some sl → (∀ k, l ≠ NServer k) →
  concerns sid net sl.
Proof.
  intros Hk [Hb Hi _ _ _] Hs Hl Hown.
  assert (Hpost : ∀ up, nt_post net = Some up → nt_sess net !! up_rid up = Some sid).
  { intros up Hup. apply (iw_own _ Hi), elem_of_app. left.
    pose proof (iw_post _ Hi _ Hup) as Hlast. by apply last_Some_elem_of in Hlast. }
  assert (Hget : ∀ dn, nt_get net = Some dn → nt_sess net !! dn_rid dn = Some sid).
  { intros dn Hdn. apply (iw_own _ Hi), elem_of_app. right. unfold get_rids. rewrite Hdn. set_solver. }
  destruct l; simpl in Hl; try done.
  - by destruct (Hown l).
  - destruct (io_out (nt_client net)) as [|r|] eqn:Eo; simplify_eq. simpl. rewrite (base_config _ Hb).
    by eapply post_session.
  - apply bind_Some in Hl as (up & Hup & [= <-]). simpl. auto.
  - apply bind_Some in Hl as (up & Hup & [= <-]). simpl. auto.
  - apply bind_Some in Hl as (up & Hup & [= <-]). simpl. auto.
  - destruct (io_in (nt_client net)) as [|r| | |] eqn:Ei; simplify_eq. simpl. rewrite (base_config _ Hb).
    by eapply get_session.
  - apply bind_Some in Hl as (dn & Hdn & Hl). apply bind_Some in Hl as (resp & Hresp & Hl).
    apply bind_Some in Hl as (k & Hk' & [= <-]). simpl.
    pose proof (ro_granted _ _ (base_run_ok _ Hb)) as Hg.
    unfold response_to in Hresp. apply bind_Some in Hresp as (r & Hr & Hp).
    destruct (rq_pos r) eqn:Ep; simplify_eq. unfold body_stream in Hk'.
    destruct (rs_body _) as [|k'] eqn:Eb; simplify_eq.
    destruct (gr_given _ Hg _ _ k Hr) as (st & Hst & E); [unfold rq_stream; by rewrite Ep, Eb|].
    exists st. split; [done|]. rewrite E. auto.
  - simplify_eq. net_cases Hs. simpl. eexists. split; [done|].
    match goal with Hx : is_own _ _ _ = true |- _ => exact (bool_decide_eq_true_1 _ Hx) end.
Qed.

(** Clients with different session identifiers do not hinder each other: whatever a client can
    do by itself, it can do among the other clients, in every state they can reach together. So the
    assumption of [Tunnel], that the rest of the world leaves the session of a client alone, is met
    by a rest of the world that consists of clients. *)
Lemma clients_unhindered key ls c i m l m' :
  (∀ i cl, clients !! i = Some cl → keys_agree cl.1 config key) →
  NoDup clients.*2 →
  run crowd_step (crowd_init clients) ls = Some c → c !! i = Some m →
  (∀ sl, l ≠ UNet (NServer sl)) → member_step m l = Some m' →
  ∃ c', crowd_step c (i, l) = Some c' ∧ c' !! i = Some m'.
Proof.
  intros Hk Hnd Hrun Hm Hown Hs. pose proof (crowd_run_wf _ _ Hrun) as Hc.
  unfold crowd_step. rewrite Hm. simpl. rewrite Hs. simpl.
  destruct (label_of l (mb_user m)) as [sl|] eqn:El.
  2:{ eexists. split; [done|]. by rewrite lookup_insert_eq. }
  destruct (cw_run _ Hc _ _ Hm) as [Hcl [us Hus]].
  pose proof (member_step_inv _ _ _ Hs) as (_ & _ & Hstep).
  pose proof (user_server _ _ _ _ _ Hstep) as Hsrv. rewrite El in Hsrv. destruct Hsrv as [Hsrv _].
  destruct l as [l| | | |]; try done. simpl in El, Hstep.
  unfold user_net in Hstep. apply bind_Some in Hstep as (net & Hnet & _).
  assert (Hcon : concerns (mb_sid m) (us_net (mb_user m)) sl).
  { specialize (Hk _ _ Hcl). simpl in Hk. eapply own_concerns; [done| |done|done|].
    - by eapply user_net_ok, user_run_wf.
    - intros k ->. by eapply Hown. }
  rewrite guard_pass.
  { eexists. split; [done|]. by rewrite lookup_insert_eq. }
  intros j x Hx. unfold watches. case_decide as Hji; [eauto|].
  destruct (cw_run _ Hc _ _ Hx) as [Hclx _]. destruct (cw_same _ Hc _ _ _ _ Hm Hx) as [E1 E2].
  assert (Hne : mb_sid x ≠ mb_sid m).
  { intros E. apply Hji. eapply (NoDup_lookup clients.*2); [done| |]; rewrite list_lookup_fmap.
    - by rewrite Hclx.
    - rewrite Hcl. simpl. by rewrite E. }
  unfold member_step. simpl. unfold user_net, server_of in *. simpl.
  rewrite guard_pass by (eapply concerns_foreign; [exact Hcon|done..]). unfold serve.
  rewrite <- E1, Hsrv. simpl. eauto.
Qed.

(** C8. Each of several clients has its pipe to itself. At the server that all of them use, the
    connections of a client's session are given a prefix of what this client wrote, and this client
    reads what was read from those connections, each of which serves no other session. *)
Theorem clients_isolated key ls c i m :
  (∀ i cl, clients !! i = Some cl → keys_agree cl.1 config key) →
  run crowd_step (crowd_init clients) ls = Some c → c !! i = Some m →
  given (mb_sid m) (mb_user m) `prefix_of` user_wrote (mb_user m) ∧
  user_got (mb_user m) `prefix_of` concat (pieces (us_net (mb_user m))).*2 ∧
  (∀ aid, pieces_of aid (us_net (mb_user m)) `prefix_of` bytes_read aid (server_of m)) ∧
  ∀ j m', c !! j = Some m' →
    server_of m' = server_of m ∧
    (mb_sid m' ≠ mb_sid m → ∀ aid b b', (aid, b) ∈ pieces (us_net (mb_user m)) →
       (aid, b') ∉ pieces (us_net (mb_user m'))).
Proof.
  intros Hk Hrun Hm. pose proof (crowd_run_wf _ _ Hrun) as Hc.
  assert (Hof : ∀ j x, c !! j = Some x → ∃ us, keys_agree (mb_front x) config key ∧
    run (user_step (mb_front x) (mb_sid x)) (user_init config) us = Some (mb_user x)).
  { intros j x Hx. destruct (cw_run _ Hc _ _ Hx) as [Hcl [us Hus]]. exists us. split; [|done].
    by apply (Hk _ _ Hcl). }
  destruct (Hof _ _ Hm) as (us & Hkm & Hus).
  pose proof (user_run_wf _ _ Hus) as Hu. destruct (up_in_pipe Hkm _ Hu) as (rest & Ew & _).
  destruct (downlink _ _ _ _ _ Hkm Hu) as ((rest' & Ed & _) & Hserves & Hpieces).
  split; [rewrite Ew; by eexists|]. split; [rewrite Ed; by eexists|]. split; [done|].
  intros j x Hx. destruct (cw_same _ Hc _ _ _ _ Hx Hm) as [E _]. split; [done|].
  intros Hne aid b b' Hb Hb'. destruct (Hof _ _ Hx) as (us' & Hkx & Hus').
  destruct (downlink _ _ _ _ _ Hkx (user_run_wf _ _ Hus')) as (_ & Hserves' & _).
  apply Hne. unfold server_of in E. apply Hserves in Hb. apply Hserves' in Hb'. rewrite E in Hb'.
  by eapply serves_fun.
Qed.
End Crowd.

(** * The theorems at work *)

Import ConcreteChannels.

(** Two clients: the first one sends a chunk and reads what comes back, as in [demo_dialog]; the
    second one has written a chunk that is on its way. *)
Definition demo_clients : list (DomainFronting * Uuid) := [(demo_front, 7%N); (demo_front, 8%N)].
Definition demo_crowd_run : list (nat * user_label) :=
  ((λ l, (0, l)) <$> demo_dialog) ++
  ((λ l, (1, l)) <$> poll (OpWrite there) ++ (UNet <$> [NClient (IoRecv (Some there) 5%N); NPost; NBody 3])).
Definition demo_crowd : gmap nat Member :=
  final crowd_step (crowd_init demo_config demo_clients) demo_crowd_run.
Definition demo_member (i : nat) : Member :=
  default (mkMember demo_front 7%N (user_init demo_config)) (demo_crowd !! i).

Lemma demo_crowd_ran : run crowd_step (crowd_init demo_config demo_clients) demo_crowd_run = Some demo_crowd.
Proof. exact (run_final crowd_step (crowd_init demo_config demo_clients) demo_crowd_run ltac:(by_vm)). Qed.

Lemma demo_member_at i : bool_decide (is_Some (demo_crowd !! i)) = true → demo_crowd !! i = Some (demo_member i).
Proof. intros [m Hm]%bool_decide_eq_true. unfold demo_member. by rewrite Hm. Qed.

Lemma demo_clients_keys i cl : demo_clients !! i = Some cl → keys_agree cl.1 demo_config "x-session".
Proof. destruct i as [|[|i]]; intros Hcl; simplify_eq/=; exact demo_keys. Qed.

Lemma clients_isolated_witness :
  user_got (mb_user (demo_member 0)) = there ∧ given 7%N (mb_user (demo_member 0)) = hi ∧
  user_wrote (mb_user (demo_member 1)) = there ∧
  given 8%N (mb_user (demo_member 1)) `prefix_of` user_wrote (mb_user (demo_member 1)) ∧
  server_of (demo_member 1) = server_of (demo_member 0).
Proof.
  split; [by_vm|]. split; [by_vm|]. split; [by_vm|].
  assert (Esid : mb_sid (demo_member 1) = 8%N) by by_vm.
  destruct (clients_isolated demo_config demo_clients _ demo_crowd_run demo_crowd 1 (demo_member 1)
    demo_clients_keys demo_crowd_ran (demo_member_at 1 ltac:(by_vm))) as (Hg & _ & _ & Hsame).
  rewrite Esid in Hg. split; [exact Hg|]. symmetry.
  apply (Hsame 0 (demo_member 0)). exact (demo_member_at 0 ltac:(by_vm)).
Defined.
