(* ===== verification/ServerMain.v ===== *)
(** The program [domain_fronting_server]: [main] of [src/src/bin/domain_fronting_server.rs], from its
    arguments to its accept loop, together with the server it runs.

    [Bins] has the parts: the TLS configuration, the server's configuration and when a report is
    due. Here they are put together: how the program starts and in which order it can fail, and then
    the loop, the tasks it spawns for its connections, and the server ([Server]) that all of
    them share, as one transition system. *)
From S2P Require Import Prelude Ext DomainFronting Stats State Session Server ServerSteps Invariant.
From S2P Require Import ServerInv BodyInv ConfigInv Routing Client TlsStream Bins Scenario.
From stdpp Require Import pretty.

(** * The address to listen on *)

(** [char::to_digit(10)] *)
Definition to_digit (c : Ascii.ascii) : option N :=
  let n := Ascii.N_of_ascii c in
  if bool_decide (48 ≤ n ≤ 57)%N then Some (n - 48)%N else None.

(** The loops of [Parser::read_number] in [core::net]: the digits at the front of [s], with an upper
    limit on their number or with an overflow check; how many there are, their value, and the rest.
    [None] is a failure. *)
Fixpoint read_digits (max_digits : option nat) (bound : N) (count : nat) (acc : N) (s : string)
  : option (nat * N * string) :=
  match s with
  | String c rest =>
      match to_digit c with
      | Some d =>
          let acc := (acc * 10 + d)%N in
          let count := S count in
          match max_digits with
          | Some max => guard (count ≤ max);; read_digits max_digits bound count acc rest
          | None => guard (acc < bound)%N;; read_digits max_digits bound count acc rest
          end
      | None => Some (count, acc, s)
      end
  | EmptyString => Some (count, acc, s)
  end.

Definition has_leading_zero (s : string) : bool :=
  match s with String c _ => bool_decide (c = Ascii.ascii_of_nat 48) | EmptyString => false end.

(** [Parser::read_number(10, max_digits, allow_zero_prefix)] for a type with [bound] values. *)
Definition read_number (max_digits : option nat) (allow_zero_prefix : bool) (bound : N) (s : string)
  : option (N * string) :=
  '(count, value, rest) ← read_digits max_digits bound 0 0 s;
  guard (count ≠ 0);;
  guard (allow_zero_prefix = true ∨ has_leading_zero s = false ∨ count ≤ 1);;
  guard (value < bound)%N;;
  Some (value, rest).

Definition read_given_char (c : Ascii.ascii) (s : string) : option string :=
  match s with String c' rest => if decide (c' = c) then Some rest else None | EmptyString => None end.

(** [Parser::read_ipv4_addr]: four numbers with dots between them. *)
Definition DOT : Ascii.ascii := Ascii.ascii_of_nat 46.
Definition COLON : Ascii.ascii := Ascii.ascii_of_nat 58.
Definition read_octet (s : string) : option (N * string) := read_number (Some 3) false 256 s.
Definition read_ipv4_addr (s : string) : option (IpAddr * string) :=
  '(a, s) ← read_octet s; s ← read_given_char DOT s;
  '(b, s) ← read_octet s; s ← read_given_char DOT s;
  '(c, s) ← read_octet s; s ← read_given_char DOT s;
  '(d, s) ← read_octet s;
  Some (V4 (((a * 256 + b) * 256 + c) * 256 + d)%N, s).

(** [Parser::read_socket_addr_v4] and [Parser::read_port]; [parse] wants the whole input. *)
Definition parse_socket_v4 (s : string) : option SocketAddr :=
  '(ip, s) ← read_ipv4_addr s;
  s ← read_given_char COLON s;
  '(port, s) ← read_number None true 65536 s;
  match s with EmptyString => Some (mkSocketAddr ip (Z.of_N port)) | _ => None end.

(** What [main] uses besides: the IPv6 half of the address parser, and [TcpListener::bind]. *)
Class ListenEnv := {
  parse_socket_v6 : string → option SocketAddr;
  tcp_bind : SocketAddr → result string unit;
}.

(** tokio's [TcpStream], and the halves it is split into. *)
Class TcpLib := {
  TcpStream : Type;
  OwnedReadHalf : Type;
  OwnedWriteHalf : Type;
  into_split : TcpStream → OwnedReadHalf * OwnedWriteHalf;
}.

(** [TcpConnector::connect], from the result of [TcpStream::connect]. *)
Definition TcpConnector_connect `{TcpLib} (tcp : result io_error TcpStream)
  : result io_error (OwnedReadHalf * OwnedWriteHalf) :=
  match tcp with Ok tcp => Ok (into_split tcp) | Err e => Err e end.

(** [SocketAddr::from_str] *)
Definition parse_socket_addr `{ListenEnv} (s : string) : result string SocketAddr :=
  match parse_socket_v4 s with
  | Some a => Ok a
  | None => ok_or "invalid socket address syntax"%string (parse_socket_v6 s)
  end.

(** [format!("0.0.0.0:{}", port).parse()] *)
Definition bind_addr `{ListenEnv} (port : N) : result string SocketAddr :=
  parse_socket_addr ("0.0.0.0:" +:+ pretty port).

(** Reading back what [Display] of a number wrote. *)
Lemma to_digit_char x : (x < 10)%N → to_digit (pretty_N_char x) = Some x.
Proof.
  intros Hx. destruct x as [|p]; [done|].
  do 4 (try (destruct p as [p|p|]; [| |reflexivity || lia])); lia || reflexivity.
Qed.

Lemma read_written bound x :
  (x < bound)%N → ∀ s, ∃ n, read_digits None bound 0 0 (pretty_N_go x s) = read_digits None bound n x s ∧
    (x ≠ 0%N → 0 < n).
Proof.
  induction (N.lt_wf_0 x) as [x _ IH]. intros Hx s. destruct (decide (x = 0%N)) as [->|Hne].
  { rewrite pretty_N_go_0. by exists 0. }
  rewrite pretty_N_go_step by lia.
  assert (Hd : (x `div` 10 < x)%N) by (apply N.div_lt; lia).
  destruct (IH _ Hd ltac:(lia) (String (pretty_N_char (x `mod` 10)) s)) as (n & -> & _).
  exists (S n). split; [|lia]. simpl. rewrite to_digit_char by (apply N.mod_lt; lia).
  replace (x `div` 10 * 10 + x `mod` 10)%N with x by (rewrite (N.div_mod x 10) at 1; lia).
  by rewrite guard_pass.
Qed.

Lemma read_port_number port :
  (port < 65536)%N → read_number None true 65536 (pretty port) = Some (port, "").
Proof.
  intros Hp. unfold read_number. destruct (decide (port = 0%N)) as [->|Hne]; [reflexivity|].
  unfold pretty, pretty_N. rewrite decide_False by done.
  destruct (read_written _ _ Hp "") as (n & -> & Hn). simpl.
  rewrite (guard_pass (n ≠ 0)) by (specialize (Hn Hne); lia). simpl.
  by rewrite guard_pass.
Qed.

(** The program can listen on every port: [main] writes the address as text and parses it, and whatever
    the port - a [u16] of one to five digits - what is parsed is [0.0.0.0] with this port. *)
Lemma bind_addr_ok `{ListenEnv} port :
  (port < 65536)%N → bind_addr port = Ok (mkSocketAddr (V4 0) (Z.of_N port)).
Proof.
  intros Hp. unfold bind_addr, parse_socket_addr, parse_socket_v4.
  assert (Hip : read_ipv4_addr ("0.0.0.0:" +:+ pretty port) = Some (V4 0, ":" +:+ pretty port)) by reflexivity.
  rewrite Hip. cbn [mbind option_bind].
  change (read_given_char COLON (":" +:+ pretty port)) with (Some (pretty port)). cbn [mbind option_bind].
  by rewrite (read_port_number _ Hp).
Qed.

(** * What steps of the server leave alone *)

Section Steps.
Context `{UuidLib, HttpLib, TryMutex}.
Implicit Types (s : Sys).

Lemma now_mono s s' : trans s s' → (sys_now s ≤ sys_now s')%N.
Proof. intros Ht. inversion Ht; subst; clear Ht; try destruct queued; simpl; lia. Qed.

(** Only [take_stats] takes statistics, and only [connect] opens connections. *)
Definition untouched l s s' : Prop :=
  (l ≠ LTakeTx → l ≠ LTakeRx → sys_taken s' = sys_taken s) ∧
  ((∀ aid, l ≠ LConnected aid (Ok ())) → opens (sys_log s') = opens (sys_log s)).

Ltac untouched_cases Hs :=
  unbind Hs; repeat case_match; simplify_option_eq; repeat case_match; simplify_eq/=;
  split; intros; simpl; rewrite ?opens_snoc; simpl; rewrite ?app_nil_r; try done.

Lemma step_untouched s l s' : step s l = Some s' → untouched l s s'.
Proof.
  intros Hs. destruct l; simpl in Hs.
  - unfold request_arrives, handle_request, handle_request_inner, lookup_session, insert_session, new_session in Hs.
    untouched_cases Hs.
  - unfold write_request_next in Hs. untouched_cases Hs.
  - unfold request_resumes in Hs. untouched_cases Hs.
  - unfold request_cancelled in Hs. untouched_cases Hs.
  - unfold on_start, actor_timeout in Hs. untouched_cases Hs.
  - unfold on_start_connected, reset_idle_timeout, actor_timeout in Hs.
    destruct res as [[]|]; untouched_cases Hs.
    match goal with Hx : ∀ k, _ |- _ => by destruct (Hx aid) end.
  - unfold deliver, handle_read, handle_reset, reset_idle_timeout, actor_timeout in Hs. untouched_cases Hs.
  - unfold handle_written in Hs. destruct queued; untouched_cases Hs.
  - unfold actor_stops in Hs. untouched_cases Hs.
  - unfold drop_session in Hs. untouched_cases Hs.
  - apply fmap_Some in Hs as ([p s1] & (st & _ & Hp)%poll_cases & ->).
    destruct Hp; split; intros; simpl; rewrite ?opens_snoc; simpl; by rewrite ?app_nil_r.
  - unfold drop_stream in Hs. untouched_cases Hs.
  - unfold timer_fires in Hs. untouched_cases Hs.
  - untouched_cases Hs.
  - by simplify_eq; split.
  - by simplify_eq; split.
  - unfold server_dropped in Hs. untouched_cases Hs.
Qed.

(** The request that arrives is the only new one. *)
Lemma arrived_requests head s s' k :
  request_arrives head s = Some s' → is_Some (sys_requests s' !! k) → k = sys_next s ∨ is_Some (sys_requests s !! k).
Proof.
  unfold request_arrives, handle_request, handle_request_inner, lookup_session. intros Hs.
  apply bind_Some in Hs as (_ & _ & Hs).
  assert (Hput : ∀ r m, is_Some (<[sys_next s := r]> m !! k) → k = sys_next s ∨ is_Some ((m : gmap nat ReqState) !! k)).
  { intros r m. rewrite lookup_insert. case_decide; auto. }
  destruct (parse_method _) as [m|e]; [|simplify_eq/=; apply Hput].
  destruct (parse_session_id _ _) as [u|]; [|simplify_eq/=; apply Hput].
  simpl in Hs. destruct (sys_sessions s !! u) as [x|]; [destruct (actor_alive x _)|].
  all: try destruct (bool_decide _); simplify_eq/=; apply Hput.
Qed.
End Steps.

(** * The program at work *)

Section Program.
Context `{UuidLib, HttpLib, TryMutex, ServerEnv, ListenEnv, TcpLib}.
Implicit Types (s : Sys).

(** A connection's task: in the TLS handshake; in [serve_connection]; ended. *)
Inductive ConnPos : Type := Handshaking | Serving | ConnEnded.
#[export] Instance ConnPos_eq_dec : EqDecision ConnPos.
Proof. solve_decision. Defined.

(** The loop of [main]: at [accept]; in [take_stats], before its first and its second swap, for the
    connection that has just been accepted; returned, because [accept] failed. *)
Inductive LoopPos : Type :=
| AtAccept
| AtTakeTx (conn : nat)
| AtTakeRx (conn : nat) (tx : Z)
| LoopEnded (e : io_error).

Record Program : Type := mkProgram {
  pg_sys : Sys;                         (* [server] *)
  pg_acceptor : option ServerConfig;    (* [tls_acceptor] *)
  pg_pos : LoopPos;
  pg_since : Z;                         (* [connections_since_report] *)
  pg_last : option N;                   (* [last_report] *)
  pg_conns : gmap nat ConnPos;          (* the spawned tasks *)
  pg_accepted : nat;                    (* ghost: how many connections were accepted *)
  pg_reports : list Report;             (* ghost: what was logged *)
  pg_tcp : gmap nat (OwnedReadHalf * OwnedWriteHalf);   (* the halves each session actor got *)
}.

(** [Server::new] *)
Definition Server_new (config : Config) : Sys := with_connector config.

Definition program_new (acceptor : option ServerConfig) (config : Config) : Program :=
  mkProgram (Server_new config) acceptor AtAccept 0 None ∅ 0 [] ∅.

(** * Starting *)

(** What the start-up does to the outside, in order. *)
Inductive StartEffect : Type := LoadTls (cert_path key_path : string) | Bind (addr : SocketAddr).
Inductive Start : Type := Started (p : Program) | StartFailed (e : string) | StartPanicked.

Definition tls_effects (args : Args) : list StartEffect :=
  match args_cert_path args, args_key_path args, args_hostname args with
  | Some cert_path, Some key_path, Some _ => [LoadTls cert_path key_path]
  | _, _, _ => []
  end.

(** [main] up to its loop. *)
Definition start_program (args : Args) : Start * list StartEffect :=
  match bind_addr (Z.to_N (args_port args)) with
  | Err e => (StartFailed e, [])
  | Ok addr =>
      match tls_acceptor args with
      | Err e => (StartFailed e, tls_effects args)
      | Ok acceptor =>
          let effects := tls_effects args ++ [Bind addr] in
          match tcp_bind addr with
          | Err e => (StartFailed e, effects)
          | Ok _ =>
              match main_config args with
              | None => (StartPanicked, effects)
              | Some config => (Started (program_new acceptor config), effects)
              end
          end
      end
  end.

(** * The loop, its tasks and the server *)

Inductive pg_label : Type :=
| PAccept (res : result io_error unit)                (* [accept] returns *)
| PTakeTx | PTakeRx                                   (* [take_stats] *)
| PHandshake (conn : nat) (res : result string unit)  (* [acceptor.accept] returns *)
| PRequest (conn : nat) (head : RequestHead)          (* hyper calls the service *)
| PClose (conn : nat)                                 (* [serve_connection] returns *)
| PConnected (aid : nat) (tcp : result io_error TcpStream)   (* [TcpStream::connect] returns *)
| PServer (l : label).                                (* the server runs *)

(** The loop keeps its [Arc<Server>], takes the statistics itself, requests arrive through a
    connection, and sessions are connected by the [TcpConnector]. *)
Definition of_server (l : label) : bool :=
  match l with LRequest _ | LConnected _ _ | LTakeTx | LTakeRx | LDropServer => false | _ => true end.

(** [tokio::spawn(..)]: the task of a connection starts with the handshake, if there is one. *)
Definition spawn_connection (conn : nat) (p : Program) : Program :=
  mkProgram (pg_sys p) (pg_acceptor p) AtAccept (pg_since p) (pg_last p)
    (<[conn := match pg_acceptor p with Some _ => Handshaking | None => Serving end]> (pg_conns p))
    (pg_accepted p) (pg_reports p) (pg_tcp p).

Definition with_sys (s : Sys) (p : Program) : Program :=
  mkProgram s (pg_acceptor p) (pg_pos p) (pg_since p) (pg_last p) (pg_conns p) (pg_accepted p)
    (pg_reports p) (pg_tcp p).
Definition with_loop_pos (pos : LoopPos) (p : Program) : Program :=
  mkProgram (pg_sys p) (pg_acceptor p) pos (pg_since p) (pg_last p) (pg_conns p) (pg_accepted p)
    (pg_reports p) (pg_tcp p).
Definition set_conn_pos (conn : nat) (pos : ConnPos) (p : Program) : Program :=
  mkProgram (pg_sys p) (pg_acceptor p) (pg_pos p) (pg_since p) (pg_last p) (<[conn := pos]> (pg_conns p))
    (pg_accepted p) (pg_reports p) (pg_tcp p).
Definition with_tcp (aid : nat) (halves : OwnedReadHalf * OwnedWriteHalf) (p : Program) : Program :=
  mkProgram (pg_sys p) (pg_acceptor p) (pg_pos p) (pg_since p) (pg_last p) (pg_conns p) (pg_accepted p)
    (pg_reports p) (<[aid := halves]> (pg_tcp p)).

(** [connections_since_report += 1], and whether a report is due. *)
Definition accept_conn (p : Program) : Program :=
  let conn := pg_accepted p in
  let p := mkProgram (pg_sys p) (pg_acceptor p) (pg_pos p) (add64 (pg_since p) 1) (pg_last p) (pg_conns p)
             (S conn) (pg_reports p) (pg_tcp p) in
  if report_due (sys_now (pg_sys p)) (mkLoop (pg_since p) (pg_last p) (sys_stats (pg_sys p)))
  then with_loop_pos (AtTakeTx conn) p else spawn_connection conn p.

(** The report is logged and the local variables are reset. *)
Definition reported (tx rx : Z) (p : Program) : Program :=
  let now := sys_now (pg_sys p) in
  mkProgram (pg_sys p) (pg_acceptor p) (pg_pos p) 0 (Some now) (pg_conns p) (pg_accepted p)
    (pg_reports p ++ [mkReport (pg_since p) now (mkStats tx rx)]) (pg_tcp p).

Definition prog_step (p : Program) (l : pg_label) : option Program :=
  match pg_pos p, l with
  | LoopEnded _, _ => None
  | AtAccept, PAccept (Ok _) => Some (accept_conn p)
  | AtAccept, PAccept (Err e) => Some (with_loop_pos (LoopEnded e) p)
  | AtTakeTx conn, PTakeTx =>
      s ← step (pg_sys p) LTakeTx;
      Some (with_loop_pos (AtTakeRx conn (atomic_tx (sys_stats (pg_sys p)))) (with_sys s p))
  | AtTakeRx conn tx, PTakeRx =>
      s ← step (pg_sys p) LTakeRx;
      Some (spawn_connection conn (reported tx (atomic_rx (sys_stats (pg_sys p))) (with_sys s p)))
  | _, PHandshake conn res =>
      guard (pg_conns p !! conn = Some Handshaking);;
      Some (set_conn_pos conn (match handle_connection (pg_acceptor p) res with
                               | Serve _ => Serving
                               | HandshakeFailed => ConnEnded
                               end) p)
  | _, PRequest conn head =>
      guard (pg_conns p !! conn = Some Serving);;
      s ← step (pg_sys p) (LRequest head);
      Some (with_sys s p)
  | _, PClose conn =>
      guard (pg_conns p !! conn = Some Serving);; Some (set_conn_pos conn ConnEnded p)
  | _, PConnected aid tcp =>
      match TcpConnector_connect tcp with
      | Ok halves => s ← step (pg_sys p) (LConnected aid (Ok ())); Some (with_tcp aid halves (with_sys s p))
      | Err e => s ← step (pg_sys p) (LConnected aid (Err e)); Some (with_sys s p)
      end
  | _, PServer l => guard (of_server l = true);; s ← step (pg_sys p) l; Some (with_sys s p)
  | _, _ => None
  end.

(** * How the program starts *)

(** C36. Start-up, on every branch. A wrong combination of the TLS arguments fails before
    anything is done; then the certificate and key are loaded; then the port is bound on all
    interfaces, whichever it is; and only then are the timeouts looked at, of which one that is no
    duration is a panic. Otherwise the program runs, with an empty server that has the
    configuration of the command line, and with TLS exactly when it was asked for. *)
Theorem start_up args :
  (0 ≤ args_port args < 65536)%Z →
  let addr := mkSocketAddr (V4 0) (args_port args) in
  let tls := (args_cert_path args, args_key_path args, args_hostname args) in
  match start_program args with
  | (Started p, effects) =>
      effects = tls_effects args ++ [Bind addr] ∧ tcp_bind addr = Ok () ∧
      tls_acceptor args = Ok (pg_acceptor p) ∧ (pg_acceptor p = None ↔ tls = (None, None, None)) ∧
      ∃ config, main_config args = Some config ∧ pg_sys p = with_connector config
  | (StartFailed e, effects) =>
      (effects = [] ∧ e = tls_usage ∧ tls ≠ (None, None, None) ∧ ∀ c k h, tls ≠ (Some c, Some k, Some h)) ∨
      (∃ c k h, tls = (Some c, Some k, Some h) ∧ load_tls_config c k = Err e ∧ effects = [LoadTls c k]) ∨
      (tcp_bind addr = Err e ∧ effects = tls_effects args ++ [Bind addr] ∧ ∃ acceptor, tls_acceptor args = Ok acceptor)
  | (StartPanicked, effects) =>
      effects = tls_effects args ++ [Bind addr] ∧
      (from_secs_f32 (args_total_timeout args) = None ∨ from_secs_f32 (args_idle_timeout args) = None)
  end.
Proof.
  intros Hp addr tls. unfold start_program. rewrite bind_addr_ok by lia. rewrite Z2N.id by lia. fold addr.
  destruct (tls_acceptor args) as [acceptor|e] eqn:Et.
  - assert (Htls : acceptor = None ↔ tls = (None, None, None)).
    { unfold tls_acceptor in Et. unfold tls. repeat case_match; simplify_eq; try done.
      destruct (load_tls_config _ _); simplify_eq/=. done. }
    destruct (tcp_bind addr) as [[]|e]; [|by eauto 10].
    unfold main_config. destruct (from_secs_f32 (args_total_timeout args)) as [total|]; simpl; [|by eauto].
    destruct (from_secs_f32 (args_idle_timeout args)) as [idle|]; simpl; [|by eauto]. eauto 10.
  - unfold tls_acceptor in Et. unfold tls, tls_effects.
    repeat case_match; simplify_eq; try (left; by split_and!).
    right. left. destruct (load_tls_config _ _) eqn:El; simplify_eq/=. eauto 10.
Qed.

(** * The steps as rules *)

Inductive prog_trans (p : Program) : pg_label → Program → Prop :=
| PT_accept : pg_pos p = AtAccept → prog_trans p (PAccept (Ok ())) (accept_conn p)
| PT_accept_err e : pg_pos p = AtAccept → prog_trans p (PAccept (Err e)) (with_loop_pos (LoopEnded e) p)
| PT_take_tx conn s : pg_pos p = AtTakeTx conn → step (pg_sys p) LTakeTx = Some s →
    prog_trans p PTakeTx (with_loop_pos (AtTakeRx conn (atomic_tx (sys_stats (pg_sys p)))) (with_sys s p))
| PT_take_rx conn tx s : pg_pos p = AtTakeRx conn tx → step (pg_sys p) LTakeRx = Some s →
    prog_trans p PTakeRx (spawn_connection conn (reported tx (atomic_rx (sys_stats (pg_sys p))) (with_sys s p)))
| PT_handshake conn res : pg_conns p !! conn = Some Handshaking →
    prog_trans p (PHandshake conn res)
      (set_conn_pos conn (match handle_connection (pg_acceptor p) res with
                          | Serve _ => Serving
                          | HandshakeFailed => ConnEnded
                          end) p)
| PT_request conn head s : pg_conns p !! conn = Some Serving → step (pg_sys p) (LRequest head) = Some s →
    prog_trans p (PRequest conn head) (with_sys s p)
| PT_close conn : pg_conns p !! conn = Some Serving → prog_trans p (PClose conn) (set_conn_pos conn ConnEnded p)
| PT_connected aid tcp s : step (pg_sys p) (LConnected aid (Ok ())) = Some s →
    prog_trans p (PConnected aid (Ok tcp)) (with_tcp aid (into_split tcp) (with_sys s p))
| PT_refused aid e s : step (pg_sys p) (LConnected aid (Err e)) = Some s →
    prog_trans p (PConnected aid (Err e)) (with_sys s p)
| PT_server l s : of_server l = true → step (pg_sys p) l = Some s → prog_trans p (PServer l) (with_sys s p).

Lemma prog_step_trans p l p' : prog_step p l = Some p' → prog_trans p l p'.
Proof.
  unfold prog_step. intros Hs.
  destruct l as [[[]|e]| | |conn res|conn head|conn|aid [tcp|e]|l]; destruct (pg_pos p) eqn:Ep; try done;
    simpl in Hs; unbind Hs; simplify_eq; by econstructor.
Qed.

(** * What holds while it runs *)

Definition interval_after (t : N) (p : Program) : Prop := (t + REPORT_INTERVAL ≤ sys_now (pg_sys p))%N.
Definition taking (p : Program) : Prop :=
  match pg_pos p with AtTakeTx _ | AtTakeRx _ _ => True | _ => False end.
(** The first half of a report that is being made. *)
Definition half_report (p : Program) : Z := match pg_pos p with AtTakeRx _ tx => tx | _ => 0 end.

(** Reports, in order, at least five seconds apart. *)
Definition spaced (reports : list Report) : Prop :=
  ∀ i r r', reports !! i = Some r → reports !! S i = Some r' → (rp_at r + REPORT_INTERVAL ≤ rp_at r')%N.

Record prog_wf (config : Config) (acceptor : option ServerConfig) (ls : list pg_label) (p : Program) : Prop := {
  pw_sys : reachable config (pg_sys p);
  pw_acceptor : pg_acceptor p = acceptor;
  pw_count : wrap64 (sum_z rp_connections (pg_reports p) + pg_since p) = wrap64 (Z.of_nat (pg_accepted p));
  pw_tx : (sum_z (bytes_tx ∘ rp_stats) (pg_reports p) + half_report p)%Z = bytes_tx (sys_taken (pg_sys p));
  pw_rx : sum_z (bytes_rx ∘ rp_stats) (pg_reports p) = bytes_rx (sys_taken (pg_sys p));
  pw_last : pg_last p = rp_at <$> last (pg_reports p);
  pw_now t : pg_last p = Some t → (t ≤ sys_now (pg_sys p))%N ∧ (taking p → interval_after t p);
  pw_spaced : spaced (pg_reports p);
  pw_tcp aid addr : (aid, addr) ∈ opens (sys_log (pg_sys p)) → is_Some (pg_tcp p !! aid);
}.

Lemma prog_wf_new config acceptor : prog_wf config acceptor [] (program_new acceptor config).
Proof.
  split; simpl; try done.
  - apply reaches_refl.
  - intros aid addr Hin. by apply not_elem_of_nil in Hin.
Qed.

(** A report stays due. *)
Lemma now_later s p t :
  (t ≤ sys_now (pg_sys p))%N ∧ (taking p → interval_after t p) → (sys_now (pg_sys p) ≤ sys_now s)%N →
  (t ≤ sys_now s)%N ∧ (taking p → interval_after t (with_sys s p)).
Proof.
  unfold interval_after. simpl. intros [Hle Hdue] Hnow. split; [lia|]. intros Htk. specialize (Hdue Htk). lia.
Qed.

Lemma reachable_step config s l s' : reachable config s → step s l = Some s' → reachable config s'.
Proof. intros Hr Hs. eapply reaches_trans; [done|by eapply reaches_step]. Qed.

(** A step of the server that the loop does not make. *)
Lemma prog_wf_served config acceptor ls p l s lbl :
  prog_wf config acceptor ls p → step (pg_sys p) l = Some s → l ≠ LTakeTx → l ≠ LTakeRx →
  (∀ aid, l ≠ LConnected aid (Ok ())) → prog_wf config acceptor (ls ++ [lbl]) (with_sys s p).
Proof.
  intros [] Hs Htx Hrx Hop. destruct (step_untouched _ _ _ Hs) as [Ht Ho].
  pose proof (now_mono _ _ (step_trans _ _ _ Hs)) as Hnow.
  split; simpl; rewrite ?(Ht Htx Hrx), ?(Ho Hop); eauto.
  - by eapply reachable_step.
  - intros t Hlast. exact (now_later s p t (pw_now0 _ Hlast) Hnow).
Qed.

(** The loop makes a step that leaves the server alone. *)
Lemma prog_wf_local config acceptor ls p p' lbl :
  prog_wf config acceptor ls p → pg_sys p' = pg_sys p → pg_acceptor p' = pg_acceptor p →
  pg_since p' = pg_since p → pg_accepted p' = pg_accepted p → pg_reports p' = pg_reports p →
  pg_last p' = pg_last p → pg_tcp p' = pg_tcp p → half_report p' = half_report p →
  (taking p' → taking p) →
  prog_wf config acceptor (ls ++ [lbl]) p'.
Proof.
  intros [] Es Ea Esi Eac Er El Et Eh Htk.
  split; rewrite ?Es, ?Ea, ?Esi, ?Eac, ?Er, ?El, ?Et, ?Eh; auto.
  - intros t Ht. unfold interval_after in *. rewrite Es. destruct (pw_now0 _ Ht). auto.
Qed.

Lemma count_one a b n : wrap64 (a + b) = wrap64 (Z.of_nat n) → wrap64 (a + add64 b 1) = wrap64 (Z.of_nat (S n)).
Proof.
  intros E. unfold add64. rewrite wrap64_add_r.
  apply (wrap64_congr _ _ _ _ 1 E); lia.
Qed.

Lemma spaced_snoc reports r :
  spaced reports → (∀ r', last reports = Some r' → (rp_at r' + REPORT_INTERVAL ≤ rp_at r)%N) → spaced (reports ++ [r]).
Proof.
  intros Hs Hl i x y Hx Hy. apply lookup_app_Some in Hy as [Hy|[Hlen Hy]].
  - apply (Hs i); [|done]. rewrite lookup_app_l in Hx; [done|]. apply lookup_lt_Some in Hy. lia.
  - apply list_lookup_singleton_Some in Hy as [Hi <-]. apply Hl. rewrite last_lookup.
    assert (length reports ≠ 0).
    { intros E. apply lookup_lt_Some in Hx. rewrite length_app in Hx. simpl in Hx. lia. }
    rewrite lookup_app_l in Hx by lia. rewrite <- Hx. f_equal. lia.
Qed.

Lemma prog_wf_accept config acceptor ls p :
  prog_wf config acceptor ls p → pg_pos p = AtAccept → prog_wf config acceptor (ls ++ [PAccept (Ok ())]) (accept_conn p).
Proof.
  intros Hw Hp. pose proof Hw as []. unfold accept_conn.
  assert (Hh : half_report p = 0%Z) by (unfold half_report; by rewrite Hp). rewrite Hh in *.
  destruct (report_due _ _) eqn:Hdue.
  - split; simpl; eauto.
    + by apply count_one.
    + intros t Ht. destruct (pw_now0 _ Ht) as [Hle _]. split; [done|]. intros _. unfold interval_after. simpl.
      unfold report_due in Hdue. simpl in Hdue. rewrite Ht in Hdue. apply bool_decide_eq_true in Hdue.
      unfold REPORT_INTERVAL in *. lia.
  - split; simpl; eauto.
    + by apply count_one.
    + intros t Ht. destruct (pw_now0 _ Ht) as [Hle _]. by split.
Qed.

Lemma prog_wf_take_tx config acceptor ls p conn s :
  prog_wf config acceptor ls p → pg_pos p = AtTakeTx conn → step (pg_sys p) LTakeTx = Some s →
  prog_wf config acceptor (ls ++ [PTakeTx]) (with_loop_pos (AtTakeRx conn (atomic_tx (sys_stats (pg_sys p)))) (with_sys s p)).
Proof.
  intros [] Hp Hs. pose proof (reachable_step _ _ _ _ pw_sys0 Hs) as Hr. simpl in Hs. injection Hs as <-.
  assert (Hh : half_report p = 0%Z) by (unfold half_report; by rewrite Hp). rewrite Hh in *.
  split; simpl; eauto.
  - unfold half_report. simpl in *. lia.
  - intros t Ht. destruct (pw_now0 _ Ht) as [Hle Hdue]. split; [done|]. intros _. unfold interval_after.
    simpl.
    apply Hdue. unfold taking. by rewrite Hp.
Qed.

Lemma prog_wf_take_rx config acceptor ls p conn tx s :
  prog_wf config acceptor ls p → pg_pos p = AtTakeRx conn tx → step (pg_sys p) LTakeRx = Some s →
  prog_wf config acceptor (ls ++ [PTakeRx])
    (spawn_connection conn (reported tx (atomic_rx (sys_stats (pg_sys p))) (with_sys s p))).
Proof.
  intros [] Hp Hs. pose proof (reachable_step _ _ _ _ pw_sys0 Hs) as Hr. simpl in Hs. injection Hs as <-.
  assert (Hh : half_report p = tx) by (unfold half_report; by rewrite Hp). rewrite Hh in *.
  split; simpl; eauto; rewrite ?sum_z_app; simpl.
  - rewrite <- pw_count0. f_equal. lia.
  - unfold half_report. simpl. lia.
  - lia.
  - by rewrite last_snoc.
  - intros t [= <-]. by split.
  - apply spaced_snoc; [done|]. intros r' Hl. simpl. rewrite Hl in pw_last0.
    destruct (pw_now0 _ pw_last0) as [_ Hdue]. apply Hdue. unfold taking. by rewrite Hp.
Qed.

Lemma prog_wf_connected config acceptor ls p aid tcp s :
  prog_wf config acceptor ls p → step (pg_sys p) (LConnected aid (Ok ())) = Some s →
  prog_wf config acceptor (ls ++ [PConnected aid (Ok tcp)]) (with_tcp aid (into_split tcp) (with_sys s p)).
Proof.
  intros [] Hs. pose proof (now_mono _ _ (step_trans _ _ _ Hs)) as Hnow.
  destruct (step_untouched _ _ _ Hs) as [Ht _]. pose proof (reachable_step _ _ _ _ pw_sys0 Hs) as Hr.
  assert (Hlog : ∃ addr, opens (sys_log s) = opens (sys_log (pg_sys p)) ++ [(aid, addr)]).
  { simpl in Hs. unfold on_start_connected, reset_idle_timeout, actor_timeout in Hs. unbind Hs.
    repeat case_match; simplify_eq/=. rewrite opens_snoc. eauto. }
  destruct Hlog as (addr & Eop).
  split; simpl; rewrite ?Ht, ?Eop by done; eauto.
  - intros t Hlast. exact (now_later s p t (pw_now0 _ Hlast) Hnow).
  - intros k a [Hin|Hin%list_elem_of_singleton]%elem_of_app; rewrite lookup_insert; case_decide; simplify_eq; eauto.
Qed.

Context `{!TryMutexLaws}.

Lemma prog_wf_step config acceptor ls p l p' :
  prog_wf config acceptor ls p → prog_step p l = Some p' → prog_wf config acceptor (ls ++ [l]) p'.
Proof.
  intros Hw Ht%prog_step_trans.
  destruct Ht as [Hp|e Hp|conn s Hp Hs|conn tx s Hp Hs|conn res Hp|conn head s Hp Hs|conn Hp|
    aid tcp s Hs|aid e s Hs|l s Hl Hs].
  - by apply prog_wf_accept.
  - eapply (prog_wf_local _ _ _ p); try done. unfold half_report. by rewrite Hp.
  - by apply prog_wf_take_tx.
  - by apply prog_wf_take_rx.
  - by eapply (prog_wf_local _ _ _ p).
  - by eapply prog_wf_served.
  - by eapply (prog_wf_local _ _ _ p).
  - by apply prog_wf_connected.
  - by eapply prog_wf_served.
  - eapply prog_wf_served; eauto; try (by intros ->). by intros aid ->.
Qed.

Lemma prog_run_wf config acceptor ls p :
  run prog_step (program_new acceptor config) ls = Some p → prog_wf config acceptor ls p.
Proof.
  revert ls p. apply (run_ind_r prog_step (prog_wf config acceptor)); [apply prog_wf_new|].
  intros ls p l p' _ Hw Hs. by eapply prog_wf_step.
Qed.

(** * The connections *)

(** How many connections have been accepted: they are numbered in this order. *)
Definition is_accept (l : pg_label) : bool := match l with PAccept (Ok _) => true | _ => false end.
Definition accepts (ls : list pg_label) : nat := length (filter is_accept ls).

(** The connection [conn] is one of them, the handshake on it has succeeded if there is one, and
    [serve_connection] has not returned. *)
Definition open_conn (acceptor : option ServerConfig) (ls : list pg_label) (conn : nat) : Prop :=
  conn < accepts ls ∧ (acceptor = None ∨ PHandshake conn (Ok ()) ∈ ls) ∧ PClose conn ∉ ls.

(** The connection that the loop is about to spawn a task for. *)
Definition unspawned (p : Program) (conn : nat) : Prop :=
  match pg_pos p with AtTakeTx c | AtTakeRx c _ => c = conn | _ => False end.

Record conns_wf (acceptor : option ServerConfig) (ls : list pg_label) (p : Program) : Prop := {
  cw_acceptor : pg_acceptor p = acceptor;
  cw_accepted : pg_accepted p = accepts ls;
  cw_known conn : is_Some (pg_conns p !! conn) ∨ unspawned p conn → conn < pg_accepted p;
  cw_unspawned conn : unspawned p conn → pg_conns p !! conn = None;
  cw_closed conn : PClose conn ∈ ls → pg_conns p !! conn = Some ConnEnded;
  cw_serving conn : pg_conns p !! conn = Some Serving → acceptor = None ∨ PHandshake conn (Ok ()) ∈ ls;
}.

Lemma accepts_snoc ls l : accepts (ls ++ [l]) = accepts ls + (if is_accept l then 1 else 0).
Proof. unfold accepts. rewrite filter_app, length_app, filter_cons. simpl. by destruct (is_accept l). Qed.

Lemma accepted_snoc (acceptor : option ServerConfig) ls l conn :
  acceptor = None ∨ PHandshake conn (Ok ()) ∈ ls → acceptor = None ∨ PHandshake conn (Ok ()) ∈ ls ++ [l].
Proof. intros [?|?]; [by left|right]. apply elem_of_app. by left. Qed.

(** A task is spawned for a connection that has none. *)
Lemma conns_spawn acceptor ls l p conn :
  conns_wf acceptor ls p → pg_conns p !! conn = None → conn < accepts (ls ++ [l]) → (∀ c, l ≠ PClose c) →
  ∀ p', pg_acceptor p' = pg_acceptor p → pg_accepted p' = accepts (ls ++ [l]) →
  pg_accepted p ≤ pg_accepted p' → pg_pos p' = AtAccept →
  pg_conns p' = <[conn := match pg_acceptor p with Some _ => Handshaking | None => Serving end]> (pg_conns p) →
  conns_wf acceptor (ls ++ [l]) p'.
Proof.
  intros [] Hno Hlt Hcl p' Ea Eac Hle Ep Ec. split; rewrite ?Ea, ?Ec; auto; unfold unspawned; rewrite ?Ep.
  - intros c [Hc|[]]. rewrite Eac. apply lookup_insert_is_Some in Hc as [<-|[_ Hc]]; [done|].
    rewrite <- Eac. specialize (cw_known0 c (or_introl Hc)). lia.
  - done.
  - intros c [Hc|Hc%list_elem_of_singleton]%elem_of_app; [|by destruct (Hcl c)].
    rewrite lookup_insert_ne; [by auto|]. intros ->. rewrite (cw_closed0 _ Hc) in Hno. done.
  - intros c. rewrite lookup_insert, cw_acceptor0. case_decide; [|intros Hc; apply accepted_snoc; auto].
    destruct acceptor; [done|by left].
Qed.

(** The tasks stay as they are. *)
Lemma conns_same acceptor ls l p p' :
  conns_wf acceptor ls p → pg_acceptor p' = pg_acceptor p → pg_accepted p' = pg_accepted p → is_accept l = false →
  pg_conns p' = pg_conns p → (∀ c, unspawned p' c → unspawned p c) → (∀ c, l ≠ PClose c) →
  conns_wf acceptor (ls ++ [l]) p'.
Proof.
  intros [] Ea Eac Hl Ec Hu Hcl. split; rewrite ?Ea, ?Eac, ?Ec, ?accepts_snoc, ?Hl; auto.
  - rewrite cw_accepted0. lia.
  - intros c [Hc|Hc]; apply cw_known0; auto.
  - intros c [Hc|Hc%list_elem_of_singleton]%elem_of_app; [auto|by destruct (Hcl c)].
  - intros c Hc. apply accepted_snoc. auto.
Qed.

(** A task goes on. *)
Lemma conns_task acceptor ls l p conn pos :
  conns_wf acceptor ls p → is_Some (pg_conns p !! conn) → pg_conns p !! conn ≠ Some ConnEnded → is_accept l = false →
  (∀ c, l = PClose c → c = conn ∧ pos = ConnEnded) →
  (pos = Serving → acceptor = None ∨ PHandshake conn (Ok ()) ∈ ls ++ [l]) →
  conns_wf acceptor (ls ++ [l]) (set_conn_pos conn pos p).
Proof.
  intros [] [x Hx] Hne Hl Hcl Hs. split; simpl; rewrite ?accepts_snoc, ?Hl; auto.
  - rewrite cw_accepted0. lia.
  - intros c [Hc|Hc]; apply cw_known0; [left|by right].
    apply lookup_insert_is_Some in Hc as [<-|[_ Hc]]; [by eexists|done].
  - intros c Hc. specialize (cw_unspawned0 c Hc). rewrite lookup_insert_ne; [done|]. congruence.
  - intros c [Hc|Hc%list_elem_of_singleton]%elem_of_app.
    + rewrite lookup_insert_ne; [by auto|]. intros ->. by specialize (cw_closed0 _ Hc).
    + destruct (Hcl c (eq_sym Hc)) as [-> ->]. by rewrite lookup_insert_eq.
  - intros c. rewrite lookup_insert. case_decide; [subst; intros [= ->]; auto|].
    intros Hc. apply accepted_snoc. auto.
Qed.

Lemma conns_wf_step acceptor ls p l p' :
  conns_wf acceptor ls p → prog_step p l = Some p' → conns_wf acceptor (ls ++ [l]) p'.
Proof.
  intros Hw Ht%prog_step_trans. pose proof Hw as [].
  destruct Ht as [Hp|e Hp|conn s Hp Hs|conn tx s Hp Hs|conn res Hp|conn head s Hp Hs|conn Hp|
    aid tcp s Hs|aid e s Hs|l s Hl Hs].
  - assert (Hno : pg_conns p !! pg_accepted p = None).
    { apply eq_None_not_Some. intros Hc. specialize (cw_known0 _ (or_introl Hc)). lia. }
    unfold accept_conn. destruct (report_due _ _).
    + split; simpl; rewrite ?accepts_snoc; simpl; auto; unfold unspawned; simpl.
      * lia.
      * intros c [Hc|<-]; [specialize (cw_known0 c (or_introl Hc))|]; lia.
      * by intros c <-.
      * intros c [Hc|Hc%list_elem_of_singleton]%elem_of_app; [auto|done].
      * intros c Hc. apply accepted_snoc. auto.
    + eapply (conns_spawn _ _ _ p (pg_accepted p)); try done; simpl; rewrite ?accepts_snoc; simpl; lia.
  - by eapply conns_same.
  - eapply conns_same; try done. unfold unspawned. simpl. by rewrite Hp.
  - assert (Hu : unspawned p conn) by (unfold unspawned; by rewrite Hp).
    eapply (conns_spawn _ _ _ p conn); try done; simpl; rewrite ?accepts_snoc; simpl; auto; try lia.
    specialize (cw_known0 _ (or_intror Hu)). lia.
  - eapply conns_task; try done; [by rewrite Hp|].
    rewrite cw_acceptor0. intros Hserve. destruct acceptor as [a|]; [|by left].
    destruct res as [[]|e]; [|done]. right. apply elem_of_app. right. by apply list_elem_of_singleton.
  - by eapply conns_same.
  - eapply conns_task; try done; [by rewrite Hp|]. by intros c [= ->].
  - by eapply conns_same.
  - by eapply conns_same.
  - by eapply conns_same.
Qed.

Lemma conns_run config acceptor ls p :
  run prog_step (program_new acceptor config) ls = Some p → conns_wf acceptor ls p.
Proof.
  revert ls p. apply (run_ind_r prog_step (conns_wf acceptor)).
  - split; simpl; try done; [intros c [[x Hx]|[]]; by rewrite lookup_empty in Hx|].
    intros c Hc. by apply not_elem_of_nil in Hc.
  - intros ls p l p' _ Hw Hs. by eapply conns_wf_step.
Qed.

(** A request came through the connection [conn]: it was the next one of the server when hyper
    called the service for this connection, which was open. *)
Definition came_through (acceptor : option ServerConfig) (p0 : Program) (ls : list pg_label) (rid conn : nat) : Prop :=
  ∃ ls1 head ls2 p1, ls = ls1 ++ PRequest conn head :: ls2 ∧ run prog_step p0 ls1 = Some p1 ∧
    sys_next (pg_sys p1) = rid ∧ open_conn acceptor ls1 conn.

Lemma requests_come config acceptor ls p rid :
  run prog_step (program_new acceptor config) ls = Some p → is_Some (sys_requests (pg_sys p) !! rid) →
  ∃ conn, came_through acceptor (program_new acceptor config) ls rid conn.
Proof.
  intros Hrun. revert ls p Hrun rid. apply (run_ind_r prog_step (λ ls p, ∀ rid,
    is_Some (sys_requests (pg_sys p) !! rid) → ∃ conn, came_through acceptor (program_new acceptor config) ls rid conn)).
  { intros rid [r Hr]. simpl in Hr. by rewrite lookup_empty in Hr. }
  intros ls p l p' Hrun IH Hs rid Hr. pose proof (prog_run_wf _ _ _ _ Hrun) as Hw.
  pose proof (wf_ids _ (reachable_wf _ _ (pw_sys _ _ _ _ Hw))) as Hf.
  assert (Hold : is_Some (sys_requests (pg_sys p) !! rid) →
    ∃ conn, came_through acceptor (program_new acceptor config) (ls ++ [l]) rid conn).
  { intros (conn & ls1 & head & ls2 & p1 & -> & Hp1 & Hrest)%IH. exists conn, ls1, head, (ls2 ++ [l]), p1.
    split; [by rewrite <- app_assoc|]. by split. }
  apply prog_step_trans in Hs.
  destruct Hs as [Hp|e Hp|conn s Hp Hs|conn tx s Hp Hs|conn res Hp|conn head s Hp Hs|conn Hp|
    aid tcp s Hs|aid e s Hs|l s Hl Hs]; simpl in Hr.
  - apply Hold. unfold accept_conn in Hr. by destruct (report_due _ _).
  - by apply Hold.
  - apply Hold. by eapply old_requests.
  - apply Hold. by eapply old_requests.
  - by apply Hold.
  - destruct (arrived_requests _ _ _ _ Hs Hr) as [->|Ho]; [|by apply Hold].
    exists conn, ls, head, [], p. split; [done|]. split; [done|]. split; [done|].
    destruct (conns_run _ _ _ _ Hrun). split; [|split; [by auto|]].
    + rewrite <- cw_accepted0. apply cw_known0. left. by eexists.
    + intros Hc. specialize (cw_closed0 _ Hc). congruence.
  - by apply Hold.
  - apply Hold. by eapply old_requests.
  - apply Hold. by eapply old_requests.
  - apply Hold. eapply old_requests; [done..| |done]. by destruct l.
Qed.

Lemma started_new args p effects :
  start_program args = (Started p, effects) →
  ∃ config, main_config args = Some config ∧ p = program_new (pg_acceptor p) config.
Proof.
  unfold start_program. intros Hs. repeat case_match; simplify_eq. eauto.
Qed.

Lemma started_tls args p effects : start_program args = (Started p, effects) → tls_acceptor args = Ok (pg_acceptor p).
Proof. unfold start_program. intros Hs. by repeat case_match; simplify_eq. Qed.

(** * What the program does *)

(** C25. The traffic reports account for everything. However the loop, the connections' tasks
    and the sessions interleave - also between the two swaps of a [take_stats] - the connections in
    the reports and those counted since are the connections accepted; the bytes in the reports, those
    of a report that is being made and those in the server's counters are the bytes of the
    acknowledged chunks and the bytes read from the upstreams; each modulo 2^64. Reports are at least
    five seconds apart. *)
Theorem reports_account args p0 effects ls p :
  start_program args = (Started p0, effects) → run prog_step p0 ls = Some p →
  wrap64 (sum_z rp_connections (pg_reports p) + pg_since p) = wrap64 (Z.of_nat (pg_accepted p)) ∧
  wrap64 (sum_z (bytes_tx ∘ rp_stats) (pg_reports p) + half_report p + atomic_tx (sys_stats (pg_sys p))) =
    wrap64 (acked_bytes (pg_sys p)) ∧
  wrap64 (sum_z (bytes_rx ∘ rp_stats) (pg_reports p) + atomic_rx (sys_stats (pg_sys p))) =
    wrap64 (total_len (all_reads (sys_log (pg_sys p)))) ∧
  spaced (pg_reports p).
Proof.
  intros (config & _ & Ep)%started_new Hrun. rewrite Ep in Hrun. apply prog_run_wf in Hrun as [].
  destruct (wf_counters _ (reachable_wf _ _ pw_sys0)) as (_ & Hrx & Htx).
  split; [done|]. split; [|split; [|done]].
  - by rewrite pw_tx0, Z.add_comm, Htx.
  - by rewrite pw_rx0, Z.add_comm, Hrx.
Qed.

(** C24. The program is a gateway to one address. Every request that its server has seen came
    through a connection that the program had accepted: hyper called the service for it on the
    [conn]-th accepted connection, after the TLS handshake on this connection had succeeded
    if TLS was asked for, and before the connection was closed. Every connection that a session has
    opened goes to the [--upstream] address, and its halves are those of a TCP stream that the
    [TcpConnector] got; and the server looks for the session key of the command line. *)
Theorem gateway args p0 effects ls p :
  start_program args = (Started p0, effects) → run prog_step p0 ls = Some p →
  (∀ rid, is_Some (sys_requests (pg_sys p) !! rid) →
     ∃ conn ls1 head ls2 p1, ls = ls1 ++ PRequest conn head :: ls2 ∧
       run prog_step p0 ls1 = Some p1 ∧ sys_next (pg_sys p1) = rid ∧
       conn < accepts ls1 ∧ (args_cert_path args ≠ None → PHandshake conn (Ok ()) ∈ ls1) ∧ PClose conn ∉ ls1) ∧
  (∀ aid addr, (aid, addr) ∈ opens (sys_log (pg_sys p)) →
     addr = args_upstream args ∧ is_Some (pg_tcp p !! aid)) ∧
  cfg_session_key (sys_config (pg_sys p)) = args_session_key args.
Proof.
  intros Hst Hrun. pose proof (started_new _ _ _ Hst) as (config & Hcfg & Ep).
  assert (Hc : cfg_upstream config = args_upstream args ∧ cfg_session_key config = args_session_key args).
  { unfold main_config in Hcfg. by simplify_option_eq. }
  assert (Htls : args_cert_path args ≠ None → pg_acceptor p0 ≠ None).
  { intros Hcert Hnone. apply started_tls in Hst. rewrite Hnone in Hst. unfold tls_acceptor in Hst.
    repeat case_match; try done. by destruct (load_tls_config _ _). }
  rewrite Ep in Hrun. pose proof (λ rid, requests_come _ _ _ _ rid Hrun) as Hcome.
  apply prog_run_wf in Hrun as []. pose proof (reachable_config _ _ pw_sys0) as Ecfg.
  split; [|split].
  - intros rid (conn & ls1 & head & ls2 & p1 & E & Hp1 & Hn & Hlt & Hh & Hcl)%Hcome.
    rewrite <- Ep in Hp1. exists conn, ls1, head, ls2, p1. split_and!; try done.
    intros Hcert. destruct Hh as [Hnone|?]; [by destruct (Htls Hcert)|done].
  - intros aid addr Hin. split; [|by eapply pw_tcp0].
    rewrite (ow_addr _ (wf_opens _ (reachable_wf _ _ pw_sys0)) _ _ Hin), Ecfg. apply Hc.
  - rewrite Ecfg. apply Hc.
Qed.
End Program.

(** * The theorems at work *)

Import Concrete.

(** One certificate and its key are there; every duration is one; every address is free. *)
#[local] Instance demo_env : ServerEnv := {|
  ServerConfig := list bytes * bytes;
  f32 := N;
  read_cert_chain path := if decide (path = "cert.pem") then Ok [hello] else Err "No such file"%string;
  read_private_key path := if decide (path = "key.pem") then Ok world else Err "No such file"%string;
  with_single_cert chain key := Ok (chain, key);
  from_secs_f32 secs := Some (secs * 1000000000)%N;
|}.
#[local] Instance demo_listen : ListenEnv := {| parse_socket_v6 _ := None; tcp_bind _ := Ok () |}.
#[local] Instance demo_tcp : TcpLib :=
  {| TcpStream := nat; OwnedReadHalf := nat; OwnedWriteHalf := nat; into_split n := (n, n) |}.

Definition demo_args : Args :=
  mkArgs (Some "example.com"%string) (Some "cert.pem"%string) (Some "key.pem"%string)
    (mkSocketAddr (V4 2130706433) 8080) 443 "X-Session" 45%N 30%N.
Definition demo_program : Program :=
  program_new (Some ([hello], world))
    (Config_with_session_key (Config_new (args_upstream demo_args) 45000000000 30000000000) "X-Session").

Lemma demo_started :
  start_program demo_args =
    (Started demo_program, [LoadTls "cert.pem" "key.pem"; Bind (mkSocketAddr (V4 0) 443)]).
Proof. reflexivity. Qed.

(** Two connections are accepted, of which the first is reported at once; through the second, after
    its handshake, comes a request that is served, and then a third connection after ten seconds,
    with a chunk acknowledged in the middle of its report. *)
Definition demo_serving : list pg_label :=
  [PAccept (Ok ()); PTakeTx; PTakeRx; PAccept (Ok ()); PHandshake 0 (Err "bad certificate"%string);
   PHandshake 1 (Ok ()); PRequest 1 (demo_head POST "7"); PServer (LStart 1); PConnected 1 (Ok 9);
   PServer (LBody 0 (Some (Ok hello))); PServer (LDeliver 1 0); PServer (LWritten 1 WriteOk true); PServer (LResume 0);
   PServer (LBody 0 (Some (Ok world))); PServer (LDeliver 1 1); PServer (LWritten 1 WriteOk true);
   PServer (LTick 10000000000); PAccept (Ok ()); PTakeTx; PServer (LResume 0); PTakeRx; PClose 1].
Definition demo_served : Program := final prog_step demo_program demo_serving.

Lemma demo_serving_run : run prog_step demo_program demo_serving = Some demo_served.
Proof. unfold demo_served. apply run_final. by_vm. Qed.

Lemma start_up_witness :
  (start_program demo_args).2 = tls_effects demo_args ++ [Bind (mkSocketAddr (V4 0) 443)] ∧
  tls_acceptor demo_args = Ok (pg_acceptor demo_program).
Proof.
  assert (Hp : (0 ≤ args_port demo_args < 65536)%Z) by (by split).
  pose proof (start_up demo_args Hp) as Hs. rewrite demo_started in Hs. destruct Hs as (E & _ & Ht & _).
  split; [rewrite demo_started; exact E|exact Ht].
Defined.

Lemma reports_account_witness :
  rp_connections <$> pg_reports demo_served = [1%Z; 2%Z] ∧
  bytes_tx ∘ rp_stats <$> pg_reports demo_served = [0%Z; 5%Z] ∧
  atomic_tx (sys_stats (pg_sys demo_served)) = 5%Z ∧ acked_bytes (pg_sys demo_served) = 10%Z ∧
  spaced (pg_reports demo_served).
Proof.
  split; [by_vm|]. split; [by_vm|]. split; [by_vm|]. split; [by_vm|].
  apply (reports_account _ _ _ _ _ demo_started demo_serving_run).
Defined.

Lemma gateway_witness :
  ∃ conn ls1 ls2, demo_serving = ls1 ++ PRequest conn (demo_head POST "7") :: ls2 ∧
    conn < accepts ls1 ∧ PHandshake conn (Ok ()) ∈ ls1 ∧ pg_tcp demo_served !! 1 = Some (9, 9).
Proof.
  destruct (gateway _ _ _ _ _ demo_started demo_serving_run) as (Hr & _ & _).
  assert (Hs : is_Some (sys_requests (pg_sys demo_served) !! 0)).
  { destruct (found (sys_requests (pg_sys demo_served) !! 0) (λ _, true) ltac:(by_vm)) as (r & Hx & _).
    eauto. }
  destruct (Hr 0 Hs) as (conn & ls1 & head & ls2 & p1 & E & _ & _ & Hlt & Hh & _).
  assert (Eh : head = demo_head POST "7").
  { assert (Hin : PRequest conn head ∈ demo_serving) by (rewrite E; set_solver).
    unfold demo_serving in Hin. repeat (apply elem_of_cons in Hin as [Hin|Hin]; [try discriminate Hin; by injection Hin|]).
    by apply not_elem_of_nil in Hin. }
  exists conn, ls1, ls2. rewrite <- Eh. split; [exact E|]. split; [exact Hlt|].
  split; [apply Hh; discriminate|by_vm].
Defined.
