(* ===== verification/ClientTests.v ===== *)
(** The tests of [src/src/client.rs], run against the model.

    A client and the server talk to an echo server. A scheduler runs every task of every client
    and of the server until all wait, as the runtime of the tests does; it only takes steps of
    [Crowd]. *)
From S2P Require Import Prelude Ext DomainFronting Stats State Session Server ServerSteps Invariant.
From S2P Require Import Scenario ServerTests Client ClientProps Adaptors Connection.
From S2P Require Import Tunnel TunnelProps User UserInv Pipe PipeProps Crowd.
Import ConcreteChannels.

(** * The echo server *)

(** The clients and the server, and what the echo server has not sent back yet, by connection. *)
Record EchoWorld : Type := mkEcho { ew_crowd : gmap nat Member; ew_echo : gmap nat bytes }.

(** The room in the buffer of the test. *)
Definition ECHO_BUF : nat := 4096.

Definition echo_config (addr : SocketAddr) : Config := Config_new addr (from_secs 5) (from_secs 5).

(** The echo server gets what is written to its connections, and loses what is read. *)
Definition echo_of (aid : nat) (w : EchoWorld) : bytes := default [] (ew_echo w !! aid).
Definition echo_step (l : label) (s : Sys) (echo : gmap nat bytes) : gmap nat bytes :=
  match l with
  | LWritten aid _ _ =>
      match sys_actors s !! aid ≫= ac_busy with
      | Some (data, _) => <[aid := default [] (echo !! aid) ++ data]> echo
      | None => echo
      end
  | LPoll stid (Ready (Ok data)) _ =>
      match sys_streams s !! stid with
      | Some st => alter (skipn (length data)) (st_actor st) echo
      | None => echo
      end
  | _ => echo
  end.

(** A client makes a step. *)
Definition act (i : nat) (l : user_label) (w : EchoWorld) : option EchoWorld :=
  m ← ew_crowd w !! i;
  c ← crowd_step (ew_crowd w) (i, l);
  Some (mkEcho c (match label_of l (mb_user m) with
                  | Some sl => echo_step sl (server_of m) (ew_echo w)
                  | None => ew_echo w
                  end)).

(** * The scheduler *)

(** The path of a request is random and does not matter. *)
Definition any_path : Uuid := 0%N.

(** What an HTTP/2 frame holds at most. *)
Definition FRAME : nat := N.to_nat 16384.

(** What [pump_outgoing] and the transport of its request do next, if they do not wait. *)
Definition out_task (u : UserNet) : option user_label :=
  let net := us_net u in
  match io_out (nt_client net), nt_post net with
  | OutRecv _, _ =>
      match req_queue (en_req (us_ends u)) with
      | chunk :: _ => Some (UNet (NClient (IoRecv (Some chunk) any_path)))
      | [] => None
      end
  | OutSend _, None => Some (UNet NPost)
  | OutSend _, Some up =>
      match rq_pos <$> sys_requests (nt_server net) !! up_rid up with
      | Some (AtBody _ _) =>
          Some (UNet (match up_rest up with [] => NBodyEnd | rest => NBody (FRAME `min` length rest) end))
      | Some (Responded _) => Some (UNet NPostDone)
      | _ => None
      end
  | OutDone _, _ => None
  end.

(** How the HTTP server polls a response body whose connection has [echo] to read, of which a
    read takes as much as the session's buffer holds. *)
Definition body_task (st : StreamState) (echo : bytes) : option user_label :=
  match st_pos st, echo with
  | FirstRead, [] => None
  | FirstRead, _ | NextRead, _ :: _ => Some (UNet (NPoll (Ready (Ok (firstn (Z.to_nat READ_CAPACITY) echo))) true))
  | _, _ => Some (UNet (NPoll Pending true))
  end.

(** The same for [pump_incoming]. *)
Definition in_task (u : UserNet) (w : EchoWorld) : option user_label :=
  let net := us_net u in
  match io_in (nt_client net), nt_get net with
  | InStart, _ => Some (UNet (NClient (IoGet any_path)))
  | InSend _, None => Some (UNet NGet)
  | InSend _, Some dn =>
      match response_to (dn_rid dn) (nt_server net) with Some _ => Some (UNet NHead) | None => None end
  | InBody, Some dn =>
      match dn_buf dn, dn_eof dn with
      | _ :: _, _ => Some (UNet (NFrame (length (dn_buf dn))))
      | [], true => Some (UNet (NEnd false))
      | [], false =>
          resp ← response_to (dn_rid dn) (nt_server net);
          stid ← body_stream resp;
          st ← sys_streams (nt_server net) !! stid;
          body_task st (echo_of (st_actor st) w)
      end
  | InTx _, _ =>
      if en_fed (us_ends u) then
        if resp_flushed (en_resp (us_ends u)) then Some (UNet (NClient (IoSent true))) else None
      else if resp_flushed (en_resp (us_ends u)) then Some UFeed else None
  | _, _ => None
  end.

(** The tasks of the server, among them those of the requests [rids]. *)
Definition server_task (rids : list nat) (s : Sys) : option label :=
  head (omap (λ rid, sys_requests s !! rid ≫= request_task rid) rids ++
        omap (λ p, actor_task p.1 p.2) (map_to_list (sys_actors s)) ++
        omap (λ p, timer_task (sys_now s) p.1 p.2) (map_to_list (sys_tasks s))).

Definition client_task (w : EchoWorld) (m : Member) : option user_label :=
  let u := mb_user m in
  if en_aborted (us_ends u) then None else
  let rids := (up_rid <$> option_list (nt_post (us_net u))) ++ (dn_rid <$> option_list (nt_get (us_net u))) in
  match server_task rids (server_of m), out_task u, in_task u w with
  | Some l, _, _ => Some (UNet (NServer l))
  | None, Some l, _ => Some l
  | None, None, l => l
  end.

Definition next_client (w : EchoWorld) : option (nat * user_label) :=
  head (omap (λ p, l ← client_task w p.2; Some (p.1, l)) (map_to_list (ew_crowd w))).

(** Run until all tasks wait; [None] when the fuel does not suffice. *)
Fixpoint settle_down (fuel : nat) (w : EchoWorld) : option EchoWorld :=
  match next_client w with
  | None => Some w
  | Some (i, l) =>
      match fuel with
      | O => None
      | S fuel => w ← act i l w; settle_down fuel w
      end
  end.
Definition MANY : nat := 100.

(** * The operations of a test *)

(** An operation of the user is polled once. *)
Definition poll_op (i : nat) (op : Operation) (w : EchoWorld) : option (OpEvent * EchoWorld) :=
  w ← act i (UBegin op) w;
  m ← ew_crowd w !! i;
  w ← match en_op (us_ends (mb_user m)) with Some _ => act i UEnd w | None => Some w end;
  m ← ew_crowd w !! i;
  e ← last (en_log (us_ends (mb_user m)));
  Some (e, w).

Definition waits (e : OpEvent) : bool :=
  match e with
  | DidRead _ (Returns Pending) | DidWrite _ (Returns Pending) => true
  | DidFlush (Returns Pending) | DidShutdown (Returns Pending) => true
  | _ => false
  end.

(** [op.await]: the other tasks run while the operation waits. *)
Fixpoint await (fuel i : nat) (op : Operation) (w : EchoWorld) : option (OpEvent * EchoWorld) :=
  match fuel with
  | O => None
  | S fuel =>
      '(e, w) ← poll_op i op w;
      if waits e then w ← settle_down MANY w; await fuel i op w else Some (e, w)
  end.

(** [client.write_all(data).await.expect(..)] *)
Fixpoint write_all (fuel i : nat) (data : bytes) (w : EchoWorld) : option EchoWorld :=
  match fuel, data with
  | _, [] => Some w
  | O, _ => None
  | S fuel, _ =>
      '(e, w) ← await 2 i (OpWrite data) w;
      match e with
      | DidWrite _ (Returns (Ready (Ok (S n)))) => write_all fuel i (skipn (S n) data) w
      | _ => None
      end
  end.

(** [client.read(&mut buffer).await.expect(..)]: [&buffer[..n]]. *)
Definition read (i room : nat) (w : EchoWorld) : option (bytes * EchoWorld) :=
  '(e, w) ← await 2 i (OpRead room) w;
  match e with DidRead _ (Returns (Ready (Ok d))) => Some (d, w) | _ => None end.

(** [drop(client)] *)
Definition drop_client (i : nat) (w : EchoWorld) : option EchoWorld := act i UDrop w.

(** [AbortHandle::is_finished] of the background task. *)
Definition is_finished (i : nat) (w : EchoWorld) : option bool :=
  m ← ew_crowd w !! i;
  Some (en_aborted (us_ends (mb_user m)) ||
        match io_result (nt_client (us_net (mb_user m))) with Ready _ => true | Pending => false end).

(** * The tests *)

Definition echo_addr : SocketAddr := mkSocketAddr (V4 2130706433) 7.
Definition example_df_config : DomainFronting :=
  new (mkUri "example.com" None (Some "example.com"%string) None) "api.example.com".

(** Clients with the given session identifiers, connected to one server. *)
Definition connect_clients (sids : list Uuid) : EchoWorld :=
  mkEcho (crowd_init (echo_config echo_addr) ((λ sid, (example_df_config, sid)) <$> sids)) ∅.

Definition from_client (s : string) : bytes := String.list_byte_of_string s.

Definition test_client_server_bidirectional : bool :=
  match (w ← write_all 2 0 (from_client "Hello from client") (connect_clients [7%N]);
         '(d1, w) ← read 0 1024 w;
         w ← write_all 2 0 (from_client "Second message") w;
         '(d2, _) ← read 0 1024 w;
         Some (d1, d2)) with
  | Some (d1, d2) =>
      bool_decide (d1 = from_client "Hello from client") && bool_decide (d2 = from_client "Second message")
  | None => false
  end.

Definition test_multiple_sessions : bool :=
  match (w ← write_all 2 0 (from_client "from_client1") (connect_clients [7%N; 8%N]);
         w ← write_all 2 1 (from_client "from_client2") w;
         '(d1, w) ← read 0 1024 w;
         '(d2, _) ← read 1 1024 w;
         Some (d1, d2)) with
  | Some (d1, d2) =>
      bool_decide (d1 = from_client "from_client1") && bool_decide (d2 = from_client "from_client2")
  | None => false
  end.

Definition test_connection_task_stopped_on_drop : bool :=
  match (before ← is_finished 0 (connect_clients [7%N]);
         w ← drop_client 0 (connect_clients [7%N]);
         w ← settle_down MANY w;
         after ← is_finished 0 w;
         Some (before, after)) with
  | Some (before, after) => negb before && after
  | None => false
  end.

(** The loop of the test: [while received.len() < large_data.len()]. *)
Fixpoint receive (fuel n i : nat) (received : bytes) (w : EchoWorld) : option (bytes * EchoWorld) :=
  match fuel with
  | O => None
  | S fuel =>
      if (length received <? n)%nat then
        '(d, w) ← read i ECHO_BUF w;
        match d with [] => Some (received, w) | _ => receive fuel n i (received ++ d) w end
      else Some (received, w)
  end.
Definition test_large_data_transfer (large_data : bytes) : bool :=
  match (w ← write_all 2 0 large_data (connect_clients [7%N]);
         receive (S (length large_data)) (length large_data) 0 [] w) with
  | Some (received, _) => bool_decide (received = large_data)
  | None => false
  end.

(** * The tests pass *)

(** The scheduler only takes steps of [Crowd]. *)
Definition leads (w w' : EchoWorld) : Prop :=
  ∃ ls, run crowd_step (ew_crowd w) ls = Some (ew_crowd w').

Lemma leads_refl w : leads w w.
Proof. by exists []. Qed.

Lemma leads_trans w1 w2 w3 : leads w1 w2 → leads w2 w3 → leads w1 w3.
Proof. intros [ls H1] [ks H2]. exists (ls ++ ks). by rewrite run_app, H1. Qed.

Lemma act_leads i l w w' : act i l w = Some w' → leads w w'.
Proof.
  unfold act. intros Ha. apply bind_Some in Ha as (m & _ & Ha). apply bind_Some in Ha as (c & Hc & [= <-]).
  exists [(i, l)]. by eapply run_cons.
Qed.

#[local] Hint Resolve leads_refl act_leads : core.

Lemma settle_leads fuel w w' : settle_down fuel w = Some w' → leads w w'.
Proof.
  revert w. induction fuel as [|fuel IH]; intros w Hs; simpl in Hs.
  - destruct (next_client w) as [[i l]|]; by simplify_eq.
  - destruct (next_client w) as [[i l]|]; [|by simplify_eq].
    apply bind_Some in Hs as (w1 & H1 & H2). eauto using leads_trans.
Qed.

Lemma poll_leads i op w e w' : poll_op i op w = Some (e, w') → leads w w'.
Proof.
  unfold poll_op. intros Hp. apply bind_Some in Hp as (w1 & H1 & Hp). apply bind_Some in Hp as (m & _ & Hp).
  apply bind_Some in Hp as (w2 & H2 & Hp). apply bind_Some in Hp as (m' & _ & Hp).
  apply bind_Some in Hp as (e' & _ & [= _ <-]).
  apply (leads_trans _ w1); [by eapply act_leads|]. destruct (en_op _); simplify_eq; eauto.
Qed.

Lemma await_leads fuel i op w e w' : await fuel i op w = Some (e, w') → leads w w'.
Proof.
  revert w. induction fuel as [|fuel IH]; intros w Hs; [done|]. cbn [await] in Hs.
  apply bind_Some in Hs as ([e1 w1] & H1%poll_leads & Hs). destruct (waits e1); [|by simplify_eq].
  apply bind_Some in Hs as (w2 & H2%settle_leads & H3). eauto using leads_trans.
Qed.

(** So do the operations of the tests, with whatever runs while they wait. *)
Lemma read_leads i room w d w' : read i room w = Some (d, w') → leads w w'.
Proof.
  unfold read. intros Hr. apply bind_Some in Hr as ([e w1] & H1%await_leads & Hr).
  destruct e as [? [[|[]]|]| | |]; by simplify_eq.
Qed.

Lemma write_leads fuel i data w w' : write_all fuel i data w = Some w' → leads w w'.
Proof.
  revert data w. induction fuel as [|fuel IH]; intros [|b data] w Hs; cbn [write_all] in Hs; simplify_eq; eauto.
  apply bind_Some in Hs as ([e w1] & H1%await_leads & Hs).
  destruct e as [|? [[|[[|n]|]]|]| |]; simplify_eq. eauto using leads_trans.
Qed.

Lemma receive_leads fuel n i got w got' w' : receive fuel n i got w = Some (got', w') → leads w w'.
Proof.
  revert got w. induction fuel as [|fuel IH]; intros got w Hs; cbn [receive] in Hs; [done|].
  destruct (_ <? _)%nat; [|by simplify_eq].
  apply bind_Some in Hs as ([d w1] & H1%read_leads & Hs). destruct d; simplify_eq; eauto using leads_trans.
Qed.

(** The tests of [client.rs] pass in the model: a message that is written comes back from the
    echo server, and so does a second one; two clients of one server each get their own message
    back; the background task is running, and is finished after its connection was dropped; and
    100 KB come back as they were sent. (The deadline of that test is not checked: no time
    passes in these runs.) *)
Theorem client_tests_pass :
  test_client_server_bidirectional = true ∧ test_multiple_sessions = true ∧
  test_connection_task_stopped_on_drop = true ∧
  test_large_data_transfer (repeat Byte.x42 (N.to_nat 100000)) = true.
Proof. split; [by_vm|]. split; [by_vm|]. split; by_vm. Qed.
